(* ===== verification/_CoqProject ===== *)
-Q . S2P
Prelude.v
Hashing.v
Floats.v
Names.v
Net.v
Text.v
Urls.v
Catalog.v
Der.v
Config.v
Dns.v
Errors.v
Util.v
Proxy.v
Network.v
Message.v
EdnsOptions.v
TtlPolicy.v
DnssecPolicy.v
CorroboratePolicy.v
Prefixes.v
CloudflarePolicy.v
SpecialUse.v
Sampler.v
Quality.v
Ranking.v
AnswerPolicy.v
Evidence.v
Candidates.v
Cache.v
Datasets.v
HotSet.v
Prefetch.v
Probing.v
SingleFlight.v
RateLimit.v
ProbeGuard.v
Health.v
Scheduler.v
Resolver.v
ResolverResponse.v
ResolverFetch.v
Handler.v
Validate.v
Endpoints.v
Registry.v
Reload.v
Runtime.v
Augment.v
Server.v
ProbeHttp.v
Engine.v
Seeds.v
CloudflareTasks.v
Addresses.v
Storage.v
Monitor.v
Maintenance.v
Admin.v
Detect.v
