(* ===== verification/Prelude.v ===== *)
(** * EgressDNS: a verification development

    EgressDNS is a forwarding DNS resolver that measures the addresses it hands
    out.  This library models the resolver and the components it is made of as
    executable functions translated from [src/src/], and proves what each of them
    promises.  Paths below are relative to [src/src/].

    ** The program

    A datagram or a message of a TCP connection is admitted and parsed by the listeners
    ([dns/server.rs]).  A client query is then checked, answered from static local data or
    the special-use registry when it can be, then from the cache, and otherwise resolved by
    an upstream route ([dns/resolver.rs]).  Callers that miss on the same key share one
    flight ([cache/singleflight.rs]); the flight asks the scheduler
    ([upstream/scheduler.rs]), which ranks the routes of a group by their health
    ([upstream/health.rs]), hedges, and fans out in an emergency.  What comes back is
    validated, corroborated, bounded and stored ([cache/mod.rs]); what a client is sent is
    assembled from the entry, with the answer policy ([policy/]) ordering the addresses by
    measured quality ([ranking/]) and, for Cloudflare names, prepending addresses that have
    been verified ([cloudflare/]).  Background tasks watch the network ([tasks/network.rs]),
    refresh hot names ([tasks/prefetch.rs]), keep the official prefixes and the candidates
    current ([tasks/cloudflare.rs]) and probe addresses under a guard ([probe/]).  All of it
    runs on a validated configuration ([config/validate.rs]), whose upstream entries are
    expanded from providers, profiles and the gateway ([config/endpoint.rs],
    [config/auto.rs]), looked up ([upstream/bootstrap.rs]) and turned into routes
    ([upstream/pool.rs]), direct or through a proxy ([upstream/egress.rs]); a running
    process takes a new file only within the reload contract ([config/reload.rs],
    [runtime/mod.rs]).

    ** The files

    Foundations.  [Prelude]: machine integers, time, results, stable sorting and shared list
    lemmas.  [Hashing]: unordered iteration of hash maps, removal of the least entries.
    [Floats]: IEEE doubles and singles on [SpecFloat].  [Names]: strings and domain-name
    suffixes.  [Net]: addresses, networks, [util/ipclass.rs] ([Net.IpClass]) and
    [dns/acl.rs] ([Net.Acl]).  [Text]: the standard library's trimming, splitting, number
    and address grammars, and the printing of addresses.  [Addresses]: printed addresses
    read back.  [Der]: [util/der.rs].  [Util]: [util/mod.rs], [util/backoff.rs] and
    [dns/deadline.rs].  [Errors]: [error.rs].  [Config]: the sections of [config/mod.rs]
    with their defaults.  [Urls]: the parts of a URL, with the url crate as a class.
    [Catalog]: [config/builtins.rs].  [Dns]: the message types of the DNS library the
    program reads.

    Messages and policies.  [Message] and [EdnsOptions]: [dns/message.rs].
    [TtlPolicy], [DnssecPolicy] (with [dns/proofwatch.rs]), [CorroboratePolicy],
    [CloudflarePolicy], [AnswerPolicy]: the files of [policy/].  [SpecialUse]:
    [dns/specialuse.rs].  [Quality] and [Ranking]: [ranking/model.rs] and
    [ranking/mod.rs].

    Upstreams and configuration.  [Proxy]: [config/proxy.rs] and the handshakes of
    [upstream/egress.rs].  [Validate]: [config/validate.rs], connected with the
    resolver it configures.  [Endpoints]: [config/endpoint.rs], [config/auto.rs],
    [config/autoprobe.rs] and the expansion in [bin/egressdnsd.rs].  [Registry]:
    [upstream/pool.rs] and [upstream/bootstrap.rs].  [Reload]: [config/reload.rs].
    [Runtime]: [runtime/mod.rs], the loading and redaction of a configuration, and the
    start of the daemon.

    State.  [Cache]: [cache/mod.rs].  [SingleFlight]: [cache/singleflight.rs], callers
    interleaved step by step.  [HotSet]: [cache/hotset.rs].  [Datasets]: [datasets/], with
    [Hosts], [Zones] and [Snapshot].  [Prefixes], [Candidates], [Sampler]:
    [cloudflare/prefixes.rs], [cloudflare/candidates.rs] with [cloudflare/state.rs], and
    [cloudflare/sampler.rs].  [Evidence]: [ranking/store.rs] and [ranking/service.rs].
    [Network] and [Monitor]: [network/mod.rs] and [tasks/network.rs].  [Detect]:
    [network/detect.rs] on Linux.  [Prefetch]: [tasks/prefetch.rs].  [Probing] and
    [ProbeGuard]: [probe/gate.rs], [probe/job.rs], and [probe/safety.rs].  [ProbeHttp]:
    [probe/http.rs] and the certificate capture of [tls.rs].  [Engine]: [probe/engine.rs],
    its loop and its workers interleaved step by step.  [Seeds]: [cloudflare/seeds.rs] and
    [probe/fetch.rs].  [CloudflareTasks]: the rounds of [tasks/cloudflare.rs] and the
    interleaving of their accesses.  [Storage]: [storage/], with the flush of
    [tasks/maintenance.rs] and the restore of [runtime/mod.rs].  [Maintenance]: the
    supervisor of [tasks/mod.rs] and the publication of local data.  [Admin]: the commands
    of [admin/mod.rs] and [admin/server.rs].  [RateLimit]: [dns/ratelimit.rs].  [Health] and
    [Scheduler]: [upstream/health.rs] and [upstream/scheduler.rs].

    The resolver.  [Resolver]: the pieces of [dns/resolver.rs];
    [ResolverResponse] and [ResolverFetch] prove what leaves and what enters the
    cache; [Handler] composes one query from the request to the answer.  [Augment]: the
    answer policy run on the candidate state of [Candidates].  [Server]: the listeners
    of [dns/server.rs], with their tasks, connections and permits interleaved.

    A structure of the source is a [Record] with its fields, an enumeration an
    [Inductive] with its variants, a method a function from the state to the new
    state and the result.  An operation that locks and unlocks is one transition;
    where a lock is released in between, there is a step for each part.  Whatever is
    awaited (an upstream's reply, a permit, the clock, which pending attempt ends
    next) is an input, so the theorems hold for every timing.

    ** What is shown

    - Responses ([ResolverResponse], [Handler], [Augment]): a response carries the
      question, identifier and flags of its request; it serves the records of the
      cache entry, aged and capped; a query that is dispatched is always answered,
      with an OPT exactly when it came with one; an answer that was fetched is stored
      and served; a failure is answered from memory without another upstream query; a
      served address is in the stored answer or is an official Cloudflare address that
      was verified for the name often enough on the present network.
    - The wire ([Server]): a datagram gets at most one datagram, a reply to it; what is
      written to a connection answers a query of that connection; permits never leak
      and the configured limits hold under every interleaving, those on connections for
      each listener by itself; frames are read back as they were written.
    - What enters the cache ([ResolverFetch]): strict mode stores only checked
      answers; a negative answer that was not proved needs a second source; a verdict
      of the background validation touches only the entry it was computed for.
    - Resolution ([Scheduler], [Health], [SingleFlight]): a resolution ends within a
      bounded number of attempts and gives up only when every route was tried; an open
      breaker lets a probe through again and its slots never leak; at most one flight
      per key, whose followers are always released, however the leader ends.
    - Local data and configuration ([Datasets], [Validate]): the zone with the longest apex
      answers with the records its lines stand for, the longest suffix routes a name; a
      validated tree gives routes that exist, answers that fit the announced payload, and no
      listener open to everyone without an access list.
    - Upstreams ([Endpoints], [Registry], [Proxy]): the servers a list of entries expands to
      validate exactly when each is admissible, the budget allows the default timeout and
      the TLS section is sound; the registry has exactly the routes the configuration
      describes, each well-formed; a lookup fills addresses and nothing else, so an
      encrypted route checks the name configured for its own server whatever was answered;
      after the cycle check no configured address gives a route to our own listeners, while
      addresses that are looked up later are not checked; the gateway is never an
      independent authority; a tunnel opens exactly on a complete acceptance by the proxy.
    - The process ([Reload], [Runtime]): from the start on and through any reloads the
      process runs on one configuration that was validated, before or with the upstreams the
      start gave it, and what was read once at start is what that configuration says, but
      for the TCP connection limits and the probe threshold; a refused reload changes
      nothing; the process is ready exactly when it has somewhere to ask; redaction hides
      credentials.
    - Learned state ([Evidence], [Candidates], [Monitor], [Prefetch], [Probing],
      [ProbeGuard], [Sampler]): series do not affect each other and the least measured
      ones are evicted; the pools are bounded and hold official addresses only; only a
      change that stayed for the debounce time starts a new network generation, and
      such a change does; prefetching keeps to its rate and concurrency; offers and
      probes are spaced by their cooldowns.
    - Probing ([ProbeHttp], [Engine]): what a probe keeps of a response is bounded;
      the workers keep to their ceiling; every address that was dialled is one that may
      be; the validations on record are probes that were served for that host; a
      degraded subsystem blames no address.
    - The Cloudflare tasks ([Seeds], [CloudflareTasks]): a fetch is capped, a seed list
      yields well-formed entries up to its limit and reads back what was written; a
      refresh of the official prefixes happens whole or not at all, as the answer of the
      API decides; however the tasks interleave and whatever the sources send, the
      prefixes in force stay trusted and every candidate lies inside some that are or were
      in force; a round of a task proposes and queues, and validates nothing.
    - What outlives the process ([Storage], [Maintenance]): batches are taken in the
      order they were offered, those the queue refused are counted, and one that fails is
      undone unless it is a prune; pruning bounds the tables and loses the oldest rows;
      measurements survive a restart; the daemon starts whatever state the database is in;
      a panic does not end a background task and restarts are spaced out; local data is
      always the result of one build, from the files it could read.
    - Administration ([Admin]): whatever an operator sends, nothing becomes validated, the
      mode is never stronger than the configured one and the queue keeps to its capacity;
      a refused command changes nothing, and a flushed name is gone from every store.
    - Detection ([Detect]): from the route tables as the kernel prints them the cheapest
      default route is read, and the order in which interfaces are listed never looks like
      a change of network.
    - Text and octets ([Addresses], [Der], [Text], [Names], [Prefixes]): what the certificate
      walker reads back from an encoded certificate, the suffix tests against label
      lists, the printed and parsed forms of prefixes.

    Some theorems state behaviour that differs from a comment, such as
    [Evidence.first_observation_keeps_the_old_network] or
    [Probing.full_gate_keeps_a_quarter]; they are about the code as written.

    ** Parameters, bounds and fuel

    Code of other crates is a class with the operations the program calls and a class
    of the laws it relies on: [NameLib] (domain names), [IpNetLib] (networks), [MokaLib]
    (the cache stores), [OptLib] (the options of an OPT record), [UrlLib] (URLs),
    [TomlLib] (the configuration syntax), [Sqlite] (the order of rows; which statements
    succeed is an input), the token buckets of [RateLimit], the wire encoder, [powf],
    SHA-256, and the iteration order of a hash map ([HashOrder]).  Each has a concrete instance that satisfies its laws, and the
    witnesses evaluate on those.

    Loops over data are structural.  The resolve loop of [Scheduler] is a step
    function with a proved bound on the number of steps of any run; the strict-mode
    validation of [Resolver] makes the at most two calls of the source.  The
    certificate walker descends at most [MAX_DEPTH] levels as the source does, and
    scans with the length of the input as fuel, which is enough since every element
    takes at least one octet ([Der.scan_names_enough]); numbers are printed with as
    much fuel as their width has digits.  Integers are [Z] with the saturation or
    wrapping of each operation written out; instants and durations are nanoseconds.

    ** What is not modelled

    Sockets, TLS, HTTP and QUIC exchanges and the tasks that drive them
    ([dns/query.rs], the binding of sockets in [dns/server.rs], the connections of
    [upstream/pool.rs], the transports of a probe and [probe/quic.rs], the
    socket, the client and the printed figures of [admin/], the system calls of
    [network/detect.rs] and its Windows form, the timers of [tasks/]), SQLite behind the
    statements of [storage/], reading files, metrics, logging, the live checks of
    [doctor/], and the command-line programs: they are input and output around the
    modelled decisions. *)

From stdpp Require Export base gmap strings list numbers sorting.

Open Scope Z_scope.

(** ** Machine integers

    The Rust integer types are modelled by [Z]; every operation that can leave
    the type's range is written out with the saturation, clamping or wrapping
    the source asks for. *)

Definition u8_max : Z := 255.
Definition u16_max : Z := 65535.
Definition u32_max : Z := 4294967295.
Definition u64_max : Z := 18446744073709551615.

Definition is_u32 (z : Z) : Prop := 0 <= z <= u32_max.
Definition is_u64 (z : Z) : Prop := 0 <= z <= u64_max.

(** [a.saturating_sub(b)] on an unsigned type. *)
Definition sat_sub (a b : Z) : Z := Z.max 0 (a - b).
(** [a.saturating_add(b)] and [a.saturating_mul(b)] on an unsigned type of
    maximum [m]. *)
Definition sat_add (m a b : Z) : Z := Z.min m (a + b).
Definition sat_mul (m a b : Z) : Z := Z.min m (a * b).
(** [x as u32], [x as u64]: truncation. *)
Definition as_u32 (z : Z) : Z := z mod 2 ^ 32.
Definition as_u64 (z : Z) : Z := z mod 2 ^ 64.
(** [x.clamp(lo, hi)]. *)
Definition clampZ (lo hi x : Z) : Z := if x <? lo then lo else if hi <? x then hi else x.

Declare Scope rust_scope.
Delimit Scope rust_scope with rust.
Notation "a ⊖ b" := (sat_sub a b) (at level 50, left associativity) : rust_scope.
Open Scope rust_scope.

(** ** Time

    [Instant] and [Duration] carry nanoseconds. *)

Abbreviation Instant := Z (only parsing).
Abbreviation Duration := Z (only parsing).

Definition nanos_per_sec : Z := 1000000000.
Definition from_secs (s : Z) : Duration := s * nanos_per_sec.
Definition from_millis (ms : Z) : Duration := ms * 1000000.
(** [Duration::as_secs]. *)
Definition as_secs (d : Duration) : Z := d / nanos_per_sec.
(** [now.saturating_duration_since(t)]. *)
Definition since (now t : Instant) : Duration := now ⊖ t.

Create HintDb egress.

Lemma sat_sub_nonneg a b : 0 <= a ⊖ b.
Proof. unfold sat_sub; lia. Qed.

Lemma sat_sub_le a b : 0 <= a -> 0 <= b -> a ⊖ b <= a.
Proof. unfold sat_sub; lia. Qed.

Lemma sat_sub_pos a b : 0 < a ⊖ b <-> b < a.
Proof. unfold sat_sub; lia. Qed.

Lemma as_u32_range z : is_u32 (as_u32 z).
Proof.
  unfold is_u32, as_u32, u32_max.
  pose proof (Z.mod_pos_bound z (2 ^ 32) ltac:(lia)). lia.
Qed.

Lemma as_u32_small z : is_u32 z -> as_u32 z = z.
Proof. unfold is_u32, as_u32, u32_max. intros. apply Z.mod_small. lia. Qed.

Lemma as_secs_nonneg d : 0 <= d -> 0 <= as_secs d.
Proof. intros. apply Z.div_pos; [lia | done]. Qed.

Lemma as_secs_mono a b : a <= b -> as_secs a <= as_secs b.
Proof. intros. apply Z.div_le_mono; [done | lia]. Qed.

Lemma as_secs_from_secs s : as_secs (from_secs s) = s.
Proof. apply Z.div_mul. done. Qed.

Lemma clampZ_range lo hi x : lo <= hi -> lo <= clampZ lo hi x <= hi.
Proof. unfold clampZ. intros. repeat case_match; lia. Qed.

#[export] Hint Resolve sat_sub_nonneg as_u32_range as_secs_nonneg : egress.

(** ** Results

    Fallible Rust code returns [result E A]. *)

Inductive result (E A : Type) : Type :=
| Ok (a : A)
| Err (e : E).
Arguments Ok {E A} a.
Arguments Err {E A} e.

(** ** Stable sorting

    Rust's [sort_by] and [sort_by_key] are stable merge sorts; all that a
    client can observe of one is that it is the stable sort for its comparison,
    which insertion sort computes. *)

Section stable_sort.
Context {A : Type} (leb : A -> A -> bool).

Fixpoint insert_sorted (x : A) (l : list A) : list A :=
  match l with
  | [] => [x]
  | y :: l' => if leb x y then x :: y :: l' else y :: insert_sorted x l'
  end.

Fixpoint stable_sort (l : list A) : list A :=
  match l with
  | [] => []
  | x :: l' => insert_sorted x (stable_sort l')
  end.

Lemma insert_sorted_perm x l : insert_sorted x l ≡ₚ x :: l.
Proof.
  induction l as [|y l IH]; simpl; [done|].
  case_match; [done|]. rewrite IH. constructor.
Qed.

Lemma stable_sort_perm l : stable_sort l ≡ₚ l.
Proof.
  induction l as [|x l IH]; simpl; [done|].
  by rewrite insert_sorted_perm, IH.
Qed.

Lemma stable_sort_length l : length (stable_sort l) = length l.
Proof. apply Permutation_length, stable_sort_perm. Qed.

Lemma stable_sort_elem_of x l : x ∈ stable_sort l <-> x ∈ l.
Proof. by rewrite stable_sort_perm. Qed.

Definition le_of (x y : A) : Prop := leb x y = true.

Context (leb_total : ∀ x y, leb x y = true ∨ leb y x = true).
Context (leb_trans : ∀ x y z, leb x y = true -> leb y z = true -> leb x z = true).

Lemma insert_sorted_sorted x l :
  StronglySorted le_of l -> StronglySorted le_of (insert_sorted x l).
Proof.
  induction 1 as [|y l Hl IH Hall]; simpl.
  { constructor; constructor. }
  destruct (leb x y) eqn:E.
  - constructor; [by constructor|]. constructor; [done|].
    eapply Forall_impl; [exact Hall|]. intros z Hz. by eapply leb_trans.
  - constructor; [done|].
    apply Forall_forall. intros z.
    rewrite insert_sorted_perm, elem_of_cons. intros [->|Hz].
    + destruct (leb_total x y); [congruence|done].
    + rewrite Forall_forall in Hall. by apply Hall.
Qed.

Lemma stable_sort_sorted l : StronglySorted le_of (stable_sort l).
Proof.
  induction l as [|x l IH]; simpl; [constructor|].
  by apply insert_sorted_sorted.
Qed.

(** A list that is already in order is left alone: equal elements keep their
    order, which is what stability means for a client that sorts twice. *)
Lemma stable_sort_id l : StronglySorted le_of l -> stable_sort l = l.
Proof.
  induction 1 as [|x l Hl IH Hall]; simpl; [done|].
  rewrite IH. destruct l as [|y l]; simpl; [done|].
  by rewrite (Forall_inv Hall).
Qed.

(** The head of the sorted list is a minimum. *)
Lemma stable_sort_head x l xs :
  stable_sort l = x :: xs -> ∀ y, y ∈ l -> leb x y = true.
Proof.
  intros Heq y Hy. pose proof (stable_sort_sorted l) as Hs. rewrite Heq in Hs.
  apply (stable_sort_elem_of y) in Hy. rewrite Heq in Hy.
  apply StronglySorted_inv in Hs as [_ Hall].
  apply elem_of_cons in Hy as [->|Hy].
  - destruct (leb_total x x); done.
  - rewrite Forall_forall in Hall. by apply Hall.
Qed.
End stable_sort.

(** An element above all the others that comes last stays last. *)
Lemma stable_sort_last {A} (leb : A -> A -> bool) l x :
  (∀ y, y ∈ l -> leb y x = true) -> stable_sort leb (l ++ [x]) = stable_sort leb l ++ [x].
Proof.
  assert (∀ y m, leb y x = true ->
    insert_sorted leb y (m ++ [x]) = insert_sorted leb y m ++ [x]) as Hins.
  { intros y m Hy. induction m as [|z m IH]; simpl; [by rewrite Hy|].
    case_match; [done|]. by rewrite IH. }
  induction l as [|y l IH]; intros Hall; [done|]. simpl.
  rewrite IH, Hins; [done|apply Hall|intros z Hz; apply Hall]; set_solver.
Qed.

Lemma StronglySorted_impl {A} (R S : A -> A -> Prop) l :
  (∀ x y, R x y -> S x y) -> StronglySorted R l -> StronglySorted S l.
Proof.
  intros HRS. induction 1 as [|x l _ IH Hx]; constructor; [done|].
  eapply Forall_impl; [exact Hx|]. auto.
Qed.

(** Two permutations sorted for an antisymmetric order are equal. *)
Lemma sorted_perm_unique {A} (leb : A -> A -> bool) (l1 l2 : list A) :
  (∀ x y, x ∈ l1 -> y ∈ l1 -> leb x y = true -> leb y x = true -> x = y) ->
  StronglySorted (le_of leb) l1 -> StronglySorted (le_of leb) l2 ->
  l1 ≡ₚ l2 -> l1 = l2.
Proof.
  intros Hanti H1. revert l2 Hanti.
  induction H1 as [|x l1 H1 IH Hx]; intros l2 Hanti H2 Hp.
  { by apply Permutation_nil_l in Hp. }
  destruct H2 as [|y l2 H2 Hy]; [by apply Permutation_nil_r in Hp|].
  assert (x = y) as <-.
  { assert (x ∈ y :: l2) as Hxin by (rewrite <- Hp; left).
    assert (y ∈ x :: l1) as Hyin by (rewrite Hp; left).
    apply elem_of_cons in Hxin as [->|Hxin]; [done|].
    apply elem_of_cons in Hyin as [->|Hyin]; [done|].
    rewrite Forall_forall in Hx. rewrite Forall_forall in Hy.
    apply Hanti; [by left|by right|by apply Hx|by apply Hy]. }
  f_equal. apply IH; [|done|by eapply Permutation_cons_inv].
  intros a b Ha Hb. apply Hanti; by right.
Qed.

(** ** Small list lemmas *)

(** [Vec::dedup]: drop the later of two consecutive equal elements. *)
Fixpoint dedup {A} `{EqDecision A} (l : list A) : list A :=
  match l with
  | [] => []
  | x :: l' =>
      match l' with
      | y :: _ => if decide (x = y) then dedup l' else x :: dedup l'
      | [] => [x]
      end
  end.

Lemma dedup_elem_of {A} `{EqDecision A} (l : list A) x : x ∈ dedup l <-> x ∈ l.
Proof.
  induction l as [|y l IH]; [done|]. destruct l as [|z l]; [done|].
  change (dedup (y :: z :: l)) with
    (if decide (y = z) then dedup (z :: l) else y :: dedup (z :: l)).
  case_decide as E; [subst|]; rewrite ?elem_of_cons, IH, ?elem_of_cons; tauto.
Qed.

(** [iter().position(p)]. *)
Fixpoint position {A} (p : A -> bool) (l : list A) : option nat :=
  match l with
  | [] => None
  | x :: l' => if p x then Some 0%nat else S <$> position p l'
  end.

Lemma position_Some {A} (p : A -> bool) l i :
  position p l = Some i -> ∃ x, l !! i = Some x ∧ p x = true.
Proof.
  revert i. induction l as [|y l IH]; intros i; simpl; [done|].
  destruct (p y) eqn:E.
  - intros [= <-]. eauto.
  - intros (j & Hj & ->)%fmap_Some. simpl. eauto.
Qed.

(** [iter().find(p)]. *)
Definition find_first {A} (p : A -> bool) (l : list A) : option A := List.find p l.

Lemma find_first_Some {A} (p : A -> bool) l x :
  find_first p l = Some x -> x ∈ l ∧ p x = true.
Proof.
  unfold find_first. intros [Hin Hp]%find_some. split; [|done].
  by apply list_elem_of_In.
Qed.

(** The first match of a sorted list is a least one. *)
Lemma find_first_sorted {A} (R : A -> A -> Prop) (p : A -> bool) l x :
  Reflexive R -> StronglySorted R l -> find_first p l = Some x -> ∀ y, y ∈ l -> p y = true -> R x y.
Proof.
  intros Hrefl Hs. unfold find_first. induction Hs as [|z l Hs IH Hall]; cbn; [done|].
  intros Hx y Hy Hp. apply elem_of_cons in Hy. destruct (p z) eqn:Ez.
  - injection Hx as <-. destruct Hy as [->|Hy]; [done|]. rewrite Forall_forall in Hall. by apply Hall.
  - destruct Hy as [->|Hy]; [congruence|]. by apply IH.
Qed.

Lemma find_first_none {A} (p : A -> bool) l :
  find_first p l = None -> ∀ y, y ∈ l -> p y = false.
Proof.
  unfold find_first. intros H y Hy. apply (List.find_none p l H). by apply list_elem_of_In.
Qed.

(** [iter().any(p)] and [iter().all(p)] are Stdlib's [existsb] and [forallb]. *)
Lemma existsb_elem {A} (p : A -> bool) l :
  existsb p l = true <-> ∃ x, x ∈ l ∧ p x = true.
Proof.
  rewrite existsb_exists. split; intros (x & Hx & Hp); exists x; split; try done.
  - by apply list_elem_of_In.
  - by apply list_elem_of_In.
Qed.

Lemma forallb_elem {A} (p : A -> bool) l :
  forallb p l = true <-> ∀ x, x ∈ l -> p x = true.
Proof.
  rewrite forallb_forall. split; intros H x Hx; apply H; by apply list_elem_of_In.
Qed.

(** ** Tactics *)

(** Case split on every [if] and [match] of the goal. *)
Ltac branches := repeat case_match; simplify_eq/=.

(** Case split on the conditions of a hypothesis that equates a result. *)
Ltac branches_in H := repeat (case_match; simplify_eq/=); try discriminate H.

Ltac bool_to_prop :=
  repeat match goal with
  | H : andb _ _ = true |- _ => apply andb_true_iff in H as [? ?]
  | H : orb _ _ = false |- _ => apply orb_false_iff in H as [? ?]
  | H : negb _ = true |- _ => apply negb_true_iff in H
  | H : negb _ = false |- _ => apply negb_false_iff in H
  | H : Z.ltb _ _ = true |- _ => apply Z.ltb_lt in H
  | H : Z.ltb _ _ = false |- _ => apply Z.ltb_ge in H
  | H : Z.leb _ _ = true |- _ => apply Z.leb_le in H
  | H : Z.leb _ _ = false |- _ => apply Z.leb_gt in H
  | H : Z.eqb _ _ = true |- _ => apply Z.eqb_eq in H
  | H : Z.eqb _ _ = false |- _ => apply Z.eqb_neq in H
  | H : bool_decide _ = true |- _ => apply bool_decide_eq_true in H
  | H : bool_decide _ = false |- _ => apply bool_decide_eq_false in H
  end.
