(* ===== verification/Hashing.v ===== *)
(** * Iterating and trimming hash maps

    A [HashMap] is enumerated in an order of its own, which nothing may depend on:
    [HashOrder] is any enumeration of its entries.  Several bounded tables of the
    program make room by sorting the entries and removing the least ones;
    [drop_least] is that step.  [count_of] is how many entries have a property. *)

From S2P Require Import Prelude.

Class HashOrder (K : Type) `{Countable K} : Type := {
  hash_iter : ∀ {A}, gmap K A -> list (K * A);
  hash_iter_perm A (m : gmap K A) : hash_iter m ≡ₚ map_to_list m
}.

Section trim.
Context {K A : Type} `{HO : HashOrder K}.

Lemma hash_iter_elem (m : gmap K A) k v : (k, v) ∈ hash_iter m <-> m !! k = Some v.
Proof. by rewrite hash_iter_perm, elem_of_map_to_list. Qed.

Lemma hash_iter_length (m : gmap K A) : length (hash_iter m) = size m.
Proof. by rewrite hash_iter_perm, length_map_to_list. Qed.

Lemma delete_all_subseteq (l : list (K * A)) (m : gmap K A) :
  foldr (λ e m, delete e.1 m) m l ⊆ m.
Proof.
  induction l as [|e l IH]; cbn [foldr]; [done|].
  etransitivity; [apply delete_subseteq|exact IH].
Qed.

Lemma delete_all_lookup (l : list (K * A)) (m : gmap K A) k :
  foldr (λ e m, delete e.1 m) m l !! k = if bool_decide (k ∈ l.*1) then None else m !! k.
Proof.
  induction l as [|e l IH]; cbn [foldr fmap list_fmap]; [done|].
  destruct (decide (k = e.1)) as [->|Hne].
  - rewrite lookup_delete_eq, bool_decide_true; [done|left].
  - rewrite lookup_delete_ne by done. rewrite IH.
    assert (k ∈ l.*1 <-> k ∈ e.1 :: l.*1) as Hiff by (rewrite elem_of_cons; naive_solver).
    by rewrite (bool_decide_ext _ _ Hiff).
Qed.

Lemma delete_all_size (l : list (K * A)) (m : gmap K A) :
  NoDup l.*1 -> (∀ e, e ∈ l -> m !! e.1 = Some e.2) ->
  size (foldr (λ e m, delete e.1 m) m l) = (size m - length l)%nat.
Proof.
  induction l as [|e l IH]; cbn [foldr length fmap list_fmap]; [lia|].
  intros [Hni Hnd]%NoDup_cons Hin. rewrite map_size_delete, IH by (done || intros e0 He0; apply Hin; by right).
  rewrite delete_all_lookup, bool_decide_false, (Hin e) by (done || left). lia.
Qed.

Definition drop_least (leb : A -> A -> bool) (n : nat) (m : gmap K A) : gmap K A :=
  foldr (λ e m, delete e.1 m) m (take n (stable_sort (λ a b, leb a.2 b.2) (hash_iter m))).

Lemma drop_least_subseteq leb n m : drop_least leb n m ⊆ m.
Proof. apply delete_all_subseteq. Qed.

Lemma drop_least_size leb n m : size (drop_least leb n m) = (size m - n)%nat.
Proof.
  set (items := stable_sort (λ a b : K * A, leb a.2 b.2) (hash_iter m)).
  assert (items ≡ₚ map_to_list m) as Hp by (unfold items; by rewrite stable_sort_perm, hash_iter_perm).
  unfold drop_least. fold items. rewrite delete_all_size.
  - rewrite length_take, Hp, length_map_to_list. lia.
  - rewrite fmap_take. eapply sublist_NoDup; [|apply sublist_take].
    rewrite Hp. apply NoDup_fst_map_to_list.
  - intros [k v] He. apply elem_of_take in He as (i & He & _).
    apply list_elem_of_lookup_2 in He. by rewrite Hp, elem_of_map_to_list in He.
Qed.

(** What is removed is below everything that stays. *)
Lemma drop_least_lowest leb n m k v k' v'
    (Htotal : ∀ x y, leb x y = true ∨ leb y x = true)
    (Htrans : ∀ x y z, leb x y = true -> leb y z = true -> leb x z = true) :
  m !! k = Some v -> drop_least leb n m !! k = None ->
  drop_least leb n m !! k' = Some v' -> leb v v' = true.
Proof.
  set (items := stable_sort (λ a b : K * A, leb a.2 b.2) (hash_iter m)).
  unfold drop_least. fold items. intros Hk Hgone Hk'. rewrite delete_all_lookup in Hgone, Hk'.
  destruct (bool_decide_reflect (k ∈ (take n items).*1)) as [Hin|_]; [|by rewrite Hk in Hgone].
  destruct (bool_decide_reflect (k' ∈ (take n items).*1)) as [|Hin']; [done|].
  assert (∀ e, e ∈ items <-> m !! e.1 = Some e.2) as Hitems.
  { intros [a b]. unfold items. by rewrite stable_sort_elem_of, hash_iter_elem. }
  apply list_elem_of_fmap in Hin as ([k1 v1] & -> & Hin). cbn in Hk.
  assert ((k1, v1) ∈ items) as H1%Hitems.
  { rewrite <- (take_drop n items). apply elem_of_app. by left. }
  cbn in H1. rewrite H1 in Hk. injection Hk as ->.
  assert ((k', v') ∈ items) as H2 by (by apply Hitems).
  rewrite <- (take_drop n items), elem_of_app in H2. destruct H2 as [H2|H2].
  { exfalso. apply Hin'. apply list_elem_of_fmap. by exists (k', v'). }
  assert (StronglySorted (le_of (λ a b : K * A, leb a.2 b.2)) items) as Hs
    by (apply stable_sort_sorted; intros *; [apply Htotal|apply Htrans]).
  rewrite <- (take_drop n items) in Hs.
  exact (StronglySorted_app_1_elem_of _ _ _ _ _ Hs Hin H2).
Qed.

End trim.

(** ** Counting entries *)

Section count.
Context {K A : Type} `{Countable K}.
Implicit Types (m : gmap K A) (p : A -> bool).

Definition count_of p m : Z := Z.of_nat (size (filter (λ e, p e.2 = true) m)).

Lemma count_of_empty p : count_of p (∅ : gmap K A) = 0.
Proof. unfold count_of. by rewrite map_filter_empty, map_size_empty. Qed.

Lemma count_of_nonneg p m : 0 <= count_of p m.
Proof. unfold count_of. lia. Qed.

Lemma count_of_fresh p m k v :
  m !! k = None -> count_of p (<[k := v]> m) = count_of p m + Z.b2z (p v).
Proof.
  intros Hk. unfold count_of. destruct (p v) eqn:Hp; cbn.
  - rewrite map_filter_insert_True by done.
    rewrite map_size_insert_None; [lia|]. apply map_lookup_filter_None. by left.
  - rewrite map_filter_insert_not' by (cbn; rewrite ?Hp; congruence). lia.
Qed.

Lemma count_of_delete p m k v :
  m !! k = Some v -> count_of p (delete k m) = count_of p m - Z.b2z (p v).
Proof.
  intros Hk. rewrite <- (insert_delete_id m k v Hk) at 2.
  rewrite count_of_fresh by apply lookup_delete_eq. lia.
Qed.

Lemma count_of_insert p m k v v' :
  m !! k = Some v -> count_of p (<[k := v']> m) = count_of p m - Z.b2z (p v) + Z.b2z (p v').
Proof.
  intros Hk. rewrite <- insert_delete_eq, count_of_fresh by apply lookup_delete_eq.
  by rewrite (count_of_delete _ _ _ v).
Qed.

Lemma count_of_pos p m k v : m !! k = Some v -> p v = true -> 1 <= count_of p m.
Proof.
  intros Hk Hp. pose proof (count_of_nonneg p (delete k m)) as Hn.
  rewrite (count_of_delete _ _ _ v Hk), Hp in Hn. cbn in Hn. lia.
Qed.

Lemma count_of_all p m :
  (∀ k v, m !! k = Some v -> p v = true) -> count_of p m = Z.of_nat (size m).
Proof.
  intros Ha. unfold count_of. rewrite map_filter_id; [done|]. intros k v Hk. by apply (Ha k).
Qed.

Lemma count_of_none p m : (∀ k v, m !! k = Some v -> p v = false) -> count_of p m = 0.
Proof.
  intros Hn. unfold count_of. rewrite (map_empty_filter_2 (λ e : K * A, p e.2 = true)); [by rewrite map_size_empty|].
  intros k v Hk. cbn. rewrite (Hn k v Hk). done.
Qed.

End count.
