(* ===== verification/Floats.v ===== *)
(** * IEEE-754 double precision

    The [f64] arithmetic the program uses, on the computable and axiom-free
    [SpecFloat] of the core library (53 bits of precision, exponents below
    1024): addition, multiplication, division and square root round to nearest
    even as Rust's do.  [f64::powf] and [f64::powi] have no specified precision
    and are parameters of the models that call them.  All NaNs are one value
    here, which is observable only by the sign and payload order of
    [total_cmp]. *)

From Corelib Require Import SpecFloat.
From S2P Require Import Prelude.

Abbreviation f64 := spec_float (only parsing).

Definition f64_add : f64 -> f64 -> f64 := SFadd 53 1024.
Definition f64_sub : f64 -> f64 -> f64 := SFsub 53 1024.
Definition f64_mul : f64 -> f64 -> f64 := SFmul 53 1024.
Definition f64_div : f64 -> f64 -> f64 := SFdiv 53 1024.
Definition f64_sqrt : f64 -> f64 := SFsqrt 53 1024.
Definition f64_ltb : f64 -> f64 -> bool := SFltb.
Definition f64_leb : f64 -> f64 -> bool := SFleb.
Definition f64_eqb : f64 -> f64 -> bool := SFeqb.

(** [n as f64] for an integer, and the double a decimal literal [n/d] denotes:
    the quotient of two exactly represented integers is the nearest double. *)
Definition f64_of_Z (n : Z) : f64 := binary_normalize 53 1024 n 0 false.
Definition f64_lit (n d : Z) : f64 := f64_div (f64_of_Z n) (f64_of_Z d).

Definition f64_zero : f64 := S754_zero false.
Definition f64_one : f64 := f64_of_Z 1.

Definition f64_is_nan (x : f64) : bool :=
  match x with S754_nan => true | _ => false end.
Definition f64_is_finite (x : f64) : bool :=
  match x with S754_zero _ | S754_finite _ _ _ => true | _ => false end.

(** [f64::max] and [f64::min]: a NaN operand loses. *)
Definition f64_max (x y : f64) : f64 :=
  if f64_is_nan x then y else if f64_is_nan y then x
  else if f64_ltb x y then y else x.
Definition f64_min (x y : f64) : f64 :=
  if f64_is_nan x then y else if f64_is_nan y then x
  else if f64_ltb y x then y else x.

(** [x.clamp(lo, hi)] for [lo <= hi]: a NaN stays a NaN. *)
Definition f64_clamp (lo hi x : f64) : f64 :=
  if f64_ltb x lo then lo else if f64_ltb hi x then hi else x.

(** The magnitude bits of a double, as an integer. *)
Definition f64_magnitude (x : f64) : Z :=
  match x with
  | S754_zero _ => 0
  | S754_infinity _ => 2047 * 2 ^ 52
  | S754_nan => 2047 * 2 ^ 52 + 2 ^ 51
  | S754_finite _ m e =>
      if Z.pos m <? 2 ^ 52 then Z.pos m
      else (e + 1075) * 2 ^ 52 + (Z.pos m - 2 ^ 52)
  end.

Definition f64_sign (x : f64) : bool :=
  match x with
  | S754_zero s | S754_infinity s | S754_finite s _ _ => s
  | S754_nan => false
  end.

(** [f64::total_cmp] compares the bits as sign-magnitude integers, the negative
    zero below the positive one; the key below is that integer. *)
Definition f64_key (x : f64) : Z :=
  if f64_sign x then - 1 - f64_magnitude x else f64_magnitude x.
Definition f64_total_leb (x y : f64) : bool := f64_key x <=? f64_key y.

(** [x as u64] saturates and sends NaN to zero. *)
Definition f64_trunc (x : f64) : Z :=
  match x with
  | S754_finite s m e =>
      let v := if 0 <=? e then Z.pos m * 2 ^ e else Z.pos m / 2 ^ (- e) in
      if s then - v else v
  | _ => 0
  end.
Definition f64_as_u64 (x : f64) : Z :=
  match x with
  | S754_infinity s => if s then 0 else u64_max
  | _ => clampZ 0 u64_max (f64_trunc x)
  end.

Lemma f64_total_leb_total x y : f64_total_leb x y = true ∨ f64_total_leb y x = true.
Proof. unfold f64_total_leb. rewrite !Z.leb_le. lia. Qed.

Lemma f64_total_leb_trans x y z :
  f64_total_leb x y = true -> f64_total_leb y z = true -> f64_total_leb x z = true.
Proof. unfold f64_total_leb. rewrite !Z.leb_le. lia. Qed.

Lemma f64_as_u64_range x : is_u64 (f64_as_u64 x).
Proof.
  unfold is_u64, f64_as_u64.
  destruct x as [| [] | |]; try apply clampZ_range; unfold u64_max; lia.
Qed.

(** ** Single precision and conversions *)

Abbreviation f32 := spec_float (only parsing).

Definition f64_abs : f64 -> f64 := SFabs.

(** A value rounded into another format. *)
Definition renormalize (prec emax : Z) (x : spec_float) : spec_float :=
  match x with
  | S754_finite s m e => binary_normalize prec emax (cond_Zopp s (Z.pos m)) e s
  | other => other
  end.

(** [x as f32], [f64::from(x)] and [f32::total_cmp]. *)
Definition f64_to_f32 (x : f64) : f32 := renormalize 24 128 x.
Definition f64_from_f32 (x : f32) : f64 := renormalize 53 1024 x.

Definition f32_key (x : f32) : Z :=
  let magnitude :=
    match x with
    | S754_zero _ => 0
    | S754_infinity _ => 255 * 2 ^ 23
    | S754_nan => 255 * 2 ^ 23 + 2 ^ 22
    | S754_finite _ m e =>
        if Z.pos m <? 2 ^ 23 then Z.pos m else (e + 150) * 2 ^ 23 + (Z.pos m - 2 ^ 23)
    end in
  if f64_sign x then - 1 - magnitude else magnitude.
Definition f32_total_leb (x y : f32) : bool := f32_key x <=? f32_key y.

(** [x.ceil() as usize]. *)
Definition f64_ceil_as_usize (x : f64) : Z :=
  match x with
  | S754_infinity s => if s then 0 else u64_max
  | S754_finite s m e =>
      let v := if s then Z.neg m else Z.pos m in
      clampZ 0 u64_max (if 0 <=? e then v * 2 ^ e else - ((- v) / 2 ^ (- e)))
  | _ => 0
  end.

(** [x as u32]. *)
Definition f64_as_u32 (x : f64) : Z :=
  match x with
  | S754_infinity s => if s then 0 else u32_max
  | _ => clampZ 0 u32_max (f64_trunc x)
  end.

(** [Duration::as_secs_f64]. *)
Definition as_secs_f64 (d : Duration) : f64 :=
  f64_add (f64_of_Z (d / nanos_per_sec))
          (f64_div (f64_of_Z (d mod nanos_per_sec)) (f64_of_Z nanos_per_sec)).

(** The operations whose precision the standard library does not specify. *)
Class FloatLib : Type := {
  powf : f64 -> f64 -> f64;
  powi : f64 -> Z -> f64
}.

Lemma f32_total_leb_total x y : f32_total_leb x y = true ∨ f32_total_leb y x = true.
Proof. unfold f32_total_leb. rewrite !Z.leb_le. lia. Qed.

(** [x.round()]: half away from zero. *)
Definition f64_round (x : f64) : f64 :=
  match x with
  | S754_finite s m e =>
      if 0 <=? e then x
      else let v := (Z.pos m + 2 ^ (- e - 1)) / 2 ^ (- e) in
           binary_normalize 53 1024 (if s then - v else v) 0 s
  | other => other
  end.

(** [Duration::from_secs_f64]: the nearest nanosecond, ties to even, for a
    finite non-negative number of seconds within the range of a [Duration] (the
    call panics outside it). *)
Definition from_secs_f64 (x : f64) : Duration :=
  match x with
  | S754_finite false m e =>
      if 0 <=? e then Z.pos m * 2 ^ e * nanos_per_sec
      else
        let n := Z.pos m * nanos_per_sec in
        let d := 2 ^ (- e) in
        let q := n / d in
        match Z.compare (2 * (n mod d)) d with
        | Lt => q
        | Gt => q + 1
        | Eq => if Z.even q then q else q + 1
        end
  | _ => 0
  end.

(** [d.mul_f64(x)]. *)
Definition mul_f64 (d : Duration) (x : f64) : Duration := from_secs_f64 (f64_mul x (as_secs_f64 d)).

(** [f32] arithmetic. *)
Definition f32_add : f32 -> f32 -> f32 := SFadd 24 128.
Definition f32_mul : f32 -> f32 -> f32 := SFmul 24 128.
Definition f32_div : f32 -> f32 -> f32 := SFdiv 24 128.
Definition f32_ltb : f32 -> f32 -> bool := SFltb.
Definition f32_leb : f32 -> f32 -> bool := SFleb.
Definition f32_max : f32 -> f32 -> f32 := f64_max.
Definition f32_of_Z (n : Z) : f32 := binary_normalize 24 128 n 0 false.
Definition f32_lit (n d : Z) : f32 := f32_div (f32_of_Z n) (f32_of_Z d).
Definition f32_zero : f32 := S754_zero false.
Definition f32_one : f32 := f32_of_Z 1.

(** [Duration::as_secs_f32]. *)
Definition as_secs_f32 (d : Duration) : f32 :=
  f32_add (f32_of_Z (d / nanos_per_sec))
          (f32_div (f32_of_Z (d mod nanos_per_sec)) (f32_of_Z nanos_per_sec)).

Class Float32Lib : Type := { powf32 : f32 -> f32 -> f32 }.
