(* ===== verification/Names.v ===== *)
(** * Text and domain names

    Rust strings as lists of bytes, the string operations of the standard
    library the sources use, and the reference notion the several suffix tests
    of the program are measured against: a domain name is a list of labels, and
    a name is below another when its labels end in the other's. *)

From Stdlib Require Import Ascii String.
From S2P Require Import Prelude.

(** ** Strings *)

Abbreviation str := (list ascii) (only parsing).

(** A string literal of the source. *)
Definition lit (s : string) : str := list_ascii_of_string s.

Definition dot : ascii := "."%char.

Definition ascii_eqb (a b : ascii) : bool := Ascii.eqb a b.

Fixpoint str_eqb (a b : str) : bool :=
  match a, b with
  | [], [] => true
  | x :: a', y :: b' => ascii_eqb x y && str_eqb a' b'
  | _, _ => false
  end.

(** [u8::to_ascii_lowercase]: only the bytes of [A-Z] change. *)
Definition lower_ascii (c : ascii) : ascii :=
  let n := N_of_ascii c in
  if (65 <=? n)%N && (n <=? 90)%N then ascii_of_N (n + 32) else c.

Definition to_ascii_lowercase (s : str) : str := map lower_ascii s.

Definition upper_ascii (c : ascii) : ascii :=
  let n := N_of_ascii c in
  if (97 <=? n)%N && (n <=? 122)%N then ascii_of_N (n - 32) else c.

Definition to_ascii_uppercase (s : str) : str := map upper_ascii s.

Fixpoint starts_with (s p : str) {struct p} : bool :=
  match p, s with
  | [], _ => true
  | _, [] => false
  | y :: p', x :: s' => ascii_eqb x y && starts_with s' p'
  end.

Definition ends_with (s p : str) : bool := starts_with (rev s) (rev p).

Fixpoint drop_while (c : ascii) (s : str) : str :=
  match s with
  | x :: s' => if ascii_eqb x c then drop_while c s' else s
  | [] => []
  end.

Definition trim_start_matches (c : ascii) (s : str) : str := drop_while c s.
Definition trim_end_matches (c : ascii) (s : str) : str := rev (drop_while c (rev s)).

Definition strip_prefix (c : ascii) (s : str) : option str :=
  match s with
  | x :: s' => if ascii_eqb x c then Some s' else None
  | [] => None
  end.

(** [s.split(c)]: always at least one piece. *)
Fixpoint split_on (c : ascii) (s : str) : list str :=
  match s with
  | [] => [[]]
  | x :: s' =>
      if ascii_eqb x c then [] :: split_on c s'
      else match split_on c s' with
           | l :: ls => (x :: l) :: ls
           | [] => [[x]]
           end
  end.

(** [ls.join(c)]. *)
Fixpoint join_with (c : ascii) (ls : list str) : str :=
  match ls with
  | [] => []
  | [l] => l
  | l :: ls' => l ++ c :: join_with c ls'
  end.

(** ** Labels *)

(** A label of a well-formed name in presentation form. *)
Definition label_ok (l : str) : Prop := l ≠ [] ∧ dot ∉ l.

(** The fully qualified presentation form, with its trailing dot. *)
Definition dotted (ls : list str) : str := concat (map (λ l, l ++ [dot]) ls).

(** [ss] is [ls] or an ancestor of it. *)
Definition label_suffix (ss ls : list str) : Prop := ∃ ls', ls = ls' ++ ss.

(** ** Lemmas *)

Lemma ascii_eqb_eq a b : ascii_eqb a b = true <-> a = b.
Proof. apply Ascii.eqb_eq. Qed.

Lemma ascii_eqb_refl a : ascii_eqb a a = true.
Proof. by apply ascii_eqb_eq. Qed.

Lemma str_eqb_eq a b : str_eqb a b = true <-> a = b.
Proof.
  revert b. induction a as [|x a IH]; intros [|y b]; simpl; try done.
  rewrite andb_true_iff, ascii_eqb_eq, IH. split; [by intros [-> ->]|by intros [= -> ->]].
Qed.

Lemma str_eqb_refl a : str_eqb a a = true.
Proof. by apply str_eqb_eq. Qed.

Lemma starts_with_spec s p : starts_with s p = true <-> ∃ t, s = p ++ t.
Proof.
  revert s. induction p as [|y p IH]; intros s; simpl.
  { split; [intros _; by exists s|done]. }
  destruct s as [|x s]; simpl; [split; [done|by intros (? & ?)]|].
  rewrite andb_true_iff, ascii_eqb_eq, IH. split.
  - intros [-> [t ->]]. by exists t.
  - intros [t [= -> ->]]. by split; [|exists t].
Qed.

Lemma ends_with_spec s p : ends_with s p = true <-> ∃ t, s = t ++ p.
Proof.
  unfold ends_with. rewrite starts_with_spec. split; intros [t Ht].
  - exists (rev t). rewrite <- (rev_involutive s), Ht, rev_app_distr, rev_involutive. done.
  - exists (rev t). by rewrite Ht, rev_app_distr.
Qed.

Lemma lower_ascii_dot c : lower_ascii c = dot <-> c = dot.
Proof. destruct c as [[] [] [] [] [] [] [] []]; vm_compute; split; congruence. Qed.

Lemma lower_ascii_idem c : lower_ascii (lower_ascii c) = lower_ascii c.
Proof. destruct c as [[] [] [] [] [] [] [] []]; vm_compute; reflexivity. Qed.

Lemma to_ascii_lowercase_idem s : to_ascii_lowercase (to_ascii_lowercase s) = to_ascii_lowercase s.
Proof. unfold to_ascii_lowercase. rewrite map_map. apply map_ext, lower_ascii_idem. Qed.

Lemma to_ascii_lowercase_app a b :
  to_ascii_lowercase (a ++ b) = to_ascii_lowercase a ++ to_ascii_lowercase b.
Proof. apply map_app. Qed.

Lemma to_ascii_lowercase_length s : length (to_ascii_lowercase s) = length s.
Proof. apply length_map. Qed.

Lemma label_ok_lower l : label_ok l -> label_ok (to_ascii_lowercase l).
Proof.
  intros [Hne Hd]. split; [by destruct l|].
  intros (c & Hc & Hin)%list_elem_of_fmap. symmetry in Hc.
  apply lower_ascii_dot in Hc as ->. done.
Qed.

Lemma dotted_cons l ls : dotted (l :: ls) = l ++ dot :: dotted ls.
Proof. unfold dotted. simpl. by rewrite <- app_assoc. Qed.

Lemma dotted_app xs ys : dotted (xs ++ ys) = dotted xs ++ dotted ys.
Proof. unfold dotted. by rewrite map_app, concat_app. Qed.

Lemma dotted_lower ls :
  to_ascii_lowercase (dotted ls) = dotted (map to_ascii_lowercase ls).
Proof.
  induction ls as [|l ls IH]; [done|].
  change (map to_ascii_lowercase (l :: ls)) with
    (to_ascii_lowercase l :: map to_ascii_lowercase ls).
  rewrite !dotted_cons, to_ascii_lowercase_app. f_equal.
  change (to_ascii_lowercase (dot :: dotted ls)) with
    (lower_ascii dot :: to_ascii_lowercase (dotted ls)). by rewrite IH.
Qed.

Lemma dotted_last ls : ls ≠ [] -> ∃ t, dotted ls = t ++ [dot].
Proof.
  induction ls as [|l ls IH]; [done|]. intros _. rewrite dotted_cons.
  destruct ls as [|l' ls].
  - by exists l.
  - destruct IH as [t Ht]; [done|]. exists (l ++ dot :: t). by rewrite Ht, <- app_assoc.
Qed.

(** The text up to the first dot determines the first label. *)
Lemma first_label (l1 l2 t1 t2 : str) :
  dot ∉ l1 -> dot ∉ l2 -> l1 ++ dot :: t1 = l2 ++ dot :: t2 -> l1 = l2 ∧ t1 = t2.
Proof.
  revert l2. induction l1 as [|x l1 IH]; intros [|y l2] H1 H2 Heq; simplify_eq/=.
  - done.
  - set_solver.
  - set_solver.
  - destruct (IH l2) as [-> ->]; set_solver.
Qed.

Lemma dotted_inj ls ms :
  Forall label_ok ls -> Forall label_ok ms -> dotted ls = dotted ms -> ls = ms.
Proof.
  intros H. revert ms. induction H as [|l ls [Hl1 Hl2] Hls IH].
  - intros [|m ms] Hms; [done|]. rewrite dotted_cons. by destruct m.
  - intros ms Hms. destruct Hms as [|m ms [Hm1 Hm2] Hms].
    + rewrite dotted_cons. by destruct l.
    + rewrite !dotted_cons. intros Heq. apply first_label in Heq as [-> Heq]; [|done..].
      f_equal. by apply IH.
Qed.

(** A textual suffix cut after a dot is a suffix of the labels. *)
Lemma dotted_cut x ls ss :
  Forall label_ok ls -> Forall label_ok ss ->
  x ++ dot :: dotted ss = dotted ls -> label_suffix ss ls.
Proof.
  intros H. revert x. induction H as [|l ls [Hl1 Hl2] Hls IH]; intros x Hss Heq.
  { by destruct x. }
  rewrite dotted_cons in Heq.
  destruct (decide (dot ∈ x)) as [Hin|Hin].
  - apply list_elem_of_split_l in Hin as (a & b & -> & Ha).
    rewrite <- app_assoc in Heq. apply first_label in Heq as [_ Heq]; [|done..].
    destruct (IH b Hss Heq) as [ls' ->]. by exists (l :: ls').
  - apply first_label in Heq as [_ Heq]; [|done..].
    apply dotted_inj in Heq as ->; [|done..]. by exists [l].
Qed.

Lemma label_suffix_dotted ss ls :
  label_suffix ss ls -> ∃ t, dotted ls = t ++ dotted ss ∧ (t = [] ∨ ∃ u, t = u ++ [dot]).
Proof.
  intros [ls' ->]. rewrite dotted_app. exists (dotted ls'). split; [done|].
  destruct ls' as [|l ls']; [by left|right]. by apply dotted_last.
Qed.

(** ** The form without the trailing dot *)

Lemma dotted_join ls : ls ≠ [] -> dotted ls = join_with dot ls ++ [dot].
Proof.
  induction ls as [|l ls IH]; [done|]. intros _. rewrite dotted_cons.
  destruct ls as [|l' ls]; [done|].
  change (join_with dot (l :: l' :: ls)) with (l ++ dot :: join_with dot (l' :: ls)).
  rewrite IH by done. by rewrite <- app_assoc.
Qed.

Lemma join_nonempty l ls : label_ok l -> join_with dot (l :: ls) ≠ [].
Proof. intros [Hl _]. destruct ls as [|l' ls]; destruct l; done. Qed.

Lemma join_lower ls :
  to_ascii_lowercase (join_with dot ls) = join_with dot (map to_ascii_lowercase ls).
Proof.
  induction ls as [|l ls IH]; [done|]. destruct ls as [|l' ls]; [done|].
  change (join_with dot (l :: l' :: ls)) with (l ++ dot :: join_with dot (l' :: ls)).
  rewrite to_ascii_lowercase_app. simpl in *. by rewrite IH.
Qed.

Lemma drop_while_ne c s : head s ≠ Some c -> drop_while c s = s.
Proof.
  destruct s as [|x s]; simpl; [done|]. intros H.
  destruct (ascii_eqb x c) eqn:E; [|done]. apply ascii_eqb_eq in E. congruence.
Qed.

(** No label of a well-formed name is empty, so its text does not end in a dot. *)
Lemma join_last_ne ls : Forall label_ok ls -> head (rev (join_with dot ls)) ≠ Some dot.
Proof.
  induction 1 as [|l ls [Hl1 Hl2] Hls IH]; [done|].
  destruct ls as [|l' ls].
  - simpl. intros Hh. apply Hl2. rewrite <- (rev_involutive l).
    destruct (rev l) as [|x r]; [done|]. simplify_eq/=.
    apply elem_of_app. right. by left.
  - change (join_with dot (l :: l' :: ls)) with (l ++ dot :: join_with dot (l' :: ls)).
    pose proof (join_nonempty l' ls (Forall_inv Hls)) as Hne.
    revert IH Hne. generalize (join_with dot (l' :: ls)). intros j IH Hne.
    rewrite rev_app_distr. change (rev (dot :: j)) with (rev j ++ [dot]).
    destruct (rev j) as [|x r] eqn:E; [|exact IH].
    apply (f_equal (@rev ascii)) in E. by rewrite rev_involutive in E.
Qed.

Lemma trim_end_join ls :
  Forall label_ok ls -> trim_end_matches dot (join_with dot ls) = join_with dot ls.
Proof.
  intros H. unfold trim_end_matches. rewrite drop_while_ne by by apply join_last_ne.
  apply rev_involutive.
Qed.

Lemma trim_end_dotted ls :
  Forall label_ok ls -> trim_end_matches dot (dotted ls) = join_with dot ls.
Proof.
  intros H. destruct (decide (ls = [])) as [->|Hne]; [done|].
  rewrite dotted_join by done. unfold trim_end_matches. rewrite rev_app_distr. simpl.
  rewrite drop_while_ne by by apply join_last_ne. apply rev_involutive.
Qed.

Lemma join_inj ls ms :
  Forall label_ok ls -> Forall label_ok ms -> join_with dot ls = join_with dot ms -> ls = ms.
Proof.
  intros Hl Hm Heq. destruct ls as [|l ls], ms as [|m ms]; [done|..].
  - symmetry in Heq. by apply (join_nonempty m ms (Forall_inv Hm)) in Heq.
  - by apply (join_nonempty l ls (Forall_inv Hl)) in Heq.
  - apply dotted_inj; [done..|]. rewrite !dotted_join by done. by rewrite Heq.
Qed.

(** The usual subtree test of the sources is the label suffix. *)
Lemma subtree_test ls ss :
  ss ≠ [] -> Forall label_ok ls -> Forall label_ok ss ->
  str_eqb (join_with dot ls) (join_with dot ss) ||
  ends_with (join_with dot ls) (dot :: join_with dot ss) = true <-> label_suffix ss ls.
Proof.
  intros Hne Hl Hs. rewrite orb_true_iff, str_eqb_eq, ends_with_spec. split.
  - intros [Heq|[t Ht]].
    + apply join_inj in Heq as ->; [|done..]. by exists [].
    + assert (ls ≠ []) by (intros ->; by destruct t).
      eapply (dotted_cut t); [done..|]. rewrite !dotted_join by done. rewrite Ht.
      by rewrite <- app_assoc.
  - intros [ls' ->]. destruct ls' as [|l ls']; [by left|right].
    assert (l :: ls' ≠ []) as Hne' by done. revert Hne'. generalize (l :: ls'). intros xs Hx.
    exists (join_with dot xs).
    assert (dotted (xs ++ ss) = (join_with dot xs ++ dot :: join_with dot ss) ++ [dot]) as Hd.
    { rewrite dotted_app, !dotted_join by done. by rewrite <- !app_assoc. }
    rewrite dotted_join in Hd by (destruct xs; done). by apply app_inj_2 in Hd as [? _].
Qed.

Lemma label_suffix_map (f : str -> str) ss ls :
  label_suffix ss ls -> label_suffix (map f ss) (map f ls).
Proof. intros [ls' ->]. exists (map f ls'). apply map_app. Qed.

Lemma Forall_label_lower ls :
  Forall label_ok ls -> Forall label_ok (map to_ascii_lowercase ls).
Proof. induction 1; simpl; constructor; auto using label_ok_lower. Qed.

(** ** Splitting *)

Lemma split_on_nodot l : dot ∉ l -> split_on dot l = [l].
Proof.
  induction l as [|x l IH]; intros H; [done|]. simpl.
  destruct (ascii_eqb x dot) eqn:E; [apply ascii_eqb_eq in E; set_solver|].
  rewrite IH; [done|set_solver].
Qed.

Lemma split_on_app l s : dot ∉ l -> split_on dot (l ++ dot :: s) = l :: split_on dot s.
Proof.
  induction l as [|x l IH]; intros H; simpl; [done|].
  destruct (ascii_eqb x dot) eqn:E; [apply ascii_eqb_eq in E; set_solver|].
  rewrite IH; [done|set_solver].
Qed.

Lemma split_on_join ls :
  ls ≠ [] -> Forall label_ok ls -> split_on dot (join_with dot ls) = ls.
Proof.
  intros Hne. induction 1 as [|l ls [Hl1 Hl2] Hls IH]; [done|].
  destruct ls as [|l' ls]; [by apply split_on_nodot|].
  change (join_with dot (l :: l' :: ls)) with (l ++ dot :: join_with dot (l' :: ls)).
  rewrite split_on_app by done. by rewrite IH.
Qed.
