(* ===== verification/Net.v ===== *)
(** * Addresses, networks, the client ACL and special-use classification

    [src/util/ipclass.rs] and [src/dns/acl.rs].  An address is its integer value,
    as [u32::from] and [u128::from] give it.  The [ipnet] crate is a parameter:
    the class [IpNetLib] carries its [contains], and [IpNetLaws] states the
    documented behaviour, that a network contains exactly the addresses of its
    own family that share its leading [prefix_len] bits. *)

From S2P Require Import Prelude.

Inductive IpAddr : Set :=
| V4 (a : Z)
| V6 (a : Z).

#[global] Instance IpAddr_eq_dec : EqDecision IpAddr.
Proof. solve_decision. Defined.

#[global] Instance IpAddr_countable : Countable IpAddr.
Proof.
  refine (inj_countable'
    (λ x, match x with V4 a => inl a | V6 a => inr a end)
    (λ s, match s with inl a => V4 a | inr a => V6 a end) _).
  by intros [].
Defined.

Definition ip_eqb (a b : IpAddr) : bool := bool_decide (a = b).

(** A value of the Rust type is in range. *)
Definition ip_wf (a : IpAddr) : Prop :=
  match a with
  | V4 a => 0 <= a < 2 ^ 32
  | V6 a => 0 <= a < 2 ^ 128
  end.

(** [Ipv4Addr::new] and [Ipv6Addr::new]. *)
Definition ipv4 (a b c d : Z) : Z := ((a * 256 + b) * 256 + c) * 256 + d.
Definition ipv6 (s : list Z) : Z := fold_left (λ acc g, acc * 65536 + g) s 0.

(** [Ipv6Addr::to_ipv4_mapped]: the addresses of [::ffff:0:0/96]. *)
Definition to_ipv4_mapped (a : Z) : option Z :=
  if Z.shiftr a 32 =? 65535 then Some (Z.land a (2 ^ 32 - 1)) else None.

Record Ipv4Net : Set := mk_Ipv4Net { net4_addr : Z; net4_prefix_len : Z }.
Record Ipv6Net : Set := mk_Ipv6Net { net6_addr : Z; net6_prefix_len : Z }.

Inductive IpNet : Set :=
| Net4 (n : Ipv4Net)
| Net6 (n : Ipv6Net).

#[global] Instance Ipv4Net_eq_dec : EqDecision Ipv4Net.
Proof. solve_decision. Defined.
#[global] Instance Ipv6Net_eq_dec : EqDecision Ipv6Net.
Proof. solve_decision. Defined.
#[global] Instance IpNet_eq_dec : EqDecision IpNet.
Proof. solve_decision. Defined.

(** ** The [ipnet] crate *)

Class IpNetLib : Type := {
  net4_contains : Ipv4Net -> Z -> bool;
  net6_contains : Ipv6Net -> Z -> bool;
  net4_network : Ipv4Net -> Z;
  net6_network : Ipv6Net -> Z;
  net4_netmask : Ipv4Net -> Z;
  net6_netmask : Ipv6Net -> Z;
  net4_trunc : Ipv4Net -> Ipv4Net;
  net6_trunc : Ipv6Net -> Ipv6Net;
  net4_leb : Ipv4Net -> Ipv4Net -> bool;
  net6_leb : Ipv6Net -> Ipv6Net -> bool
}.

(** The leading [len] bits of a [w]-bit address. *)
Definition leading (w len a : Z) : Z := a / 2 ^ (w - len).

(** The address with every bit after the leading [len] cleared, and the mask
    that clears them. *)
Definition network_of (w len a : Z) : Z := leading w len a * 2 ^ (w - len).
Definition netmask_of (w len : Z) : Z := 2 ^ w - 2 ^ (w - len).

(** A type that implements [Ord]. *)
Record OrdLaws {A : Type} (leb : A -> A -> bool) : Prop := {
  ord_total x y : leb x y = true ∨ leb y x = true;
  ord_trans x y z : leb x y = true -> leb y z = true -> leb x z = true;
  ord_antisym x y : leb x y = true -> leb y x = true -> x = y
}.

Class IpNetLaws {NL : IpNetLib} : Prop := {
  net4_contains_spec n a :
    0 <= net4_prefix_len n <= 32 ->
    net4_contains n a = (leading 32 (net4_prefix_len n) a
                         =? leading 32 (net4_prefix_len n) (net4_addr n));
  net6_contains_spec n a :
    0 <= net6_prefix_len n <= 128 ->
    net6_contains n a = (leading 128 (net6_prefix_len n) a
                         =? leading 128 (net6_prefix_len n) (net6_addr n));
  net4_network_spec n :
    0 <= net4_prefix_len n <= 32 ->
    net4_network n = network_of 32 (net4_prefix_len n) (net4_addr n);
  net6_network_spec n :
    0 <= net6_prefix_len n <= 128 ->
    net6_network n = network_of 128 (net6_prefix_len n) (net6_addr n);
  net4_netmask_spec n :
    0 <= net4_prefix_len n <= 32 -> net4_netmask n = netmask_of 32 (net4_prefix_len n);
  net6_netmask_spec n :
    0 <= net6_prefix_len n <= 128 -> net6_netmask n = netmask_of 128 (net6_prefix_len n);
  net4_trunc_spec n : net4_trunc n = mk_Ipv4Net (net4_network n) (net4_prefix_len n);
  net6_trunc_spec n : net6_trunc n = mk_Ipv6Net (net6_network n) (net6_prefix_len n);
  net4_ord : OrdLaws net4_leb;
  net6_ord : OrdLaws net6_leb
}.

(** [IpNet::contains(&IpAddr)]: a network of the other family contains nothing. *)
Definition ipnet_contains {NL : IpNetLib} (n : IpNet) (a : IpAddr) : bool :=
  match n, a with
  | Net4 n, V4 a => net4_contains n a
  | Net6 n, V6 a => net6_contains n a
  | _, _ => false
  end.

(** A concrete implementation of the documented behaviour. *)
Definition lex_leb (a b c d : Z) : bool := (a <? c) || ((a =? c) && (b <=? d)).

#[local] Instance ipnet_reference : IpNetLib := {
  net4_contains n a := leading 32 (net4_prefix_len n) a
                       =? leading 32 (net4_prefix_len n) (net4_addr n);
  net6_contains n a := leading 128 (net6_prefix_len n) a
                       =? leading 128 (net6_prefix_len n) (net6_addr n);
  net4_network n := network_of 32 (net4_prefix_len n) (net4_addr n);
  net6_network n := network_of 128 (net6_prefix_len n) (net6_addr n);
  net4_netmask n := netmask_of 32 (net4_prefix_len n);
  net6_netmask n := netmask_of 128 (net6_prefix_len n);
  net4_trunc n := mk_Ipv4Net (network_of 32 (net4_prefix_len n) (net4_addr n)) (net4_prefix_len n);
  net6_trunc n := mk_Ipv6Net (network_of 128 (net6_prefix_len n) (net6_addr n)) (net6_prefix_len n);
  net4_leb x y := lex_leb (net4_addr x) (net4_prefix_len x) (net4_addr y) (net4_prefix_len y);
  net6_leb x y := lex_leb (net6_addr x) (net6_prefix_len x) (net6_addr y) (net6_prefix_len y)
}.

Lemma lex_leb_spec a b c d : lex_leb a b c d = true <-> a < c ∨ (a = c ∧ b <= d).
Proof. unfold lex_leb. rewrite orb_true_iff, andb_true_iff, Z.ltb_lt, Z.eqb_eq, Z.leb_le. done. Qed.

Lemma lex_ord {A} (f g : A -> Z) :
  (∀ x y, f x = f y -> g x = g y -> x = y) ->
  OrdLaws (λ x y, lex_leb (f x) (g x) (f y) (g y)).
Proof.
  intros Hinj. split; intros *; rewrite !lex_leb_spec; [lia|lia|].
  intros. apply Hinj; lia.
Qed.

#[local] Instance ipnet_reference_laws : IpNetLaws.
Proof.
  split; try (intros; reflexivity).
  - apply (lex_ord net4_addr net4_prefix_len). by intros [] [] ? ?; simplify_eq/=.
  - apply (lex_ord net6_addr net6_prefix_len). by intros [] [] ? ?; simplify_eq/=.
Qed.

(** Masking is prefix comparison, which is why a precomputed network and mask
    decide membership. *)
Lemma land_netmask w len a :
  0 <= len <= w -> 0 <= a < 2 ^ w ->
  Z.land a (netmask_of w len) = network_of w len a.
Proof.
  intros Hlen Ha. unfold netmask_of, network_of, leading.
  set (k := w - len).
  assert (2 ^ w - 2 ^ k = Z.shiftl (Z.ones len) k) as ->.
  { rewrite Z.shiftl_mul_pow2 by lia. rewrite Z.ones_equiv.
    replace w with (len + k) at 1 by lia. rewrite Z.pow_add_r by lia. lia. }
  rewrite <- Z.shiftr_div_pow2, <- Z.shiftl_mul_pow2 by lia.
  assert (Z.shiftr a k = Z.land (Z.shiftr a k) (Z.ones len)) as Hs.
  { rewrite Z.land_ones by lia. symmetry. apply Z.mod_small.
    rewrite Z.shiftr_div_pow2 by lia. split; [apply Z.div_pos; lia|].
    apply Z.div_lt_upper_bound; [lia|]. rewrite <- Z.pow_add_r by lia.
    replace (k + len) with w by lia. lia. }
  rewrite Hs. apply Z.bits_inj'. intros i Hi.
  rewrite Z.land_spec, !Z.shiftl_spec by lia.
  destruct (Z_lt_le_dec i k).
  - rewrite !(Z.testbit_neg_r _ (i - k)) by lia. apply andb_false_r.
  - rewrite Z.land_spec, Z.shiftr_spec by lia. by replace (i - k + k) with i by lia.
Qed.

(** [Ipv4Addr::to_ipv6_mapped]. *)
Definition to_ipv6_mapped (a : Z) : Z := 65535 * 2 ^ 32 + a.

Lemma mapped_round_trip a : 0 <= a < 2 ^ 32 -> to_ipv4_mapped (to_ipv6_mapped a) = Some a.
Proof.
  intros Ha. unfold to_ipv4_mapped, to_ipv6_mapped.
  rewrite Z.shiftr_div_pow2, Z.div_add_l, (Z.div_small a) by lia.
  rewrite Z.add_0_r, Z.eqb_refl. f_equal. change (2 ^ 32 - 1) with (Z.ones 32).
  rewrite Z.land_ones, Z.add_comm, Z_mod_plus_full by lia. by apply Z.mod_small.
Qed.

(** ** The client access list *)

Module Acl.

Record Acl : Type := mk_Acl { allow : list IpNet; deny : list IpNet }.

Inductive AclDecision : Set := Allow | Denied | NotAllowed.

Definition normalise (addr : IpAddr) : IpAddr :=
  match addr with
  | V6 v6 => match to_ipv4_mapped v6 with Some v4 => V4 v4 | None => V6 v6 end
  | other => other
  end.

Section acl.
Context {NL : IpNetLib}.

Definition contains (net : IpNet) (addr : IpAddr) : bool :=
  match net, addr with
  | Net4 n, V4 a => net4_contains n a
  | Net6 n, V6 a => net6_contains n a
  | _, _ => false
  end.

Definition acl_evaluate (acl : Acl) (addr : IpAddr) : AclDecision :=
  let addr := normalise addr in
  if existsb (λ n, contains n addr) (deny acl) then Denied
  else if existsb (λ n, contains n addr) (allow acl) then Allow
  else NotAllowed.

Definition permits (acl : Acl) (addr : IpAddr) : bool :=
  match acl_evaluate acl addr with Allow => true | _ => false end.

Lemma permits_iff acl addr :
  permits acl addr = true <->
  (∃ n, n ∈ allow acl ∧ contains n (normalise addr) = true) ∧
  (∀ n, n ∈ deny acl -> contains n (normalise addr) = false).
Proof.
  unfold permits, acl_evaluate.
  destruct (existsb _ (deny acl)) eqn:Hd.
  { apply existsb_elem in Hd as (n & Hn & Hc). split; [done|].
    intros [_ H]. rewrite (H n Hn) in Hc. done. }
  assert (∀ n, n ∈ deny acl -> contains n (normalise addr) = false) as Hno.
  { intros n Hn. destruct (contains n _) eqn:Hc; [|done].
    rewrite <- Hd. symmetry. apply existsb_elem. eauto. }
  destruct (existsb _ (allow acl)) eqn:Ha.
  - apply existsb_elem in Ha as (n & Hn & Hc). split; [|done]. intros _. split; eauto.
  - split; [done|]. intros [(n & Hn & Hc) _]. rewrite <- Ha.
    apply existsb_elem. eauto.
Qed.

(** A network whose prefix length fits its family, and the addresses in it. *)
Definition net_ok (n : IpNet) : Prop :=
  match n with
  | Net4 n => 0 <= net4_prefix_len n <= 32
  | Net6 n => 0 <= net6_prefix_len n <= 128
  end.

Definition covers (n : IpNet) (a : IpAddr) : Prop :=
  match n, a with
  | Net4 n, V4 a => leading 32 (net4_prefix_len n) a = leading 32 (net4_prefix_len n) (net4_addr n)
  | Net6 n, V6 a => leading 128 (net6_prefix_len n) a = leading 128 (net6_prefix_len n) (net6_addr n)
  | _, _ => False
  end.

Context {NLaws : IpNetLaws}.

Lemma contains_covers n a : net_ok n -> contains n a = true <-> covers n a.
Proof.
  destruct n as [n|n], a as [a|a]; cbn; intros Hn; try done;
    rewrite ?net4_contains_spec, ?net6_contains_spec by done; apply Z.eqb_eq.
Qed.

(** A client is admitted exactly when some allowed network shares its leading
    bits with the client's address and no denied network does, so an empty allow
    list admits nobody and a deny entry outweighs every allow entry.  The decision
    on an IPv4 client does not depend on whether it arrived over IPv4 or, mapped,
    over a dual-stack IPv6 socket. *)
Theorem acl_is_deny_first acl addr
    (Hnets : ∀ n, n ∈ allow acl ++ deny acl -> net_ok n) :
  (permits acl addr = true <->
   (∃ n, n ∈ allow acl ∧ covers n (normalise addr)) ∧
   (∀ n, n ∈ deny acl -> ~ covers n (normalise addr))) ∧
  (∀ a, 0 <= a < 2 ^ 32 -> acl_evaluate acl (V6 (to_ipv6_mapped a)) = acl_evaluate acl (V4 a)).
Proof.
  split.
  - assert (∀ n, n ∈ allow acl ++ deny acl ->
      contains n (normalise addr) = true <-> covers n (normalise addr)) as Hc
      by (intros n Hn; by apply contains_covers, Hnets).
    setoid_rewrite elem_of_app in Hc. rewrite permits_iff.
    split; intros [(n & Hn & Hin) Hout]; (split; [exists n; split; [done|by apply Hc; auto]|]);
      intros n' Hn'; specialize (Hout n' Hn').
    + rewrite <- Hc by auto. congruence.
    + apply not_true_iff_false. by rewrite Hc by auto.
  - intros a Ha. unfold acl_evaluate. cbn [normalise]. by rewrite mapped_round_trip.
Qed.

End acl.

(** A resolver for one private network, with one host shut out. *)
Definition office : Acl :=
  mk_Acl [Net4 (mk_Ipv4Net (ipv4 10 0 0 0) 8)] [Net4 (mk_Ipv4Net (ipv4 10 1 0 9) 32)].

Lemma acl_is_deny_first_witness : acl_evaluate office (V6 (to_ipv6_mapped (ipv4 10 1 0 9)))
  = acl_evaluate office (V4 (ipv4 10 1 0 9)).
Proof.
  refine (proj2 (acl_is_deny_first office (V4 0) _) _ _); [|vm_compute; intuition congruence].
  intros n Hn. apply list_elem_of_In in Hn. destruct Hn as [<-|[<-|[]]]; cbn; lia.
Defined.

End Acl.

(** ** Special-use address classification *)

Module IpClass.

Inductive SpecialUse : Set :=
| Unspecified | Loopback | Private | SharedAddressSpace | LinkLocal
| CloudMetadata | Documentation | Benchmarking | ProtocolAssignment
| Multicast | Reserved | Translation.

#[global] Instance SpecialUse_eq_dec : EqDecision SpecialUse.
Proof. solve_decision. Defined.

(** The CIDR constants of the source, parsed. *)
Definition V4_TABLE : list (Ipv4Net * SpecialUse) :=
  [ (mk_Ipv4Net (ipv4 0 0 0 0) 8, Unspecified);
    (mk_Ipv4Net (ipv4 10 0 0 0) 8, Private);
    (mk_Ipv4Net (ipv4 100 64 0 0) 10, SharedAddressSpace);
    (mk_Ipv4Net (ipv4 127 0 0 0) 8, Loopback);
    (mk_Ipv4Net (ipv4 169 254 0 0) 16, LinkLocal);
    (mk_Ipv4Net (ipv4 172 16 0 0) 12, Private);
    (mk_Ipv4Net (ipv4 192 0 0 0) 24, ProtocolAssignment);
    (mk_Ipv4Net (ipv4 192 0 2 0) 24, Documentation);
    (mk_Ipv4Net (ipv4 192 88 99 0) 24, Translation);
    (mk_Ipv4Net (ipv4 192 168 0 0) 16, Private);
    (mk_Ipv4Net (ipv4 198 18 0 0) 15, Benchmarking);
    (mk_Ipv4Net (ipv4 198 51 100 0) 24, Documentation);
    (mk_Ipv4Net (ipv4 203 0 113 0) 24, Documentation);
    (mk_Ipv4Net (ipv4 224 0 0 0) 4, Multicast);
    (mk_Ipv4Net (ipv4 240 0 0 0) 4, Reserved) ].

Definition V6_TABLE : list (Ipv6Net * SpecialUse) :=
  [ (mk_Ipv6Net 0 128, Unspecified);
    (mk_Ipv6Net 1 128, Loopback);
    (mk_Ipv6Net (ipv6 [0;0;0;0;0;0xffff;0;0]) 96, Translation);
    (mk_Ipv6Net (ipv6 [0x64;0xff9b;0;0;0;0;0;0]) 96, Translation);
    (mk_Ipv6Net (ipv6 [0x64;0xff9b;1;0;0;0;0;0]) 48, Translation);
    (mk_Ipv6Net (ipv6 [0x100;0;0;0;0;0;0;0]) 64, Reserved);
    (mk_Ipv6Net (ipv6 [0x2001;2;0;0;0;0;0;0]) 48, Benchmarking);
    (mk_Ipv6Net (ipv6 [0x2001;0xdb8;0;0;0;0;0;0]) 32, Documentation);
    (mk_Ipv6Net (ipv6 [0x2001;0;0;0;0;0;0;0]) 23, ProtocolAssignment);
    (mk_Ipv6Net (ipv6 [0x2002;0;0;0;0;0;0;0]) 16, Translation);
    (mk_Ipv6Net (ipv6 [0xfc00;0;0;0;0;0;0;0]) 7, Private);
    (mk_Ipv6Net (ipv6 [0xfe80;0;0;0;0;0;0;0]) 10, LinkLocal);
    (mk_Ipv6Net (ipv6 [0xff00;0;0;0;0;0;0;0]) 8, Multicast) ].

Definition METADATA_V4 : list Z :=
  [ ipv4 169 254 169 254; ipv4 169 254 170 2; ipv4 100 100 100 200; ipv4 192 0 0 192 ].

(** [Ipv4Addr::BROADCAST]. *)
Definition BROADCAST : Z := ipv4 255 255 255 255.

Definition METADATA_V6 : Z := ipv6 [0xfd00; 0x0ec2; 0; 0; 0; 0; 0; 0x254].

Section ipclass.
Context {NL : IpNetLib}.

Definition classify_v4 (addr : Z) : option SpecialUse :=
  if existsb (Z.eqb addr) METADATA_V4 then Some CloudMetadata
  else if addr =? BROADCAST then Some Reserved
  else snd <$> find_first (λ e, net4_contains e.1 addr) V4_TABLE.

Definition classify_v6 (addr : Z) : option SpecialUse :=
  if addr =? METADATA_V6 then Some CloudMetadata
  else match to_ipv4_mapped addr with
       | Some mapped => Some (default Translation (classify_v4 mapped))
       | None => snd <$> find_first (λ e, net6_contains e.1 addr) V6_TABLE
       end.

Definition classify (addr : IpAddr) : option SpecialUse :=
  match addr with
  | V4 v4 => classify_v4 v4
  | V6 v6 => classify_v6 v6
  end.

Definition is_global_unicast (addr : IpAddr) : bool :=
  match classify addr with None => true | Some _ => false end.

Definition special_use_networks : list (IpNet * SpecialUse) :=
  map (λ e, (Net4 e.1, e.2)) V4_TABLE ++ map (λ e, (Net6 e.1, e.2)) V6_TABLE.

(** The blocks of the IANA IPv4 special-purpose registry, multicast and the
    reserved space, as the first and last address of each. *)
Definition v4_special_ranges : list (Z * Z) :=
  [ (ipv4 0 0 0 0, ipv4 0 255 255 255); (ipv4 10 0 0 0, ipv4 10 255 255 255);
    (ipv4 100 64 0 0, ipv4 100 127 255 255); (ipv4 127 0 0 0, ipv4 127 255 255 255);
    (ipv4 169 254 0 0, ipv4 169 254 255 255); (ipv4 172 16 0 0, ipv4 172 31 255 255);
    (ipv4 192 0 0 0, ipv4 192 0 0 255); (ipv4 192 0 2 0, ipv4 192 0 2 255);
    (ipv4 192 88 99 0, ipv4 192 88 99 255); (ipv4 192 168 0 0, ipv4 192 168 255 255);
    (ipv4 198 18 0 0, ipv4 198 19 255 255); (ipv4 198 51 100 0, ipv4 198 51 100 255);
    (ipv4 203 0 113 0, ipv4 203 0 113 255); (ipv4 224 0 0 0, ipv4 239 255 255 255);
    (ipv4 240 0 0 0, ipv4 255 255 255 255) ].

Definition in_range (a : Z) (r : Z * Z) : bool := (r.1 <=? a) && (a <=? r.2).

Context {NLaws : IpNetLaws}.

Lemma net4_contains_in_range n p a :
  0 <= p <= 32 -> n mod 2 ^ (32 - p) = 0 ->
  net4_contains (mk_Ipv4Net n p) a = in_range a (n, n + 2 ^ (32 - p) - 1).
Proof.
  intros Hp Hn. rewrite net4_contains_spec by done. simpl. unfold leading, in_range. simpl.
  assert (0 < 2 ^ (32 - p)) as Hpos by (apply Z.pow_pos_nonneg; lia).
  set (k := 2 ^ (32 - p)) in *.
  apply Z.div_exact in Hn; [|lia].
  pose proof (Z.div_mod a k ltac:(lia)). pose proof (Z.mod_pos_bound a k Hpos).
  apply eq_true_iff_eq. rewrite andb_true_iff, Z.eqb_eq, !Z.leb_le. split; [intros; nia|].
  intros [? ?]. symmetry. apply (Z.div_unique_pos a k (n / k) (a - n)); lia.
Qed.

Lemma find_first_None {A} (p : A -> bool) l :
  find_first p l = None <-> existsb p l = false.
Proof.
  induction l as [|x l IH]; simpl; [done|]. unfold find_first in *; simpl.
  destruct (p x); simpl; [done|apply IH].
Qed.

Lemma v4_table_ranges a :
  existsb (λ e, net4_contains e.1 a) V4_TABLE = existsb (in_range a) v4_special_ranges.
Proof.
  unfold V4_TABLE, v4_special_ranges, existsb.
  cbn [fst]. rewrite !net4_contains_in_range by (vm_compute; intuition congruence).
  reflexivity.
Qed.

Lemma classify_v4_None a :
  classify_v4 a = None <-> existsb (in_range a) v4_special_ranges = false.
Proof.
  unfold classify_v4. rewrite <- v4_table_ranges.
  destruct (existsb (Z.eqb a) METADATA_V4) eqn:Em.
  { split; [done|]. rewrite v4_table_ranges.
    apply existsb_elem in Em as (x & Hx & ->%Z.eqb_eq).
    rewrite list_elem_of_In in Hx. simpl in Hx.
    destruct Hx as [<-|[<-|[<-|[<-|[]]]]]; discriminate. }
  destruct (a =? BROADCAST) eqn:Eb.
  { split; [done|]. rewrite v4_table_ranges. by apply Z.eqb_eq in Eb as ->. }
  by rewrite fmap_None, find_first_None.
Qed.

(** An IPv4 address counts as ordinary global unicast exactly when it lies in
    none of the registry's special-purpose blocks (metadata services and the
    broadcast address lie inside them), and no IPv4 address becomes global by
    being written as an IPv4-mapped IPv6 address. *)
Theorem global_unicast_is_exact a :
  (is_global_unicast (V4 a) = true <-> ∀ r, r ∈ v4_special_ranges -> ~ r.1 <= a <= r.2) ∧
  (0 <= a < 2 ^ 32 -> is_global_unicast (V6 (to_ipv6_mapped a)) = false).
Proof.
  split.
  - unfold is_global_unicast. cbn [classify].
    destruct (classify_v4 a) as [s|] eqn:E.
    + split; [done|]. intros H. exfalso.
      assert (classify_v4 a = None); [|congruence]. apply classify_v4_None, not_true_iff_false.
      intros (r & Hr & [H1%Z.leb_le H2%Z.leb_le]%andb_true_iff)%existsb_elem.
      by apply (H r Hr).
    + split; [|done]. intros _ r Hr Hin. apply classify_v4_None, not_true_iff_false in E.
      apply E, existsb_elem. exists r. split; [done|]. unfold in_range.
      rewrite andb_true_iff, !Z.leb_le. done.
  - intros Ha. unfold is_global_unicast. cbn [classify]. unfold classify_v6.
    rewrite mapped_round_trip by done. by destruct (_ =? METADATA_V6).
Qed.

End ipclass.

Lemma global_unicast_is_exact_witness :
  is_global_unicast (V6 (to_ipv6_mapped (ipv4 8 8 8 8))) = false.
Proof. apply (global_unicast_is_exact (ipv4 8 8 8 8)). vm_compute. intuition congruence. Defined.

End IpClass.
