(* ===== verification/Text.v ===== *)
(** * Text processing of the standard library

    The string operations the parsers of the program use, on ASCII text: trimming
    and splitting at white space, lines, decimal numbers, and the address grammar
    of [std::net] as a recursive-descent parser over the remaining input.  Text
    beyond ASCII, whose white space differs, is outside the model. *)

From Stdlib Require Import Ascii String.
From S2P Require Import Prelude.
From S2P Require Import Names.
From S2P Require Import Net.

(** ** White space and pieces *)

Definition code (c : ascii) : Z := Z.of_N (N_of_ascii c).
Definition chr (z : Z) : ascii := ascii_of_N (Z.to_N z).

(** [char::is_whitespace] of an ASCII character. *)
Definition is_whitespace (c : ascii) : bool :=
  (code c =? 32) || ((9 <=? code c) && (code c <=? 13)).

Fixpoint skip_while (p : ascii -> bool) (s : str) : str :=
  match s with
  | x :: s' => if p x then skip_while p s' else s
  | [] => []
  end.

Definition trim (s : str) : str := rev (skip_while is_whitespace (rev (skip_while is_whitespace s))).

(** The pieces between the characters that satisfy [p]. *)
Fixpoint split_pred (p : ascii -> bool) (s : str) : list str :=
  match s with
  | [] => [[]]
  | x :: s' =>
      if p x then [] :: split_pred p s'
      else match split_pred p s' with
           | l :: ls => (x :: l) :: ls
           | [] => [[x]]
           end
  end.

Definition is_empty (s : str) : bool := match s with [] => true | _ => false end.

Definition split_whitespace (s : str) : list str :=
  List.filter (λ l, negb (is_empty l)) (split_pred is_whitespace s).

(** [s.split_once(c)]. *)
Fixpoint split_once (p : ascii -> bool) (s : str) : option (str * str) :=
  match s with
  | [] => None
  | x :: s' =>
      if p x then Some ([], s')
      else match split_once p s' with
           | Some (a, b) => Some (x :: a, b)
           | None => None
           end
  end.

Definition newline : ascii := chr 10.
Definition carriage_return : ascii := chr 13.

Definition strip_suffix (c : ascii) (s : str) : str :=
  match rev s with
  | x :: r => if ascii_eqb x c then rev r else s
  | [] => s
  end.

(** [s.lines()]: every newline ends a line; a last line without one keeps its
    carriage return. *)
Fixpoint lines_of (pieces : list str) : list str :=
  match pieces with
  | [] => []
  | [l] => if is_empty l then [] else [l]
  | l :: ls => strip_suffix carriage_return l :: lines_of ls
  end.

Definition lines (s : str) : list str := lines_of (split_on newline s).

(** ** Numbers *)

Definition to_digit (radix : Z) (c : ascii) : option Z :=
  let n := code c in
  let d := if (48 <=? n) && (n <=? 57) then Some (n - 48)
           else if (97 <=? n) && (n <=? 122) then Some (n - 87)
           else if (65 <=? n) && (n <=? 90) then Some (n - 55)
           else None in
  match d with
  | Some d => if d <? radix then Some d else None
  | None => None
  end.

Fixpoint parse_digits (max acc : Z) (s : str) : option Z :=
  match s with
  | [] => Some acc
  | c :: s' =>
      match to_digit 10 c with
      | Some d => let acc := acc * 10 + d in if acc <=? max then parse_digits max acc s' else None
      | None => None
      end
  end.

(** [s.parse()] at an unsigned type with the given maximum. *)
Definition parse_uint (max : Z) (s : str) : option Z :=
  let digits := match s with
                | c :: s' => if ascii_eqb c (chr 43) then s' else s
                | [] => []
                end in
  if is_empty digits then None else parse_digits max 0 digits.

(** ** Addresses *)

(** A parser consumes a prefix of its input, or fails and consumes nothing. *)
Definition Parser (A : Type) : Type := str -> option (A * str).

Definition read_given_char (c : ascii) : Parser unit := λ s,
  match s with
  | x :: s' => if ascii_eqb x c then Some (tt, s') else None
  | [] => None
  end.

Definition read_separator {A} (sep : ascii) (index : nat) (inner : Parser A) : Parser A := λ s,
  if (0 <? index)%nat then
    match read_given_char sep s with
    | Some (_, s') => inner s'
    | None => None
    end
  else inner s.

(** The digits at the front of the input: their value, their number and the rest. *)
Fixpoint span_digits (radix acc : Z) (n : nat) (s : str) : Z * nat * str :=
  match s with
  | c :: s' =>
      match to_digit radix c with
      | Some d => span_digits radix (acc * radix + d) (S n) s'
      | None => (acc, n, s)
      end
  | [] => (acc, n, [])
  end.

Definition read_number (radix : Z) (max_digits : nat) (allow_zero_prefix : bool) (max : Z)
    : Parser Z := λ s,
  let leading_zero := match s with c :: _ => ascii_eqb c (chr 48) | [] => false end in
  let '(v, n, rest) := span_digits radix 0 0 s in
  if (max_digits <? n)%nat then None
  else if (n =? 0)%nat then None
  else if negb allow_zero_prefix && leading_zero && (1 <? n)%nat then None
  else if v <=? max then Some (v, rest) else None.

Definition read_octet (i : nat) : Parser Z := read_separator dot i (read_number 10 3 false 255).

Definition read_ipv4_addr : Parser Z := λ s,
  match read_octet 0 s with
  | Some (a, s) => match read_octet 1 s with
    | Some (b, s) => match read_octet 2 s with
      | Some (c, s) => match read_octet 3 s with
        | Some (d, s) => Some (ipv4 a b c d, s)
        | None => None end
      | None => None end
    | None => None end
  | None => None end.

Definition colon : ascii := chr 58.

(** Up to [left] more groups from index [i]: the groups, whether they end in an
    embedded IPv4 address, and the rest. *)
Fixpoint read_groups (left i : nat) (s : str) : list Z * bool * str :=
  match left with
  | O => ([], false, s)
  | S left' =>
      let embedded := if (1 <=? left')%nat then read_separator colon i read_ipv4_addr s else None in
      match embedded with
      | Some (v4, s') => ([v4 / 65536; v4 mod 65536], true, s')
      | None =>
          match read_separator colon i (read_number 16 4 true 65535) s with
          | Some (g, s') =>
              let '(gs, v4, rest) := read_groups left' (S i) s' in (g :: gs, v4, rest)
          | None => ([], false, s)
          end
      end
  end.

Definition read_ipv6_addr : Parser Z := λ s,
  let '(front, front_ipv4, s) := read_groups 8 0 s in
  if (length front =? 8)%nat then Some (ipv6 front, s)
  else if front_ipv4 then None
  else
    match read_given_char colon s with
    | Some (_, s) =>
        match read_given_char colon s with
        | Some (_, s) =>
            let '(back, _, s) := read_groups (8 - (length front + 1)) 0 s in
            Some (ipv6 (front ++ repeat 0 (8 - length front - length back) ++ back), s)
        | None => None
        end
    | None => None
    end.

(** [s.parse::<IpAddr>()], [Ipv4Addr] and [Ipv6Addr]: the whole input. *)
Definition whole {A} (r : option (A * str)) : option A :=
  match r with Some (a, []) => Some a | _ => None end.

Definition parse_ipv4 (s : str) : option Z := whole (read_ipv4_addr s).
Definition parse_ipv6 (s : str) : option Z := whole (read_ipv6_addr s).

Definition parse_ip (s : str) : option IpAddr :=
  whole (match read_ipv4_addr s with
         | Some (a, r) => Some (V4 a, r)
         | None => match read_ipv6_addr s with Some (a, r) => Some (V6 a, r) | None => None end
         end).

(** ** Printing *)

Fixpoint digits_of (fuel : nat) (z : Z) : str :=
  match fuel with
  | O => []
  | S fuel' =>
      (if z <? 10 then [] else digits_of fuel' (z / 10)) ++ [chr (48 + z mod 10)]
  end.

(** An octet in decimal. *)
Definition print_octet (z : Z) : str := digits_of 3 z.

(** [Ipv4Addr]'s display form. *)
Definition print_ipv4 (a : Z) : str :=
  print_octet (a / 2 ^ 24) ++ dot :: print_octet (a / 2 ^ 16 mod 256)
  ++ dot :: print_octet (a / 2 ^ 8 mod 256) ++ dot :: print_octet (a mod 256).

(** A group in hexadecimal, without leading zeros. *)
Fixpoint hex_digits_of (fuel : nat) (z : Z) : str :=
  match fuel with
  | O => []
  | S fuel' =>
      (if z <? 16 then [] else hex_digits_of fuel' (z / 16))
      ++ [chr (let d := z mod 16 in if d <? 10 then 48 + d else 87 + d)]
  end.

Definition groups_of (a : Z) : list Z := map (λ i, a / 2 ^ (16 * (7 - Z.of_nat i)) mod 65536) (seq 0 8).

Definition print_groups (gs : list Z) : str :=
  match map (hex_digits_of 4) gs with
  | [] => []
  | g :: gs => g ++ concat (map (cons colon) gs)
  end.

(** The first of the longest runs of zero groups: where it starts and its length. *)
Definition longest_zeros (gs : list Z) : nat * nat :=
  fst (fold_left (λ '(longest, current) '(i, g),
         if g =? 0 then
           let current := (if (snd current =? 0)%nat then i else fst current, S (snd current)) in
           (if (snd longest <? snd current)%nat then current else longest, current)
         else (longest, (0, 0)%nat)) (zip (seq 0 (length gs)) gs) ((0, 0)%nat, (0, 0)%nat)).

(** [Ipv6Addr]'s and [IpAddr]'s display forms. *)
Definition print_ipv6 (a : Z) : str :=
  match to_ipv4_mapped a with
  | Some v4 => lit "::ffff:" ++ print_ipv4 v4
  | None =>
      let gs := groups_of a in
      let '(start, len) := longest_zeros gs in
      if (1 <? len)%nat
      then print_groups (take start gs) ++ [colon; colon] ++ print_groups (drop (start + len) gs)
      else print_groups gs
  end.

Definition print_ip (a : IpAddr) : str := match a with V4 a => print_ipv4 a | V6 a => print_ipv6 a end.

(** ** Lemmas *)

(** A word: something to read, and no white space in it. *)
Definition word (s : str) : Prop := s ≠ [] ∧ ∀ c, c ∈ s -> is_whitespace c = false.

Lemma split_pred_none p s : (∀ c, c ∈ s -> p c = false) -> split_pred p s = [s].
Proof.
  induction s as [|x s IH]; intros H; [done|]. cbn. rewrite (H x) by left.
  rewrite IH; [done|]. intros c Hc. apply H. by right.
Qed.

Lemma split_pred_app p s c t :
  (∀ x, x ∈ s -> p x = false) -> p c = true ->
  split_pred p (s ++ c :: t) = s :: split_pred p t.
Proof.
  intros Hs Hc. induction s as [|x s IH]; cbn; [by rewrite Hc|].
  rewrite (Hs x) by left. rewrite IH; [done|]. intros y Hy. apply Hs. by right.
Qed.

Lemma split_once_none p s : (∀ c, c ∈ s -> p c = false) -> split_once p s = None.
Proof.
  induction s as [|x s IH]; intros H; [done|]. cbn. rewrite (H x) by left.
  rewrite IH; [done|]. intros c Hc. apply H. by right.
Qed.

Lemma split_once_app p s c t :
  (∀ x, x ∈ s -> p x = false) -> p c = true -> split_once p (s ++ c :: t) = Some (s, t).
Proof.
  induction s as [|x s IH]; intros H Hc; cbn; [by rewrite Hc|]. rewrite (H x) by left.
  rewrite IH; [done| |done]. intros y Hy. apply H. by right.
Qed.

Lemma skip_while_id p s : (∀ c, head s = Some c -> p c = false) -> skip_while p s = s.
Proof. destruct s as [|x s]; [done|]. cbn. intros H. by rewrite H. Qed.

Lemma last_head_rev (s : str) : last s = head (rev s).
Proof. induction s as [|x s _] using rev_ind; [done|]. by rewrite last_snoc, rev_app_distr. Qed.

Lemma trim_id s :
  (∀ c, head s = Some c -> is_whitespace c = false) ->
  (∀ c, last s = Some c -> is_whitespace c = false) -> trim s = s.
Proof.
  intros Hh Hl. unfold trim. rewrite (skip_while_id _ s) by done.
  rewrite (skip_while_id _ (rev s)); [apply rev_involutive|].
  intros c Hc. apply Hl. by rewrite last_head_rev.
Qed.

(** [ws.join(" ")], the inverse of splitting at white space. *)
Definition space : ascii := chr 32.

Lemma split_whitespace_cons w s :
  word w -> split_whitespace (w ++ space :: s) = w :: split_whitespace s.
Proof.
  intros [Hne Hw]. unfold split_whitespace. rewrite split_pred_app by done. cbn. by destruct w.
Qed.

Lemma split_whitespace_word w : word w -> split_whitespace w = [w].
Proof.
  intros [Hne Hw]. unfold split_whitespace. rewrite split_pred_none by done. cbn. by destruct w.
Qed.

Lemma split_whitespace_join ws :
  Forall word ws -> split_whitespace (join_with space ws) = ws.
Proof.
  induction 1 as [|w ws Hw Hws IH]; [done|]. destruct ws as [|w' ws'].
  - by apply split_whitespace_word.
  - change (join_with space (w :: w' :: ws')) with (w ++ space :: join_with space (w' :: ws')).
    rewrite split_whitespace_cons by done. by rewrite IH.
Qed.

Lemma join_head_last ws :
  Forall word ws -> ws ≠ [] ->
  (∀ c, head (join_with space ws) = Some c -> is_whitespace c = false) ∧
  (∀ c, last (join_with space ws) = Some c -> is_whitespace c = false) ∧
  join_with space ws ≠ [].
Proof.
  induction 1 as [|w ws Hw Hws IH]; [done|]. intros _. destruct Hw as [Hne Hw].
  destruct ws as [|w' ws'].
  - cbn. split_and!; [| |done]; intros c Hc; apply Hw.
    + by apply head_Some_elem_of.
    + by apply last_Some_elem_of.
  - change (join_with space (w :: w' :: ws')) with (w ++ space :: join_with space (w' :: ws')).
    destruct IH as (_ & IHl & IHn); [done|]. split_and!.
    + intros c Hc. apply Hw. destruct w; [done|]. injection Hc as <-. left.
    + intros c. rewrite last_app_cons, last_cons.
      destruct (last (join_with space (w' :: ws'))) eqn:E; [intros [= <-]; by apply IHl|].
      by apply last_None in E.
    + by destruct w.
Qed.

Lemma join_elem c sep ws :
  c ∈ join_with sep ws -> c = sep ∨ ∃ w, w ∈ ws ∧ c ∈ w.
Proof.
  induction ws as [|w ws IH]; [set_solver|]. destruct ws as [|w' ws'].
  - cbn. intros Hc. right. exists w. split; [left|done].
  - change (join_with sep (w :: w' :: ws')) with (w ++ sep :: join_with sep (w' :: ws')).
    rewrite elem_of_app, elem_of_cons. intros [Hc|[Hc|Hc]]; [|by left|].
    + right. exists w. split; [left|done].
    + destruct (IH Hc) as [?|(x & Hx & ?)]; [by left|right]. exists x. split; [by right|done].
Qed.

(** Lines that end in a newline come back as they were. *)
Lemma split_on_cons_ne c l s : c ∉ l -> split_on c (l ++ c :: s) = l :: split_on c s.
Proof.
  induction l as [|x l IH]; intros H; cbn; [by rewrite ascii_eqb_refl|].
  destruct (ascii_eqb x c) eqn:E; [apply ascii_eqb_eq in E; set_solver|].
  rewrite IH; [done|set_solver].
Qed.

Lemma split_on_ne c s : split_on c s ≠ [].
Proof. destruct s as [|x s]; cbn; [done|]. destruct (ascii_eqb x c); [done|]. by destruct (split_on c s). Qed.

Definition unlines (ls : list str) : str := concat (map (λ l, l ++ [newline]) ls).

Lemma lines_unlines ls :
  Forall (λ l, (newline ∉ l) ∧ last l ≠ Some carriage_return) ls -> lines (unlines ls) = ls.
Proof.
  unfold lines. induction 1 as [|l ls [Hn Hr] _ IH]; [done|].
  unfold unlines in *. cbn [map concat]. rewrite <- app_assoc. cbn [app].
  rewrite split_on_cons_ne by done. revert IH.
  pose proof (split_on_ne newline (concat (map (λ l, l ++ [newline]) ls))) as Hne.
  destruct (split_on newline _) as [|x xs]; [done|]. intros IH.
  change (lines_of (l :: x :: xs)) with (strip_suffix carriage_return l :: lines_of (x :: xs)).
  rewrite IH. f_equal. unfold strip_suffix.
  destruct (rev l) as [|c r] eqn:El; [done|].
  destruct (ascii_eqb c carriage_return) eqn:Ec; [|done]. apply ascii_eqb_eq in Ec as ->.
  exfalso. apply Hr. by rewrite last_head_rev, El.
Qed.

(** ** Addresses survive printing *)

Lemma span_digits_app radix ds rest acc n v :
  Forall2 (λ c d, to_digit radix c = Some d) ds v ->
  (∀ c, head rest = Some c -> to_digit radix c = None) ->
  span_digits radix acc n (ds ++ rest)
  = (fold_left (λ a d, a * radix + d) v acc, (n + length ds)%nat, rest).
Proof.
  intros Hds Hrest. revert acc n. induction Hds as [|c d ds v Hc _ IH]; intros acc n; cbn.
  - rewrite Nat.add_0_r. destruct rest as [|c rest]; [done|]. cbn. by rewrite Hrest.
  - rewrite Hc, IH. f_equal. f_equal. lia.
Qed.

(** The digits of an octet. *)
Definition octet_digits (z : Z) : list Z :=
  if z <? 10 then [z] else if z <? 100 then [z / 10; z mod 10] else [z / 100; z / 10 mod 10; z mod 10].

Definition octet_okb (z : Z) : bool :=
  forallb (λ p, bool_decide (to_digit 10 p.1 = Some p.2)) (zip (print_octet z) (octet_digits z))
  && (length (print_octet z) =? length (octet_digits z))%nat
  && (fold_left (λ a d, a * 10 + d) (octet_digits z) 0 =? z)
  && (length (print_octet z) <=? 3)%nat && (1 <=? length (print_octet z))%nat
  && negb (match print_octet z with c :: _ => ascii_eqb c (chr 48) | [] => false end
           && (1 <? length (print_octet z))%nat).

Lemma octet_ok z : 0 <= z < 256 -> octet_okb z = true.
Proof.
  intros Hz. assert (forallb octet_okb (seqZ 0 256) = true) as H by (vm_compute; reflexivity).
  rewrite forallb_elem in H. apply H. by apply elem_of_seqZ.
Qed.

Lemma read_print_octet z rest :
  0 <= z < 256 -> (∀ c, head rest = Some c -> to_digit 10 c = None) ->
  read_number 10 3 false 255 (print_octet z ++ rest) = Some (z, rest).
Proof.
  intros Hz Hrest. pose proof (octet_ok z Hz) as H. unfold octet_okb in H.
  rewrite !andb_true_iff, Nat.eqb_eq, Z.eqb_eq, !Nat.leb_le, negb_true_iff in H.
  destruct H as (((((Hd & Hl) & Hv) & H3) & H1) & H0).
  unfold read_number.
  rewrite (span_digits_app 10 (print_octet z) rest 0 0 (octet_digits z)); [|
    |done].
  - rewrite Hv. cbn [Nat.add].
    rewrite (proj2 (Nat.ltb_ge _ _)), (proj2 (Nat.eqb_neq _ _)) by lia. cbn [negb andb].
    destruct (print_octet z) as [|c ds]; [cbn in H1; lia|]. cbn [app]. rewrite H0.
    by rewrite (proj2 (Z.leb_le _ _)) by lia.
  - apply Forall2_same_length_lookup_2; [done|]. intros i c d Hc Hdd.
    rewrite forallb_elem in Hd. specialize (Hd (c, d)).
    rewrite bool_decide_eq_true in Hd. apply Hd. apply list_elem_of_lookup. exists i.
    by rewrite lookup_zip_with, Hc, Hdd.
Qed.

Lemma dot_not_digit c s : head (dot :: s) = Some c -> to_digit 10 c = None.
Proof. by intros [= <-]. Qed.

Lemma parse_print_ipv4 a : 0 <= a < 2 ^ 32 -> parse_ipv4 (print_ipv4 a) = Some a.
Proof.
  intros Ha. unfold parse_ipv4, read_ipv4_addr, print_ipv4, read_octet, read_separator.
  change (0 <? 0)%nat with false. change (0 <? 1)%nat with true.
  change (0 <? 2)%nat with true. change (0 <? 3)%nat with true. cbv iota.
  assert (∀ k, 0 <= a / k mod 256 < 256) as Hm by (intros; apply Z.mod_pos_bound; lia).
  assert (0 <= a / 2 ^ 24 < 256) as H24.
  { split; [apply Z.div_pos; lia|]. apply Z.div_lt_upper_bound; lia. }
  assert (0 <= a mod 256 < 256) as H0 by (apply Z.mod_pos_bound; lia).
  rewrite read_print_octet by eauto using dot_not_digit. cbn [read_given_char ascii_eqb].
  change (ascii_eqb dot dot) with true. cbv iota.
  rewrite read_print_octet by eauto using dot_not_digit.
  cbn [read_given_char]. change (ascii_eqb dot dot) with true. cbv iota.
  rewrite read_print_octet by eauto using dot_not_digit.
  cbn [read_given_char]. change (ascii_eqb dot dot) with true. cbv iota.
  rewrite <- (app_nil_r (print_octet (a mod 256))), read_print_octet by done.
  cbn [whole]. f_equal. unfold ipv4.
  pose proof (Z.div_mod a 256 ltac:(lia)). pose proof (Z.div_mod (a / 256) 256 ltac:(lia)).
  pose proof (Z.div_mod (a / 256 / 256) 256 ltac:(lia)).
  rewrite !Z.div_div in * by lia.
  change (2 ^ 24) with (256 * 256 * 256). change (2 ^ 16) with (256 * 256).
  change (2 ^ 8) with 256. lia.
Qed.

Lemma parse_ip_ipv4 s a : parse_ipv4 s = Some a -> parse_ip s = Some (V4 a).
Proof.
  unfold parse_ipv4, parse_ip. destruct (read_ipv4_addr s) as [[b r]|]; [|done].
  cbn. destruct r; [by intros [= ->]|done].
Qed.

Lemma code_chr z : 0 <= z < 256 -> code (chr z) = z.
Proof. intros Hz. unfold code, chr. rewrite N_ascii_embedding; lia. Qed.

(** The characters of a printed address. *)
Definition address_char (c : ascii) : Prop := c = dot ∨ 48 <= code c <= 57.

Lemma digits_of_chars fuel z c : c ∈ digits_of fuel z -> address_char c.
Proof.
  revert z. induction fuel as [|fuel IH]; intros z; [set_solver|]. cbn.
  rewrite elem_of_app, list_elem_of_singleton. intros [Hc| ->].
  - case_match; [set_solver|by eapply IH].
  - right. pose proof (Z.mod_pos_bound z 10 ltac:(lia)). rewrite code_chr; lia.
Qed.

Lemma print_ipv4_chars a c : c ∈ print_ipv4 a -> address_char c.
Proof.
  unfold print_ipv4, print_octet. rewrite elem_of_app, elem_of_cons, elem_of_app, elem_of_cons,
    elem_of_app, elem_of_cons.
  intros [H|[->|[H|[->|[H|[->|H]]]]]]; first [by left | by eapply digits_of_chars].
Qed.

Lemma address_char_not_space c : address_char c -> is_whitespace c = false.
Proof.
  intros [->|H]; [done|]. unfold is_whitespace. apply orb_false_iff.
  split; [apply Z.eqb_neq; lia|]. apply andb_false_iff. right. apply Z.leb_gt. lia.
Qed.

Lemma print_ipv4_word a : word (print_ipv4 a).
Proof.
  split.
  - unfold print_ipv4. destruct (print_octet (a / 2 ^ 24)); done.
  - intros c Hc. by eapply address_char_not_space, print_ipv4_chars.
Qed.

(** The display form reads back, on addresses of every shape. *)
Lemma print_ipv6_examples :
  Forall (λ a, parse_ipv6 (print_ipv6 a) = Some a)
    [0; 1; ipv6 [8193; 3512; 0; 0; 1; 0; 0; 1]; ipv6 [65152; 0; 0; 0; 0; 0; 0; 0];
     to_ipv6_mapped (ipv4 192 0 2 1); ipv6 [1; 0; 2; 3; 4; 5; 6; 7]; ipv6 [8193; 0; 0; 0; 0; 0; 0; 0]] ∧
  print_ipv6 (ipv6 [8193; 3512; 0; 0; 1; 0; 0; 1]) = lit "2001:db8::1:0:0:1".
Proof. split; [repeat constructor|]; vm_compute; reflexivity. Qed.
