(* ===== verification/Urls.v ===== *)
(** * URLs

    The [url] crate is a parameter of the parsers that use it: [UrlLib] carries its
    [Url::parse] with the accessors the program calls, and [UrlLaws] what its
    documentation says of them.  [plain_urls] is an instance for plain URLs, without
    escapes and international names. *)

From Stdlib Require Import Ascii String.
From S2P Require Import Prelude.
From S2P Require Import Names.
From S2P Require Import Text.

(** [port()] is the port that was written unless it is the default of the scheme. *)
Record Url : Type := mk_Url {
  u_scheme : str;
  u_username : str;
  u_password : option str;
  u_host : option str;
  u_port : option Z;
  u_path : str;
  u_query_pairs : list (str * str)
}.

Class UrlLib : Type := { url_parse : str -> result str Url }.

(** The default ports the crate knows of the schemes the program accepts. *)
Definition scheme_port (scheme : str) : option Z :=
  if str_eqb scheme (lit "http") then Some 80
  else if str_eqb scheme (lit "https") then Some 443
  else None.

Class UrlLaws {UL : UrlLib} : Prop := {
  url_default_port s u : url_parse s = Ok u -> is_Some (u_port u) -> u_port u ≠ scheme_port (u_scheme u);
  url_port_range s u p : url_parse s = Ok u -> u_port u = Some p -> 0 <= p <= u16_max;
  url_path_of_web s u :
    url_parse s = Ok u -> is_Some (scheme_port (u_scheme u)) -> starts_with (u_path u) (lit "/") = true
}.

(** ** Plain URLs *)

Definition is_char (c : string) (x : ascii) : bool :=
  match lit c with [y] => ascii_eqb x y | _ => false end.

Definition authority_of (scheme authority : str) : result str (str * option str * str * option Z) :=
  let '(user, pass, hostport) :=
    match split_once (is_char "@") authority with
    | Some (info, rest) =>
        match split_once (is_char ":") info with
        | Some (u, p) => (u, Some p, rest)
        | None => (info, None, rest)
        end
    | None => ([], None, authority)
    end in
  let '(host, port) :=
    if starts_with hostport (lit "[") then
      match split_once (is_char "]") hostport with
      | Some (h, p) => (h ++ lit "]", p)
      | None => (hostport, [])
      end
    else
      match split_once (is_char ":") hostport with
      | Some (h, p) => (h, lit ":" ++ p)
      | None => (hostport, [])
      end in
  match port with
  | [] => Ok (user, pass, host, None)
  | _ :: digits =>
      match parse_uint u16_max digits with
      | None => Err (lit "invalid port number")
      | Some p =>
          Ok (user, pass, host,
              if bool_decide (Some p = scheme_port scheme) then None else Some p)
      end
  end.

Definition pairs_of (query : str) : list (str * str) :=
  map (λ kv, default (kv, []) (split_once (is_char "=") kv))
    (List.filter (λ kv, negb (is_empty kv)) (split_pred (is_char "&") query)).

Definition plain_parse (s : str) : result str Url :=
  match split_once (is_char ":") s with
  | None => Err (lit "relative URL without a base")
  | Some (scheme, rest) =>
      let scheme := to_ascii_lowercase scheme in
      let rest := drop 2 rest in
      let '(before, query) := default (rest, []) (split_once (is_char "?") rest) in
      let '(authority, path) :=
        match split_once (is_char "/") before with
        | Some (a, p) => (a, lit "/" ++ p)
        | None => (before, if bool_decide (is_Some (scheme_port scheme)) then lit "/" else [])
        end in
      match authority_of scheme authority with
      | Err e => Err e
      | Ok (user, pass, host, port) =>
          Ok (mk_Url scheme user pass (if is_empty host then None else Some host) port path
                (pairs_of query))
      end
  end.

#[local] Instance plain_urls : UrlLib := { url_parse := plain_parse }.

Lemma parse_digits_range max acc s z : 0 <= acc <= max -> parse_digits max acc s = Some z -> 0 <= z <= max.
Proof.
  revert acc. induction s as [|c s IH]; intros acc Hacc; cbn; [by intros [= <-]|].
  destruct (to_digit 10 c) as [d|] eqn:Hd; [|done].
  destruct (Z.leb_spec (acc * 10 + d) max); [|done]. apply IH.
  assert (0 <= d); [|lia]. unfold to_digit in Hd. repeat case_match; simplify_eq; lia.
Qed.

Lemma parse_uint_range max s z : 0 <= max -> parse_uint max s = Some z -> 0 <= z <= max.
Proof.
  intros Hm. unfold parse_uint. repeat case_match; try done; intros Hz%parse_digits_range; lia.
Qed.

Lemma authority_port scheme authority user pass host port :
  authority_of scheme authority = Ok (user, pass, host, port) ->
  ∀ p, port = Some p -> 0 <= p <= u16_max ∧ Some p ≠ scheme_port scheme.
Proof.
  unfold authority_of. intros H p ->.
  destruct (match split_once (is_char "@") authority with Some _ => _ | None => _ end) as [[u pw] hp].
  destruct (if starts_with hp (lit "[") then _ else _) as [h [|c digits]]; [done|].
  destruct (parse_uint u16_max digits) as [q|] eqn:Hq; [|done].
  destruct (bool_decide_reflect (Some q = scheme_port scheme)) as [|Hne]; simplify_eq.
  split; [by eapply parse_uint_range|done].
Qed.

#[local] Instance plain_urls_laws : UrlLaws.
Proof.
  assert (∀ s u, plain_parse s = Ok u ->
    (∀ p, u_port u = Some p -> 0 <= p <= u16_max ∧ Some p ≠ scheme_port (u_scheme u)) ∧
    (is_Some (scheme_port (u_scheme u)) -> starts_with (u_path u) (lit "/") = true)) as H.
  { intros s u. unfold plain_parse. destruct (split_once _ s) as [[scheme rest]|]; [|done].
    cbn zeta. destruct (default _ _) as [before query].
    destruct (match split_once (is_char "/") before with Some _ => _ | None => _ end)
      as [authority path] eqn:Hpath.
    destruct (authority_of _ _) as [[[[user pass] host] port]|] eqn:Ha; [|done].
    intros [= <-]. cbn [u_port u_scheme u_path]. split; [by eapply authority_port|].
    intros Hsp. destruct (split_once (is_char "/") before) as [[a p]|]; simplify_eq; [done|].
    by rewrite bool_decide_true. }
  split; cbn.
  - intros s u Hu [p Hp] Heq. destruct (H s u Hu) as [Hport _]. specialize (Hport p Hp). destruct Hport.
    congruence.
  - intros s u p Hu Hp. by apply (H s u Hu).
  - intros s u Hu. apply (H s u Hu).
Qed.
