(* ===== verification/Catalog.v ===== *)
(** * The built-in resolver catalog

    [src/config/builtins.rs]: the public resolvers with their endpoints, the profiles
    [builtin:] names, and the lookups that map a handle, an address or an endpoint
    host name to its operator.  The free-text notes of an entry are left out. *)

From Stdlib Require Import Ascii String.
From S2P Require Import Prelude.
From S2P Require Import Names.
From S2P Require Import Net.
From S2P Require Import Text.

Inductive FilteringPolicy : Set := Unfiltered | SecurityFiltered | AdBlocking.

#[global] Instance FilteringPolicy_eq_dec : EqDecision FilteringPolicy.
Proof. solve_decision. Defined.

Record Provider : Type := mk_Provider {
  pr_id : str;
  pr_operator : str;
  pr_aliases : list str;
  pr_addresses : list str;
  pr_doh : option str;
  pr_dot : option str;
  pr_doq : option str;
  pr_filtering : FilteringPolicy;
  pr_source : str;
  pr_verified : str
}.

#[global] Instance Provider_eq_dec : EqDecision Provider.
Proof. solve_decision. Defined.

Definition provider_cloudflare : Provider := {|
  pr_id := lit "cloudflare";
  pr_operator := lit "Cloudflare";
  pr_aliases := [lit "cloudflare"; lit "cloudflare-dns.com"; lit "one.one.one.one"];
  pr_addresses := [lit "1.1.1.1"; lit "1.0.0.1"; lit "2606:4700:4700::1111";
                lit "2606:4700:4700::1001"];
  pr_doh := Some (lit "https://cloudflare-dns.com/dns-query");
  pr_dot := Some (lit "cloudflare-dns.com");
  pr_doq := None;
  pr_filtering := Unfiltered;
  pr_source := lit "https://developers.cloudflare.com/1.1.1.1/setup/";
  pr_verified := lit "2026-08-20"
|}.

Definition provider_google : Provider := {|
  pr_id := lit "google";
  pr_operator := lit "Google";
  pr_aliases := [lit "google"; lit "dns.google"];
  pr_addresses := [lit "8.8.8.8"; lit "8.8.4.4"; lit "2001:4860:4860::8888";
                lit "2001:4860:4860::8844"];
  pr_doh := Some (lit "https://dns.google/dns-query");
  pr_dot := Some (lit "dns.google");
  pr_doq := None;
  pr_filtering := Unfiltered;
  pr_source := lit "https://developers.google.com/speed/public-dns/docs/using";
  pr_verified := lit "2026-08-20"
|}.

Definition provider_quad9 : Provider := {|
  pr_id := lit "quad9";
  pr_operator := lit "Quad9 Foundation";
  pr_aliases := [lit "quad9"; lit "dns.quad9.net"];
  pr_addresses := [lit "9.9.9.9"; lit "149.112.112.112"; lit "2620:fe::fe"; lit "2620:fe::9"];
  pr_doh := Some (lit "https://dns.quad9.net/dns-query");
  pr_dot := Some (lit "dns.quad9.net");
  pr_doq := None;
  pr_filtering := SecurityFiltered;
  pr_source := lit "https://www.quad9.net/service/service-addresses-and-features/";
  pr_verified := lit "2026-08-20"
|}.

Definition provider_quad9_unfiltered : Provider := {|
  pr_id := lit "quad9-unfiltered";
  pr_operator := lit "Quad9 Foundation";
  pr_aliases := [lit "quad9-unfiltered"; lit "dns10.quad9.net"];
  pr_addresses := [lit "9.9.9.10"; lit "149.112.112.10"; lit "2620:fe::10"; lit "2620:fe::fe:10"];
  pr_doh := Some (lit "https://dns10.quad9.net/dns-query");
  pr_dot := Some (lit "dns10.quad9.net");
  pr_doq := None;
  pr_filtering := Unfiltered;
  pr_source := lit "https://www.quad9.net/service/service-addresses-and-features/";
  pr_verified := lit "2026-08-20"
|}.

Definition provider_dnssb : Provider := {|
  pr_id := lit "dnssb";
  pr_operator := lit "DNS.SB";
  pr_aliases := [lit "dnssb"; lit "dns.sb"; lit "doh.dns.sb"];
  pr_addresses := [lit "185.222.222.222"; lit "45.11.45.11"; lit "2a09::"; lit "2a11::"];
  pr_doh := Some (lit "https://doh.dns.sb/dns-query");
  pr_dot := Some (lit "dot.sb");
  pr_doq := None;
  pr_filtering := Unfiltered;
  pr_source := lit "https://dns.sb/doh/";
  pr_verified := lit "2026-08-20"
|}.

Definition provider_mullvad : Provider := {|
  pr_id := lit "mullvad";
  pr_operator := lit "Mullvad VPN AB";
  pr_aliases := [lit "mullvad"; lit "dns.mullvad.net"];
  pr_addresses := [lit "194.242.2.2"; lit "2a07:e340::2"];
  pr_doh := Some (lit "https://dns.mullvad.net/dns-query");
  pr_dot := Some (lit "dns.mullvad.net");
  pr_doq := None;
  pr_filtering := Unfiltered;
  pr_source := lit "https://mullvad.net/en/help/dns-over-https-and-dns-over-tls";
  pr_verified := lit "2026-08-20"
|}.

Definition provider_dns0 : Provider := {|
  pr_id := lit "dns0";
  pr_operator := lit "DNS0.eu";
  pr_aliases := [lit "dns0"; lit "dns0.eu"];
  pr_addresses := [lit "193.110.81.0"; lit "185.253.5.0"; lit "2a0f:fc80::"; lit "2a0f:fc81::"];
  pr_doh := Some (lit "https://dns0.eu/");
  pr_dot := Some (lit "dns0.eu");
  pr_doq := None;
  pr_filtering := SecurityFiltered;
  pr_source := lit "https://www.dns0.eu/";
  pr_verified := lit "2026-08-20"
|}.

Definition provider_dns0_open : Provider := {|
  pr_id := lit "dns0-open";
  pr_operator := lit "DNS0.eu";
  pr_aliases := [lit "dns0-open"; lit "open.dns0.eu"];
  pr_addresses := [lit "193.110.81.9"; lit "185.253.5.9"; lit "2a0f:fc80::9"; lit "2a0f:fc81::9"];
  pr_doh := Some (lit "https://open.dns0.eu/");
  pr_dot := Some (lit "open.dns0.eu");
  pr_doq := None;
  pr_filtering := Unfiltered;
  pr_source := lit "https://www.dns0.eu/open";
  pr_verified := lit "2026-08-20"
|}.

Definition provider_adguard : Provider := {|
  pr_id := lit "adguard";
  pr_operator := lit "AdGuard";
  pr_aliases := [lit "adguard"; lit "dns.adguard-dns.com"];
  pr_addresses := [lit "94.140.14.14"; lit "94.140.15.15"; lit "2a10:50c0::ad1:ff";
                lit "2a10:50c0::ad2:ff"];
  pr_doh := Some (lit "https://dns.adguard-dns.com/dns-query");
  pr_dot := Some (lit "dns.adguard-dns.com");
  pr_doq := Some (lit "dns.adguard-dns.com");
  pr_filtering := AdBlocking;
  pr_source := lit "https://adguard-dns.io/en/public-dns.html";
  pr_verified := lit "2026-08-20"
|}.

Definition provider_adguard_unfiltered : Provider := {|
  pr_id := lit "adguard-unfiltered";
  pr_operator := lit "AdGuard";
  pr_aliases := [lit "adguard-unfiltered"; lit "unfiltered.adguard-dns.com"];
  pr_addresses := [lit "94.140.14.140"; lit "94.140.14.141"; lit "2a10:50c0::1:ff";
                lit "2a10:50c0::2:ff"];
  pr_doh := Some (lit "https://unfiltered.adguard-dns.com/dns-query");
  pr_dot := Some (lit "unfiltered.adguard-dns.com");
  pr_doq := Some (lit "unfiltered.adguard-dns.com");
  pr_filtering := Unfiltered;
  pr_source := lit "https://adguard-dns.io/en/public-dns.html";
  pr_verified := lit "2026-08-20"
|}.

Definition provider_opendns : Provider := {|
  pr_id := lit "opendns";
  pr_operator := lit "Cisco OpenDNS";
  pr_aliases := [lit "opendns"; lit "dns.opendns.com"];
  pr_addresses := [lit "208.67.222.222"; lit "208.67.220.220"; lit "2620:119:35::35";
                lit "2620:119:53::53"];
  pr_doh := Some (lit "https://doh.opendns.com/dns-query");
  pr_dot := None;
  pr_doq := None;
  pr_filtering := SecurityFiltered;
  pr_source := lit "https://www.opendns.com/setupguide/";
  pr_verified := lit "2026-08-20"
|}.

Definition provider_alidns : Provider := {|
  pr_id := lit "alidns";
  pr_operator := lit "Alibaba Cloud";
  pr_aliases := [lit "alidns"; lit "dns.alidns.com"];
  pr_addresses := [lit "223.5.5.5"; lit "223.6.6.6"; lit "2400:3200::1"; lit "2400:3200:baba::1"];
  pr_doh := Some (lit "https://dns.alidns.com/dns-query");
  pr_dot := Some (lit "dns.alidns.com");
  pr_doq := None;
  pr_filtering := Unfiltered;
  pr_source := lit "https://alidns.com/";
  pr_verified := lit "2026-08-20"
|}.

Definition provider_dnspod : Provider := {|
  pr_id := lit "dnspod";
  pr_operator := lit "Tencent DNSPod";
  pr_aliases := [lit "dnspod"; lit "doh.pub"];
  pr_addresses := [lit "119.29.29.29"; lit "119.28.28.28"];
  pr_doh := Some (lit "https://doh.pub/dns-query");
  pr_dot := Some (lit "dot.pub");
  pr_doq := None;
  pr_filtering := Unfiltered;
  pr_source := lit "https://www.dnspod.cn/products/publicdns";
  pr_verified := lit "2026-08-20"
|}.

Definition CATALOG : list Provider :=
  [provider_cloudflare; provider_google; provider_quad9; provider_quad9_unfiltered;
   provider_dnssb; provider_mullvad; provider_dns0; provider_dns0_open; provider_adguard;
   provider_adguard_unfiltered; provider_opendns; provider_alidns; provider_dnspod].

Record Profile : Type := mk_Profile {
  pf_name : str;
  pf_description : str;
  pf_members : list str
}.

Definition PROFILES : list Profile :=
  [ mk_Profile (lit "recommended")
      (lit "Independent, general-purpose, unfiltered resolvers. The default.")
      [lit "cloudflare"; lit "google"; lit "quad9-unfiltered"; lit "dnssb"; lit "mullvad"];
    mk_Profile (lit "global")
      (lit "Widely reachable resolvers, unfiltered.")
      [lit "cloudflare"; lit "google"; lit "quad9-unfiltered"; lit "dnssb"; lit "mullvad";
       lit "dns0-open"; lit "adguard-unfiltered"];
    mk_Profile (lit "china")
      (lit "Resolvers reachable with low latency from mainland China.")
      [lit "alidns"; lit "dnspod"; lit "cloudflare"];
    mk_Profile (lit "privacy")
      (lit "Operators with an explicit no-logging policy.")
      [lit "mullvad"; lit "dnssb"; lit "quad9-unfiltered"; lit "dns0-open"];
    mk_Profile (lit "security-filtered")
      (lit "Resolvers that withhold known-malicious names.")
      [lit "quad9"; lit "dns0"; lit "cloudflare"];
    mk_Profile (lit "ad-blocking")
      (lit "Resolvers that withhold advertising and tracking names.")
      [lit "adguard"; lit "mullvad"] ].

(** ** Lookups *)

(** [s.trim_start_matches("https://")]: every copy of the prefix in front. *)
Fixpoint trim_start_str (fuel : nat) (prefix s : str) : str :=
  match fuel with
  | O => s
  | S fuel => if starts_with s prefix then trim_start_str fuel prefix (drop (length prefix) s) else s
  end.

Definition slash : ascii := "/"%char.

(** [url.trim_start_matches("https://").split('/').next()]: the host of an endpoint. *)
Definition doh_host (url : str) : str :=
  match split_on slash (trim_start_str (length url) (lit "https://") url) with
  | host :: _ => host
  | [] => url
  end.

Definition endpoint_hosts (p : Provider) : list str :=
  match pr_doh p with Some url => [doh_host url] | None => [] end
  ++ match pr_dot p with Some h => [h] | None => [] end
  ++ match pr_doq p with Some h => [h] | None => [] end.

(** How every lookup reads a name. *)
Definition catalog_key (name : str) : str := to_ascii_lowercase (trim_end_matches dot name).

Definition eq_ignore_case (a b : str) : bool :=
  str_eqb (to_ascii_lowercase a) (to_ascii_lowercase b).

Definition known_as (key : str) (p : Provider) : bool :=
  str_eqb (pr_id p) key || existsb (λ a, str_eqb a key) (pr_aliases p)
  || existsb (λ a, str_eqb a key) (pr_addresses p)
  || existsb (λ h, eq_ignore_case h key) (endpoint_hosts p).

Definition provider (name : str) : option Provider :=
  find (known_as (catalog_key name)) CATALOG.

Definition is_bare_alias (name : str) : bool :=
  let key := catalog_key name in
  match provider key with
  | None => false
  | Some p =>
      if existsb (λ h, eq_ignore_case h key) (endpoint_hosts p) then false
      else str_eqb (pr_id p) key || existsb (λ a, str_eqb a key) (pr_aliases p)
  end.

Inductive EndpointTransport : Set := TDoh | TDot | TDoq.

(** [a.or(b).or(c)]. *)
Definition or_else {A} (a b : option A) : option A := match a with Some _ => a | None => b end.

Definition alias_endpoint_host (name : str) (transport : EndpointTransport) : option str :=
  match provider name with
  | None => None
  | Some p =>
      let doh_host := doh_host <$> pr_doh p in
      match transport with
      | TDoh => or_else doh_host (or_else (pr_dot p) (pr_doq p))
      | TDot => or_else (pr_dot p) (or_else doh_host (pr_doq p))
      | TDoq => or_else (pr_doq p) (or_else (pr_dot p) doh_host)
      end
  end.

Definition profile (name : str) : option Profile :=
  let key := to_ascii_lowercase (trim name) in
  find (λ p, str_eqb (pf_name p) key) PROFILES.

(** The endpoints one provider contributes to a profile. *)
Definition provider_endpoints (p : Provider) : list str :=
  take 1 (pr_addresses p)
  ++ match pr_doh p, pr_dot p with
     | Some url, _ => [url]
     | None, Some host => [lit "tls://" ++ host]
     | None, None => []
     end.

Definition expand_profile (name : str) : option (list str) :=
  match profile name with
  | None => None
  | Some pf =>
      Some (concat (map (λ id, match provider id with
                               | Some p => provider_endpoints p
                               | None => []
                               end) (pf_members pf)))
  end.

Definition profile_names : list str := map pf_name PROFILES.

Definition authority_for (host : str) : option str := pr_id <$> provider (catalog_key host).

(** ** What the catalog promises *)

(** Everything a provider can be referred to by. *)
Definition handles (p : Provider) : list str :=
  pr_id p :: pr_aliases p ++ pr_addresses p ++ endpoint_hosts p.

Lemma catalog_key_idem name : catalog_key (catalog_key name) = catalog_key name.
Proof.
  unfold catalog_key. set (s := trim_end_matches dot name).
  assert (trim_end_matches dot (to_ascii_lowercase s) = to_ascii_lowercase s) as ->;
    [|apply to_ascii_lowercase_idem].
  unfold trim_end_matches, to_ascii_lowercase. rewrite <- map_rev.
  rewrite drop_while_ne; [rewrite <- map_rev, rev_involutive; reflexivity|].
  unfold s, trim_end_matches. rewrite rev_involutive.
  induction (rev name) as [|c r IH]; cbn; [done|].
  destruct (ascii_eqb c dot) eqn:E; [done|]. cbn. intros [= Hc].
  rewrite (proj1 (lower_ascii_dot c) Hc), ascii_eqb_refl in E. discriminate.
Qed.

Lemma catalog_unambiguous :
  forallb (λ p, forallb (λ x, bool_decide (find (known_as (catalog_key x)) CATALOG = Some p))
                  (handles p)) CATALOG = true.
Proof. vm_compute. reflexivity. Qed.

(** Every name, alias, address and endpoint host of the catalog stands for one
    provider, however it is capitalised and whether or not it ends in dots; so two
    routes to one provider are one authority, and a second opinion never comes from
    the first. *)
Theorem catalog_names_one_authority p x name
    (Hp : p ∈ CATALOG) (Hx : x ∈ handles p) (Hname : catalog_key name = catalog_key x) :
  provider name = Some p ∧ authority_for name = Some (pr_id p).
Proof.
  pose proof catalog_unambiguous as H. rewrite forallb_forall in H.
  specialize (H p (proj1 (list_elem_of_In _ _) Hp)). rewrite forallb_forall in H.
  specialize (H x (proj1 (list_elem_of_In _ _) Hx)). apply bool_decide_eq_true in H.
  unfold authority_for, provider. rewrite catalog_key_idem, Hname. by rewrite H.
Qed.

(** A profile lists known providers of different operators, and each contributes a
    plain address, which needs no name resolution, and an encrypted endpoint. *)
Lemma profiles_are_diverse :
  forallb (λ pf,
    let ps := omap provider (pf_members pf) in
    (length ps =? length (pf_members pf))%nat
    && bool_decide (NoDup (map pr_operator ps))
    && forallb (λ p, match provider_endpoints p with
                     | [seed; uri] => bool_decide (is_Some (parse_ip seed))
                                      && starts_with uri (lit "https://")
                     | _ => false
                     end) ps) PROFILES = true.
Proof. vm_compute. reflexivity. Qed.

(** The recommended pool has no filtering resolver. *)
Lemma recommended_is_unfiltered :
  (map pr_filtering <$> (omap provider ∘ pf_members <$> profile (lit "recommended"))) =
    Some (repeat Unfiltered 5).
Proof. vm_compute. reflexivity. Qed.

(** The filtered profiles contain a provider that does not filter. *)
Lemma filtered_profiles_mix_policies :
  ((omap provider ∘ pf_members <$> profile (lit "security-filtered")) ≫= last) =
    Some provider_cloudflare ∧
  ((omap provider ∘ pf_members <$> profile (lit "ad-blocking")) ≫= last) = Some provider_mullvad ∧
  pr_filtering provider_cloudflare = Unfiltered ∧ pr_filtering provider_mullvad = Unfiltered.
Proof. by vm_compute. Qed.

(** Two entries of one operator are two authorities. *)
Lemma one_operator_two_authorities :
  pr_operator provider_quad9 = pr_operator provider_quad9_unfiltered ∧
  authority_for (lit "9.9.9.9") = Some (lit "quad9") ∧
  authority_for (lit "9.9.9.10") = Some (lit "quad9-unfiltered").
Proof. by vm_compute. Qed.

Lemma catalog_names_one_authority_witness :
  authority_for (lit "DOH.dns.sb.") = Some (lit "dnssb").
Proof.
  refine (proj2 (catalog_names_one_authority provider_dnssb (lit "doh.dns.sb") (lit "DOH.dns.sb.") _ _ _)).
  - apply list_elem_of_In. vm_compute. tauto.
  - apply list_elem_of_In. vm_compute. tauto.
  - vm_compute. reflexivity.
Defined.
