(* ===== verification/Der.v ===== *)
(** * Certificates

    [src/util/der.rs]: the minimal walker that takes the public key and the issuer's
    common name out of a verified certificate, for pinning.  A reader is the bytes
    that are left; bytes are integers from 0 to 255.  The SHA-256 function is a
    parameter. *)

From Stdlib Require Import Ascii String.
From S2P Require Import Prelude.

Definition MAX_DEPTH : nat := 12.

Record Tlv : Type := mk_Tlv {
  tlv_tag : Z;
  tlv_value : list Z;
  tlv_raw : list Z
}.

(** [n] length octets, most significant first. *)
Fixpoint read_length (n : nat) (v : Z) (buf : list Z) : option (Z * list Z) :=
  match n with
  | O => Some (v, buf)
  | S n =>
      match buf with
      | [] => None
      | b :: buf => read_length n (v * 256 + b) buf
      end
  end.

Definition read_tlv (buf : list Z) : option (Tlv * list Z) :=
  match buf with
  | tag :: first :: rest =>
      if Z.land tag 31 =? 31 then None
      else
        let header :=
          if Z.land first 128 =? 0 then Some (first, rest)
          else
            let n := Z.land first 127 in
            if (n =? 0) || (4 <? n) then None else read_length (Z.to_nat n) 0 rest in
        match header with
        | None => None
        | Some (len, rest') =>
            if Z.of_nat (length rest') <? len then None
            else
              let value := take (Z.to_nat len) rest' in
              let after := drop (Z.to_nat len) rest' in
              Some (mk_Tlv tag value (take (length buf - length after) buf), after)
        end
  | _ => None
  end.

(** Up to [n] elements; [None] when one of them cannot be read. *)
Fixpoint read_fields (n : nat) (buf : list Z) : option (list Tlv) :=
  match n with
  | O => Some []
  | S n =>
      match buf with
      | [] => Some []
      | _ =>
          match read_tlv buf with
          | None => None
          | Some (t, buf) => cons t <$> read_fields n buf
          end
      end
  end.

Definition tbs_certificate (cert : list Z) : option (list Z) :=
  match read_tlv cert with
  | Some (outer, _) =>
      if negb (tlv_tag outer =? 48) then None
      else
        match read_tlv (tlv_value outer) with
        | Some (tbs, _) => if negb (tlv_tag tbs =? 48) then None else Some (tlv_value tbs)
        | None => None
        end
  | None => None
  end.

Definition has_version (fields : list Tlv) : bool :=
  match fields with t :: _ => tlv_tag t =? 160 | [] => false end.

Definition spki_sha256 {D} (sha256 : list Z -> D) (cert : list Z) : option D :=
  match tbs_certificate cert with
  | None => None
  | Some tbs =>
      match read_fields 8 tbs with
      | None => None
      | Some fields =>
          match fields !! (if has_version fields then 6 else 5)%nat with
          | None => None
          | Some spki => if negb (tlv_tag spki =? 48) then None else Some (sha256 (tlv_raw spki))
          end
      end
  end.

(** [String::from_utf8_lossy]: every longest prefix of a character that is not
    completed is replaced by U+FFFD. *)
Definition replacement : list Z := [239; 191; 189].
Definition between (lo hi b : Z) : bool := (lo <=? b) && (b <=? hi).

(** The ranges the bytes after a leading byte must be in. *)
Definition continuation (lead : Z) : option (list (Z * Z)) :=
  if between 194 223 lead then Some [(128, 191)]
  else if lead =? 224 then Some [(160, 191); (128, 191)]
  else if between 225 236 lead || between 238 239 lead then Some [(128, 191); (128, 191)]
  else if lead =? 237 then Some [(128, 159); (128, 191)]
  else if lead =? 240 then Some [(144, 191); (128, 191); (128, 191)]
  else if between 241 243 lead then Some [(128, 191); (128, 191); (128, 191)]
  else if lead =? 244 then Some [(128, 143); (128, 191); (128, 191)]
  else None.

Fixpoint count_matching (ranges : list (Z * Z)) (bytes : list Z) : nat :=
  match ranges, bytes with
  | (lo, hi) :: ranges, b :: bytes => if between lo hi b then S (count_matching ranges bytes) else O
  | _, _ => O
  end.

Fixpoint lossy (fuel : nat) (bytes : list Z) : list Z :=
  match fuel, bytes with
  | S fuel, b :: bytes =>
      if b <? 128 then b :: lossy fuel bytes
      else
        match continuation b with
        | None => replacement ++ lossy fuel bytes
        | Some ranges =>
            let n := count_matching ranges bytes in
            (if (n =? length ranges)%nat then b :: take n bytes else replacement)
            ++ lossy fuel (drop n bytes)
        end
  | _, _ => []
  end.

Definition from_utf8_lossy (bytes : list Z) : list Z := lossy (length bytes) bytes.

Definition OID_COMMON_NAME : list Z := [85; 4; 3].

Definition is_text_tag (tag : Z) : bool :=
  (tag =? 19) || (tag =? 12) || (tag =? 22) || (tag =? 20) || (tag =? 30).

(** One level of the search; [nested] searches the value of a constructed element.
    [fuel] bounds the number of elements. *)
Fixpoint scan_names (nested : list Z -> option (list Z)) (fuel : nat) (last_oid_was_cn : bool)
    (buf : list Z) : option (list Z) :=
  match fuel, buf with
  | S fuel, _ :: _ =>
      match read_tlv buf with
      | None => None
      | Some (t, buf) =>
          if tlv_tag t =? 6 then
            scan_names nested fuel (bool_decide (tlv_value t = OID_COMMON_NAME)) buf
          else if is_text_tag (tlv_tag t) && last_oid_was_cn then
            let text := from_utf8_lossy (tlv_value t) in
            if bool_decide (text = []) || (256 <? length text)%nat then None else Some text
          else if (tlv_tag t =? 48) || (tlv_tag t =? 49) then
            match nested (tlv_value t) with
            | Some found => Some found
            | None => scan_names nested fuel last_oid_was_cn buf
            end
          else scan_names nested fuel false buf
      end
  | _, _ => None
  end.

(** [levels] is how many levels may still be entered. *)
Fixpoint find_common_name (levels : nat) (buf : list Z) : option (list Z) :=
  match levels with
  | O => None
  | S levels => scan_names (find_common_name levels) (length buf) false buf
  end.

Definition issuer_common_name (cert : list Z) : option (list Z) :=
  match tbs_certificate cert with
  | None => None
  | Some tbs =>
      match read_fields 6 tbs with
      | None => None
      | Some fields =>
          match fields !! (if has_version fields then 3 else 2)%nat with
          | None => None
          | Some issuer => find_common_name (S MAX_DEPTH) (tlv_value issuer)
          end
      end
  end.

(** ** Encoding

    The definite-length form of an element, as [X.690] has it. *)

Definition encode_length (n : Z) : list Z :=
  if n <? 128 then [n]
  else if n <? 2 ^ 8 then [129; n]
  else if n <? 2 ^ 16 then [130; n / 2 ^ 8; n mod 256]
  else if n <? 2 ^ 24 then [131; n / 2 ^ 16; n / 2 ^ 8 mod 256; n mod 256]
  else [132; n / 2 ^ 24; n / 2 ^ 16 mod 256; n / 2 ^ 8 mod 256; n mod 256].

Definition encode_tlv (tag : Z) (value : list Z) : list Z :=
  tag :: encode_length (Z.of_nat (length value)) ++ value.

Definition encodable (tag : Z) (value : list Z) : Prop :=
  Z.land tag 31 ≠ 31 ∧ Z.of_nat (length value) < 2 ^ 32.

(** ** Lemmas *)

Lemma take_before {A} (l h tl : list A) : l = h ++ tl -> take (length l - length tl) l = h.
Proof. intros ->. rewrite length_app, Nat.add_sub. apply take_app_length. Qed.

(** What is read is a piece of the input, and at least two bytes of it. *)
Lemma read_length_suffix n v buf len rest :
  read_length n v buf = Some (len, rest) -> ∃ pre, buf = pre ++ rest.
Proof.
  revert v buf. induction n as [|n IH]; intros v buf; cbn [read_length].
  { intros [= _ ->]. by exists []. }
  destruct buf as [|b buf]; [done|]. intros (pre & ->)%IH. by exists (b :: pre).
Qed.

Lemma read_tlv_split buf t rest :
  read_tlv buf = Some (t, rest) ->
  buf = tlv_raw t ++ rest ∧ (2 <= length (tlv_raw t))%nat ∧
  ∃ header, tlv_raw t = header ++ tlv_value t ∧ head header = Some (tlv_tag t).
Proof.
  unfold read_tlv. destruct buf as [|tag [|first rest0]]; [done..|].
  destruct (_ =? 31); [done|]. cbn zeta.
  assert (∀ len rest', (if Z.land first 128 =? 0 then Some (first, rest0)
      else if (Z.land first 127 =? 0) || (4 <? Z.land first 127) then None
           else read_length (Z.to_nat (Z.land first 127)) 0 rest0) = Some (len, rest') ->
    ∃ pre, rest0 = pre ++ rest') as Hpre.
  { intros len rest'. destruct (_ =? 0); [intros [= _ ->]; by exists []|].
    destruct (_ || _); [done|]. apply read_length_suffix. }
  destruct (if Z.land first 128 =? 0 then _ else _) as [[len rest']|]; [|done].
  destruct (Hpre len rest' eq_refl) as (pre & ->). destruct (_ <? len); [done|]. intros [= <- <-].
  cbn [tlv_raw tlv_tag tlv_value].
  set (n := Z.to_nat len). assert (pre ++ rest' = (pre ++ take n rest') ++ drop n rest') as E
    by (by rewrite <- app_assoc, take_drop).
  change (S (S (length (pre ++ rest')))) with (length (tag :: first :: pre ++ rest')).
  rewrite (take_before _ (tag :: first :: pre ++ take n rest') (drop n rest')) by (cbn; by rewrite E).
  split_and!.
  - cbn. by rewrite E.
  - cbn. lia.
  - exists (tag :: first :: pre). done.
Qed.

Lemma scan_names_enough nested fuel last buf :
  (length buf <= fuel)%nat -> scan_names nested fuel last buf = scan_names nested (length buf) last buf.
Proof.
  assert (∀ n buf' last' fuel', (length buf' <= n)%nat -> (length buf' <= fuel')%nat ->
    scan_names nested fuel' last' buf' = scan_names nested (length buf') last' buf') as H.
  { induction n as [|n IH]; intros buf' last' fuel' Hb Hf.
    { destruct buf'; [|cbn in Hb; lia]. by destruct fuel'. }
    destruct buf' as [|b buf']; [by destruct fuel'|]. destruct fuel' as [|fuel']; [cbn in Hf; lia|].
    cbn [length] in *. cbn [scan_names].
    destruct (read_tlv (b :: buf')) as [[t rest]|] eqn:Et; [|done].
    apply read_tlv_split in Et as (E & Hl & _).
    assert (S (length rest) <= length buf')%nat as Hr.
    { apply (f_equal length) in E. rewrite length_app in E. cbn in E. lia. }
    assert (∀ l, scan_names nested fuel' l rest = scan_names nested (length buf') l rest) as Hs.
    { intros l. rewrite (IH rest l fuel'), (IH rest l (length buf')) by lia. done. }
    by rewrite !Hs. }
  intros Hb. by apply (H (length buf)).
Qed.

Lemma land_low_bit n k : 0 <= n < 2 ^ k -> Z.land n (2 ^ k) = 0.
Proof.
  intros Hn. apply Z.bits_inj'. intros i Hi. rewrite Z.land_spec, Z.bits_0.
  assert (0 <= k) by (destruct (Z.lt_ge_cases k 0); [rewrite Z.pow_neg_r in Hn; lia|done]).
  rewrite Z.pow2_bits_eqb by done. destruct (Z.eqb_spec k i) as [->|]; [|by rewrite andb_false_r].
  rewrite andb_true_r. destruct (decide (n = 0)) as [->|Hz]; [apply Z.bits_0|].
  apply Z.bits_above_log2; [lia|]. apply Z.log2_lt_pow2; lia.
Qed.

(** An element reads back as it was written, whatever follows. *)
Lemma read_encoded tag value rest :
  encodable tag value ->
  read_tlv (encode_tlv tag value ++ rest) = Some (mk_Tlv tag value (encode_tlv tag value), rest).
Proof.
  intros [Htag Hlen]. set (n := Z.of_nat (length value)) in *.
  assert (∃ first more, encode_length n = first :: more ∧
    (if Z.land first 128 =? 0 then Some (first, more ++ value ++ rest)
     else if (Z.land first 127 =? 0) || (4 <? Z.land first 127) then None
     else read_length (Z.to_nat (Z.land first 127)) 0 (more ++ value ++ rest)) = Some (n, value ++ rest))
    as (first & more & El & Eh).
  { unfold encode_length. destruct (Z.ltb_spec n 128).
    { exists n, []. change 128 with (2 ^ 7). rewrite (land_low_bit n 7) by (unfold n; lia). done. }
    destruct (Z.ltb_spec n (2 ^ 8)); [|destruct (Z.ltb_spec n (2 ^ 16)); [|destruct (Z.ltb_spec n (2 ^ 24))]].
    1: exists 129, [n]; split; [done|]; transitivity (read_length 1 0 ([n] ++ value ++ rest)); [done|].
    2: exists 130, [n / 2 ^ 8; n mod 256]; split; [done|];
      transitivity (read_length 2 0 ([n / 2 ^ 8; n mod 256] ++ value ++ rest)); [done|].
    3: exists 131, [n / 2 ^ 16; n / 2 ^ 8 mod 256; n mod 256]; split; [done|];
      transitivity (read_length 3 0 ([n / 2 ^ 16; n / 2 ^ 8 mod 256; n mod 256] ++ value ++ rest)); [done|].
    4: exists 132, [n / 2 ^ 24; n / 2 ^ 16 mod 256; n / 2 ^ 8 mod 256; n mod 256]; split; [done|];
      transitivity (read_length 4 0 ([n / 2 ^ 24; n / 2 ^ 16 mod 256; n / 2 ^ 8 mod 256; n mod 256]
        ++ value ++ rest)); [done|].
    all: cbn [read_length app]; do 2 f_equal.
    all: Z.to_euclidean_division_equations; lia. }
  unfold encode_tlv. fold n. rewrite El. cbn [app]. unfold read_tlv.
  rewrite (proj2 (Z.eqb_neq _ _) Htag). rewrite <- app_assoc. cbn zeta. rewrite Eh.
  assert (Z.to_nat n = length value) as -> by (unfold n; lia).
  destruct (Z.ltb_spec (Z.of_nat (length (value ++ rest))) n) as [H|_].
  { exfalso. unfold n in H. rewrite length_app in H. lia. }
  rewrite take_app_length, drop_app_length. do 3 f_equal.
  apply take_before. cbn. by rewrite <- app_assoc.
Qed.

(** ** Certificates as they are written *)

Definition encode_all (fields : list (Z * list Z)) : list Z :=
  concat (map (λ f, encode_tlv f.1 f.2) fields).

Definition element (f : Z * list Z) : Tlv := mk_Tlv f.1 f.2 (encode_tlv f.1 f.2).

Lemma read_fields_encoded n fields :
  Forall (λ f, encodable f.1 f.2) fields ->
  read_fields n (encode_all fields) = Some (map element (take n fields)).
Proof.
  revert fields. induction n as [|n IH]; intros fields Hf; [done|].
  destruct fields as [|f fields]; [done|]. rewrite Forall_cons in Hf. destruct Hf as [Hf Hfs].
  unfold encode_all. cbn [map concat]. fold (encode_all fields). cbn [read_fields].
  rewrite read_encoded, (IH fields Hfs) by done. done.
Qed.

(** A certificate: the fields of the signed part, then whatever follows it. *)
Definition certificate (fields : list (Z * list Z)) (signature : list Z) : list Z :=
  encode_tlv 48 (encode_tlv 48 (encode_all fields) ++ signature).

Definition certificate_ok (fields : list (Z * list Z)) (signature : list Z) : Prop :=
  Forall (λ f, encodable f.1 f.2) fields ∧
  Z.of_nat (length (encode_tlv 48 (encode_all fields) ++ signature)) < 2 ^ 32.

Lemma tbs_of_certificate fields signature :
  certificate_ok fields signature -> tbs_certificate (certificate fields signature) = Some (encode_all fields).
Proof.
  intros [_ Hl]. unfold tbs_certificate, certificate.
  rewrite <- (app_nil_r (encode_tlv 48 (encode_tlv 48 _ ++ _))), read_encoded by (split; [done|done]).
  cbn [tlv_tag tlv_value]. rewrite read_encoded; [done|]. split; [done|].
  rewrite length_app in Hl. unfold encode_tlv in Hl. cbn [length] in Hl. rewrite length_app in Hl. lia.
Qed.

Definition versioned (fields : list (Z * list Z)) : bool :=
  match fields with f :: _ => f.1 =? 160 | [] => false end.

Lemma has_version_elements fields n : has_version (map element (take (S n) fields)) = versioned fields.
Proof. by destruct fields as [|[]]. Qed.

Lemma element_lookup fields n i f :
  (i < n)%nat -> fields !! i = Some f -> map element (take n fields) !! i = Some (element f).
Proof.
  intros Hi Hf. change (map element ?l) with (element <$> l).
  rewrite list_lookup_fmap, lookup_take_lt by done. by rewrite Hf.
Qed.

(** The pin is that of the public key: in a certificate written in the
    definite-length form, with or without the version field, the digest is taken of
    exactly the encoded SubjectPublicKeyInfo. *)
Theorem pin_is_of_the_public_key {D} (sha256 : list Z -> D) fields signature key
    (Hok : certificate_ok fields signature)
    (Hkey : fields !! (if versioned fields then 6 else 5)%nat = Some (48, key)) :
  spki_sha256 sha256 (certificate fields signature) = Some (sha256 (encode_tlv 48 key)).
Proof.
  unfold spki_sha256. rewrite tbs_of_certificate by done. destruct Hok as [Hf _].
  rewrite read_fields_encoded by done. rewrite has_version_elements.
  rewrite (element_lookup fields 8 _ (48, key)); [done|case_match; lia|done].
Qed.

(** One attribute of a distinguished name, in a set of its own. *)
Definition attribute (a : list Z * Z * list Z) : list Z := encode_tlv 6 a.1.1 ++ encode_tlv a.1.2 a.2.
Definition rdn (a : list Z * Z * list Z) : list Z := encode_tlv 49 (encode_tlv 48 (attribute a)).

Definition attribute_ok (a : list Z * Z * list Z) : Prop :=
  is_text_tag a.1.2 = true ∧ encodable 6 a.1.1 ∧ encodable a.1.2 a.2 ∧ encodable 48 (attribute a) ∧
  encodable 49 (encode_tlv 48 (attribute a)).

Definition shown (text : list Z) : option (list Z) :=
  if bool_decide (text = []) || (256 <? length text)%nat then None else Some text.

Lemma lossy_ascii bytes : Forall (λ b, b < 128) bytes -> from_utf8_lossy bytes = bytes.
Proof.
  unfold from_utf8_lossy. induction 1 as [|b bytes Hb _ IH]; [done|]. cbn [length lossy].
  rewrite (proj2 (Z.ltb_lt _ _) Hb). by rewrite IH.
Qed.

Lemma scan_encoded nested fuel last tag value rest :
  encodable tag value -> (length (encode_tlv tag value ++ rest) <= fuel)%nat ->
  scan_names nested fuel last (encode_tlv tag value ++ rest) =
    (let continue l := scan_names nested (length rest) l rest in
     if tag =? 6 then continue (bool_decide (value = OID_COMMON_NAME))
     else if is_text_tag tag && last then shown (from_utf8_lossy value)
     else if (tag =? 48) || (tag =? 49) then
       match nested value with Some found => Some found | None => continue last end
     else continue false).
Proof.
  intros He Hf. destruct fuel as [|fuel]; [cbn in Hf; lia|].
  assert (length rest <= fuel)%nat as Hr by (unfold encode_tlv in Hf; cbn in Hf; rewrite !length_app in Hf; lia).
  cbn [scan_names encode_tlv app].
  pose proof (read_encoded tag value rest He) as Er. unfold encode_tlv in Er. cbn [app] in Er. rewrite Er.
  cbn [tlv_tag tlv_value]. cbn zeta. by rewrite !(scan_names_enough _ fuel) by done.
Qed.

Lemma scan_attribute nested a :
  attribute_ok a ->
  scan_names nested (length (attribute a)) false (attribute a) =
    if bool_decide (a.1.1 = OID_COMMON_NAME) then shown (from_utf8_lossy a.2) else None.
Proof.
  intros (Ht & H6 & Ha & _). unfold attribute. rewrite scan_encoded by done. cbn zeta.
  rewrite Z.eqb_refl, <- (app_nil_r (encode_tlv a.1.2 a.2)), scan_encoded by done. cbn zeta.
  assert ((a.1.2 =? 6) = false ∧ ((a.1.2 =? 48) || (a.1.2 =? 49)) = false) as [-> ->].
  { unfold is_text_tag in Ht. destruct (Z.eqb_spec a.1.2 6) as [E|]; [by rewrite E in Ht|].
    destruct (Z.eqb_spec a.1.2 48) as [E|]; [by rewrite E in Ht|].
    destruct (Z.eqb_spec a.1.2 49) as [E|]; [by rewrite E in Ht|]. done. }
  rewrite Ht. by case_bool_decide.
Qed.

Lemma find_in_rdns levels names :
  Forall attribute_ok names ->
  find_common_name (S (S (S levels))) (concat (map rdn names)) =
    match List.find (λ a : list Z * Z * list Z, bool_decide (a.1.1 = OID_COMMON_NAME)
                             && bool_decide (is_Some (shown (from_utf8_lossy a.2)))) names with
    | Some a => Some (from_utf8_lossy a.2)
    | None => None
    end.
Proof.
  intros Hn. change (find_common_name (S (S (S levels))) (concat (map rdn names)))
    with (scan_names (find_common_name (S (S levels))) (length (concat (map rdn names))) false
            (concat (map rdn names))).
  induction Hn as [|a names Ha _ IH]; [done|]. cbn [map concat List.find].
  pose proof Ha as Hok. destruct Ha as (_ & _ & _ & H48 & H49).
  unfold rdn at 1 3. rewrite scan_encoded by done. cbn zeta. cbn [Z.eqb Pos.eqb is_text_tag orb andb].
  assert (find_common_name (S (S levels)) (encode_tlv 48 (attribute a))
    = if bool_decide (a.1.1 = OID_COMMON_NAME) then shown (from_utf8_lossy a.2) else None) as ->.
  { cbn [find_common_name]. rewrite <- (app_nil_r (encode_tlv 48 (attribute a))) at 2.
    rewrite scan_encoded; [|done|by rewrite app_nil_r]. cbn zeta. cbn [Z.eqb Pos.eqb is_text_tag orb andb].
    cbn [find_common_name]. rewrite scan_attribute by done. cbn [length scan_names].
    destruct (bool_decide _); [|done]. by destruct (shown _). }
  rewrite IH. destruct (bool_decide (a.1.1 = OID_COMMON_NAME)); [|done]. cbn [andb].
  unfold shown. by destruct (_ || _).
Qed.

(** The issuer is read as it was written: for a certificate whose issuer is a
    sequence of single attributes, the common name found is the text of the first
    common-name attribute that has between 1 and 256 bytes, and none is found when
    there is no such attribute. *)
Theorem issuer_reads_back fields signature names
    (Hok : certificate_ok fields signature) (Hnames : Forall attribute_ok names)
    (Hascii : Forall (λ a : list Z * Z * list Z, Forall (λ b, b < 128) a.2) names)
    (Hissuer : fields !! (if versioned fields then 3 else 2)%nat = Some (48, concat (map rdn names))) :
  issuer_common_name (certificate fields signature) =
    snd <$> List.find (λ a : list Z * Z * list Z, bool_decide (a.1.1 = OID_COMMON_NAME)
              && (0 <? length a.2)%nat && (length a.2 <=? 256)%nat) names.
Proof.
  unfold issuer_common_name. rewrite tbs_of_certificate by done. destruct Hok as [Hf _].
  rewrite read_fields_encoded by done. rewrite has_version_elements.
  rewrite (element_lookup fields 6 _ (48, concat (map rdn names))); [|case_match; lia|done].
  cbn [element tlv_value snd]. rewrite (find_in_rdns 10) by done. clear -Hascii.
  induction Hascii as [|a names Ha _ IH]; [done|]. cbn [List.find].
  rewrite lossy_ascii by done.
  assert (bool_decide (is_Some (shown a.2)) = (0 <? length a.2)%nat && (length a.2 <=? 256)%nat) as ->.
  { unfold shown. destruct a.2 as [|b bytes]; [done|]. rewrite (bool_decide_false (b :: bytes = [])) by done.
    destruct (Nat.ltb_spec 256 (length (b :: bytes))), (Nat.leb_spec (length (b :: bytes)) 256); try lia; done. }
  rewrite <- andb_assoc. destruct (_ && _); [|exact IH]. cbn. by rewrite lossy_ascii.
Qed.

(** ** A small certificate *)

Definition country_oid : list Z := [85; 4; 6].
Definition test_issuer : list (list Z * Z * list Z) :=
  [(country_oid, 19, [68; 69]); (OID_COMMON_NAME, 12, [84; 101; 115; 116; 32; 67; 65])].

Definition test_fields : list (Z * list Z) :=
  [(160, [2; 1; 2]); (2, [1]); (48, [6; 1; 42]); (48, concat (map rdn test_issuer)); (48, []); (48, []);
   (48, repeat 7 200); (163, [])].

Lemma test_certificate_ok : certificate_ok test_fields [3; 1; 0].
Proof. split; [repeat constructor|]; vm_compute; congruence || reflexivity. Qed.

Lemma pin_is_of_the_public_key_witness :
  spki_sha256 (@length Z) (certificate test_fields [3; 1; 0]) = Some 203%nat.
Proof.
  rewrite (pin_is_of_the_public_key (@length Z) test_fields [3; 1; 0] (repeat 7 200) test_certificate_ok eq_refl).
  reflexivity.
Defined.

Lemma issuer_reads_back_witness :
  issuer_common_name (certificate test_fields [3; 1; 0]) = Some [84; 101; 115; 116; 32; 67; 65].
Proof.
  rewrite (issuer_reads_back test_fields [3; 1; 0] test_issuer test_certificate_ok
    ltac:(repeat constructor; vm_compute; congruence || reflexivity)
    ltac:(repeat constructor) eq_refl). reflexivity.
Defined.
