(* ===== verification/Config.v ===== *)
(** * Configuration

    The sections of the configuration tree ([src/config/mod.rs]) that the
    modelled components read, with the defaults the source gives them.  Field
    names carry the section's name first; durations are nanoseconds and floats
    are the doubles the decimal literals denote. *)

From S2P Require Import Prelude.
From S2P Require Import Floats.
From S2P Require Import Names.
From S2P Require Import Net.

Record UdpConfig : Type := mk_UdpConfig {
  udp_max_payload : Z;
  udp_non_edns_max_payload : Z;
  udp_recv_buffer_bytes : option Z;
  udp_send_buffer_bytes : option Z;
  udp_reuse_port : bool;
  udp_workers_per_socket : Z
}.

Definition default_UdpConfig : UdpConfig := {|
  udp_max_payload := 1232;
  udp_non_edns_max_payload := 512;
  udp_recv_buffer_bytes := Some (4 * 1024 * 1024);
  udp_send_buffer_bytes := Some (4 * 1024 * 1024);
  udp_reuse_port := false;
  udp_workers_per_socket := 1
|}.

Record TcpConfig : Type := mk_TcpConfig {
  tcp_idle_timeout : Duration;
  tcp_max_connection_lifetime : Duration;
  tcp_max_connections : Z;
  tcp_max_connections_per_client : Z;
  tcp_max_pipelined_queries : Z;
  tcp_max_message_bytes : Z;
  tcp_advertise_edns_keepalive : bool
}.

Definition default_TcpConfig : TcpConfig := {|
  tcp_idle_timeout := from_secs 10;
  tcp_max_connection_lifetime := from_secs 300;
  tcp_max_connections := 4096;
  tcp_max_connections_per_client := 64;
  tcp_max_pipelined_queries := 256;
  tcp_max_message_bytes := 65535;
  tcp_advertise_edns_keepalive := true
|}.

Record RateLimitConfig : Type := mk_RateLimitConfig {
  rl_enabled : bool;
  rl_per_client_qps : Z;
  rl_per_client_burst : Z;
  rl_global_qps : Z;
  rl_global_burst : Z;
  rl_client_table_size : nat
}.

Definition default_RateLimitConfig : RateLimitConfig := {|
  rl_enabled := true;
  rl_per_client_qps := 2000;
  rl_per_client_burst := 4000;
  rl_global_qps := 200000;
  rl_global_burst := 400000;
  rl_client_table_size := Z.to_nat 65536
|}.

Inductive SpecialUsePolicy : Set := SpecialUseLocal | SpecialUseForward.
Inductive AnyPolicy : Set := AnyMinimal | AnyForward | AnyRefuse.

Record CacheConfig : Type := mk_CacheConfig {
  cache_max_memory_bytes : Z;
  cache_failure_max_entries : Z;
  cache_variant_max_memory_bytes : Z;
  cache_quality_max_entries : Z;
  cache_internal_max_ttl : Z;
  cache_negative_max_ttl : Z;
  cache_failure_min_ttl : Duration;
  cache_failure_max_ttl : Duration
}.

Definition default_CacheConfig : CacheConfig := {|
  cache_max_memory_bytes := 256 * 1024 * 1024;
  cache_failure_max_entries := 20000;
  cache_variant_max_memory_bytes := 32 * 1024 * 1024;
  cache_quality_max_entries := 100000;
  cache_internal_max_ttl := 86400;
  cache_negative_max_ttl := 3600;
  cache_failure_min_ttl := from_secs 1;
  cache_failure_max_ttl := from_secs 300
|}.

Record TtlConfig : Type := mk_TtlConfig {
  cap_default : Z;
  cap_optimized_multi : Z;
  cap_cloudflare_preserve : Z;
  cap_cloudflare_augment : Z;
  cap_network_change : Z;
  cap_serve_stale : Z;
  network_change_window : Duration
}.

Definition default_TtlConfig : TtlConfig := {|
  cap_default := 300;
  cap_optimized_multi := 90;
  cap_cloudflare_preserve := 60;
  cap_cloudflare_augment := 25;
  cap_network_change := 15;
  cap_serve_stale := 30;
  network_change_window := from_secs 300
|}.

Record RankingConfig : Type := mk_RankingConfig {
  ranking_enabled : bool;
  neutral_cost_ms : f64;
  failure_penalty_ms : f64;
  tail_weight : f64;
  jitter_weight : f64;
  uncertainty_penalty_ms : f64;
  stale_sample_penalty_ms : f64;
  sample_max_age : Duration;
  evidence_half_life : Duration;
  hysteresis : f64;
  min_successes_to_lead : Z;
  exploration_rate : f64;
  consecutive_failure_base : f64
}.

Definition default_RankingConfig : RankingConfig := {|
  ranking_enabled := true;
  neutral_cost_ms := f64_of_Z 120;
  failure_penalty_ms := f64_of_Z 400;
  tail_weight := f64_lit 35 100;
  jitter_weight := f64_lit 25 100;
  uncertainty_penalty_ms := f64_of_Z 60;
  stale_sample_penalty_ms := f64_of_Z 40;
  sample_max_age := from_secs 1800;
  evidence_half_life := from_secs 3600;
  hysteresis := f64_lit 12 100;
  min_successes_to_lead := 3;
  exploration_rate := f64_lit 2 100;
  consecutive_failure_base := f64_lit 18 10
|}.

Record ServeStaleConfig : Type := mk_ServeStaleConfig {
  stale_enabled : bool;
  max_stale : Duration;
  client_timeout : Duration;
  retry_interval : Duration;
  include_ede : bool
}.

Definition default_ServeStaleConfig : ServeStaleConfig := {|
  stale_enabled := true;
  max_stale := from_secs 86400;
  client_timeout := from_millis 1800;
  retry_interval := from_secs 30;
  include_ede := true
|}.

Record PrefetchConfig : Type := mk_PrefetchConfig {
  prefetch_enabled : bool;
  trigger_fraction : f64;
  min_hits : Z;
  hot_set_size : nat;
  prefetch_global_qps : Z;
  per_key_min_interval : Duration;
  warm_on_start : nat;
  transition_prediction : bool;
  transition_table_size : nat
}.

Definition default_PrefetchConfig : PrefetchConfig := {|
  prefetch_enabled := true;
  trigger_fraction := f64_lit 15 100;
  min_hits := 3;
  hot_set_size := Z.to_nat 20000;
  prefetch_global_qps := 50;
  per_key_min_interval := from_secs 5;
  warm_on_start := 200;
  transition_prediction := false;
  transition_table_size := Z.to_nat 20000
|}.

Inductive TransportKind : Set := Udp | Tcp | Dot | Doh2 | Doh3 | Doq.

#[global] Instance TransportKind_eq_dec : EqDecision TransportKind.
Proof. solve_decision. Defined.

Definition is_encrypted (t : TransportKind) : bool :=
  match t with Dot | Doh2 | Doh3 | Doq => true | Udp | Tcp => false end.
Definition is_stream (t : TransportKind) : bool :=
  match t with Udp => false | _ => true end.
Definition default_port (t : TransportKind) : Z :=
  match t with Udp | Tcp => 53 | Dot | Doq => 853 | Doh2 | Doh3 => 443 end.

Inductive ResolverRole : Set := Authority | LocalForwarder.

#[global] Instance ResolverRole_eq_dec : EqDecision ResolverRole.
Proof. solve_decision. Defined.

Definition is_independent (r : ResolverRole) : bool :=
  match r with Authority => true | LocalForwarder => false end.

Record SchedulerConfig : Type := mk_SchedulerConfig {
  hedge_enabled : bool;
  hedge_percentile : f64;
  hedge_min_delay : Duration;
  hedge_max_delay : Duration;
  hedge_max_fraction : f64;
  query_timeout : Duration;
  explore_rate : f64;
  circuit_failure_threshold : Z;
  circuit_open_duration : Duration;
  circuit_half_open_successes : Z;
  emergency_fanout : bool;
  emergency_fanout_max : nat
}.

Definition default_SchedulerConfig : SchedulerConfig := {|
  hedge_enabled := true;
  hedge_percentile := f64_lit 95 100;
  hedge_min_delay := from_millis 20;
  hedge_max_delay := from_millis 400;
  hedge_max_fraction := f64_lit 15 100;
  query_timeout := from_millis 1500;
  explore_rate := f64_lit 2 100;
  circuit_failure_threshold := 5;
  circuit_open_duration := from_secs 20;
  circuit_half_open_successes := 2;
  emergency_fanout := true;
  emergency_fanout_max := 3
|}.

Inductive DnssecModeCfg : Set := ModeOff | ModeBackground | ModeStrict.

Definition blocks_the_client (m : DnssecModeCfg) : bool :=
  match m with ModeStrict => true | _ => false end.
Definition validates (m : DnssecModeCfg) : bool :=
  match m with ModeBackground | ModeStrict => true | ModeOff => false end.
Definition wants_dnssec_records (m : DnssecModeCfg) : bool := validates m.

(** The paths of the section are left out: nothing modelled reads them. *)
Record DnssecConfig : Type := mk_DnssecConfig {
  dnssec_mode : DnssecModeCfg;
  trust_upstream_ad : bool;
  max_concurrent_validations : Z;
  validation_cache_entries : Z;
  max_validation_depth : Z;
  extended_errors : bool;
  corroborate_negative_cfg : bool;
  proof_completion_timeout : Duration
}.

Definition default_DnssecConfig : DnssecConfig := {|
  dnssec_mode := ModeBackground;
  trust_upstream_ad := false;
  max_concurrent_validations := 256;
  validation_cache_entries := 10000;
  max_validation_depth := 12;
  extended_errors := true;
  corroborate_negative_cfg := true;
  proof_completion_timeout := from_secs 20
|}.

(** The probe section, without the HTTP validation profiles. *)
Record ProbeConfig : Type := mk_ProbeConfig {
  probe_enabled : bool;
  probe_queue_size : nat;
  probe_concurrency : nat;
  global_connections_per_second : Z;
  tcp_timeout : Duration;
  tls_timeout : Duration;
  http_timeout : Duration;
  per_ip_cooldown : Duration;
  per_prefix_cooldown : Duration;
  per_domain_cooldown : Duration;
  max_candidates_per_rrset : nat;
  extra_ports : list Z;
  max_response_bytes : Z;
  enable_http3 : bool;
  daily_bandwidth_budget_bytes : Z;
  allow_special_use_targets : list IpNet
}.

Definition default_ProbeConfig : ProbeConfig := {|
  probe_enabled := true;
  probe_queue_size := Z.to_nat 8192;
  probe_concurrency := 8;
  global_connections_per_second := 64;
  tcp_timeout := from_millis 1500;
  tls_timeout := from_millis 3000;
  http_timeout := from_millis 5000;
  per_ip_cooldown := from_secs 300;
  per_prefix_cooldown := from_secs 30;
  per_domain_cooldown := from_secs 600;
  max_candidates_per_rrset := 4;
  extra_ports := [443];
  max_response_bytes := 16 * 1024;
  enable_http3 := true;
  daily_bandwidth_budget_bytes := 64 * 1024 * 1024;
  allow_special_use_targets := []
|}.

Inductive CloudflareMode : Set := CfOff | CfPreserve | CfVerifiedAugment.

#[global] Instance CloudflareMode_eq_dec : EqDecision CloudflareMode.
Proof. solve_decision. Defined.

Record AugmentConfig : Type := mk_AugmentConfig {
  max_added : nat;
  min_validations : Z;
  validation_ttl : Duration;
  min_advantage : f64;
  min_samples : Z
}.

Definition default_AugmentConfig : AugmentConfig := {|
  max_added := 2;
  min_validations := 3;
  validation_ttl := from_secs 3600;
  min_advantage := f64_lit 12 100;
  min_samples := 8
|}.

Inductive EcsMode : Set := EcsDisabled | EcsFixedEgress.

Record EcsScope : Set := mk_EcsScope {
  scope_ipv4 : option Ipv4Net;
  scope_ipv6 : option Ipv6Net
}.

Record EcsConfig : Set := mk_EcsConfig { ecs_mode : EcsMode; ecs_egress : EcsScope }.

(** ** Upstream servers *)

Definition SocketAddr : Type := IpAddr * Z.

Record UpstreamServerConfig : Type := mk_UpstreamServerConfig {
  us_name : str;
  us_role : ResolverRole;
  us_transport : TransportKind;
  us_addresses : list IpAddr;
  us_port : option Z;
  us_server_name : option str;
  us_path : option str;
  us_bind_addr : option SocketAddr;
  us_weight : Z;
  us_enabled : bool;
  us_enable_cookies : option bool;
  us_trust_ad : bool;
  us_ecs : option EcsScope
}.

Record UpstreamGroupConfig : Type := mk_UpstreamGroupConfig {
  ug_name : str;
  ug_servers : list UpstreamServerConfig;
  ug_scheduler : SchedulerConfig
}.

Record UpstreamTlsConfig : Type := mk_UpstreamTlsConfig {
  use_system_roots : bool;
  extra_ca_files : list str;
  session_resumption : bool;
  quic_zero_rtt : bool
}.

Definition default_UpstreamTlsConfig : UpstreamTlsConfig := {|
  use_system_roots := true;
  extra_ca_files := [];
  session_resumption := true;
  quic_zero_rtt := false
|}.

Record UpstreamConfig : Type := mk_UpstreamConfig {
  default_group : str;
  groups : list UpstreamGroupConfig;
  upstream_tls : UpstreamTlsConfig
}.

Definition effective_port (s : UpstreamServerConfig) : Z :=
  default (default_port (us_transport s)) (us_port s).

(** Cookies protect exchanges the transport does not authenticate. *)
Definition cookies_effective (s : UpstreamServerConfig) : bool :=
  default true (us_enable_cookies s) && negb (is_encrypted (us_transport s)).

(** ** The inbound service *)

Record ServerConfig : Type := mk_ServerConfig {
  udp_listen : list SocketAddr;
  tcp_listen : list SocketAddr;
  allow_from : option (list IpNet);
  deny_from : list IpNet;
  foreground_budget : Duration;
  any_policy : AnyPolicy;
  special_use : SpecialUsePolicy;
  server_udp : UdpConfig;
  server_tcp : TcpConfig;
  rate_limit : RateLimitConfig
}.

Definition default_listen : list SocketAddr := [(V4 (ipv4 127 0 0 1), 53); (V6 1, 53)].

Definition default_ServerConfig : ServerConfig := {|
  udp_listen := default_listen;
  tcp_listen := default_listen;
  allow_from := None;
  deny_from := [];
  foreground_budget := from_millis 2500;
  any_policy := AnyMinimal;
  special_use := SpecialUseLocal;
  server_udp := default_UdpConfig;
  server_tcp := default_TcpConfig;
  rate_limit := default_RateLimitConfig
|}.

(** ** Networks *)

Record NetworkConfig : Type := mk_NetworkConfig {
  nc_enabled : bool;
  nc_poll_interval : Duration;
  nc_debounce : Duration;
  nc_reference_v4 : IpAddr;
  nc_reference_v6 : IpAddr;
  nc_confidence_decay_on_change : f64;
  nc_relearn_window : Duration
}.

Definition default_NetworkConfig : NetworkConfig :=
  mk_NetworkConfig true (from_secs 5) (from_secs 3) (V4 (ipv4 1 1 1 1))
    (V6 (ipv6 [9734; 18176; 0; 0; 0; 0; 0; 4369])) (f64_lit 25 100) (from_secs 600).

(** ** Cloudflare *)

Record OfficialPrefixConfig : Type := mk_OfficialPrefixConfig {
  of_api_url : str;
  of_ipv4_url : str;
  of_ipv6_url : str;
  of_refresh_interval : Duration;
  of_timeout : Duration;
  of_max_response_bytes : Z;
  of_min_ipv4_prefixes : Z;
  of_min_ipv6_prefixes : Z;
  of_api_token_file : option str;
  of_api_token_env : option str;
  of_cache_file : option str
}.

(** On Unix. *)
Definition state_dir : str := lit "/var/lib/egressdns".

Definition default_OfficialPrefixConfig : OfficialPrefixConfig := {|
  of_api_url := lit "https://api.cloudflare.com/client/v4/ips";
  of_ipv4_url := lit "https://www.cloudflare.com/ips-v4";
  of_ipv6_url := lit "https://www.cloudflare.com/ips-v6";
  of_refresh_interval := from_secs 86400;
  of_timeout := from_secs 10;
  of_max_response_bytes := 256 * 1024;
  of_min_ipv4_prefixes := 8;
  of_min_ipv6_prefixes := 4;
  of_api_token_file := None;
  of_api_token_env := None;
  of_cache_file := Some (state_dir ++ lit "/cloudflare-prefixes.json")
|}.

Record SeedEndpoint : Type := mk_SeedEndpoint { se_name : str; se_url : str; se_enabled : bool }.

Record SeedConfig : Type := mk_SeedConfig {
  seeds_enabled : bool;
  seeds_endpoints : list SeedEndpoint;
  seeds_refresh_interval : Duration;
  seeds_timeout : Duration;
  seeds_max_response_bytes : Z;
  seeds_max_addresses : Z;
  seeds_resolve_hostnames : bool
}.

Definition default_seed_endpoints : list SeedEndpoint :=
  [mk_SeedEndpoint (lit "ct") (lit "https://cf.090227.xyz/ct?ips=6") true;
   mk_SeedEndpoint (lit "cu") (lit "https://cf.090227.xyz/cu") true;
   mk_SeedEndpoint (lit "cmcc") (lit "https://cf.090227.xyz/cmcc?ips=8") true].

Definition default_SeedConfig : SeedConfig := {|
  seeds_enabled := false;
  seeds_endpoints := default_seed_endpoints;
  seeds_refresh_interval := from_secs 2400;
  seeds_timeout := from_secs 10;
  seeds_max_response_bytes := 128 * 1024;
  seeds_max_addresses := 256;
  seeds_resolve_hostnames := true
|}.

Record SamplingConfig : Type := mk_SamplingConfig {
  sampling_enabled : bool;
  sampling_round_interval : Duration;
  sampling_addresses_per_round : Z;
  sampling_max_new_per_hour : Z;
  sampling_buckets_per_prefix : Z;
  sampling_exploit_fraction : f64;
  sampling_seed : Z
}.

Definition default_SamplingConfig : SamplingConfig := {|
  sampling_enabled := true;
  sampling_round_interval := from_secs 300;
  sampling_addresses_per_round := 32;
  sampling_max_new_per_hour := 512;
  sampling_buckets_per_prefix := 64;
  sampling_exploit_fraction := f64_lit 3 10;
  sampling_seed := 0x5eed0cf000000001
|}.

Record CloudflareConfig : Type := mk_CloudflareConfig {
  cf_enabled : bool;
  cf_mode : CloudflareMode;
  cf_official : OfficialPrefixConfig;
  cf_seeds : SeedConfig;
  cf_sampling : SamplingConfig;
  cf_augment : AugmentConfig;
  cf_probe_hosts : list str;
  cf_allow_domains : list str;
  cf_deny_domains : list str;
  cf_candidate_pool_max : Z;
  cf_static_candidates : list IpAddr
}.

Definition default_CloudflareConfig : CloudflareConfig := {|
  cf_enabled := false;
  cf_mode := CfPreserve;
  cf_official := default_OfficialPrefixConfig;
  cf_seeds := default_SeedConfig;
  cf_sampling := default_SamplingConfig;
  cf_augment := default_AugmentConfig;
  cf_probe_hosts := [lit "speed.cloudflare.com"];
  cf_allow_domains := [];
  cf_deny_domains := [];
  cf_candidate_pool_max := 4096;
  cf_static_candidates := []
|}.

(** ** Files and operations *)

Record DatasetsConfig : Type := mk_DatasetsConfig {
  hosts_files : list str;
  domain_category_files : list str;
  geoip_mmdb : option str;
  asn_mmdb : option str;
  reload_interval : Duration;
  max_file_bytes : Z;
  max_records : Z
}.

Definition default_DatasetsConfig : DatasetsConfig := {|
  hosts_files := [];
  domain_category_files := [];
  geoip_mmdb := None;
  asn_mmdb := None;
  reload_interval := from_secs 3600;
  max_file_bytes := 64 * 1024 * 1024;
  max_records := 2000000
|}.

Record StorageConfig : Type := mk_StorageConfig {
  storage_enabled : bool;
  storage_path : str;
  storage_flush_interval : Duration;
  storage_queue_size : Z;
  max_quality_rows : Z;
  max_hot_rows : Z;
  max_candidate_rows : Z;
  row_max_age : Duration
}.

Definition default_StorageConfig : StorageConfig := {|
  storage_enabled := true;
  storage_path := state_dir ++ lit "/state.sqlite3";
  storage_flush_interval := from_secs 30;
  storage_queue_size := 8192;
  max_quality_rows := 50000;
  max_hot_rows := 20000;
  max_candidate_rows := 20000;
  row_max_age := from_secs (30 * 86400)
|}.

Record MetricsConfig : Type := mk_MetricsConfig {
  metrics_enabled : bool;
  metrics_listen : SocketAddr;
  metrics_allow_non_loopback : bool
}.

Definition default_MetricsConfig : MetricsConfig := {|
  metrics_enabled := true;
  metrics_listen := (V4 (ipv4 127 0 0 1), 9153);
  metrics_allow_non_loopback := false
|}.

Record LoggingConfig : Type := mk_LoggingConfig {
  log_level : str;
  log_json : bool;
  query_log : bool;
  query_log_sample : f64
}.

Definition default_LoggingConfig : LoggingConfig := {|
  log_level := lit "info";
  log_json := false;
  query_log := false;
  query_log_sample := f64_lit 1 100
|}.

Record AdminConfig : Type := mk_AdminConfig {
  admin_enabled : bool;
  admin_socket : str;
  admin_socket_mode : Z;
  admin_max_request_bytes : Z
}.

Definition default_AdminConfig : AdminConfig := {|
  admin_enabled := true;
  admin_socket := lit "/run/egressdns/admin.sock";
  admin_socket_mode := 432;
  admin_max_request_bytes := 64 * 1024
|}.

Record ResourceConfig : Type := mk_ResourceConfig {
  worker_threads : option Z;
  max_inflight_queries : Z;
  max_inflight_upstream : Z;
  max_blocking_threads : Z;
  systemd_watchdog : bool
}.

Definition default_ResourceConfig : ResourceConfig := {|
  worker_threads := None;
  max_inflight_queries := 20000;
  max_inflight_upstream := 4000;
  max_blocking_threads := 4;
  systemd_watchdog := true
|}.
