(* ===== verification/Dns.v ===== *)
(** * DNS messages

    The parts of the message types of [hickory-proto] that the program reads and
    writes: the crate itself is not modelled.  A [Name] is an abstract type with
    the two operations the program applies to one, its case-insensitive equality
    and its presentation form; both are the parameters of the class
    [NameLib]. *)

From Stdlib Require Import Ascii String.
From S2P Require Import Prelude.
From S2P Require Import Names.

(** ** Names *)

Class NameLib (Name : Type) : Type := {
  name_eqb : Name -> Name -> bool;
  name_text : Name -> str
}.

(** [Name] implements [Eq]. *)
Class NameLaws (Name : Type) {NL : NameLib Name} : Prop := {
  name_eqb_refl n : name_eqb n n = true;
  name_eqb_sym n m : name_eqb n m = name_eqb m n;
  name_eqb_trans n m k : name_eqb n m = true -> name_eqb m k = true -> name_eqb n k = true
}.

(** Names as their presentation form, compared without regard to case. *)
#[local] Instance text_names : NameLib str := {
  name_eqb a b := str_eqb (to_ascii_lowercase a) (to_ascii_lowercase b);
  name_text a := a
}.

#[local] Instance text_names_laws : NameLaws str.
Proof.
  split; simpl; intros.
  - apply str_eqb_refl.
  - apply eq_true_iff_eq. by rewrite !str_eqb_eq.
  - rewrite str_eqb_eq in *. congruence.
Qed.

(** ** Codes *)

Inductive RecordType : Set :=
| RT_A | RT_AAAA | RT_CNAME | RT_SOA | RT_HINFO | RT_HTTPS | RT_SVCB
| RT_RRSIG | RT_OPT | RT_ANY
| RT_Other (code : Z).

#[global] Instance RecordType_eq_dec : EqDecision RecordType.
Proof. solve_decision. Defined.

#[global] Instance RecordType_countable : Countable RecordType.
Proof.
  refine (inj_countable'
    (λ t, match t with
          | RT_A => inl 0%nat | RT_AAAA => inl 1%nat | RT_CNAME => inl 2%nat
          | RT_SOA => inl 3%nat | RT_HINFO => inl 4%nat | RT_HTTPS => inl 5%nat
          | RT_SVCB => inl 6%nat | RT_RRSIG => inl 7%nat | RT_OPT => inl 8%nat
          | RT_ANY => inl 9%nat | RT_Other c => inr c end)
    (λ s, match s with
          | inl 0%nat => RT_A | inl 1%nat => RT_AAAA | inl 2%nat => RT_CNAME
          | inl 3%nat => RT_SOA | inl 4%nat => RT_HINFO | inl 5%nat => RT_HTTPS
          | inl 6%nat => RT_SVCB | inl 7%nat => RT_RRSIG | inl 8%nat => RT_OPT
          | inl _ => RT_ANY | inr c => RT_Other c end) _).
  by intros [].
Defined.

Definition rtype_eqb (a b : RecordType) : bool := bool_decide (a = b).

Inductive DNSClass : Set := IN | CH | Class_Other (code : Z).

#[global] Instance DNSClass_eq_dec : EqDecision DNSClass.
Proof. solve_decision. Defined.

#[global] Instance DNSClass_countable : Countable DNSClass.
Proof.
  refine (inj_countable'
    (λ t, match t with IN => inl true | CH => inl false | Class_Other c => inr c end)
    (λ s, match s with inl true => IN | inl false => CH | inr c => Class_Other c end) _).
  by intros [].
Defined.

Inductive ResponseCode : Set :=
| NoError | FormErr | ServFail | NXDomain | NotImp | Refused | BADVERS
| Rcode_Other (code : Z).

#[global] Instance ResponseCode_eq_dec : EqDecision ResponseCode.
Proof. solve_decision. Defined.

Definition rcode_eqb (a b : ResponseCode) : bool := bool_decide (a = b).

Inductive OpCode : Set := OpQuery | OpCode_Other (code : Z).

#[global] Instance OpCode_eq_dec : EqDecision OpCode.
Proof. solve_decision. Defined.

Inductive MessageType : Set := MtQuery | MtResponse.

#[global] Instance MessageType_eq_dec : EqDecision MessageType.
Proof. solve_decision. Defined.

(** The proof the validator attaches to a record, in its order. *)
Inductive Proof_ : Set := PIndeterminate | PBogus | PInsecure | PSecure.

#[global] Instance Proof_eq_dec : EqDecision Proof_.
Proof. solve_decision. Defined.

Definition proof_rank (p : Proof_) : Z :=
  match p with PIndeterminate => 0 | PBogus => 1 | PInsecure => 2 | PSecure => 3 end.

(** ** Records and messages *)

Section messages.
Context (Name : Type).

(** Record data: the variants the program inspects, and the rest. *)
Inductive RData : Type :=
| RD_A (addr : Z)
| RD_AAAA (addr : Z)
| RD_CNAME (target : Name)
| RD_SOA (minimum : Z)
| RD_HINFO (cpu os : str)
| RD_HTTPS (svc_params : list Z)
| RD_SVCB (svc_params : list Z)
| RD_RRSIG (sig_expiration : Z)
| RD_OPT
| RD_NS (target : Name)
| RD_PTR (target : Name)
| RD_TXT (texts : list str)
| RD_MX (preference : Z) (exchange : Name)
| RD_SRV (priority weight port : Z) (target : Name)
| RD_Other (code : Z) (wire : str).

Record DnsRecord : Type := mk_Record {
  r_name : Name;
  r_class : DNSClass;
  r_ttl : Z;
  r_data : RData;
  r_proof : Proof_
}.

Record Query : Type := mk_Query {
  q_name : Name;
  q_type : RecordType;
  q_class : DNSClass
}.

Record Metadata : Type := mk_Metadata {
  m_id : Z;
  m_message_type : MessageType;
  m_op_code : OpCode;
  m_authoritative : bool;
  m_truncation : bool;
  m_recursion_desired : bool;
  m_recursion_available : bool;
  m_authentic_data : bool;
  m_checking_disabled : bool;
  m_response_code : ResponseCode
}.

(** EDNS options by code. *)
Record Edns : Type := mk_Edns {
  e_version : Z;
  e_max_payload : Z;
  e_dnssec_ok : bool;
  e_options : list (Z * str)
}.

Record Message : Type := mk_Message {
  metadata : Metadata;
  queries : list Query;
  answers : list DnsRecord;
  authorities : list DnsRecord;
  additionals : list DnsRecord;
  edns : option Edns
}.

Definition rdata_type (d : RData) : RecordType :=
  match d with
  | RD_A _ => RT_A | RD_AAAA _ => RT_AAAA | RD_CNAME _ => RT_CNAME
  | RD_SOA _ => RT_SOA | RD_HINFO _ _ => RT_HINFO | RD_HTTPS _ => RT_HTTPS
  | RD_SVCB _ => RT_SVCB | RD_RRSIG _ => RT_RRSIG | RD_OPT => RT_OPT
  | RD_NS _ => RT_Other 2 | RD_PTR _ => RT_Other 12 | RD_MX _ _ => RT_Other 15
  | RD_TXT _ => RT_Other 16 | RD_SRV _ _ _ _ => RT_Other 33
  | RD_Other c _ => RT_Other c
  end.

Definition record_type (r : DnsRecord) : RecordType := rdata_type (r_data r).

End messages.

Arguments RD_A {Name} addr.
Arguments RD_AAAA {Name} addr.
Arguments RD_CNAME {Name} target.
Arguments RD_SOA {Name} minimum.
Arguments RD_HINFO {Name} cpu os.
Arguments RD_HTTPS {Name} svc_params.
Arguments RD_SVCB {Name} svc_params.
Arguments RD_RRSIG {Name} sig_expiration.
Arguments RD_OPT {Name}.
Arguments RD_NS {Name} target.
Arguments RD_PTR {Name} target.
Arguments RD_TXT {Name} texts.
Arguments RD_MX {Name} preference exchange.
Arguments RD_SRV {Name} priority weight port target.
Arguments RD_Other {Name} code wire.
Arguments mk_Record {Name}.
Arguments r_name {Name} _.
Arguments r_class {Name} _.
Arguments r_ttl {Name} _.
Arguments r_data {Name} _.
Arguments r_proof {Name} _.
Arguments mk_Query {Name}.
Arguments q_name {Name} _.
Arguments q_type {Name} _.
Arguments q_class {Name} _.
Arguments mk_Message {Name}.
Arguments metadata {Name} _.
Arguments queries {Name} _.
Arguments answers {Name} _.
Arguments authorities {Name} _.
Arguments additionals {Name} _.
Arguments edns {Name} _.
Arguments rdata_type {Name} d.
Arguments record_type {Name} r.

(** The headers and the EDNS record of a message are values like any other. *)
#[global] Instance Metadata_eq_dec : EqDecision Metadata.
Proof. solve_decision. Defined.
#[global] Instance Edns_eq_dec : EqDecision Edns.
Proof. solve_decision. Defined.
