(* ===== verification/Errors.v ===== *)
(** * Errors

    The resolution and probe errors of [src/error.rs]. *)

From Stdlib Require Import Ascii String.
From S2P Require Import Prelude.
From S2P Require Import Names.

Inductive ResolveError : Type :=
| NoRoute (group : str)
| AllFailed (detail : str)
| Timeout (elapsed_ms : Z)
| InvalidResponse (reason : str)
| DnssecBogus
| ProofIncomplete (outcome : str)
| ShuttingDown
| Overloaded (limit : Z).

Definition is_transient (e : ResolveError) : bool :=
  match e with ProofIncomplete _ => true | _ => false end.

(** The probe subsystem. *)
Inductive ProbeError : Type :=
| PePolicyBlocked (reason : str)
| PeConnect (detail : str)
| PeTls (detail : str)
| PeHttp (detail : str)
| PeQuic (detail : str)
| PeTimeout
| PeUnsupported (what : str).
