(* ===== verification/Util.v ===== *)
(** * Shared helpers

    [src/util/mod.rs]: the FNV-1a hash, hexadecimal text and bounded strings.
    [src/util/backoff.rs]: the exponential back-off.  [src/dns/deadline.rs]: the time
    a task has left. *)

From Stdlib Require Import Ascii String.
From S2P Require Import Prelude.
From S2P Require Import Floats.
From S2P Require Import Names.

(** Bytes are integers of [0, 256). *)
Definition fnv_offset : Z := 0xcbf29ce484222325.
Definition fnv_prime : Z := 0x00000100000001b3.

Definition fnv_step (hash b : Z) : Z := (Z.lxor hash b * fnv_prime) mod 2 ^ 64.

Definition fnv1a64 (data : list Z) : Z := fold_left fnv_step data fnv_offset.

(** [u64::to_le_bytes]. *)
Fixpoint le_bytes (n : nat) (x : Z) : list Z :=
  match n with
  | O => []
  | S n => x mod 256 :: le_bytes n (x / 256)
  end.

(** [ranking::unit_from_seed]. *)
Definition unit_from_seed (seed : Z) : f64 :=
  let mixed := fnv1a64 (le_bytes 8 seed) in
  f64_div (f64_of_Z (Z.shiftr mixed 11)) (f64_of_Z (2 ^ 53)).

Definition hex_digit (n : Z) : ascii :=
  ascii_of_N (Z.to_N (if n <? 10 then 48 + n else 87 + n)).

Definition hex_encode (bytes : list Z) : str :=
  flat_map (λ b, [hex_digit (b / 16); hex_digit (b mod 16)]) bytes.

(** Strings here are lists of characters; the ellipsis is one of them. *)
Definition bounded {char} (ellipsis : char) (s : list char) (max : nat) : list char :=
  if (length s <=? max)%nat then s else take max s ++ [ellipsis].

(** ** Exponential back-off *)

Record Backoff : Type := mk_Backoff {
  bo_base : Duration;
  bo_max : Duration;
  bo_jitter : f64
}.

Definition backoff_new (base max : Duration) (jitter : f64) : Backoff :=
  mk_Backoff base max (f64_clamp f64_zero f64_one jitter).

(** [Duration::MAX]: 2^64 - 1 seconds and 999,999,999 nanoseconds. *)
Definition duration_max : Duration := u64_max * nanos_per_sec + 999999999.

(** [f64::EPSILON] is 2^-52. *)
Definition f64_epsilon : f64 := f64_lit 1 (2 ^ 52).

Definition backoff_capped (b : Backoff) (n : Z) : Duration :=
  let shift := Z.min n 20 in
  let raw := sat_mul duration_max (bo_base b) (Z.shiftl 1 shift) in
  if bo_max b <? raw then bo_max b else raw.

Definition backoff_delay (b : Backoff) (n seed : Z) : Duration :=
  let capped := backoff_capped b n in
  if f64_leb (bo_jitter b) f64_epsilon then capped
  else
    let mixed := fnv1a64 (le_bytes 8 seed ++ le_bytes 8 n) in
    let unit := f64_div (f64_of_Z (Z.shiftr mixed 11)) (f64_of_Z (2 ^ 53)) in
    let factor :=
      f64_add (f64_sub f64_one (f64_div (bo_jitter b) (f64_of_Z 2))) (f64_mul (bo_jitter b) unit) in
    let millis :=
      f64_max (f64_round (f64_mul (f64_mul (as_secs_f64 capped) factor) (f64_of_Z 1000))) f64_zero in
    from_millis (f64_as_u64 millis).

(** ** Deadlines

    [remaining_or] of [src/dns/deadline.rs]; [current] is the deadline of the task, if
    it serves a client. *)
Definition remaining_or (current : option Instant) (now : Instant) (fallback : Duration) : Duration :=
  match current with
  | Some deadline => Z.min (since deadline now) fallback
  | None => fallback
  end.

Lemma remaining_only_shrinks current now later fallback :
  now <= later ->
  remaining_or current later fallback <= remaining_or current now fallback <= fallback.
Proof. unfold remaining_or, since, sat_sub. intros. case_match; lia. Qed.

Lemma fnv1a64_range data : is_u64 (fnv1a64 data).
Proof.
  unfold fnv1a64. assert (is_u64 fnv_offset) as H by (unfold is_u64; vm_compute; by split).
  revert H. generalize fnv_offset. induction data as [|b data IH]; intros h H; simpl; [done|].
  apply IH. unfold fnv_step, is_u64, u64_max.
  pose proof (Z.mod_pos_bound (Z.lxor h b * fnv_prime) (2 ^ 64) ltac:(lia)). lia.
Qed.

(** Without jitter the delays double from the base up to the maximum and never
    fall again. *)
Lemma backoff_without_jitter b n seed :
  f64_leb (bo_jitter b) f64_epsilon = true -> 0 <= n -> 0 <= bo_base b ->
  bo_max b <= duration_max ->
  backoff_delay b n seed = Z.min (bo_max b) (bo_base b * 2 ^ Z.min n 20).
Proof.
  intros Hj Hn Hb Hm. unfold backoff_delay. rewrite Hj. unfold backoff_capped, sat_mul.
  rewrite Z.shiftl_mul_pow2, Z.mul_1_l by lia. case_match; lia.
Qed.

Lemma backoff_monotone b m n :
  0 <= m <= n -> 0 <= bo_base b -> backoff_capped b m <= backoff_capped b n.
Proof.
  intros Hmn Hb. unfold backoff_capped, sat_mul. rewrite !Z.shiftl_mul_pow2, !Z.mul_1_l by lia.
  assert (bo_base b * 2 ^ Z.min m 20 <= bo_base b * 2 ^ Z.min n 20).
  { apply Z.mul_le_mono_nonneg_l; [done|]. apply Z.pow_le_mono_r; lia. }
  repeat case_match; lia.
Qed.

(** The values of the repository's unit test. *)
Lemma backoff_examples :
  map (λ n, backoff_delay (backoff_new (from_millis 100) (from_secs 10) f64_zero) n 1) [0; 1; 2; 30] =
    [from_millis 100; from_millis 200; from_millis 400; from_secs 10].
Proof. by vm_compute. Qed.
