(* ===== verification/Proxy.v ===== *)
(** * Egress proxies

    [src/config/proxy.rs]: proxy endpoints and the parser of their URIs.
    [src/upstream/egress.rs]: the SOCKS5 and HTTP [CONNECT] handshakes that turn a
    connection to a proxy into a tunnel.

    A handshake is a [Session]: it reads the octets the proxy sends in the order they
    arrive and writes octets of its own.  What the proxy sends is the input, all of it,
    so what a handshake leaves unread is where the tunnel begins.  Dialling, TLS to the
    proxy and the timeouts around a handshake are left out. *)

From Stdlib Require Import Ascii String.
From S2P Require Import Prelude.
From S2P Require Import Names.
From S2P Require Import Net.
From S2P Require Import Text.
From S2P Require Import Der.
From S2P Require Import Config.
From S2P Require Import Util.
From S2P Require Import Urls.

(** ** Proxies *)

Inductive ProxyKind : Set := Socks5 | Socks5Hostname | HttpConnect | HttpsConnect.

Definition proxy_label (k : ProxyKind) : str :=
  match k with
  | Socks5 => lit "socks5"
  | Socks5Hostname => lit "socks5h"
  | HttpConnect => lit "http"
  | HttpsConnect => lit "https"
  end.

Definition resolves_target_names (k : ProxyKind) : bool :=
  match k with Socks5 => false | _ => true end.
Definition carries_tcp (k : ProxyKind) : bool := true.
Definition carries_udp (k : ProxyKind) : bool := false.

Record ProxyCredentials : Type := mk_ProxyCredentials { username : str; password : str }.

Record ProxyEndpoint : Type := mk_ProxyEndpoint {
  px_kind : ProxyKind;
  px_host : str;
  px_port : Z;
  px_credentials : option ProxyCredentials
}.

(** A number of at most five digits. *)
Definition show_port (p : Z) : str := digits_of 5 p.

Definition proxy_id (p : ProxyEndpoint) : str :=
  proxy_label (px_kind p) ++ lit "://" ++ px_host p ++ lit ":" ++ show_port (px_port p).

Definition proxy_authority (p : ProxyEndpoint) : str :=
  if existsb (ascii_eqb colon) (px_host p) && negb (starts_with (px_host p) (lit "["))
  then lit "[" ++ px_host p ++ lit "]:" ++ show_port (px_port p)
  else px_host p ++ lit ":" ++ show_port (px_port p).

Inductive EgressPath : Type := Direct | ThroughProxy (p : ProxyEndpoint).

Definition egress_id (e : EgressPath) : str :=
  match e with Direct => lit "direct" | ThroughProxy p => proxy_id p end.
Definition egress_carries_udp (e : EgressPath) : bool :=
  match e with Direct => true | ThroughProxy p => carries_udp (px_kind p) end.

(** ** Proxy URIs *)

Definition to_bytes (s : str) : list Z := map code s.
Definition of_bytes (b : list Z) : str := map chr b.

(** [u8::from_str_radix(hex, 16)] of two characters: a sign is accepted. *)
Definition from_hex_pair (a b : Z) : option Z :=
  if a =? 43 then to_digit 16 (chr b)
  else match to_digit 16 (chr a), to_digit 16 (chr b) with
       | Some h, Some l => Some (h * 16 + l)
       | _, _ => None
       end.

Fixpoint percent_octets (bytes : list Z) : list Z :=
  match bytes with
  | [] => []
  | x :: rest =>
      match rest with
      | a :: b :: more =>
          if x =? 37 then
            match from_hex_pair a b with
            | Some byte => byte :: percent_octets more
            | None => x :: percent_octets rest
            end
          else x :: percent_octets rest
      | _ => x :: percent_octets rest
      end
  end.

Definition percent_decode (input : str) : str :=
  of_bytes (from_utf8_lossy (percent_octets (to_bytes input))).

Definition default_proxy_port (k : ProxyKind) : Z :=
  match k with Socks5 | Socks5Hostname => 1080 | HttpConnect => 8080 | HttpsConnect => 8443 end.

Inductive ProxyUriError : Type :=
| EmptyEntry
| InvalidUri (reason : str)
| UnsupportedScheme (scheme : str)
| NoProxyHost
| HasPath
| ListedTwice (id : str).

Definition proxy_kind_of (scheme : str) : option ProxyKind :=
  if str_eqb scheme (lit "socks5") then Some Socks5
  else if str_eqb scheme (lit "socks5h") then Some Socks5Hostname
  else if str_eqb scheme (lit "http") then Some HttpConnect
  else if str_eqb scheme (lit "https") then Some HttpsConnect
  else None.

(** [host.trim_start_matches('[').trim_end_matches(']')]. *)
Definition unbracket (host : str) : str :=
  trim_end_matches "]"%char (trim_start_matches "["%char host).

Section uris.
Context {UL : UrlLib}.

Definition parse_proxy (entry : str) : result ProxyUriError ProxyEndpoint :=
  let entry := trim entry in
  if is_empty entry then Err EmptyEntry
  else
    match url_parse entry with
    | Err reason => Err (InvalidUri reason)
    | Ok url =>
        match proxy_kind_of (u_scheme url) with
        | None => Err (UnsupportedScheme (u_scheme url))
        | Some kind =>
            match u_host url with
            | None => Err NoProxyHost
            | Some host =>
                let port := default (default_proxy_port kind) (u_port url) in
                if negb (is_empty (u_path url)) && negb (str_eqb (u_path url) (lit "/"))
                then Err HasPath
                else
                  let credentials :=
                    if is_empty (u_username url) then None
                    else Some (mk_ProxyCredentials (percent_decode (u_username url))
                                 (percent_decode (default [] (u_password url)))) in
                  Ok (mk_ProxyEndpoint kind (unbracket host) port credentials)
            end
        end
    end.

Fixpoint parse_all_from (out : list ProxyEndpoint) (entries : list str)
    : result ProxyUriError (list ProxyEndpoint) :=
  match entries with
  | [] => Ok out
  | entry :: entries =>
      match parse_proxy entry with
      | Err e => Err e
      | Ok proxy =>
          if existsb (λ p, str_eqb (proxy_id p) (proxy_id proxy)) out
          then Err (ListedTwice (proxy_id proxy))
          else parse_all_from (out ++ [proxy]) entries
      end
  end.

Definition parse_all_proxies (entries : list str) : result ProxyUriError (list ProxyEndpoint) :=
  parse_all_from [] entries.

End uris.

(** ** Sessions *)

Inductive IoError : Type := UnexpectedEof | ProtocolError (detail : str).

(** The octets the proxy sends; the result, what is left of them, and the octets
    written. *)
Definition Session (A : Type) : Type := list Z -> result IoError A * list Z * list Z.

#[global] Instance Session_ret : MRet Session := λ A a inp, (Ok a, inp, []).
#[global] Instance Session_bind : MBind Session := λ A B k m inp,
  let '(r, inp1, out1) := m inp in
  match r with
  | Ok a => let '(r2, inp2, out2) := k a inp1 in (r2, inp2, out1 ++ out2)
  | Err e => (Err e, inp1, out1)
  end.
Definition io_fail {A} (detail : str) : Session A := λ inp, (Err (ProtocolError detail), inp, []).

Definition write_all (bytes : list Z) : Session unit := λ inp, (Ok tt, inp, bytes).

(** [read_exact] into an array of [n] octets. *)
Definition read_exact (n : nat) : Session (list Z) := λ inp,
  if (n <=? length inp)%nat then (Ok (take n inp), drop n inp, [])
  else (Err UnexpectedEof, [], []).

(** ** SOCKS5 *)

Definition VERSION : Z := 5.
Definition NO_AUTH : Z := 0.
Definition USER_PASS : Z := 2.

(** [{:#04x}] of an octet. *)
Definition show_hex (b : Z) : str := lit "0x" ++ [hex_digit (b / 16); hex_digit (b mod 16)].

(** The display form of a socket address. *)
Definition show_socket (a : SocketAddr) : str :=
  match a.1 with
  | V4 v4 => print_ipv4 v4 ++ lit ":" ++ show_port a.2
  | V6 v6 => lit "[" ++ print_ipv6 v6 ++ lit "]:" ++ show_port a.2
  end.

Definition socks5_reply_text (c : Z) : str :=
  if c =? 1 then lit "general SOCKS server failure"
  else if c =? 2 then lit "connection not allowed by ruleset"
  else if c =? 3 then lit "network unreachable"
  else if c =? 4 then lit "host unreachable"
  else if c =? 5 then lit "connection refused"
  else if c =? 6 then lit "TTL expired"
  else if c =? 7 then lit "command not supported"
  else if c =? 8 then lit "address type not supported"
  else lit "unknown failure".

Definition greeting (has_credentials : bool) : list Z :=
  let methods := if has_credentials then [NO_AUTH; USER_PASS] else [NO_AUTH] in
  VERSION :: Z.of_nat (length methods) :: methods.

Definition auth_message (c : ProxyCredentials) : list Z :=
  let user := to_bytes (username c) in
  let pass := to_bytes (password c) in
  1 :: Z.of_nat (length user) :: user ++ Z.of_nat (length pass) :: pass.

(** The octets of an address and a port, most significant first. *)
Fixpoint be_octets (n : nat) (x : Z) : list Z :=
  match n with O => [] | S n => x / 256 ^ Z.of_nat n mod 256 :: be_octets n x end.

Definition connect_request (target : SocketAddr) : list Z :=
  [VERSION; 1; 0]
  ++ match target.1 with
     | V4 v4 => 1 :: be_octets 4 v4
     | V6 v6 => 4 :: be_octets 16 v6
     end ++ be_octets 2 target.2.

(** An octet of what was read. *)
Definition octet_at (l : list Z) (i : nat) : Z := nth i l 0.

Definition authenticate (credentials : option ProxyCredentials) : Session unit :=
  match credentials with
  | None => io_fail (lit "the proxy demanded a username and password, and none is configured")
  | Some c =>
      if (255 <? length (to_bytes (username c)))%nat || (255 <? length (to_bytes (password c)))%nat
      then io_fail (lit "SOCKS5 credentials are limited to 255 bytes")
      else
        write_all (auth_message c) ;;
        auth_reply ← read_exact 2;
        if negb (octet_at auth_reply 1 =? 0)
        then io_fail (lit "the proxy rejected the configured credentials")
        else mret tt
  end.

(** The bound address is read and dropped. *)
Definition skip_bound_address (atyp : Z) : Session unit :=
  if atyp =? 1 then read_exact (4 + 2) ;; mret tt
  else if atyp =? 4 then read_exact (16 + 2) ;; mret tt
  else if atyp =? 3 then
    len ← read_exact 1;
    read_exact (Z.to_nat (octet_at len 0) + 2) ;; mret tt
  else io_fail (lit "the proxy replied with unknown address type " ++ show_hex atyp).

(** What follows the reply to the greeting. *)
Definition socks5_after_greeting (credentials : option ProxyCredentials) (target : SocketAddr)
    (reply : list Z) : Session unit :=
  if negb (octet_at reply 0 =? VERSION)
  then io_fail (lit "the proxy answered SOCKS version " ++ digits_of 3 (octet_at reply 0) ++ lit ", not 5")
  else
    (let method := octet_at reply 1 in
     if method =? NO_AUTH then mret tt
     else if method =? USER_PASS then authenticate credentials
     else if method =? 255 then io_fail (lit "the proxy offered no authentication method we support")
     else io_fail (lit "the proxy selected unsupported SOCKS5 method " ++ show_hex method)) ;;
    write_all (connect_request target) ;;
    head ← read_exact 4;
    if negb (octet_at head 1 =? 0)
    then io_fail (lit "the proxy refused to reach " ++ show_socket target ++ lit ": "
               ++ socks5_reply_text (octet_at head 1))
    else skip_bound_address (octet_at head 3).

Definition socks5_handshake (proxy : ProxyEndpoint) (target : SocketAddr) : Session unit :=
  write_all (greeting (bool_decide (is_Some (px_credentials proxy)))) ;;
  reply ← read_exact 2;
  socks5_after_greeting (px_credentials proxy) target reply.

(** ** HTTP CONNECT *)

Definition ALPHABET : str := lit "ABCDEFGHIJKLMNOPQRSTUVWXYZabcdefghijklmnopqrstuvwxyz0123456789+/".

Definition letter (n : Z) : ascii := default "="%char (ALPHABET !! Z.to_nat (Z.land n 63)).

Fixpoint base64 (input : list Z) : str :=
  match input with
  | [] => []
  | [a] =>
      let n := Z.shiftl a 16 in
      [letter (Z.shiftr n 18); letter (Z.shiftr n 12); "="%char; "="%char]
  | [a; b] =>
      let n := Z.lor (Z.shiftl a 16) (Z.shiftl b 8) in
      [letter (Z.shiftr n 18); letter (Z.shiftr n 12); letter (Z.shiftr n 6); "="%char]
  | a :: b :: c :: rest =>
      let n := Z.lor (Z.lor (Z.shiftl a 16) (Z.shiftl b 8)) c in
      letter (Z.shiftr n 18) :: letter (Z.shiftr n 12) :: letter (Z.shiftr n 6) :: letter n
      :: base64 rest
  end.

Definition crlf : str := [chr 13; chr 10].

Definition http_request (proxy : ProxyEndpoint) (target : SocketAddr) : str :=
  let authority := show_socket target in
  lit "CONNECT " ++ authority ++ lit " HTTP/1.1" ++ crlf
  ++ lit "Host: " ++ authority ++ crlf ++ lit "Proxy-Connection: keep-alive" ++ crlf
  ++ match px_credentials proxy with
     | Some c =>
         lit "Proxy-Authorization: Basic "
         ++ base64 (to_bytes (username c ++ lit ":" ++ password c)) ++ crlf
     | None => []
     end ++ crlf.

Definition header_end : list Z := [13; 10; 13; 10].

Definition ends_with_bytes (buf suffix : list Z) : bool :=
  bool_decide (drop (length buf - length suffix) buf = suffix) && (length suffix <=? length buf)%nat.

(** The header, one octet at a time; the recursion is on the input. *)
Fixpoint read_header (buf inp : list Z) : result IoError (list Z) * list Z :=
  match inp with
  | [] => (Err (ProtocolError (lit "the proxy closed the connection mid-response")), [])
  | b :: inp =>
      let buf := buf ++ [b] in
      if 8192 <? Z.of_nat (length buf)
      then (Err (ProtocolError (lit "the proxy sent an oversized response header")), inp)
      else if ends_with_bytes buf header_end then (Ok buf, inp)
      else read_header buf inp
  end.

Definition status_of (head : list Z) : option Z :=
  match lines (of_bytes (from_utf8_lossy head)) with
  | [] => None
  | line :: _ =>
      match split_whitespace line !! 1%nat with
      | None => None
      | Some c => parse_uint u16_max c
      end
  end.

Definition http_connect (proxy : ProxyEndpoint) (target : SocketAddr) : Session unit :=
  write_all (to_bytes (http_request proxy target)) ;;
  head ← (λ inp, let '(r, rest) := read_header [] inp in (r, rest, []));
  match status_of head with
  | None => io_fail (lit "the proxy sent no HTTP status line")
  | Some status =>
      if negb ((200 <=? status) && (status <? 300))
      then io_fail (lit "the proxy refused to reach " ++ show_socket target ++ lit ": HTTP "
                 ++ digits_of 5 status)
      else mret tt
  end.

(** The handshake of a proxy, once its connection is open and, for an HTTPS proxy, encrypted:
    the bytes are those the handshake reads and writes.  A proxy that does not answer in
    time is input that ends early. *)
Definition open_tunnel (proxy : ProxyEndpoint) (target : SocketAddr) : Session unit :=
  match px_kind proxy with
  | Socks5 | Socks5Hostname => socks5_handshake proxy target
  | HttpConnect | HttpsConnect => http_connect proxy target
  end.

(** ** Sessions, backwards *)

Lemma bind_ok {A B} (m : Session A) (k : A -> Session B) inp b rest out :
  (m ≫= k) inp = (Ok b, rest, out) <->
  ∃ a inp1 out1 out2, m inp = (Ok a, inp1, out1) ∧ k a inp1 = (Ok b, rest, out2) ∧ out = out1 ++ out2.
Proof.
  unfold mbind, Session_bind. destruct (m inp) as [[[a|e] inp1] out1] eqn:Hm.
  - destruct (k a inp1) as [[r2 inp2] out2] eqn:Hk. split.
    + intros [= -> -> <-]. by exists a, inp1, out1, out2.
    + intros (a' & i & o1 & o2 & [= <- <- <-] & Hk' & ->). rewrite Hk in Hk'. by simplify_eq.
  - split; [done|]. by intros (? & ? & ? & ? & ? & _).
Qed.

Lemma read_exact_ok n inp l rest out :
  read_exact n inp = (Ok l, rest, out) <-> inp = l ++ rest ∧ length l = n ∧ out = [].
Proof.
  unfold read_exact. split.
  - case_match eqn:Hn; [|done]. apply Nat.leb_le in Hn. intros [= <- <- <-].
    by rewrite take_drop, length_take_le.
  - intros (-> & <- & ->). rewrite length_app, (proj2 (Nat.leb_le _ _)) by lia.
    by rewrite take_app_length, drop_app_length.
Qed.

Lemma write_all_ok bytes inp a rest out :
  write_all bytes inp = (Ok a, rest, out) <-> rest = inp ∧ out = bytes.
Proof. unfold write_all. destruct a. split; [by intros [= <- <-]|by intros [-> ->]]. Qed.

Lemma ret_ok {A} (a b : A) inp rest out :
  (mret a : Session A) inp = (Ok b, rest, out) <-> b = a ∧ rest = inp ∧ out = [].
Proof. unfold mret, Session_ret. naive_solver. Qed.

Lemma fail_ok {A} detail inp (a : A) rest out : io_fail detail inp = (Ok a, rest, out) <-> False.
Proof. by unfold io_fail. Qed.

Lemma unit_eq (a b : unit) : a = b.
Proof. by destruct a, b. Qed.

(** ** What a SOCKS5 proxy answers *)

(** The bound address of each type, with its port. *)
Inductive bound_address : Z -> list Z -> Prop :=
| bound_v4 a : length a = 6%nat -> bound_address 1 a
| bound_v6 a : length a = 18%nat -> bound_address 4 a
| bound_name n a : length a = (Z.to_nat n + 2)%nat -> bound_address 3 (n :: a).

(** The answer of a proxy that opens the tunnel, and what it was sent (RFC 1928, with
    the user name and password of RFC 1929 when it asks for them). *)
Inductive socks5_accepts (creds : option ProxyCredentials) (target : SocketAddr)
    : list Z -> list Z -> Prop :=
| accepts_anyone v r atyp a :
    bound_address atyp a ->
    socks5_accepts creds target ([VERSION; NO_AUTH] ++ [v; 0; r; atyp] ++ a)
      (greeting (bool_decide (is_Some creds)) ++ connect_request target)
| accepts_user c u v r atyp a :
    creds = Some c -> (length (username c) <= 255)%nat -> (length (password c) <= 255)%nat ->
    bound_address atyp a ->
    socks5_accepts creds target ([VERSION; USER_PASS] ++ [u; 0] ++ [v; 0; r; atyp] ++ a)
      (greeting true ++ auth_message c ++ connect_request target).

Lemma skip_bound_ok atyp inp rest out :
  skip_bound_address atyp inp = (Ok tt, rest, out) <->
  out = [] ∧ ∃ a, bound_address atyp a ∧ inp = a ++ rest.
Proof.
  unfold skip_bound_address. split.
  - destruct (Z.eqb_spec atyp 1) as [->|]; [|destruct (Z.eqb_spec atyp 4) as [->|];
      [|destruct (Z.eqb_spec atyp 3) as [->|]; [|done]]]; rewrite !bind_ok.
    1, 2: intros (l & i & o1 & o2 & (-> & Hl & ->)%read_exact_ok & (_ & -> & ->)%ret_ok & ->);
      split; [done|]; exists l; split; [by constructor|done].
    intros (l & i & o1 & o2 & (-> & Hl & ->)%read_exact_ok & H2 & ->).
    apply bind_ok in H2 as (l2 & i2 & o3 & o4 & (-> & Hl2 & ->)%read_exact_ok & (_ & -> & ->)%ret_ok & ->).
    split; [done|]. destruct l as [|m [|]]; try done. exists (m :: l2). split; [|done]. by constructor.
  - intros (-> & a & Ha & ->). destruct Ha as [a Ha|a Ha|n a Ha]; cbn [Z.eqb Pos.eqb]; rewrite bind_ok.
    1, 2: exists a, rest, [], []; rewrite read_exact_ok, ret_ok; by split_and!.
    exists [n], (a ++ rest), [], []. rewrite read_exact_ok, bind_ok. split_and!; try done.
    exists a, rest, [], []. rewrite read_exact_ok, ret_ok. by split_and!.
Qed.

Lemma authenticate_ok creds inp rest out :
  authenticate creds inp = (Ok tt, rest, out) <->
  ∃ c u, creds = Some c ∧ (length (username c) <= 255)%nat ∧ (length (password c) <= 255)%nat ∧
    inp = [u; 0] ++ rest ∧ out = auth_message c.
Proof.
  unfold authenticate, to_bytes. destruct creds as [c|]; [|split; [done|by intros (? & ? & ? & _)]].
  rewrite !length_map. split.
  - destruct (Nat.ltb_spec 255 (length (username c))); [done|].
    destruct (Nat.ltb_spec 255 (length (password c))); [done|]. cbn [orb].
    intros (_ & i & o1 & o2 & [-> ->]%write_all_ok & H2 & ->)%bind_ok.
    apply bind_ok in H2 as (l & i2 & o3 & o4 & (-> & Hl & ->)%read_exact_ok & H3 & ->).
    destruct l as [|u [|x [|]]]; try done. cbn in H3. destruct (Z.eqb_spec x 0) as [->|]; [|done].
    apply ret_ok in H3 as (_ & -> & ->). exists c, u. cbn. rewrite app_nil_r. by split_and!.
  - intros (c' & u & [= <-] & H1 & H2 & -> & ->).
    rewrite (proj2 (Nat.ltb_ge _ _) H1), (proj2 (Nat.ltb_ge _ _) H2). cbn [orb].
    rewrite bind_ok. exists tt, ([u; 0] ++ rest), (auth_message c), [].
    rewrite write_all_ok, app_nil_r, bind_ok. split_and!; try done.
    exists [u; 0], rest, [], []. rewrite read_exact_ok. cbn. by rewrite ret_ok.
Qed.

Lemma socks5_ok proxy target inp rest out :
  socks5_handshake proxy target inp = (Ok tt, rest, out) <->
  ∃ answer, inp = answer ++ rest ∧ socks5_accepts (px_credentials proxy) target answer out.
Proof.
  unfold socks5_handshake, socks5_after_greeting. split.
  - intros (_ & i & o1 & o2 & [-> ->]%write_all_ok & H & ->)%bind_ok.
    apply bind_ok in H as (reply & i & o3 & o4 & (-> & Hl & ->)%read_exact_ok & H & ->).
    destruct reply as [|ver [|method [|]]]; try done. cbn [octet_at nth] in H.
    destruct (Z.eqb_spec ver VERSION) as [->|]; [|done]. cbn [negb] in H.
    apply bind_ok in H as ([] & i1 & o5 & o6 & Hm & H & ->).
    apply bind_ok in H as (_ & i2 & o7 & o8 & [-> ->]%write_all_ok & H & ->).
    apply bind_ok in H as (head & i3 & o9 & o10 & (-> & Hh & ->)%read_exact_ok & H & ->).
    destruct head as [|v [|code [|r [|atyp [|]]]]]; try done.
    cbn [octet_at nth] in H.
    destruct (Z.eqb_spec code 0) as [->|]; [|done]. cbn [negb] in H.
    apply skip_bound_ok in H as (-> & a & Ha & ->).
    destruct (Z.eqb_spec method NO_AUTH) as [->|_].
    { apply ret_ok in Hm as (_ & <- & ->). rewrite !app_nil_l, !app_nil_r. eexists. split; [|by apply (accepts_anyone _ _ v r atyp a)].
      by rewrite <- !app_assoc. }
    destruct (Z.eqb_spec method USER_PASS) as [->|_]; [|by case_match].
    apply authenticate_ok in Hm as (c & u & Hc & H1 & H2 & -> & ->). rewrite Hc, bool_decide_true by done.
    rewrite !app_nil_l, !app_nil_r. eexists. split; [|by apply (accepts_user _ _ c u v r atyp a)]. by rewrite <- !app_assoc.
  - assert (∀ a atyp v r, bound_address atyp a ->
      (write_all (connect_request target) ;;
       head ← read_exact 4;
       if negb (octet_at head 1 =? 0) then io_fail (lit "the proxy refused to reach " ++ show_socket target
         ++ lit ": " ++ socks5_reply_text (octet_at head 1))
       else skip_bound_address (octet_at head 3)) ([v; 0; r; atyp] ++ a ++ rest)
      = (Ok tt, rest, connect_request target)) as Hconnect.
    { intros a atyp v r Ha. apply bind_ok. exists tt; do 3 eexists. split; [by apply write_all_ok|].
      split; [|symmetry; apply app_nil_r]. apply bind_ok. exists [v; 0; r; atyp]. do 3 eexists.
      split; [by apply read_exact_ok|]. split; [|reflexivity]. apply skip_bound_ok. eauto. }
    intros (answer & -> & [v r atyp a Ha|c u v r atyp a Hc H1 H2 Ha]); rewrite <- !app_assoc; apply bind_ok.
    + exists tt; do 3 eexists. split; [by apply write_all_ok|]. split; [|reflexivity]. apply bind_ok.
      exists [VERSION; NO_AUTH]. do 3 eexists. split; [by apply read_exact_ok|]. split; [|reflexivity].
      apply bind_ok. exists tt; do 3 eexists. split; [by apply ret_ok|]. split; [by apply Hconnect|reflexivity].
    + rewrite Hc, bool_decide_true by done. exists tt; do 3 eexists. split; [by apply write_all_ok|].
      split; [|reflexivity]. apply bind_ok. exists [VERSION; USER_PASS]. do 3 eexists.
      split; [by apply read_exact_ok|]. split; [|reflexivity].
      apply bind_ok. exists tt; do 3 eexists. split; [apply authenticate_ok; exists c, u; by split_and!|].
      split; [by apply Hconnect|reflexivity].
Qed.

(** ** What an HTTP proxy answers *)

(** A header: it ends with the first empty line and is not too long. *)
Definition is_header (head : list Z) : Prop :=
  ends_with_bytes head header_end = true ∧ Z.of_nat (length head) <= 8192 ∧
  ∀ l b l', head = l ++ b :: l' -> ends_with_bytes l header_end = false.

Lemma read_header_ok buf inp head rest :
  ends_with_bytes buf header_end = false ->
  read_header buf inp = (Ok head, rest) <->
  ∃ l, inp = l ++ rest ∧ head = buf ++ l ∧ ends_with_bytes head header_end = true ∧
    Z.of_nat (length head) <= 8192 ∧
    ∀ m b m', l = m ++ b :: m' -> ends_with_bytes (buf ++ m) header_end = false.
Proof.
  revert buf. induction inp as [|b inp IH]; intros buf Hbuf; cbn [read_header].
  { split; [done|]. intros (l & Hl & -> & He & _). symmetry in Hl. apply app_nil in Hl as [-> ->].
    rewrite app_nil_r in He. congruence. }
  destruct (Z.ltb_spec 8192 (Z.of_nat (length (buf ++ [b])))) as [Hlong|Hshort].
  { split; [done|]. intros (l & Hl & -> & He & Hlen & _). destruct l as [|x l].
    - rewrite app_nil_r in He. congruence.
    - rewrite !length_app in *. cbn in *. lia. }
  destruct (ends_with_bytes (buf ++ [b]) header_end) eqn:He.
  - split.
    + intros [= <- <-]. exists [b]. split_and!; try done. intros m x m' Hm.
      destruct m as [|y [|]]; simplify_eq/=. by rewrite app_nil_r.
    + intros (l & Hl & -> & Hend & Hlen & Hfirst). destruct l as [|x l].
      { rewrite app_nil_r in Hend. congruence. }
      injection Hl as -> Hl. destruct l as [|y l]; [by rewrite Hl|].
      specialize (Hfirst [x] y l eq_refl). congruence.
  - rewrite IH by done. split.
    + intros (l & -> & -> & Hend & Hlen & Hfirst). exists (b :: l). rewrite <- app_assoc in *.
      split_and!; try done. intros m x m' Hm. destruct m as [|y m]; [by rewrite app_nil_r|].
      cbn in Hm. injection Hm as -> Hm. specialize (Hfirst m x m' Hm). by rewrite <- app_assoc in Hfirst.
    + intros (l & Hl & -> & Hend & Hlen & Hfirst). destruct l as [|x l].
      { rewrite app_nil_r in Hend. congruence. }
      injection Hl as -> ->. exists l. rewrite <- app_assoc. split_and!; try done.
      intros m y m' ->. rewrite <- app_assoc. by apply (Hfirst (x :: m) y m').
Qed.

Definition http_accepts (proxy : ProxyEndpoint) (target : SocketAddr) (answer out : list Z) : Prop :=
  is_header answer ∧ (∃ status, status_of answer = Some status ∧ 200 <= status < 300) ∧
  out = to_bytes (http_request proxy target).

Lemma http_ok proxy target inp rest out :
  http_connect proxy target inp = (Ok tt, rest, out) <->
  ∃ answer, inp = answer ++ rest ∧ http_accepts proxy target answer out.
Proof.
  unfold http_connect, http_accepts, is_header. rewrite bind_ok. split.
  - intros (_ & i & o1 & o2 & [-> ->]%write_all_ok & H & ->).
    apply bind_ok in H as (head & i1 & o3 & o4 & Hr & H & ->).
    destruct (read_header [] inp) as [r i2] eqn:Hh. injection Hr as -> -> <-.
    apply read_header_ok in Hh as (l & -> & -> & He & Hlen & Hfirst); [|done]. cbn [app] in *.
    destruct (status_of l) as [status|] eqn:Hs; [|done].
    destruct (Z.leb_spec 200 status); [|done]. destruct (Z.ltb_spec status 300); [|done].
    apply ret_ok in H as (_ & -> & ->). exists l. rewrite app_nil_r. split; [done|].
    split_and!; try done. exists status. by split_and!.
  - intros (answer & -> & (He & Hlen & Hfirst) & (status & Hs & H1 & H2) & ->).
    exists tt, (answer ++ rest), (to_bytes (http_request proxy target)), [].
    split; [by apply write_all_ok|]. split; [|by rewrite app_nil_r]. apply bind_ok.
    exists answer, rest, [], [].
    assert (read_header [] (answer ++ rest) = (Ok answer, rest)) as ->.
    { apply read_header_ok; [done|]. exists answer. by split_and!. }
    split; [done|]. split; [|done]. rewrite Hs.
    destruct (Z.leb_spec 200 status); [|lia]. destruct (Z.ltb_spec status 300); [|lia]. by apply ret_ok.
Qed.

(** ** Tunnels *)

Definition proxy_accepts (proxy : ProxyEndpoint) (target : SocketAddr) (answer out : list Z) : Prop :=
  match px_kind proxy with
  | Socks5 | Socks5Hostname => socks5_accepts (px_credentials proxy) target answer out
  | HttpConnect | HttpsConnect => http_accepts proxy target answer out
  end.

(** C19. A tunnel is opened exactly when what the proxy sends begins with an answer that
    accepts the target; then all of that answer has been read and nothing after it, so
    the first octet of the upstream is the first the DNS transport sees, and what was
    written is the handshake for this target and no more. *)
Theorem tunnel_opens_exactly proxy target inp rest out :
  open_tunnel proxy target inp = (Ok tt, rest, out) <->
  ∃ answer, inp = answer ++ rest ∧ proxy_accepts proxy target answer out.
Proof. unfold open_tunnel, proxy_accepts. destruct (px_kind proxy); auto using socks5_ok, http_ok. Qed.

(** ** Credentials *)

Definition with_credentials (p : ProxyEndpoint) (c : ProxyCredentials) : ProxyEndpoint :=
  mk_ProxyEndpoint (px_kind p) (px_host p) (px_port p) (Some c).

Definition short_credentials (c : ProxyCredentials) : Prop :=
  (length (username c) <= 255)%nat ∧ (length (password c) <= 255)%nat.

(** Two sessions that differ at most in what they write. *)
Definition same_outcome {A} (m1 m2 : Session A) : Prop := ∀ inp, (m1 inp).1 = (m2 inp).1.

Lemma same_outcome_bind {A B} (m1 m2 : Session A) (k1 k2 : A -> Session B) :
  same_outcome m1 m2 -> (∀ a, same_outcome (k1 a) (k2 a)) -> same_outcome (m1 ≫= k1) (m2 ≫= k2).
Proof.
  intros Hm Hk inp. unfold mbind, Session_bind. specialize (Hm inp).
  destruct (m1 inp) as [[r1 i1] o1], (m2 inp) as [[r2 i2] o2]. cbn in Hm. injection Hm as -> ->.
  destruct r2 as [a|e]; [|done]. specialize (Hk a i2).
  by destruct (k1 a i2) as [[? ?] ?], (k2 a i2) as [[? ?] ?].
Qed.

Lemma same_outcome_refl {A} (m : Session A) : same_outcome m m.
Proof. by intros inp. Qed.

Lemma authenticate_private c1 c2 :
  short_credentials c1 -> short_credentials c2 ->
  same_outcome (authenticate (Some c1)) (authenticate (Some c2)).
Proof.
  intros [H1 H2] [H3 H4]. unfold authenticate, to_bytes. rewrite !length_map.
  rewrite (proj2 (Nat.ltb_ge _ _) H1), (proj2 (Nat.ltb_ge _ _) H2), (proj2 (Nat.ltb_ge _ _) H3),
    (proj2 (Nat.ltb_ge _ _) H4). cbn [orb].
  apply same_outcome_bind; [by intros inp|]. intros _. apply same_outcome_refl.
Qed.

Lemma socks5_private c1 c2 target reply :
  short_credentials c1 -> short_credentials c2 ->
  same_outcome (socks5_after_greeting (Some c1) target reply)
    (socks5_after_greeting (Some c2) target reply).
Proof.
  intros H1 H2. unfold socks5_after_greeting. case_match; [apply same_outcome_refl|].
  apply same_outcome_bind; [|intros _; apply same_outcome_refl].
  repeat case_match; try apply same_outcome_refl. by apply authenticate_private.
Qed.

Lemma socks5_not_asked c1 c2 target inp :
  take 2 inp ≠ [VERSION; USER_PASS] ->
  (write_all (greeting true) ;; reply ← read_exact 2;
   socks5_after_greeting (Some c1) target reply) inp =
  (write_all (greeting true) ;; reply ← read_exact 2;
   socks5_after_greeting (Some c2) target reply) inp.
Proof.
  intros Hinp. unfold mbind at 1 3, Session_bind at 1 3, write_all. unfold mbind at 1 2, Session_bind at 1 2.
  unfold read_exact at 1 2. destruct inp as [|a [|b inp]]; [done..|]. cbn [length Nat.leb take drop].
  cbn [take] in Hinp. unfold socks5_after_greeting. cbn [octet_at nth].
  destruct (Z.eqb_spec a VERSION) as [->|]; [|done].
  destruct (Z.eqb_spec b NO_AUTH) as [->|]; [done|].
  destruct (Z.eqb_spec b USER_PASS) as [->|]; done.
Qed.

(** The outcome of a handshake, every error message included, does not depend on the
    credentials: whatever is logged about a proxy, they are not in it.  A SOCKS5 proxy
    that does not ask for them is not sent them either. *)
Theorem credentials_stay_private proxy target c1 c2 inp
    (H1 : short_credentials c1) (H2 : short_credentials c2) :
  (open_tunnel (with_credentials proxy c1) target inp).1
    = (open_tunnel (with_credentials proxy c2) target inp).1 ∧
  (px_kind proxy = Socks5 ∨ px_kind proxy = Socks5Hostname -> take 2 inp ≠ [VERSION; USER_PASS] ->
   open_tunnel (with_credentials proxy c1) target inp
     = open_tunnel (with_credentials proxy c2) target inp).
Proof.
  unfold open_tunnel. cbn [px_kind with_credentials].
  assert (∀ c, socks5_handshake (with_credentials proxy c) target = (
    write_all (greeting true) ;; reply ← read_exact 2;
    socks5_after_greeting (Some c) target reply)) as Hs by done.
  assert (same_outcome (socks5_handshake (with_credentials proxy c1) target)
            (socks5_handshake (with_credentials proxy c2) target)) as Hsocks.
  { rewrite !Hs. repeat (apply same_outcome_bind; [apply same_outcome_refl|intros ?]).
    by apply socks5_private. }
  assert (same_outcome (http_connect (with_credentials proxy c1) target)
            (http_connect (with_credentials proxy c2) target)) as Hhttp.
  { unfold http_connect. apply same_outcome_bind; [by intros i|]. intros _. apply same_outcome_refl. }
  split; [by destruct (px_kind proxy)|]. intros Hk Hinp.
  assert (socks5_handshake (with_credentials proxy c1) target inp
          = socks5_handshake (with_credentials proxy c2) target inp) as Heq
    by (rewrite !Hs; by apply socks5_not_asked).
  by destruct Hk as [-> | ->].
Qed.

(** ** The request names the target *)

Definition be_value (l : list Z) : Z := fold_left (λ acc b, acc * 256 + b) l 0.

Lemma be_value_app l b : be_value (l ++ [b]) = be_value l * 256 + b.
Proof. unfold be_value. by rewrite fold_left_app. Qed.

Lemma be_octets_snoc n x : be_octets (S n) x = be_octets n (x / 256) ++ [x mod 256].
Proof.
  induction n as [|n IH]; [cbn; by rewrite Z.div_1_r|].
  cbn [be_octets] in *. rewrite IH. cbn [app]. f_equal.
  rewrite Z.div_div by lia. do 2 f_equal. rewrite <- (Z.pow_succ_r 256) by lia. f_equal. lia.
Qed.

Lemma be_value_octets n x : 0 <= x < 256 ^ Z.of_nat n -> be_value (be_octets n x) = x.
Proof.
  revert x. induction n as [|n IH]; intros x Hx; [cbn in *; lia|].
  rewrite be_octets_snoc, be_value_app, IH; [pose proof (Z.div_mod x 256); lia|].
  rewrite Nat2Z.inj_succ, Z.pow_succ_r in Hx by lia.
  split; [apply Z.div_pos; lia|]. apply Z.div_lt_upper_bound; lia.
Qed.

Lemma be_octets_length n x : length (be_octets n x) = n.
Proof. induction n as [|n IH]; cbn; [done|by rewrite IH]. Qed.

(** What a SOCKS5 proxy reads from a request (RFC 1928). *)
Definition decode_request (l : list Z) : option SocketAddr :=
  match l with
  | 5 :: 1 :: 0 :: 1 :: rest =>
      if (length rest =? 6)%nat then Some (V4 (be_value (take 4 rest)), be_value (drop 4 rest)) else None
  | 5 :: 1 :: 0 :: 4 :: rest =>
      if (length rest =? 18)%nat then Some (V6 (be_value (take 16 rest)), be_value (drop 16 rest)) else None
  | _ => None
  end.

Definition socket_ok (a : SocketAddr) : Prop :=
  0 <= a.2 <= u16_max ∧ match a.1 with V4 v => 0 <= v < 2 ^ 32 | V6 v => 0 <= v < 2 ^ 128 end.

Lemma connect_request_names_target target :
  socket_ok target -> decode_request (connect_request target) = Some target.
Proof.
  destruct target as [[v|v] p]; intros [Hp Hv]; cbn [fst snd] in *; unfold u16_max in Hp;
    unfold connect_request, decode_request, VERSION; cbn [fst snd app].
  - rewrite length_app, !be_octets_length. cbn [Nat.add Nat.eqb].
    rewrite take_app_length', drop_app_length' by (symmetry; apply be_octets_length).
    rewrite !be_value_octets by (cbn; lia). done.
  - rewrite length_app, !be_octets_length. cbn [Nat.add Nat.eqb].
    rewrite take_app_length', drop_app_length' by (symmetry; apply be_octets_length).
    rewrite !be_value_octets by (cbn; lia). done.
Qed.

(** ** Base64, backwards *)

Definition letter_index (c : ascii) : option Z :=
  snd <$> find (λ e : ascii * Z, ascii_eqb c e.1) (zip ALPHABET (map Z.of_nat (seq 0 64))).

(** RFC 4648: four letters are three octets, fewer when padded. *)
Fixpoint base64_decode (s : str) : option (list Z) :=
  match s with
  | [] => Some []
  | a :: b :: c :: d :: rest =>
      match letter_index a, letter_index b with
      | Some x, Some y =>
          match letter_index c, letter_index d with
          | Some z, Some t =>
              (λ more, x * 4 + y / 16 :: y mod 16 * 16 + z / 4 :: z mod 4 * 64 + t :: more)
                <$> base64_decode rest
          | Some z, None => Some [x * 4 + y / 16; y mod 16 * 16 + z / 4]
          | None, _ => Some [x * 4 + y / 16]
          end
      | _, _ => None
      end
  | _ => None
  end.

Lemma letter_index_letter n : letter_index (letter n) = Some (n mod 64).
Proof.
  unfold letter. change 63 with (Z.ones 6). rewrite Z.land_ones by lia. change (2 ^ 6) with 64.
  pose proof (Z.mod_pos_bound n 64 ltac:(lia)) as Hb. set (m := n mod 64) in *. clearbody m.
  assert (forallb (λ k, bool_decide (letter_index (default "="%char (ALPHABET !! k)) = Some (Z.of_nat k)))
            (seq 0 64) = true) as H by (vm_compute; reflexivity).
  rewrite forallb_forall in H. specialize (H (Z.to_nat m)).
  apply bool_decide_eq_true in H; [by rewrite H, Z2Nat.id by lia|].
  apply in_seq. lia.
Qed.

Lemma letter_index_pad : letter_index "="%char = None.
Proof. vm_compute. reflexivity. Qed.

Lemma lor_shift a k b : 0 <= k -> 0 <= b < 2 ^ k -> Z.lor (Z.shiftl a k) b = a * 2 ^ k + b.
Proof.
  intros Hk Hb. assert (Z.land (Z.shiftl a k) b = 0) as Hland.
  { apply Z.bits_inj'. intros i Hi. rewrite Z.land_spec, Z.bits_0, Z.shiftl_spec by done.
    destruct (Z.lt_ge_cases i k) as [Hlt|Hge]; [by rewrite Z.testbit_neg_r by lia|].
    rewrite <- (Z.mod_small b (2 ^ k)), Z.mod_pow2_bits_high by lia. apply andb_false_r. }
  by rewrite <- Z.lxor_lor, <- Z.add_nocarry_lxor, Z.shiftl_mul_pow2.
Qed.

(** The authorization header carries the credentials back to whoever decodes it. *)
Theorem base64_decodes input (Hb : Forall (λ b, 0 <= b < 256) input) :
  base64_decode (base64 input) = Some input.
Proof.
  assert (∀ n l, (length l <= n)%nat -> Forall (λ b, 0 <= b < 256) l ->
    base64_decode (base64 l) = Some l) as H; [|by apply (H (length input))].
  clear Hb input. induction n as [|n IH]; intros l Hl Hb; [by destruct l; [|cbn in Hl; lia]|].
  destruct l as [|a [|b [|c l]]]; [done| | |]; cbn [base64 base64_decode];
    rewrite !Forall_cons in Hb; rewrite ?letter_index_letter, ?letter_index_pad, ?Z.shiftr_div_pow2 by lia.
  - rewrite Z.shiftl_mul_pow2 by lia. change (2 ^ 16) with 65536. change (2 ^ 18) with 262144.
    change (2 ^ 12) with 4096. apply f_equal, f_equal2; [|done]. Z.to_euclidean_division_equations. lia.
  - rewrite (lor_shift a 16) by (rewrite ?Z.shiftl_mul_pow2 by lia; lia). rewrite Z.shiftl_mul_pow2 by lia.
    change (2 ^ 16) with 65536. change (2 ^ 18) with 262144. change (2 ^ 12) with 4096.
    change (2 ^ 8) with 256. change (2 ^ 6) with 64.
    apply f_equal, f_equal2; [|apply f_equal2; [|done]]; Z.to_euclidean_division_equations; lia.
  - rewrite IH by (cbn in Hl; lia || tauto). cbn [fmap option_fmap option_map].
    rewrite Z.shiftl_mul_pow2 with (a := b) by lia.
    replace (Z.lor (Z.lor (Z.shiftl a 16) (b * 2 ^ 8)) c) with (a * 65536 + b * 256 + c).
    2: { rewrite lor_shift by lia. replace (a * 2 ^ 16 + b * 2 ^ 8) with (Z.shiftl (a * 256 + b) 8)
           by (rewrite Z.shiftl_mul_pow2 by lia; lia). rewrite lor_shift by lia. lia. }
    change (2 ^ 18) with 262144. change (2 ^ 12) with 4096. change (2 ^ 6) with 64.
    apply f_equal, f_equal2; [|apply f_equal2; [|apply f_equal2; [|done]]]; Z.to_euclidean_division_equations; lia.
Qed.

(** ** Proxy URIs *)

Definition hex_pair (b : Z) : list Z := [code (hex_digit (b / 16)); code (hex_digit (b mod 16))].

Definition percent_encode (s : str) : str := of_bytes (flat_map (λ b, 37 :: hex_pair b) (to_bytes s)).

Lemma from_hex_pair_hex b : 0 <= b < 256 ->
  from_hex_pair (code (hex_digit (b / 16))) (code (hex_digit (b mod 16))) = Some b.
Proof.
  intros Hb.
  assert (forallb (λ k, bool_decide (from_hex_pair (code (hex_digit (Z.of_nat k / 16)))
    (code (hex_digit (Z.of_nat k mod 16))) = Some (Z.of_nat k))) (seq 0 256) = true) as H
    by (vm_compute; reflexivity).
  rewrite forallb_forall in H. specialize (H (Z.to_nat b) ltac:(apply in_seq; lia)).
  apply bool_decide_eq_true in H. by rewrite Z2Nat.id in H by lia.
Qed.

Lemma code_range c : 0 <= code c < 256.
Proof. unfold code. pose proof (N_ascii_bounded c). lia. Qed.

Lemma chr_code c : chr (code c) = c.
Proof. unfold chr, code. by rewrite N2Z.id, ascii_N_embedding. Qed.

Lemma of_to_bytes s : of_bytes (to_bytes s) = s.
Proof.
  unfold of_bytes, to_bytes. rewrite map_map. rewrite <- (map_id s) at 2. apply map_ext, chr_code.
Qed.

Lemma to_of_bytes l : Forall (λ b, 0 <= b < 256) l -> to_bytes (of_bytes l) = l.
Proof.
  induction 1 as [|b l Hb _ IH]; [done|]. unfold to_bytes, of_bytes in *. cbn [map]. by rewrite code_chr, IH.
Qed.

(** Escaped text is read back, so a password may contain any ASCII character. *)
Lemma percent_round_trip s :
  Forall (λ c, code c < 128) s -> percent_decode (percent_encode s) = s.
Proof.
  intros Hs. unfold percent_decode, percent_encode. rewrite to_of_bytes.
  2: { apply Forall_flat_map. apply Forall_forall. intros b _. repeat constructor; try lia; apply code_range. }
  assert (∀ l, Forall (λ b, 0 <= b < 256) l -> percent_octets (flat_map (λ b, 37 :: hex_pair b) l) = l)
    as Hdec.
  { induction 1 as [|b l Hb _ IH]; [done|]. cbn [flat_map hex_pair app percent_octets Z.eqb Pos.eqb].
    by rewrite from_hex_pair_hex, IH. }
  rewrite Hdec by (apply Forall_map, Forall_forall; intros c _; apply code_range).
  rewrite lossy_ascii by (by apply Forall_map). apply of_to_bytes.
Qed.

(** A sign after the percent sign is taken for a digit. *)
Lemma percent_sign_is_decoded : percent_decode (lit "a%+5") = [chr 97; chr 5].
Proof. vm_compute. reflexivity. Qed.

Section uri_theorems.
Context {UL : UrlLib}.

Lemma parse_all_from_spec out entries ps :
  parse_all_from out entries = Ok ps ->
  ∃ more, ps = out ++ more ∧ Forall2 (λ e p, parse_proxy e = Ok p) entries more ∧
    (NoDup (map proxy_id out) -> NoDup (map proxy_id ps)).
Proof.
  revert out. induction entries as [|e entries IH]; intros out; cbn.
  { intros [= <-]. exists []. rewrite app_nil_r. by split_and!. }
  destruct (parse_proxy e) as [p|] eqn:Hp; [|done]. case_match eqn:Hx; [done|].
  intros (more & -> & Hall & Hnd)%IH. exists (p :: more). rewrite <- app_assoc in *.
  split_and!; [done|by constructor|]. intros Hout. apply Hnd. rewrite map_app. cbn.
  apply NoDup_app. split_and!; [done| |apply NoDup_singleton].
  intros i Hi ->%list_elem_of_singleton. apply list_elem_of_In, in_map_iff in Hi as (q & Hq & Hin).
  apply not_true_iff_false in Hx. apply Hx, existsb_exists. exists q. split; [done|]. by apply str_eqb_eq.
Qed.

(** Every listed proxy is used once, in the order of the list. *)
Lemma proxies_are_distinct entries ps :
  parse_all_proxies entries = Ok ps ->
  NoDup (map proxy_id ps) ∧ Forall2 (λ e p, parse_proxy e = Ok p) entries ps.
Proof.
  intros (more & -> & Hall & Hnd)%parse_all_from_spec. split; [|done]. apply Hnd. constructor.
Qed.

Context {ULaws : UrlLaws}.

(** The crate does not report a port that is the scheme's own, and the default here is
    another one: an HTTP proxy on port 80 and an HTTPS proxy on port 443 cannot be
    configured. *)
Lemma web_ports_cannot_be_named entry p :
  parse_proxy entry = Ok p ->
  (px_kind p = HttpConnect -> px_port p ≠ 80) ∧ (px_kind p = HttpsConnect -> px_port p ≠ 443).
Proof.
  unfold parse_proxy. case_match; [done|]. destruct (url_parse _) as [u|] eqn:Hu; [|done].
  destruct (proxy_kind_of (u_scheme u)) as [kind|] eqn:Hk; [|done]. destruct (u_host u); [|done].
  case_match; [done|]. intros [= <-]. cbn [px_kind px_port].
  assert (∀ d q, default d (u_port u) = q -> d ≠ q -> scheme_port (u_scheme u) = Some q -> False) as Hport.
  { intros d q Hd Hne Hs. destruct (u_port u) as [x|] eqn:Hx; cbn in Hd; [|done]. subst x.
    apply (url_default_port _ _ Hu); rewrite Hx; [done|by rewrite Hs]. }
  unfold proxy_kind_of in Hk.
  destruct (str_eqb (u_scheme u) (lit "socks5")); [by simplify_eq|].
  destruct (str_eqb (u_scheme u) (lit "socks5h")); [by simplify_eq|].
  destruct (str_eqb (u_scheme u) (lit "http")) eqn:H1.
  { simplify_eq. split; [|done]. intros _ Hq. eapply Hport; [exact Hq|done|].
    unfold scheme_port. by rewrite H1. }
  destruct (str_eqb (u_scheme u) (lit "https")) eqn:H2; [|done]. simplify_eq.
  split; [done|]. intros _ Hq. eapply Hport; [exact Hq|done|]. unfold scheme_port. by rewrite H1, H2.
Qed.

End uri_theorems.

(** ** Concrete proxies *)

#[local] Existing Instance plain_urls.

Lemma proxy_port_example :
  px_port <$> match parse_proxy (lit "http://proxy.example:80") with Ok p => Some p | Err _ => None end
  = Some 8080.
Proof. vm_compute. reflexivity. Qed.

Definition office_proxy : ProxyEndpoint :=
  mk_ProxyEndpoint Socks5 (lit "10.0.0.1") 1080 None.
Definition alice : ProxyCredentials := mk_ProxyCredentials (lit "alice") (lit "secret").
Definition bob : ProxyCredentials := mk_ProxyCredentials (lit "bob") (lit "hunter2").
Definition quad9 : SocketAddr := (V4 (ipv4 9 9 9 9), 853).

Lemma credentials_stay_private_witness :
  (open_tunnel (with_credentials office_proxy alice) quad9 [5; 2; 1; 1]).1 =
  (open_tunnel (with_credentials office_proxy bob) quad9 [5; 2; 1; 1]).1.
Proof.
  apply (credentials_stay_private office_proxy quad9 alice bob [5; 2; 1; 1]); split; vm_compute; lia.
Defined.

Lemma base64_decodes_witness : base64_decode (base64 [97; 98; 99; 100]) = Some [97; 98; 99; 100].
Proof. apply (base64_decodes [97; 98; 99; 100]). repeat constructor; lia. Defined.
