(* ===== verification/Network.v ===== *)
(** * Network state

    [src/network/mod.rs]: what was observed of the host's routes and addresses, the
    fingerprint that decides whether the egress path is another one, and the
    published snapshot with its generation. *)

From Stdlib Require Import Ascii String.
From S2P Require Import Prelude.
From S2P Require Import Names.
From S2P Require Import Net.
From S2P Require Import Text.
From S2P Require Import Util.

Inductive FamilyState : Set := FamilyUnknown | FamilyUsable | FamilyUnusable.

#[global] Instance FamilyState_eq_dec : EqDecision FamilyState.
Proof. solve_decision. Defined.

Record RawNetworkState : Type := mk_RawNetworkState {
  raw_default_iface_v4 : option str;
  raw_gateway_v4 : option Z;
  raw_default_iface_v6 : option str;
  raw_gateway_v6 : option Z;
  raw_source_v4 : option Z;
  raw_source_v6 : option Z;
  raw_global_addresses : list str
}.

Definition no_network : RawNetworkState := mk_RawNetworkState None None None None None None [].

(** Each field, ended by the unit separator. *)
Definition fingerprint_fields (r : RawNetworkState) : list str :=
  [default (lit "-") (raw_default_iface_v4 r);
   default [] (print_ipv4 <$> raw_gateway_v4 r);
   default (lit "-") (raw_default_iface_v6 r);
   default [] (print_ipv6 <$> raw_gateway_v6 r);
   default [] (print_ipv4 <$> raw_source_v4 r);
   default [] (print_ipv6 <$> raw_source_v6 r)] ++ raw_global_addresses r.

Definition fingerprint (r : RawNetworkState) : Z :=
  fnv1a64 (concat (map (λ s, map code s ++ [31]) (fingerprint_fields r))).

(** [Ipv4Addr::is_loopback], [Ipv6Addr::is_loopback]. *)
Definition loopback_v4 (a : Z) : bool := a / 2 ^ 24 =? 127.
Definition loopback_v6 (a : Z) : bool := a =? 1.
Definition is_link_local_v6 (a : Z) : bool := Z.land (a / 2 ^ 112) 65472 =? 65152.

Definition v4_state (r : RawNetworkState) : FamilyState :=
  match raw_default_iface_v4 r, raw_source_v4 r with
  | Some _, Some a => if negb (loopback_v4 a) && negb (a =? 0) then FamilyUsable else FamilyUnusable
  | _, _ => FamilyUnusable
  end.

Definition v6_state (r : RawNetworkState) : FamilyState :=
  match raw_default_iface_v6 r, raw_source_v6 r with
  | Some _, Some a =>
      if negb (loopback_v6 a) && negb (a =? 0) && negb (is_link_local_v6 a) then FamilyUsable
      else FamilyUnusable
  | _, _ => FamilyUnusable
  end.

Record NetworkSnapshot : Type := mk_NetworkSnapshot {
  net_generation : Z;
  net_v4 : FamilyState;
  net_v6 : FamilyState;
  net_raw : RawNetworkState;
  net_published_unix : Z
}.

Definition unknown_network : NetworkSnapshot := mk_NetworkSnapshot 1 FamilyUnknown FamilyUnknown no_network 0.

Definition may_be_usable (s : FamilyState) : bool := negb (bool_decide (s = FamilyUnusable)).
Definition any_usable (n : NetworkSnapshot) : bool := may_be_usable (net_v4 n) || may_be_usable (net_v6 n).

(** The new snapshot, and whether the generation advanced. *)
Definition publish_network (previous : NetworkSnapshot) (raw : RawNetworkState) (now_unix : Z)
    : NetworkSnapshot * bool :=
  let changed := negb (fingerprint (net_raw previous) =? fingerprint raw) in
  (mk_NetworkSnapshot
     (if changed then sat_add u64_max (net_generation previous) 1 else net_generation previous)
     (v4_state raw) (v6_state raw) raw
     (if changed then now_unix else net_published_unix previous), changed).

Definition net_in_relearn_window (n : NetworkSnapshot) (now_unix window_secs : Z) : bool :=
  (0 <? net_published_unix n) && (now_unix ⊖ net_published_unix n <? window_secs).

(** ** Link-local sources *)

(** A family is usable exactly with a default route and a source address that can
    leave the host. *)
Lemma v6_usable_iff r :
  (∀ a, raw_source_v6 r = Some a -> 0 <= a < 2 ^ 128) ->
  v6_state r = FamilyUsable <->
  is_Some (raw_default_iface_v6 r) ∧
  ∃ a, raw_source_v6 r = Some a ∧ a ≠ 0 ∧ a ≠ 1 ∧ ~ 65152 * 2 ^ 112 <= a < 65216 * 2 ^ 112.
Proof.
  intros Hr. unfold v6_state, loopback_v6, is_link_local_v6.
  destruct (raw_default_iface_v6 r); [|naive_solver].
  destruct (raw_source_v6 r) as [a|]; [|naive_solver]. specialize (Hr a eq_refl).
  assert (Z.land (a / 2 ^ 112) 65472 = 65152 <-> 65152 * 2 ^ 112 <= a < 65216 * 2 ^ 112) as Hl.
  { change 65472 with (Z.shiftl (Z.ones 10) 6). change 65152 with (Z.shiftl 1018 6).
    set (g := a / 2 ^ 112).
    assert (0 <= g < 2 ^ 16) as Hg by (unfold g; split; [apply Z.div_pos|apply Z.div_lt_upper_bound]; lia).
    assert (Z.land g (Z.shiftl (Z.ones 10) 6) = Z.shiftl (g / 64) 6) as ->.
    { apply Z.bits_inj'. intros i Hi. rewrite Z.land_spec, !Z.shiftl_spec by done.
      change 64 with (2 ^ 6). destruct (decide (i < 6)) as [H6|H6].
      - rewrite !(Z.testbit_neg_r _ (i - 6)) by lia. by rewrite andb_false_r.
      - rewrite Z.div_pow2_bits by lia. replace (i - 6 + 6) with i by lia.
        destruct (decide (i < 16)) as [H16|H16].
        + by rewrite Z.ones_spec_low, andb_true_r by lia.
        + rewrite Z.ones_spec_high, andb_false_r by lia. symmetry.
          destruct (decide (g = 0)) as [->|Hne]; [apply Z.bits_0|].
          apply Z.bits_above_log2; [lia|]. assert (Z.log2 g < 16) by (apply Z.log2_lt_pow2; lia). lia. }
    rewrite !Z.shiftl_mul_pow2 by lia.
    assert (g / 64 = 1018 <-> 65152 <= g < 65216) as Hq.
    { pose proof (Z.div_mod g 64 ltac:(lia)). pose proof (Z.mod_pos_bound g 64 ltac:(lia)). lia. }
    assert (65152 <= g < 65216 <-> 65152 * 2 ^ 112 <= a < 65216 * 2 ^ 112) as <-.
    { unfold g. pose proof (Z.div_mod a (2 ^ 112) ltac:(lia)).
      pose proof (Z.mod_pos_bound a (2 ^ 112) ltac:(lia)). nia. }
    lia. }
  destruct (Z.eqb_spec a 1), (Z.eqb_spec a 0), (Z.eqb_spec (Z.land (a / 2 ^ 112) 65472) 65152);
    cbn; split; intros H; try done.
  all: try (destruct H as (_ & a' & [= <-] & ? & ? & ?); tauto).
  split; [done|]. exists a. tauto.
Qed.
