(* ===== verification/Message.v ===== *)
(** * Message helpers

    [src/dns/message.rs]: TTL arithmetic, answer fingerprints, the question
    check and size-limited serialisation. *)

From Stdlib Require Import Ascii String.
From S2P Require Import Prelude.
From S2P Require Import Names.
From S2P Require Import Dns.
From S2P Require Import Util.

Section message.
Context {Name : Type} {NL : NameLib Name}.
Implicit Types msg request response : Message Name.
Implicit Types r : DnsRecord Name.

(** ** TTLs *)

Definition with_ttl r (ttl : Z) : DnsRecord Name :=
  mk_Record (r_name r) (r_class r) ttl (r_data r) (r_proof r).

Definition map_ttls msg (f : Z -> Z) : Message Name :=
  let g r := with_ttl r (f (r_ttl r)) in
  mk_Message (metadata msg) (queries msg) (map g (answers msg)) (map g (authorities msg))
    (map g (additionals msg)) (edns msg).

Definition cap_ttls msg (cap : Z) : Message Name := map_ttls msg (λ ttl, Z.min ttl cap).

Definition age_ttls msg (elapsed : Z) : Message Name := map_ttls msg (λ ttl, ttl ⊖ elapsed).

(** The records of every section that carry data. *)
Definition data_records msg : list (DnsRecord Name) :=
  List.filter (λ r, negb (rtype_eqb (record_type r) RT_OPT))
    (answers msg ++ authorities msg ++ additionals msg).

Definition min_list (l : list Z) : option Z :=
  match l with [] => None | x :: l => Some (fold_left Z.min l x) end.
Definition max_list (l : list Z) : option Z :=
  match l with [] => None | x :: l => Some (fold_left Z.max l x) end.

Definition min_ttl msg : option Z := min_list (map r_ttl (data_records msg)).
Definition max_ttl msg : option Z := max_list (map r_ttl (data_records msg)).

(** ** Fingerprints *)

(** [u16::from] of a type or class, and the presentation form of record data. *)
Class WireCodes : Type := {
  type_code : RecordType -> Z;
  class_code : DNSClass -> Z;
  rdata_text : RData Name -> str
}.

Definition bytes_of (s : str) : list Z := map (λ c, Z.of_N (N_of_ascii c)) s.

(** [u16::to_be_bytes]. *)
Definition be_bytes16 (x : Z) : list Z := [x / 256; x mod 256].

Definition fingerprint_part `{WireCodes} r : list Z :=
  bytes_of (to_ascii_lowercase (name_text (r_name r))) ++ [0]
  ++ be_bytes16 (type_code (record_type r)) ++ be_bytes16 (class_code (r_class r)) ++ [0]
  ++ bytes_of (to_ascii_lowercase (rdata_text (r_data r))).

(** The order of [Vec<u8>]. *)
Fixpoint bytes_leb (a b : list Z) : bool :=
  match a, b with
  | [], _ => true
  | _ :: _, [] => false
  | x :: a', y :: b' => (x <? y) || ((x =? y) && bytes_leb a' b')
  end.

Definition answer_fingerprint `{WireCodes} msg : Z :=
  let parts := stable_sort bytes_leb (map fingerprint_part (answers msg)) in
  fold_left (λ hash p, fnv_step (fold_left fnv_step p hash) 255) parts fnv_offset.

(** ** Questions *)

Definition eq_ignore_ascii_case (a b : str) : bool :=
  str_eqb (to_ascii_lowercase a) (to_ascii_lowercase b).

Definition query_matches (a b : Query Name) : bool :=
  bool_decide (q_type a = q_type b) && bool_decide (q_class a = q_class b)
  && eq_ignore_ascii_case (name_text (q_name a)) (name_text (q_name b)).

Definition question_matches request response : bool :=
  if negb (length (queries request) =? length (queries response))%nat then false
  else forallb (λ ab, query_matches ab.1 ab.2) (zip (queries request) (queries response)).

Definition supported_class (q : Query Name) : bool :=
  match q_class q with IN | CH => true | _ => false end.

(** ** Building responses *)

(** [Metadata::response_from_request] is the crate's. *)
Context (response_from_request : Metadata -> Metadata).

Definition set_rcode (m : Metadata) (code : ResponseCode) : Metadata :=
  mk_Metadata (m_id m) (m_message_type m) (m_op_code m) (m_authoritative m) (m_truncation m)
    (m_recursion_desired m) (m_recursion_available m) (m_authentic_data m)
    (m_checking_disabled m) code.

Definition set_ra (m : Metadata) (ra : bool) : Metadata :=
  mk_Metadata (m_id m) (m_message_type m) (m_op_code m) (m_authoritative m) (m_truncation m)
    (m_recursion_desired m) ra (m_authentic_data m) (m_checking_disabled m) (m_response_code m).

Definition error_response request (code : ResponseCode) (recursion_available : bool)
    : Message Name :=
  mk_Message (set_ra (set_rcode (response_from_request (metadata request)) code)
                recursion_available)
    (queries request) [] [] []
    (match edns request with
     | Some req => Some (mk_Edns 0 (e_max_payload req) (e_dnssec_ok req) [])
     | None => None
     end).

Definition response_skeleton request (recursion_available : bool) : Message Name :=
  mk_Message (set_ra (response_from_request (metadata request)) recursion_available)
    (queries request) [] [] [] None.

Definition minimal_any_response request (ttl : Z) : Message Name :=
  let msg := response_skeleton request true in
  match queries request with
  | q :: _ =>
      mk_Message (metadata msg) (queries msg)
        [mk_Record (q_name q) IN ttl (RD_HINFO (lit "RFC8482") []) PIndeterminate]
        (authorities msg) (additionals msg) (edns msg)
  | [] => msg
  end.

(** ** Serialisation *)

Record Serialized : Type := mk_Serialized { ser_bytes : list Z; ser_truncated : bool }.

(** The encoder: the bytes it emits under a size limit with the truncation flag
    of the header it wrote, and [Message::truncate]. *)
Context (emit_message : Message Name -> Z -> result str (list Z * bool)).
Context (truncate : Message Name -> Message Name).

Definition serialize_limited msg (max_size : Z) : result str Serialized :=
  let limit := clampZ 512 65535 max_size in
  match emit_message msg limit with
  | Err e => Err e
  | Ok (buffer, header_truncation) =>
      if negb header_truncation || m_truncation (metadata msg) then
        Ok (mk_Serialized buffer header_truncation)
      else
        match emit_message (truncate msg) limit with
        | Err e => Err e
        | Ok (small, _) => Ok (mk_Serialized small true)
        end
  end.

(** ** Lemmas *)

Lemma fold_min_spec l x m :
  fold_left Z.min l x = m -> m ∈ x :: l ∧ ∀ y, y ∈ x :: l -> m <= y.
Proof.
  intros <-. revert x. induction l as [|z l IH]; intros x; simpl.
  { split; [by left|]. intros y ->%list_elem_of_singleton. lia. }
  destruct (IH (Z.min x z)) as [H1 H2]. split.
  - rewrite elem_of_cons in H1. rewrite !elem_of_cons. destruct H1 as [->|H1]; [|by auto].
    destruct (Z.min_dec x z) as [->| ->]; auto.
  - intros y Hy. rewrite !elem_of_cons in Hy. destruct Hy as [->|[->|Hy]].
    + specialize (H2 (Z.min x z)). rewrite elem_of_cons in H2. lia.
    + specialize (H2 (Z.min x z)). rewrite elem_of_cons in H2. lia.
    + apply H2. by right.
Qed.

Lemma min_list_spec l m : min_list l = Some m -> m ∈ l ∧ ∀ y, y ∈ l -> m <= y.
Proof. destruct l as [|x l]; simpl; [done|]. intros [= H]. by apply fold_min_spec. Qed.

Lemma min_list_None l : min_list l = None <-> l = [].
Proof. by destruct l. Qed.

Lemma record_type_with_ttl r ttl : record_type (with_ttl r ttl) = record_type r.
Proof. done. Qed.

Lemma data_records_map_ttls msg f :
  data_records (map_ttls msg f) = map (λ r, with_ttl r (f (r_ttl r))) (data_records msg).
Proof.
  unfold data_records. simpl. rewrite <- !map_app.
  generalize (answers msg ++ authorities msg ++ additionals msg). intros l.
  induction l as [|r l IH]; simpl; [done|].
  change (record_type (with_ttl r (f (r_ttl r)))) with (record_type r).
  destruct (negb _); simpl; by rewrite IH.
Qed.

Lemma bytes_leb_total a b : bytes_leb a b = true ∨ bytes_leb b a = true.
Proof.
  revert b. induction a as [|x a IH]; intros [|y b]; simpl; auto.
  destruct (Z.lt_total x y) as [H|[->|H]].
  - left. by rewrite (proj2 (Z.ltb_lt x y)).
  - rewrite Z.ltb_irrefl, Z.eqb_refl. simpl. apply IH.
  - right. by rewrite (proj2 (Z.ltb_lt y x)).
Qed.

Lemma bytes_leb_cons x a y b :
  bytes_leb (x :: a) (y :: b) = true <-> x < y ∨ (x = y ∧ bytes_leb a b = true).
Proof. simpl. by rewrite orb_true_iff, andb_true_iff, Z.ltb_lt, Z.eqb_eq. Qed.

Lemma bytes_leb_trans a b c :
  bytes_leb a b = true -> bytes_leb b c = true -> bytes_leb a c = true.
Proof.
  revert b c. induction a as [|x a IH]; intros [|y b] [|z c]; try done.
  rewrite !bytes_leb_cons. intros [H1|[-> H1]] [H2|[-> H2]]; [lia|lia|lia|].
  right. split; [done|]. by eapply IH.
Qed.

Lemma bytes_leb_antisym a b : bytes_leb a b = true -> bytes_leb b a = true -> a = b.
Proof.
  revert b. induction a as [|x a IH]; intros [|y b]; try done.
  rewrite !bytes_leb_cons. intros [H1|[-> H1]] [H2|[E H2]]; [lia|lia|lia|].
  f_equal. by apply IH.
Qed.

Lemma fingerprint_perm `{WireCodes} msg msg' :
  map fingerprint_part (answers msg) ≡ₚ map fingerprint_part (answers msg') ->
  answer_fingerprint msg = answer_fingerprint msg'.
Proof.
  intros Hp. unfold answer_fingerprint. f_equal.
  eapply (sorted_perm_unique bytes_leb).
  - intros x y _ _. apply bytes_leb_antisym.
  - apply stable_sort_sorted; [apply bytes_leb_total|apply bytes_leb_trans].
  - apply stable_sort_sorted; [apply bytes_leb_total|apply bytes_leb_trans].
  - by rewrite !stable_sort_perm.
Qed.

Lemma question_matches_spec request response :
  question_matches request response = true <->
  Forall2 (λ a b, q_type a = q_type b ∧ q_class a = q_class b ∧
    to_ascii_lowercase (name_text (q_name a)) = to_ascii_lowercase (name_text (q_name b)))
    (queries request) (queries response).
Proof.
  unfold question_matches. generalize (queries request) (queries response).
  intros la. induction la as [|a la IH]; intros [|b lb]; simpl.
  - split; [constructor|done].
  - split; [done|]. by inversion 1.
  - split; [done|]. by inversion 1.
  - specialize (IH lb). unfold query_matches, eq_ignore_ascii_case in *.
    rewrite Forall2_cons, <- IH.
    destruct (length la =? length lb)%nat; simpl; [|naive_solver].
    rewrite !andb_true_iff, !bool_decide_eq_true, str_eqb_eq. tauto.
Qed.

(** ** Properties *)

(** Ageing and capping only lower TTLs, on every record of every section,
    and touch nothing else: owners, classes, data and proofs survive, the order
    and number of records too, and after a cap no record exceeds it. *)
Theorem ttls_only_go_down msg (elapsed cap : Z)
    (Helapsed : 0 <= elapsed) (Httl : ∀ r, r ∈ answers msg ++ authorities msg ++ additionals msg -> 0 <= r_ttl r) :
  let out := cap_ttls (age_ttls msg elapsed) cap in
  metadata out = metadata msg ∧ queries out = queries msg ∧ edns out = edns msg ∧
  Forall2 (λ r r',
    r_name r' = r_name r ∧ r_class r' = r_class r ∧ r_data r' = r_data r ∧
    r_proof r' = r_proof r ∧
    r_ttl r' <= r_ttl r ∧ r_ttl r' <= cap ∧ (0 <= cap -> 0 <= r_ttl r'))
    (answers msg ++ authorities msg ++ additionals msg)
    (answers out ++ authorities out ++ additionals out).
Proof.
  simpl. split_and!; [done..|]. rewrite <- !map_app. revert Httl.
  generalize (answers msg ++ authorities msg ++ additionals msg). intros l Httl.
  induction l as [|r l IH]; simpl; constructor.
  - specialize (Httl r (list_elem_of_here r l)). simpl. unfold sat_sub. split_and!; try done; lia.
  - apply IH. intros r' Hr'. apply Httl. by right.
Qed.

(** The fingerprint of an answer does not depend on the order of its
    records, their TTLs, proofs, or the case of owner names. *)
Theorem fingerprint_order_independent `{WireCodes} msg msg' :
  map (λ r, (to_ascii_lowercase (name_text (r_name r)), r_class r, r_data r)) (answers msg)
    ≡ₚ map (λ r, (to_ascii_lowercase (name_text (r_name r)), r_class r, r_data r)) (answers msg') ->
  answer_fingerprint msg = answer_fingerprint msg'.
Proof.
  intros Hp. apply fingerprint_perm.
  set (g := λ t : str * DNSClass * RData Name,
    bytes_of t.1.1 ++ [0] ++ be_bytes16 (type_code (rdata_type t.2))
    ++ be_bytes16 (class_code t.1.2) ++ [0] ++ bytes_of (to_ascii_lowercase (rdata_text t.2))).
  apply (Permutation_map g) in Hp. by rewrite !map_map in Hp.
Qed.

(** A response is taken for an answer to the query only when it repeats the
    question exactly: as many questions, in the same order, each of the same type
    and class, and with the same name up to the case of its letters. *)
Theorem question_matches_exactly request response :
  question_matches request response = true <->
  Forall2 (λ a b, q_type a = q_type b ∧ q_class a = q_class b ∧
    to_ascii_lowercase (name_text (q_name a)) = to_ascii_lowercase (name_text (q_name b)))
    (queries request) (queries response).
Proof. apply question_matches_spec. Qed.

(** Serialisation respects the client's limit, never below 512 bytes and
    never above 65535, when the encoder respects the limit it is given; and a
    message that had to be cut is marked truncated. *)
Theorem serialized_within_limit msg (max_size : Z) (out : Serialized)
    (Hemit : ∀ m limit bytes tc, 512 <= limit -> emit_message m limit = Ok (bytes, tc) ->
       Z.of_nat (length bytes) <= limit)
    (Hout : serialize_limited msg max_size = Ok out) :
  Z.of_nat (length (ser_bytes out)) <= Z.max 512 (Z.min 65535 max_size) ∧
  (ser_truncated out = false ->
   emit_message msg (clampZ 512 65535 max_size) = Ok (ser_bytes out, false)).
Proof.
  assert (clampZ 512 65535 max_size = Z.max 512 (Z.min 65535 max_size)) as Hc.
  { unfold clampZ. repeat case_match; bool_to_prop; lia. }
  unfold serialize_limited in Hout.
  destruct (emit_message msg _) as [[b tc]|] eqn:E1; [|done].
  destruct (negb tc || _) eqn:E2.
  - injection Hout as <-. simpl. split; [rewrite <- Hc; eapply Hemit; [lia|done]|]. by intros ->.
  - destruct (emit_message (truncate msg) _) as [[b2 tc2]|] eqn:E3; [|done].
    injection Hout as <-. simpl. split; [rewrite <- Hc; eapply Hemit; [lia|done]|done].
Qed.

End message.

(** ** Witnesses *)

Section witnesses.
#[local] Existing Instance text_names.

Definition sample_message : Message str :=
  mk_Message (mk_Metadata 7 MtResponse OpQuery false false true true false false NoError)
    [mk_Query (lit "a.test.") RT_A IN]
    [mk_Record (lit "a.test.") IN 300 (RD_A 1) PInsecure;
     mk_Record (lit "a.test.") IN 40 (RD_A 2) PInsecure] [] [] None.

Lemma ttls_only_go_down_witness :
  queries (cap_ttls (age_ttls sample_message 50) 60) = queries sample_message.
Proof.
  refine (proj1 (proj2 (ttls_only_go_down sample_message 50 60 ltac:(lia) _))).
  intros r Hr. rewrite list_elem_of_In in Hr. destruct Hr as [<-|[<-|[]]]; simpl; lia.
Defined.

#[local] Instance plain_codes : WireCodes (Name := str) := {
  type_code t := match t with RT_A => 1 | _ => 0 end;
  class_code _ := 1;
  rdata_text d := match d with RD_A a => repeat "x"%char (Z.to_nat a) | _ => [] end
}.

Definition swapped_message : Message str :=
  mk_Message (metadata sample_message) (queries sample_message)
    (rev (answers sample_message)) [] [] None.

Lemma fingerprint_order_independent_witness :
  answer_fingerprint sample_message = answer_fingerprint swapped_message.
Proof. apply fingerprint_order_independent. constructor. Defined.

Lemma serialized_within_limit_witness :
  Z.of_nat (length (ser_bytes (mk_Serialized [1; 2] false))) <= 512.
Proof.
  apply (serialized_within_limit (λ _ _, Ok ([1; 2], false)) id sample_message 100
    (mk_Serialized [1; 2] false)).
  - intros m limit b tc Hl [= <- <-]. simpl. lia.
  - reflexivity.
Defined.

End witnesses.
