(* ===== verification/EdnsOptions.v ===== *)
(** * EDNS options

    [src/dns/message.rs], the option codecs: Extended DNS Errors (RFC 8914), DNS
    cookies (RFC 7873), the TCP keepalive (RFC 7828), and the removal of a client
    subnet.  The option table of an OPT record is the DNS library's and is a
    parameter ([OptLib]); an option is its code and its octets. *)

From Stdlib Require Import Ascii String.
From S2P Require Import Prelude.
From S2P Require Import Names.
From S2P Require Import Dns.
From S2P Require Import Util.

Definition EDE_OPTION_CODE : Z := 15.
Definition COOKIE_OPTION_CODE : Z := 10.
Definition KEEPALIVE_OPTION_CODE : Z := 11.
Definition SUBNET_OPTION_CODE : Z := 8.

Inductive ExtendedError : Set :=
| EdeOther | StaleAnswer | ForgedAnswer | DnssecIndeterminate | DnssecBogus | SignatureExpired
| SignatureNotYetValid | NsecMissing | NotReady | Blocked | Prohibited | StaleNxdomain
| NoReachableAuthority | NetworkError.

Definition ede_code (e : ExtendedError) : Z :=
  match e with
  | EdeOther => 0 | StaleAnswer => 3 | ForgedAnswer => 4 | DnssecIndeterminate => 5
  | DnssecBogus => 6 | SignatureExpired => 7 | SignatureNotYetValid => 8 | NsecMissing => 12
  | NotReady => 14 | Blocked => 15 | Prohibited => 18 | StaleNxdomain => 19
  | NoReachableAuthority => 22 | NetworkError => 23
  end.

(** The option table. *)
Class OptLib : Type := {
  opt_get : list (Z * str) -> Z -> option str;
  opt_get_all : list (Z * str) -> Z -> list str;
  opt_insert : list (Z * str) -> Z * str -> list (Z * str);
  opt_remove : list (Z * str) -> Z -> list (Z * str)
}.

Class OptLaws {OL : OptLib} : Prop := {
  opt_get_insert_eq l c b : opt_get l c = None -> opt_get (opt_insert l (c, b)) c = Some b;
  opt_get_insert_ne l c c' b : c ≠ c' -> opt_get (opt_insert l (c, b)) c' = opt_get l c';
  opt_get_remove_eq l c : opt_get (opt_remove l c) c = None;
  opt_get_remove_ne l c c' : c ≠ c' -> opt_get (opt_remove l c) c' = opt_get l c'
}.

(** One octet of an integer, and back. *)
Definition octet (x : Z) : ascii := ascii_of_N (Z.to_N (x mod 256)).
Definition octet_value (c : ascii) : Z := Z.of_N (N_of_ascii c).

(** [u16::to_be_bytes] and [u16::from_be_bytes]. *)
Definition to_be_bytes16 (x : Z) : str := [octet (x / 256); octet x].
Definition from_be_bytes16 (a b : ascii) : Z := octet_value a * 256 + octet_value b.

(** The octets of [bounded(text, 60)] for ASCII text: the ellipsis is the three
    octets of U+2026. *)
Definition ellipsis_utf8 : str := [octet 0xe2; octet 0x80; octet 0xa6].
Definition bounded_octets (s : str) (max : nat) : str :=
  if (length s <=? max)%nat then s else take max s ++ ellipsis_utf8.

Definition encode_ede (err : ExtendedError) (extra_text : str) : Z * str :=
  (EDE_OPTION_CODE, to_be_bytes16 (ede_code err) ++ bounded_octets extra_text 60).

(** [utf8_lossy] is [String::from_utf8_lossy]. *)
Definition decode_ede (utf8_lossy : str -> str) (o : Z * str) : option (Z * str) :=
  if negb (o.1 =? EDE_OPTION_CODE) then None
  else match o.2 with
       | a :: b :: text => Some (from_be_bytes16 a b, utf8_lossy text)
       | _ => None
       end.

Definition is_ascii (s : str) : Prop := Forall (λ c, octet_value c < 128) s.

Definition encode_client_cookie (client : str) : Z * str := (COOKIE_OPTION_CODE, client).

Definition encode_full_cookie (client server : str) : Z * str :=
  (COOKIE_OPTION_CODE, client ++ take 32 server).

Definition encode_tcp_keepalive (idle : Duration) : Z * str :=
  let units := Z.min (idle / 1000000 / 100) u16_max in
  (KEEPALIVE_OPTION_CODE, to_be_bytes16 units).

Section options.
Context {Name : Type} {OL : OptLib}.
Implicit Types msg : Message Name.

Definition with_options (e : Edns) (l : list (Z * str)) : Edns :=
  mk_Edns (e_version e) (e_max_payload e) (e_dnssec_ok e) l.

Definition with_edns msg (e : option Edns) : Message Name :=
  mk_Message (metadata msg) (queries msg) (answers msg) (authorities msg) (additionals msg) e.

(** [edns.options_mut().insert(option)] where the message has EDNS. *)
Definition insert_option msg (o : Z * str) : Message Name :=
  match edns msg with
  | Some e => with_edns msg (Some (with_options e (opt_insert (e_options e) o)))
  | None => msg
  end.

Definition attach_ede msg (err : ExtendedError) (text : str) : Message Name :=
  insert_option msg (encode_ede err text).

Definition extract_edes (utf8_lossy : str -> str) msg : list (Z * str) :=
  match edns msg with
  | None => []
  | Some e =>
      omap (λ b, decode_ede utf8_lossy (EDE_OPTION_CODE, b))
        (opt_get_all (e_options e) EDE_OPTION_CODE)
  end.

Definition extract_server_cookie msg (expect_client : str) : option str :=
  match edns msg with
  | None => None
  | Some e =>
      match opt_get (e_options e) COOKIE_OPTION_CODE with
      | None => None
      | Some bytes =>
          if (length bytes <? 8)%nat || negb (str_eqb (take 8 bytes) expect_client) then None
          else
            let server := drop 8 bytes in
            if (length server =? 0)%nat then Some []
            else if ((8 <=? length server)%nat && (length server <=? 32)%nat)
            then Some server else None
      end
  end.

Definition strip_ecs msg : Message Name :=
  match edns msg with
  | Some e => with_edns msg (Some (with_options e (opt_remove (e_options e) SUBNET_OPTION_CODE)))
  | None => msg
  end.

(** ** Round trips *)

Lemma octet_value_octet x : octet_value (octet x) = x mod 256.
Proof.
  unfold octet_value, octet. pose proof (Z.mod_pos_bound x 256 ltac:(lia)).
  rewrite N_ascii_embedding; lia.
Qed.

Lemma be_bytes16_round_trip x : 0 <= x < 65536 ->
  ∃ a b, to_be_bytes16 x = [a; b] ∧ from_be_bytes16 a b = x.
Proof.
  intros Hx. exists (octet (x / 256)), (octet x). split; [done|].
  unfold from_be_bytes16. rewrite !octet_value_octet.
  rewrite (Z.mod_small (x / 256)); [pose proof (Z.div_mod x 256); lia|].
  split; [apply Z.div_pos; lia|]. apply Z.div_lt_upper_bound; lia.
Qed.

Context {OLaws : OptLaws}.

(** Options survive their encoding, and a cookie is believed only when it
    echoes ours: a well-formed server cookie sent back under our client cookie is
    recovered exactly; a cookie that opens with anything but our client cookie
    yields nothing; an Extended DNS Error decodes to the code and text it was made
    from; and attaching one leaves the cookie alone. *)
Theorem options_round_trip utf8_lossy msg e client server err text other :
  (∀ s, is_ascii s -> utf8_lossy s = s) -> is_ascii text -> (length text <= 60)%nat ->
  edns msg = Some e -> opt_get (e_options e) COOKIE_OPTION_CODE = None ->
  length client = 8%nat -> (8 <= length server <= 32)%nat ->
  length other = 8%nat -> other ≠ client ->
  extract_server_cookie (insert_option msg (encode_full_cookie client server)) client = Some server
  ∧ extract_server_cookie (insert_option msg (encode_full_cookie other server)) client = None
  ∧ decode_ede utf8_lossy (encode_ede err text) = Some (ede_code err, text)
  ∧ extract_server_cookie (attach_ede msg err text) client = extract_server_cookie msg client.
Proof.
  intros Hutf Hasc Hlen60 He Hno Hc Hs Ho Hne.
  assert (∀ c, length c = 8%nat ->
    opt_get (opt_insert (e_options e) (encode_full_cookie c server)) COOKIE_OPTION_CODE
    = Some (c ++ server)) as Hget.
  { intros c Hlen. unfold encode_full_cookie. rewrite opt_get_insert_eq by done.
    by rewrite take_ge by lia. }
  unfold extract_server_cookie, insert_option, attach_ede. rewrite He. cbn [edns with_edns with_options e_options].
  rewrite !Hget by done. split_and!.
  - rewrite length_app, take_app_length', str_eqb_refl, drop_app_length' by done.
    rewrite (proj2 (Nat.ltb_ge _ _)) by lia. cbn [orb negb].
    rewrite (proj2 (Nat.eqb_neq _ _)) by lia. rewrite !(proj2 (Nat.leb_le _ _)) by lia. done.
  - rewrite take_app_length' by done.
    replace (str_eqb other client) with false; [by rewrite orb_true_r|].
    symmetry. apply not_true_iff_false. by intros ?%str_eqb_eq.
  - unfold decode_ede, encode_ede. cbn [fst snd]. rewrite Z.eqb_refl. cbn [negb].
    destruct (be_bytes16_round_trip (ede_code err)) as (a & b & -> & Hab); [destruct err; cbn; lia|].
    cbn. unfold bounded_octets. rewrite (proj2 (Nat.leb_le _ _)) by lia.
    by rewrite Hab, Hutf.
  - unfold insert_option. rewrite He. cbn [edns with_edns with_options e_options].
    unfold encode_ede. by rewrite opt_get_insert_ne by done.
Qed.

End options.

(** ** An option table *)

#[local] Instance opt_list : OptLib := {
  opt_get l c := snd <$> find_first (λ o, o.1 =? c) l;
  opt_get_all l c := snd <$> List.filter (λ o, o.1 =? c) l;
  opt_insert l o := l ++ [o];
  opt_remove l c := List.filter (λ o, negb (o.1 =? c)) l
}.

#[local] Instance opt_list_laws : OptLaws.
Proof.
  split; cbn; intros l c.
  - intros b. induction l as [|o l IH]; cbn; [by rewrite Z.eqb_refl|].
    destruct (o.1 =? c); [done|exact IH].
  - intros c' b Hne. induction l as [|o l IH]; cbn.
    + by rewrite (proj2 (Z.eqb_neq _ _)).
    + destruct (o.1 =? c'); [done|exact IH].
  - induction l as [|o l IH]; cbn; [done|]. destruct (o.1 =? c) eqn:E; cbn; [exact IH|].
    rewrite E. exact IH.
  - intros c' Hne. induction l as [|o l IH]; cbn; [done|].
    destruct (Z.eqb_spec o.1 c) as [->|]; cbn.
    + rewrite (proj2 (Z.eqb_neq _ _)) by done. exact IH.
    + destruct (o.1 =? c'); [done|exact IH].
Qed.

Lemma options_round_trip_witness :
  let msg := mk_Message (Name := str)
    (mk_Metadata 1 MtResponse OpQuery false false true true false false NoError) [] [] [] []
    (Some (mk_Edns 0 1232 false [])) in
  extract_server_cookie (insert_option msg (encode_full_cookie (lit "ABCDEFGH") (lit "server-cookie")))
    (lit "ABCDEFGH") = Some (lit "server-cookie").
Proof.
  intros msg.
  refine (proj1 (options_round_trip id msg (mk_Edns 0 1232 false []) (lit "ABCDEFGH")
    (lit "server-cookie") StaleAnswer (lit "stale") (lit "abcdefgh") _ _ _ _ _ _ _ _ _));
    [reflexivity|repeat (apply Forall_cons_2; [reflexivity|]); apply Forall_nil_2|cbn; lia|
     reflexivity|reflexivity|reflexivity|cbn; lia|reflexivity|discriminate].
Defined.
