(* ===== verification/TtlPolicy.v ===== *)
(** * Client-facing TTLs

    [src/policy/ttl.rs]: the cap that applies to an answer and the TTL the
    client is given. *)

From S2P Require Import Prelude.
From S2P Require Import Config.

Inductive TtlReason : Set :=
| ServeStale | NetworkChange | CloudflareAugment | CloudflarePreserve
| OptimizedMulti | TtlDefault.

#[global] Instance TtlReason_eq_dec : EqDecision TtlReason.
Proof. solve_decision. Defined.

Record TtlInputs : Type := mk_TtlInputs {
  remaining_authoritative : Z;
  remaining_signature : option Z;
  is_stale : bool;
  recent_network_change : bool;
  cloudflare_augmented : bool;
  cloudflare_preserved : bool;
  optimized_multi : bool
}.

Definition effective_client_ttl (cfg : TtlConfig) (inputs : TtlInputs) : Z * TtlReason :=
  let '(cap, reason) :=
    if is_stale inputs then (cap_serve_stale cfg, ServeStale)
    else if cloudflare_augmented inputs then (cap_cloudflare_augment cfg, CloudflareAugment)
    else if recent_network_change inputs then (cap_network_change cfg, NetworkChange)
    else if cloudflare_preserved inputs then (cap_cloudflare_preserve cfg, CloudflarePreserve)
    else if optimized_multi inputs then (cap_optimized_multi cfg, OptimizedMulti)
    else (cap_default cfg, TtlDefault) in
  let cap := if recent_network_change inputs then Z.min cap (cap_network_change cfg) else cap in
  let ttl := Z.min (remaining_authoritative inputs) cap in
  let ttl := match remaining_signature inputs with Some sig => Z.min ttl sig | None => ttl end in
  (ttl, reason).

(** The cap a reason stands for. *)
Definition cap_of (cfg : TtlConfig) (r : TtlReason) : Z :=
  match r with
  | ServeStale => cap_serve_stale cfg
  | NetworkChange => cap_network_change cfg
  | CloudflareAugment => cap_cloudflare_augment cfg
  | CloudflarePreserve => cap_cloudflare_preserve cfg
  | OptimizedMulti => cap_optimized_multi cfg
  | TtlDefault => cap_default cfg
  end.

(** The cap of an answer: its reason's, lowered by a recent network change. *)
Definition capped (cfg : TtlConfig) (i : TtlInputs) (r : TtlReason) : Z :=
  if recent_network_change i then Z.min (cap_of cfg r) (cap_network_change cfg)
  else cap_of cfg r.

Lemma effective_client_ttl_eq cfg i :
  let r := snd (effective_client_ttl cfg i) in
  fst (effective_client_ttl cfg i) =
    match remaining_signature i with
    | Some sig => Z.min (Z.min (remaining_authoritative i) (capped cfg i r)) sig
    | None => Z.min (remaining_authoritative i) (capped cfg i r)
    end.
Proof. unfold effective_client_ttl, capped. repeat case_match; simplify_eq/=; done. Qed.

Lemma effective_client_ttl_le cfg i :
  fst (effective_client_ttl cfg i) <= remaining_authoritative i.
Proof. rewrite effective_client_ttl_eq. case_match; lia. Qed.

Lemma effective_client_ttl_le_cap cfg i :
  fst (effective_client_ttl cfg i) <= cap_of cfg (snd (effective_client_ttl cfg i)).
Proof. rewrite effective_client_ttl_eq. unfold capped. repeat case_match; lia. Qed.

(** The TTL given to a client is the largest value that respects every
    bound at once: the remaining authoritative TTL, the remaining lifetime of
    the signatures, the cap of the chosen reason, and the network-change cap
    while a change is recent.  In particular no configuration value extends the
    lifetime of upstream data. *)
Theorem client_ttl_is_greatest_lower_bound (cfg : TtlConfig) (i : TtlInputs) (t : Z) :
  t <= fst (effective_client_ttl cfg i) <->
  t <= remaining_authoritative i ∧
  (∀ sig, remaining_signature i = Some sig -> t <= sig) ∧
  t <= cap_of cfg (snd (effective_client_ttl cfg i)) ∧
  (recent_network_change i = true -> t <= cap_network_change cfg).
Proof.
  rewrite effective_client_ttl_eq. unfold capped.
  destruct (remaining_signature i) as [sig|]; destruct (recent_network_change i); split.
  all: try (intros H; repeat split; intros; simplify_eq; lia).
  all: intros (H1 & H2 & H3 & H4); try specialize (H2 sig eq_refl);
    try specialize (H4 eq_refl); lia.
Qed.

(** The chosen cap is not always the smallest that applies: a stale answer
    that is also augmented takes the stale cap, and with the default
    configuration keeps a TTL above the augmentation cap. *)
Theorem stale_augmented_exceeds_augment_cap :
  ∃ i, cloudflare_augmented i = true ∧
    cap_cloudflare_augment default_TtlConfig < fst (effective_client_ttl default_TtlConfig i).
Proof.
  exists (mk_TtlInputs 300 None true false true false false). by vm_compute.
Qed.
