(* ===== verification/DnssecPolicy.v ===== *)
(** * DNSSEC: one state for a whole answer

    [src/policy/dnssec.rs], with the observation window of
    [src/dns/proofwatch.rs] and the attribution of [src/dns/handle.rs]: the
    validator marks a record bogus both for a bad signature and for a chain
    lookup that never finished, and the window is what tells the two apart. *)

From Stdlib Require Import Ascii String.
From S2P Require Import Prelude.
From S2P Require Import Names.
From S2P Require Import Config.
From S2P Require Import Dns.
From S2P Require Import Errors.

(** ** Data *)

Inductive DnssecStatus : Set := Secure | Insecure | Bogus | Indeterminate.

#[global] Instance DnssecStatus_eq_dec : EqDecision DnssecStatus.
Proof. solve_decision. Defined.

Definition is_authentic (s : DnssecStatus) : bool :=
  match s with Secure => true | _ => false end.

Inductive ValidationOutcome : Set :=
| VSecure | VProvenInsecure | VBogus | VIncompleteProof | VTransportFailure
| VTimeout | VIndeterminate.

#[global] Instance ValidationOutcome_eq_dec : EqDecision ValidationOutcome.
Proof. solve_decision. Defined.

Definition is_retryable (o : ValidationOutcome) : bool :=
  match o with VIncompleteProof | VTransportFailure | VTimeout => true | _ => false end.

Definition cache_status (o : ValidationOutcome) : DnssecStatus :=
  match o with
  | VSecure => Secure
  | VProvenInsecure => Insecure
  | VBogus => Bogus
  | VIncompleteProof | VTransportFailure | VTimeout => Indeterminate
  | VIndeterminate => Indeterminate
  end.

Definition outcome_label (o : ValidationOutcome) : str :=
  lit match o with
      | VSecure => "secure"
      | VProvenInsecure => "proven_insecure"
      | VBogus => "bogus"
      | VIncompleteProof => "incomplete_proof"
      | VTransportFailure => "transport_failure"
      | VTimeout => "timeout"
      | VIndeterminate => "indeterminate"
      end.

(** ** The observation window *)

Inductive ProofFailure : Set := PF_None | PF_Deadline | PF_Transport | PF_Refused.

#[global] Instance ProofFailure_eq_dec : EqDecision ProofFailure.
Proof. solve_decision. Defined.

(** The derived [Ord]: declaration order. *)
Definition pf_rank (p : ProofFailure) : Z :=
  match p with PF_None => 0 | PF_Deadline => 1 | PF_Transport => 2 | PF_Refused => 3 end.

(** [observe] on the cell of the current window. *)
Definition observe (cell failure : ProofFailure) : ProofFailure :=
  if bool_decide (failure = PF_None) then cell
  else if pf_rank cell <? pf_rank failure then failure else cell.

(** [watch] runs a computation in a fresh window; [seen] is what the
    computation observed, in order. *)
Definition watch (seen : list ProofFailure) : ProofFailure := fold_left observe seen PF_None.

Definition proof_failure_for (e : ResolveError) : ProofFailure :=
  match e with
  | Timeout _ => PF_Deadline
  | InvalidResponse _ => PF_Refused
  | NoRoute _ | AllFailed _ | Overloaded _ | ShuttingDown => PF_Transport
  | DnssecBogus => PF_None
  | ProofIncomplete _ => PF_Transport
  end.

(** ** Deriving the state *)

Section dnssec.
Context {Name : Type}.
Implicit Types msg : Message Name.

(** The records whose proof counts. *)
Definition proved_records msg : list (DnsRecord Name) :=
  List.filter (λ r, negb (rtype_eqb (record_type r) RT_OPT)) (answers msg ++ authorities msg).

Definition weaker (worst : Proof_) (r : DnsRecord Name) : Proof_ :=
  if proof_rank (r_proof r) <? proof_rank worst then r_proof r else worst.

Definition dnssec_status msg (cfg : DnssecConfig) (upstream_trusted_ad : bool) : DnssecStatus :=
  match dnssec_mode cfg with
  | ModeOff =>
      if trust_upstream_ad cfg && upstream_trusted_ad && m_authentic_data (metadata msg)
      then Secure else Indeterminate
  | _ =>
      match proved_records msg with
      | [] => Indeterminate
      | rs => match fold_left weaker rs PSecure with
              | PSecure => Secure
              | PInsecure => Insecure
              | PBogus => Bogus
              | PIndeterminate => Indeterminate
              end
      end
  end.

Definition classify msg cfg (upstream_trusted_ad : bool) (observed : ProofFailure)
    : ValidationOutcome :=
  match dnssec_status msg cfg upstream_trusted_ad with
  | Secure => VSecure
  | Insecure => VProvenInsecure
  | Indeterminate => VIndeterminate
  | Bogus =>
      match observed with
      | PF_None => VBogus
      | PF_Deadline => VTimeout
      | PF_Transport => VTransportFailure
      | PF_Refused => VIncompleteProof
      end
  end.

Definition earliest_rrsig_expiry msg : option Z :=
  fold_left (λ earliest r,
    match r_data r with
    | RD_RRSIG exp =>
        Some match earliest with Some e => Z.min e exp | None => exp end
    | _ => earliest
    end) (answers msg ++ authorities msg ++ additionals msg) None.

Definition may_set_ad (status : DnssecStatus) (client_asked modified : bool) : bool :=
  client_asked && is_authentic status && negb modified.

(** ** Lemmas *)

Lemma fold_weaker_min rs p :
  proof_rank (fold_left weaker rs p) <= proof_rank p ∧
  (∀ r, r ∈ rs -> proof_rank (fold_left weaker rs p) <= proof_rank (r_proof r)) ∧
  (fold_left weaker rs p = p ∨ ∃ r, r ∈ rs ∧ fold_left weaker rs p = r_proof r).
Proof.
  revert p. induction rs as [|r rs IH]; intros p; simpl.
  { split_and!; [lia|set_solver|by left]. }
  destruct (IH (weaker p r)) as (H1 & H2 & H3).
  assert (proof_rank (weaker p r) <= proof_rank p ∧
          proof_rank (weaker p r) <= proof_rank (r_proof r) ∧
          (weaker p r = p ∨ weaker p r = r_proof r)) as (W1 & W2 & W3).
  { unfold weaker. destruct (_ <? _) eqn:E; bool_to_prop; split_and!; auto; lia. }
  split_and!.
  - lia.
  - intros r' [->|Hr']%elem_of_cons; [lia|by apply H2].
  - destruct H3 as [H3|(r' & Hr' & H3)]; [|right; exists r'; split; [by right|done]].
    destruct W3 as [W3|W3]; [left; congruence|right; exists r; split; [by left|congruence]].
Qed.

Lemma proof_rank_inj p q : proof_rank p = proof_rank q -> p = q.
Proof. by destruct p, q. Qed.

(** Every status of a validated answer, by the proofs it contains. *)
Lemma dnssec_status_weakest msg cfg b :
  validates (dnssec_mode cfg) = true -> proved_records msg ≠ [] ->
  ∃ r, r ∈ proved_records msg ∧
    (∀ r', r' ∈ proved_records msg -> proof_rank (r_proof r) <= proof_rank (r_proof r')) ∧
    dnssec_status msg cfg b =
      match r_proof r with
      | PSecure => Secure | PInsecure => Insecure
      | PBogus => Bogus | PIndeterminate => Indeterminate
      end.
Proof.
  intros Hm Hne. unfold dnssec_status.
  destruct (dnssec_mode cfg); [done|..].
  all: destruct (proved_records msg) as [|r0 rs] eqn:E; [done|]; rewrite <- E.
  all: destruct (fold_weaker_min (proved_records msg) PSecure) as (H1 & H2 & H3).
  all: destruct H3 as [H3|(r & Hr & H3)].
  all: rewrite H3 in *; try (by exists r).
  all: assert (r0 ∈ proved_records msg) as Hr0 by (rewrite E; left).
  all: exists r0; split; [done|].
  all: assert (r_proof r0 = PSecure) as ->
    by (apply proof_rank_inj; specialize (H2 r0 Hr0); destruct (r_proof r0); simpl in *; lia).
  all: done.
Qed.

Lemma observe_max cell f :
  pf_rank (observe cell f) = Z.max (pf_rank cell) (pf_rank f).
Proof. by destruct cell, f. Qed.

Lemma fold_observe_ge seen cell f :
  f ∈ cell :: seen -> pf_rank f <= pf_rank (fold_left observe seen cell).
Proof.
  revert f cell. induction seen as [|g seen IH]; intros f cell; simpl.
  { intros ->%list_elem_of_singleton. lia. }
  intros Hf. rewrite !elem_of_cons in Hf.
  assert (pf_rank (observe cell g) <= pf_rank (fold_left observe seen (observe cell g))) as H
    by (apply IH; left).
  rewrite observe_max in H. destruct Hf as [->|[->|Hf]]; [lia..|]. apply IH. by right.
Qed.

Lemma fold_observe_mem seen cell : fold_left observe seen cell ∈ cell :: seen.
Proof.
  revert cell. induction seen as [|g seen IH]; intros cell; simpl; [by left|].
  specialize (IH (observe cell g)). rewrite !elem_of_cons in *.
  destruct IH as [->|IH]; [|by auto].
  unfold observe. repeat case_match; auto.
Qed.

Lemma classify_bogus msg cfg b o :
  classify msg cfg b o = VBogus <-> dnssec_status msg cfg b = Bogus ∧ o = PF_None.
Proof.
  unfold classify. destruct (dnssec_status msg cfg b), o; split; intros H;
    try done; try (by destruct H).
Qed.

Lemma watch_None seen : watch seen = PF_None <-> ∀ f, f ∈ seen -> f = PF_None.
Proof.
  unfold watch. split.
  - intros H f Hf. assert (pf_rank f <= pf_rank PF_None) as Hle.
    { rewrite <- H. apply fold_observe_ge. by right. }
    by destruct f.
  - intros H. pose proof (fold_observe_mem seen PF_None) as [->|Hin]%elem_of_cons; auto.
Qed.

(** ** Properties *)

(** The window reports the gravest thing observed in it: the result is one
    of the observations (or nothing at all) and no observation outranks it, in
    whatever order they arrived. *)
Theorem watch_is_maximum (seen : list ProofFailure) :
  watch seen ∈ PF_None :: seen ∧ ∀ f, f ∈ seen -> pf_rank f <= pf_rank (watch seen).
Proof.
  split; [apply fold_observe_mem|]. intros f Hf. apply fold_observe_ge. by right.
Qed.

(** An answer is condemned as bogus exactly when its weakest proof is bogus
    and every auxiliary lookup that failed while it was being proved failed with
    a verdict about the data.  One timeout, refusal, overload or transport error
    of ours, anywhere in the chain, rules the verdict out, and then nothing is
    cached as bogus either. *)
Theorem bogus_needs_evidence_about_the_data msg cfg (b : bool) (errors : list ResolveError) :
  let outcome := classify msg cfg b (watch (map proof_failure_for errors)) in
  (outcome = VBogus <->
     dnssec_status msg cfg b = Bogus ∧ ∀ e, e ∈ errors -> e = DnssecBogus) ∧
  (cache_status outcome = Bogus <-> outcome = VBogus).
Proof.
  simpl. split.
  - rewrite classify_bogus, watch_None. split; intros [Hs He]; (split; [done|]).
    + intros e Hin. assert (proof_failure_for e = PF_None) as H.
      { apply He. by apply list_elem_of_fmap_2. }
      by destruct e.
    + intros f (e & -> & Hin)%list_elem_of_fmap. by rewrite (He e Hin).
  - by destruct (classify _ _ _ _).
Qed.

(** With validation on, an answer is secure exactly when it carries at least
    one answer or authority record and every one of them was proved secure; it is
    insecure exactly when the weakest proof is an authenticated denial. *)
Theorem secure_iff_every_record_secure msg cfg (b : bool)
    (Hmode : validates (dnssec_mode cfg) = true) :
  (dnssec_status msg cfg b = Secure <->
     proved_records msg ≠ [] ∧ ∀ r, r ∈ proved_records msg -> r_proof r = PSecure) ∧
  (dnssec_status msg cfg b = Insecure <->
     (∃ r, r ∈ proved_records msg ∧ r_proof r = PInsecure) ∧
     ∀ r, r ∈ proved_records msg -> r_proof r = PInsecure ∨ r_proof r = PSecure).
Proof.
  destruct (decide (proved_records msg = [])) as [E|Hne].
  { unfold dnssec_status. rewrite E.
    destruct (dnssec_mode cfg); [done|..]; (split; split; [done| |done|]); set_solver. }
  destruct (dnssec_status_weakest msg cfg b Hmode Hne) as (r & Hr & Hmin & ->).
  split; split.
  - intros Hs. split; [done|]. intros r' Hr'. specialize (Hmin r' Hr').
    by destruct (r_proof r), (r_proof r').
  - intros [_ Hall]. by rewrite (Hall r Hr).
  - intros Hs. split; [exists r; by destruct (r_proof r)|].
    intros r' Hr'. specialize (Hmin r' Hr'). destruct (r_proof r), (r_proof r'); auto; done.
  - intros [(r' & Hr' & Hi) Hall]. specialize (Hmin r' Hr'). rewrite Hi in Hmin.
    by destruct (Hall r Hr) as [->|Hs]; [|rewrite Hs in Hmin].
Qed.

(** A bogus record does not make the answer bogus when another record of it
    is indeterminate: indeterminate orders below bogus, so the answer as a whole
    is indeterminate and is not failed closed. *)
Theorem bogus_masked_by_indeterminate msg cfg (b : bool)
    (Hmode : validates (dnssec_mode cfg) = true)
    (r : DnsRecord Name) (Hr : r ∈ proved_records msg) (Hi : r_proof r = PIndeterminate) :
  dnssec_status msg cfg b = Indeterminate ∧
  ∀ o, classify msg cfg b o = VIndeterminate.
Proof.
  assert (dnssec_status msg cfg b = Indeterminate) as Hs.
  { destruct (dnssec_status_weakest msg cfg b Hmode) as (r0 & Hr0 & Hmin & ->);
      [by intros E; rewrite E in Hr; apply not_elem_of_nil in Hr|].
    specialize (Hmin r Hr). rewrite Hi in Hmin. by destruct (r_proof r0). }
  split; [done|]. intros o. unfold classify. by rewrite Hs.
Qed.

End dnssec.

(** ** Witnesses *)

Section witnesses.
#[local] Existing Instance text_names.

Definition example_record (p : Proof_) : DnsRecord str :=
  mk_Record (lit "example.com.") IN 300 (RD_A 16909060) p.

Definition example_message (ps : list Proof_) : Message str :=
  mk_Message (mk_Metadata 0 MtResponse OpQuery false false true true false false NoError)
    [] (map example_record ps) [] [] None.

Lemma secure_iff_every_record_secure_witness :
  dnssec_status (example_message [PSecure; PSecure]) default_DnssecConfig false = Secure.
Proof.
  apply (secure_iff_every_record_secure (example_message [PSecure; PSecure])
    default_DnssecConfig false eq_refl).
  split; [done|]. intros r Hr. rewrite list_elem_of_In in Hr.
  destruct Hr as [<-|[<-|[]]]; reflexivity.
Defined.

Lemma bogus_masked_by_indeterminate_witness :
  r_proof (example_record PBogus) = PBogus ∧
  dnssec_status (example_message [PBogus; PIndeterminate]) default_DnssecConfig false
    = Indeterminate.
Proof.
  split; [reflexivity|].
  apply (bogus_masked_by_indeterminate (example_message [PBogus; PIndeterminate])
    default_DnssecConfig false eq_refl (example_record PIndeterminate)); [|reflexivity].
  apply list_elem_of_In. vm_compute. by right; left.
Defined.

End witnesses.
