(* ===== verification/CorroboratePolicy.v ===== *)
(** * Do two authorities agree?

    [src/policy/corroborate.rs]: the comparison of two answers to one question
    that could not be proved. *)

From Stdlib Require Import Ascii String.
From S2P Require Import Prelude.
From S2P Require Import Names.
From S2P Require Import Dns.

Section corroborate.
Context {Name : Type} {NL : NameLib Name}.
Implicit Types msg a b : Message Name.

Definition owner_and_type (r : DnsRecord Name) : Name * RecordType := (r_name r, record_type r).

Definition terminal msg : option (Name * RecordType) :=
  match last (map owner_and_type
    (List.filter (λ r, negb (rtype_eqb (record_type r) RT_CNAME
                             || rtype_eqb (record_type r) RT_RRSIG)) (answers msg))) with
  | Some t => Some t
  | None => last (map owner_and_type
      (List.filter (λ r, rtype_eqb (record_type r) RT_CNAME) (answers msg)))
  end.

Definition registrable_suffix (name : Name) : str :=
  let text := to_ascii_lowercase (trim_end_matches dot (name_text name)) in
  let labels := split_on dot text in
  if (length labels <=? 2)%nat then text
  else join_with dot (drop (length labels - 2) labels).

Definition answers_are_compatible a b : bool :=
  if negb (rcode_eqb (m_response_code (metadata a)) (m_response_code (metadata b))) then false
  else if negb (rcode_eqb (m_response_code (metadata a)) NoError) then false
  else match terminal a, terminal b with
       | Some ta, Some tb =>
           if negb (rtype_eqb ta.2 tb.2) then false
           else str_eqb (registrable_suffix ta.1) (registrable_suffix tb.1)
       | _, _ => false
       end.

(** The last two labels. *)
Definition last_two (ls : list str) : list str := drop (length ls - 2) ls.

Lemma registrable_suffix_labels name ls :
  name_text name = dotted ls -> ls ≠ [] -> Forall label_ok ls ->
  registrable_suffix name = join_with dot (last_two (map to_ascii_lowercase ls)).
Proof.
  intros Ht Hne Hls. unfold registrable_suffix.
  rewrite Ht, trim_end_dotted, join_lower by done.
  assert (map to_ascii_lowercase ls ≠ []) as Hne' by by destruct ls.
  pose proof (Forall_label_lower _ Hls) as Hlow. revert Hne' Hlow.
  generalize (map to_ascii_lowercase ls). intros low Hne' Hlow.
  rewrite split_on_join by done. unfold last_two.
  destruct (length low <=? 2)%nat eqn:E; [|done]. apply Nat.leb_le in E.
  by replace (length low - 2)%nat with 0%nat by lia.
Qed.

Lemma last_two_ok ls : Forall label_ok ls -> Forall label_ok (last_two ls).
Proof. apply Forall_drop. Qed.

(** ** Properties *)

(** Two answers agree exactly when both are positive and end in records of
    the same type whose owners share their last two labels, compared without
    regard to case.  A negative answer, or one with nothing to compare, agrees
    with nothing. *)
Theorem compatible_iff_same_terminal (a b : Message Name) na ta nb tb (la lb : list str)
    (Ha : terminal a = Some (na, ta)) (Hb : terminal b = Some (nb, tb))
    (Hna : name_text na = dotted la) (Hnb : name_text nb = dotted lb)
    (Hla : la ≠ [] ∧ Forall label_ok la) (Hlb : lb ≠ [] ∧ Forall label_ok lb) :
  answers_are_compatible a b = true <->
  m_response_code (metadata a) = NoError ∧ m_response_code (metadata b) = NoError ∧
  ta = tb ∧
  last_two (map to_ascii_lowercase la) = last_two (map to_ascii_lowercase lb).
Proof.
  destruct Hla as [Hla1 Hla2], Hlb as [Hlb1 Hlb2].
  unfold answers_are_compatible, rcode_eqb, rtype_eqb. rewrite Ha, Hb. simpl.
  rewrite (registrable_suffix_labels na la), (registrable_suffix_labels nb lb) by done.
  case_bool_decide as E1; simpl; [|split; [done|]; intros (? & ? & _); congruence].
  case_bool_decide as E2; simpl; [|split; [done|]; by intros (? & _)].
  case_bool_decide as E3; simpl; [|split; [done|]; by intros (_ & _ & ? & _)].
  rewrite str_eqb_eq. split.
  - intros Heq. split_and!; [done|congruence|done|].
    apply join_inj in Heq; auto using last_two_ok, Forall_label_lower.
  - by intros (_ & _ & _ & ->).
Qed.

(** Agreement is symmetric: it does not matter which authority answered
    first. *)
Theorem compatible_symmetric (a b : Message Name) :
  answers_are_compatible a b = answers_are_compatible b a.
Proof.
  unfold answers_are_compatible, rcode_eqb, rtype_eqb.
  destruct (decide (m_response_code (metadata a) = m_response_code (metadata b))) as [E|E].
  - rewrite <- E. rewrite !bool_decide_true by done. simpl.
    destruct (negb _); [done|]. destruct (terminal a) as [ta|], (terminal b) as [tb|]; try done.
    destruct (decide (ta.2 = tb.2)) as [Et|Et].
    + rewrite !bool_decide_true by done. simpl. apply eq_true_iff_eq.
      rewrite !str_eqb_eq. split; congruence.
    + rewrite (bool_decide_false (ta.2 = tb.2)), (bool_decide_false (tb.2 = ta.2)) by congruence.
      done.
  - rewrite (bool_decide_false (m_response_code (metadata a) = _)) by done.
    by rewrite (bool_decide_false (m_response_code (metadata b) = _)) by congruence.
Qed.

(** An answer that stops at a CNAME is compared on the owner of the CNAME,
    not on where it points: two positive answers whose last records are aliases
    of one name agree whatever the two targets are. *)
Theorem dangling_aliases_always_agree (a b : Message Name) (owner : Name)
    (ra rb : DnsRecord Name)
    (Ha : answers a = [ra]) (Hb : answers b = [rb])
    (Hna : r_name ra = owner) (Hnb : r_name rb = owner)
    (Hca : record_type ra = RT_CNAME) (Hcb : record_type rb = RT_CNAME)
    (Hpa : m_response_code (metadata a) = NoError)
    (Hpb : m_response_code (metadata b) = NoError) :
  answers_are_compatible a b = true.
Proof.
  assert (rtype_eqb RT_CNAME RT_CNAME = true) as Hrefl by reflexivity.
  assert (terminal a = Some (owner, RT_CNAME)) as Hta.
  { unfold terminal. rewrite Ha. cbn [List.filter]. rewrite Hca.
    rewrite Hrefl. cbn [orb negb map last]. unfold owner_and_type. by rewrite Hca, Hna. }
  assert (terminal b = Some (owner, RT_CNAME)) as Htb.
  { unfold terminal. rewrite Hb. cbn [List.filter]. rewrite Hcb.
    rewrite Hrefl. cbn [orb negb map last]. unfold owner_and_type. by rewrite Hcb, Hnb. }
  unfold answers_are_compatible. rewrite Hta, Htb, Hpa, Hpb. simpl. apply str_eqb_refl.
Qed.

End corroborate.

(** ** Witnesses *)

Section witnesses.
#[local] Existing Instance text_names.

Definition positive_answer (rs : list (DnsRecord str)) : Message str :=
  mk_Message (mk_Metadata 0 MtResponse OpQuery false false true true false false NoError)
    [] rs [] [] None.

Definition www : str := lit "www.example.com.".

Definition alias_to (target : str) : DnsRecord str :=
  mk_Record www IN 60 (RD_CNAME target) PIndeterminate.

Definition edge (owner : str) : DnsRecord str :=
  mk_Record owner IN 60 (RD_A 0) PIndeterminate.

Lemma compatible_iff_same_terminal_witness :
  answers_are_compatible (positive_answer [alias_to (lit "e1.cdn.net."); edge (lit "e1.cdn.net.")])
    (positive_answer [alias_to (lit "e2.cdn.net."); edge (lit "E2.CDN.net.")]) = true.
Proof.
  apply (compatible_iff_same_terminal
    (positive_answer [alias_to (lit "e1.cdn.net."); edge (lit "e1.cdn.net.")])
    (positive_answer [alias_to (lit "e2.cdn.net."); edge (lit "E2.CDN.net.")])
    (lit "e1.cdn.net.") RT_A (lit "E2.CDN.net.") RT_A
    [lit "e1"; lit "cdn"; lit "net"] [lit "E2"; lit "CDN"; lit "net"]); try reflexivity.
  - split; [done|].
    repeat (apply Forall_cons_2; [split; [done|]|]); [vm_compute; set_solver..|constructor].
  - split; [done|].
    repeat (apply Forall_cons_2; [split; [done|]|]); [vm_compute; set_solver..|constructor].
  - repeat split.
Defined.

Lemma dangling_aliases_always_agree_witness :
  answers_are_compatible (positive_answer [alias_to (lit "edge.cdn.net.")])
    (positive_answer [alias_to (lit "evil.attacker.test.")]) = true.
Proof.
  apply (dangling_aliases_always_agree
    (positive_answer [alias_to (lit "edge.cdn.net.")])
    (positive_answer [alias_to (lit "evil.attacker.test.")])
    www (alias_to (lit "edge.cdn.net.")) (alias_to (lit "evil.attacker.test.")));
    reflexivity.
Defined.

End witnesses.
