(* ===== verification/Prefixes.v ===== *)
(** * Official Cloudflare prefix snapshots

    [src/cloudflare/prefixes.rs].  A snapshot is two sorted, duplicate-free lists
    of networks with the network and mask of each precomputed; membership is a
    masked comparison.  The text form of a network ([trim], [parse] and
    [to_string]) is the [ipnet] crate's and a parameter. *)

From Stdlib Require Import Ascii String.
From S2P Require Import Prelude.
From S2P Require Import Names.
From S2P Require Import Net.

(** ** Data *)

Inductive PrefixSource : Set := SourceApi | SourceTextLists | SourceLocalCache | SourceBuiltin.

Record PrefixSnapshot : Type := mk_PrefixSnapshot {
  snap_v4 : list Ipv4Net;
  snap_v6 : list Ipv6Net;
  v4_masks : list (Z * Z);
  v6_masks : list (Z * Z);
  snap_etag : option str;
  snap_fetched_unix : Z;
  snap_source : PrefixSource
}.

Record StoredSnapshot : Type := mk_StoredSnapshot {
  ipv4_cidrs : list str;
  ipv6_cidrs : list str;
  stored_etag : option str;
  stored_fetched_unix : Z
}.

(** Errors carry the fixed text of their message. *)
Inductive CloudflareError : Type :=
| CfFetch (detail : str)
| CfParse (detail : str)
| CfTooLarge (got limit : Z)
| CfSnapshotRejected (reason : str).

(** The text form of networks: [item.trim().parse()] and [to_string()]. *)
Class IpNetText : Type := {
  parse_net4 : str -> option Ipv4Net;
  parse_net6 : str -> option Ipv6Net;
  show_net4 : Ipv4Net -> str;
  show_net6 : Ipv6Net -> str
}.

(** A parsed prefix length is one the family has, and a network printed is
    parsed back. *)
Class IpNetTextLaws {NT : IpNetText} : Prop := {
  parse_net4_len s n : parse_net4 s = Some n -> 0 <= net4_prefix_len n <= 32;
  parse_net6_len s n : parse_net6 s = Some n -> 0 <= net6_prefix_len n <= 128;
  parse_show_net4 n : 0 <= net4_prefix_len n <= 32 -> parse_net4 (show_net4 n) = Some n;
  parse_show_net6 n : 0 <= net6_prefix_len n <= 128 -> parse_net6 (show_net6 n) = Some n
}.

(** ** Operations *)

Section prefixes.
Context {NL : IpNetLib}.

Definition snapshot_new (v4 : list Ipv4Net) (v6 : list Ipv6Net) (etag : option str)
    (fetched_unix : Z) (source : PrefixSource) : PrefixSnapshot :=
  let v4 := dedup (stable_sort net4_leb v4) in
  let v6 := dedup (stable_sort net6_leb v6) in
  {| snap_v4 := v4;
     snap_v6 := v6;
     v4_masks := map (λ n, (net4_network n, net4_netmask n)) v4;
     v6_masks := map (λ n, (net6_network n, net6_netmask n)) v6;
     snap_etag := etag;
     snap_fetched_unix := fetched_unix;
     snap_source := source |}.

(** The compiled-in constants, parsed. *)
Definition builtin_v4 : list Ipv4Net :=
  [ mk_Ipv4Net (ipv4 173 245 48 0) 20; mk_Ipv4Net (ipv4 103 21 244 0) 22;
    mk_Ipv4Net (ipv4 103 22 200 0) 22; mk_Ipv4Net (ipv4 103 31 4 0) 22;
    mk_Ipv4Net (ipv4 141 101 64 0) 18; mk_Ipv4Net (ipv4 108 162 192 0) 18;
    mk_Ipv4Net (ipv4 190 93 240 0) 20; mk_Ipv4Net (ipv4 188 114 96 0) 20;
    mk_Ipv4Net (ipv4 197 234 240 0) 22; mk_Ipv4Net (ipv4 198 41 128 0) 17;
    mk_Ipv4Net (ipv4 162 158 0 0) 15; mk_Ipv4Net (ipv4 104 16 0 0) 13;
    mk_Ipv4Net (ipv4 104 24 0 0) 14; mk_Ipv4Net (ipv4 172 64 0 0) 13;
    mk_Ipv4Net (ipv4 131 0 72 0) 22 ].

Definition builtin_v6 : list Ipv6Net :=
  [ mk_Ipv6Net (ipv6 [0x2400;0xcb00;0;0;0;0;0;0]) 32;
    mk_Ipv6Net (ipv6 [0x2606;0x4700;0;0;0;0;0;0]) 32;
    mk_Ipv6Net (ipv6 [0x2803;0xf800;0;0;0;0;0;0]) 32;
    mk_Ipv6Net (ipv6 [0x2405;0xb500;0;0;0;0;0;0]) 32;
    mk_Ipv6Net (ipv6 [0x2405;0x8100;0;0;0;0;0;0]) 32;
    mk_Ipv6Net (ipv6 [0x2a06;0x98c0;0;0;0;0;0;0]) 29;
    mk_Ipv6Net (ipv6 [0x2c0f;0xf248;0;0;0;0;0;0]) 32 ].

Definition builtin : PrefixSnapshot := snapshot_new builtin_v4 builtin_v6 None 0 SourceBuiltin.

Definition snapshot_contains (s : PrefixSnapshot) (addr : IpAddr) : bool :=
  match addr with
  | V4 a => existsb (λ nm, Z.land a nm.2 =? nm.1) (v4_masks s)
  | V6 a =>
      match to_ipv4_mapped a with
      | Some _ => false
      | None => existsb (λ nm, Z.land a nm.2 =? nm.1) (v6_masks s)
      end
  end.

Definition is_cloudflare (s : option PrefixSnapshot) (addr : IpAddr) : bool :=
  match s with Some s => snapshot_contains s addr | None => false end.

Definition same_prefixes (a b : PrefixSnapshot) : bool :=
  bool_decide (snap_v4 a = snap_v4 b) && bool_decide (snap_v6 a = snap_v6 b).

Definition validate_snapshot (candidate : PrefixSnapshot) (previous : option PrefixSnapshot)
    (min_v4 min_v6 : nat) : result CloudflareError unit :=
  if (length (snap_v4 candidate) <? min_v4)%nat then
    Err (CfSnapshotRejected (lit "too few IPv4 prefixes to be a plausible Cloudflare snapshot"))
  else if (length (snap_v6 candidate) <? min_v6)%nat then
    Err (CfSnapshotRejected (lit "too few IPv6 prefixes to be a plausible Cloudflare snapshot"))
  else match previous with
       | Some prev =>
           if (length (snap_v4 candidate) * 2 <? length (snap_v4 prev))%nat then
             Err (CfSnapshotRejected (lit "IPv4 prefix count more than halved compared to the last valid snapshot"))
           else if negb (length (snap_v6 prev) =? 0)%nat
                   && (length (snap_v6 candidate) * 2 <? length (snap_v6 prev))%nat then
             Err (CfSnapshotRejected (lit "IPv6 prefix count more than halved compared to the last valid snapshot"))
           else Ok tt
       | None => Ok tt
       end.

Definition ipv4_address_space (s : PrefixSnapshot) : Z :=
  fold_left Z.add (map (λ n, Z.shiftl 1 (32 - net4_prefix_len n)) (snap_v4 s)) 0.

Context {NT : IpNetText}.

Fixpoint parse_cidr_list_v4 (items : list str) : result CloudflareError (list Ipv4Net) :=
  match items with
  | [] => Ok []
  | item :: items' =>
      match parse_net4 item with
      | None => Err (CfParse (lit "invalid IPv4 CIDR"))
      | Some net =>
          if (net4_prefix_len net <? 8) || (24 <? net4_prefix_len net) then
            Err (CfParse (lit "IPv4 prefix length outside the plausible range 8..=24"))
          else match IpClass.classify_v4 (net4_network net) with
               | Some _ => Err (CfParse (lit "IPv4 prefix is special-use and cannot belong to Cloudflare"))
               | None => match parse_cidr_list_v4 items' with
                         | Ok out => Ok (net4_trunc net :: out)
                         | Err e => Err e
                         end
               end
      end
  end.

Fixpoint parse_cidr_list_v6 (items : list str) : result CloudflareError (list Ipv6Net) :=
  match items with
  | [] => Ok []
  | item :: items' =>
      match parse_net6 item with
      | None => Err (CfParse (lit "invalid IPv6 CIDR"))
      | Some net =>
          if (net6_prefix_len net <? 16) || (64 <? net6_prefix_len net) then
            Err (CfParse (lit "IPv6 prefix length outside the plausible range 16..=64"))
          else match IpClass.classify_v6 (net6_network net) with
               | Some _ => Err (CfParse (lit "IPv6 prefix is special-use and cannot belong to Cloudflare"))
               | None => match parse_cidr_list_v6 items' with
                         | Ok out => Ok (net6_trunc net :: out)
                         | Err e => Err e
                         end
               end
      end
  end.

Definition to_stored (s : PrefixSnapshot) : StoredSnapshot :=
  {| ipv4_cidrs := map show_net4 (snap_v4 s);
     ipv6_cidrs := map show_net6 (snap_v6 s);
     stored_etag := snap_etag s;
     stored_fetched_unix := snap_fetched_unix s |}.

Definition from_stored (stored : StoredSnapshot) (source : PrefixSource)
    : result CloudflareError PrefixSnapshot :=
  match parse_cidr_list_v4 (ipv4_cidrs stored) with
  | Err e => Err e
  | Ok v4 =>
      match parse_cidr_list_v6 (ipv6_cidrs stored) with
      | Err e => Err e
      | Ok v6 => Ok (snapshot_new v4 v6 (stored_etag stored) (stored_fetched_unix stored) source)
      end
  end.

(** The API response once decoded. *)
Record ApiResult : Type := mk_ApiResult {
  api_ipv4_cidrs : list str;
  api_ipv6_cidrs : list str;
  api_etag : option str
}.

Record ApiEnvelope : Type := mk_ApiEnvelope {
  api_result : option ApiResult;
  api_success : option bool
}.

(** [from_slice] is the JSON decoder, whose error is a text. *)
Definition parse_api_json (from_slice : str -> result str ApiEnvelope) (body : str)
    (fetched_unix : Z) : result CloudflareError PrefixSnapshot :=
  match from_slice body with
  | Err e => Err (CfParse e)
  | Ok envelope =>
      if bool_decide (api_success envelope = Some false) then
        Err (CfParse (lit "API reported success=false"))
      else match api_result envelope with
           | None => Err (CfParse (lit "API response had no result object"))
           | Some r =>
               match parse_cidr_list_v4 (api_ipv4_cidrs r) with
               | Err e => Err e
               | Ok v4 =>
                   match parse_cidr_list_v6 (api_ipv6_cidrs r) with
                   | Err e => Err e
                   | Ok v6 => Ok (snapshot_new v4 v6 (api_etag r) fetched_unix SourceApi)
                   end
               end
           end
  end.

(** ** Lemmas *)

Lemma dedup_sorted_lt {A} `{EqDecision A} (leb : A -> A -> bool) (l : list A) :
  StronglySorted (le_of leb) l ->
  StronglySorted (le_of leb) (dedup l).
Proof.
  induction 1 as [|x l Hl IH Hx]; [constructor|].
  destruct l as [|y l]; [repeat constructor|].
  change (dedup (x :: y :: l)) with
    (if decide (x = y) then dedup (y :: l) else x :: dedup (y :: l)).
  case_decide; [done|]. constructor; [done|].
  rewrite Forall_forall in *. intros z Hz. apply Hx. by apply (proj1 (dedup_elem_of _ _)).
Qed.

Lemma dedup_NoDup {A} `{EqDecision A} (leb : A -> A -> bool) (l : list A) :
  OrdLaws leb -> StronglySorted (le_of leb) l -> NoDup (dedup l).
Proof.
  intros Hord. induction 1 as [|x l Hl IH Hx]; [constructor|].
  destruct l as [|y l]; [apply NoDup_singleton|].
  change (dedup (x :: y :: l)) with
    (if decide (x = y) then dedup (y :: l) else x :: dedup (y :: l)).
  case_decide as E; [done|]. constructor; [|done].
  intros Hin%(proj1 (dedup_elem_of _ _)). apply E.
  apply StronglySorted_inv in Hl as [_ Hy].
  rewrite Forall_forall in Hx, Hy.
  apply elem_of_cons in Hin as [->|Hin]; [done|].
  apply (ord_antisym _ Hord); [apply Hx; by left|by apply Hy].
Qed.

Lemma dedup_id {A} `{EqDecision A} (l : list A) : NoDup l -> dedup l = l.
Proof.
  induction 1 as [|x l Hx Hl IH]; [done|]. destruct l as [|y l]; [done|].
  change (dedup (x :: y :: l)) with
    (if decide (x = y) then dedup (y :: l) else x :: dedup (y :: l)).
  case_decide as E; [subst; set_solver|]. by rewrite IH.
Qed.

Lemma sort_dedup_sorted {A} `{EqDecision A} (leb : A -> A -> bool) (l : list A) :
  OrdLaws leb -> StronglySorted (le_of leb) (dedup (stable_sort leb l)).
Proof.
  intros Hord. apply dedup_sorted_lt, stable_sort_sorted.
  - apply (ord_total _ Hord).
  - apply (ord_trans _ Hord).
Qed.

Lemma sort_dedup_NoDup {A} `{EqDecision A} (leb : A -> A -> bool) (l : list A) :
  OrdLaws leb -> NoDup (dedup (stable_sort leb l)).
Proof.
  intros Hord. eapply dedup_NoDup; [done|]. apply stable_sort_sorted.
  - apply (ord_total _ Hord).
  - apply (ord_trans _ Hord).
Qed.

Lemma sort_dedup_elem_of {A} `{EqDecision A} (leb : A -> A -> bool) (l : list A) x :
  x ∈ dedup (stable_sort leb l) <-> x ∈ l.
Proof. by rewrite dedup_elem_of, stable_sort_elem_of. Qed.

(** Sorting and deduplicating twice changes nothing. *)
Lemma sort_dedup_idem {A} `{EqDecision A} (leb : A -> A -> bool) (l : list A) :
  OrdLaws leb ->
  dedup (stable_sort leb (dedup (stable_sort leb l))) = dedup (stable_sort leb l).
Proof.
  intros Hord. rewrite (stable_sort_id leb (dedup (stable_sort leb l))).
  - by apply dedup_id, sort_dedup_NoDup.
  - by apply sort_dedup_sorted.
Qed.

Context {NLaws : IpNetLaws} {NTLaws : IpNetTextLaws}.

Definition net4_ok (n : Ipv4Net) : Prop := 0 <= net4_prefix_len n <= 32.
Definition net6_ok (n : Ipv6Net) : Prop := 0 <= net6_prefix_len n <= 128.

Lemma network_of_idem w len a :
  0 <= len <= w -> network_of w len (network_of w len a) = network_of w len a.
Proof.
  intros H. unfold network_of, leading. rewrite Z.div_mul; [done|].
  apply Z.pow_nonzero; lia.
Qed.

(** Masked comparison decides prefix membership. *)
Lemma masked_eq w len n a :
  0 <= len <= w -> 0 <= a < 2 ^ w ->
  (Z.land a (netmask_of w len) =? network_of w len n) =
  (leading w len a =? leading w len n).
Proof.
  intros Hlen Ha. rewrite land_netmask by done. unfold network_of.
  assert (2 ^ (w - len) ≠ 0) as Hnz by (apply Z.pow_nonzero; lia).
  apply eq_true_iff_eq. rewrite !Z.eqb_eq. split; [|by intros ->].
  intros Heq. by apply Z.mul_cancel_r in Heq.
Qed.

Lemma masked4 n a :
  net4_ok n -> 0 <= a < 2 ^ 32 ->
  (Z.land a (net4_netmask n) =? net4_network n) = net4_contains n a.
Proof.
  intros Hn Ha. rewrite net4_netmask_spec, net4_network_spec, net4_contains_spec by done.
  by apply masked_eq.
Qed.

Lemma masked6 n a :
  net6_ok n -> 0 <= a < 2 ^ 128 ->
  (Z.land a (net6_netmask n) =? net6_network n) = net6_contains n a.
Proof.
  intros Hn Ha. rewrite net6_netmask_spec, net6_network_spec, net6_contains_spec by done.
  by apply masked_eq.
Qed.

Lemma existsb_masks {A} `{EqDecision A} (leb : A -> A -> bool)
    (f : A -> Z * Z) (member : A -> bool) (l : list A) a :
  (∀ n, n ∈ l -> (Z.land a (f n).2 =? (f n).1) = member n) ->
  existsb (λ nm, Z.land a nm.2 =? nm.1) (map f (dedup (stable_sort leb l))) = true <->
  ∃ n, n ∈ l ∧ member n = true.
Proof.
  intros Hf. rewrite existsb_elem. split.
  - intros (nm & (n & -> & Hn)%list_elem_of_fmap & Hm).
    apply (proj1 (sort_dedup_elem_of leb l n)) in Hn. exists n. split; [done|].
    by rewrite <- Hf.
  - intros (n & Hn & Hm). exists (f n). split.
    + apply list_elem_of_fmap_2. by apply sort_dedup_elem_of.
    + by rewrite Hf.
Qed.

(** What the parser accepts. *)
Definition accepted4 (n : Ipv4Net) : Prop :=
  8 <= net4_prefix_len n <= 24 ∧ net4_addr n = net4_network n ∧
  IpClass.classify_v4 (net4_network n) = None.
Definition accepted6 (n : Ipv6Net) : Prop :=
  16 <= net6_prefix_len n <= 64 ∧ net6_addr n = net6_network n ∧
  IpClass.classify_v6 (net6_network n) = None.

Lemma trunc4_network n : net4_ok n -> net4_network (net4_trunc n) = net4_network n.
Proof.
  intros Hn. rewrite net4_trunc_spec. rewrite net4_network_spec by done. simpl.
  rewrite net4_network_spec by done. by apply network_of_idem.
Qed.

Lemma trunc6_network n : net6_ok n -> net6_network (net6_trunc n) = net6_network n.
Proof.
  intros Hn. rewrite net6_trunc_spec. rewrite net6_network_spec by done. simpl.
  rewrite net6_network_spec by done. by apply network_of_idem.
Qed.

Lemma parse_v4_accepted items out :
  parse_cidr_list_v4 items = Ok out -> Forall accepted4 out.
Proof.
  revert out. induction items as [|i items IH]; intros out; simpl; [by intros [= <-]|].
  destruct (parse_net4 i) as [n|] eqn:Ep; [|done].
  destruct (_ || _) eqn:El; [done|]. bool_to_prop.
  destruct (IpClass.classify_v4 _) eqn:Ec; [done|].
  destruct (parse_cidr_list_v4 items) as [out'|]; [|done]. intros [= <-].
  constructor; [|by apply IH]. apply parse_net4_len in Ep.
  unfold accepted4. rewrite trunc4_network by done. rewrite net4_trunc_spec. simpl.
  split_and!; [lia|lia|done|done].
Qed.

Lemma parse_v6_accepted items out :
  parse_cidr_list_v6 items = Ok out -> Forall accepted6 out.
Proof.
  revert out. induction items as [|i items IH]; intros out; simpl; [by intros [= <-]|].
  destruct (parse_net6 i) as [n|] eqn:Ep; [|done].
  destruct (_ || _) eqn:El; [done|]. bool_to_prop.
  destruct (IpClass.classify_v6 _) eqn:Ec; [done|].
  destruct (parse_cidr_list_v6 items) as [out'|]; [|done]. intros [= <-].
  constructor; [|by apply IH]. apply parse_net6_len in Ep.
  unfold accepted6. rewrite trunc6_network by done. rewrite net6_trunc_spec. simpl.
  split_and!; [lia|lia|done|done].
Qed.

Lemma parse_show_v4 l : Forall accepted4 l -> parse_cidr_list_v4 (map show_net4 l) = Ok l.
Proof.
  induction 1 as [|n l (Hl & Hn & Hc) _ IH]; simpl; [done|].
  rewrite parse_show_net4 by lia. rewrite Hc, IH.
  destruct (_ || _) eqn:E; [apply orb_true_iff in E as [E|E]; bool_to_prop; lia|].
  by rewrite net4_trunc_spec, <- Hn; destruct n.
Qed.

Lemma parse_show_v6 l : Forall accepted6 l -> parse_cidr_list_v6 (map show_net6 l) = Ok l.
Proof.
  induction 1 as [|n l (Hl & Hn & Hc) _ IH]; simpl; [done|].
  rewrite parse_show_net6 by lia. rewrite Hc, IH.
  destruct (_ || _) eqn:E; [apply orb_true_iff in E as [E|E]; bool_to_prop; lia|].
  by rewrite net6_trunc_spec, <- Hn; destruct n.
Qed.

Lemma Forall_sort_dedup {A} `{EqDecision A} (leb : A -> A -> bool) (P : A -> Prop) l :
  Forall P l -> Forall P (dedup (stable_sort leb l)).
Proof. rewrite !Forall_forall. intros H x Hx. by apply H, (sort_dedup_elem_of leb). Qed.

(** ** Properties *)

(** The precomputed network and mask pairs decide membership exactly: an
    IPv4 address is in the snapshot iff some configured network contains it, and
    an IPv6 address iff it is not IPv4-mapped and some configured network
    contains it, whatever order and duplicates the networks came in. *)
Theorem snapshot_membership_exact v4 v6 etag unix source (addr : IpAddr)
    (H4 : Forall net4_ok v4) (H6 : Forall net6_ok v6) (Ha : ip_wf addr) :
  snapshot_contains (snapshot_new v4 v6 etag unix source) addr = true <->
  match addr with
  | V4 a => ∃ n, n ∈ v4 ∧ net4_contains n a = true
  | V6 a => to_ipv4_mapped a = None ∧ ∃ n, n ∈ v6 ∧ net6_contains n a = true
  end.
Proof.
  rewrite Forall_forall in H4. rewrite Forall_forall in H6. destruct addr as [a|a]; unfold ip_wf in Ha.
  - unfold snapshot_contains, snapshot_new; cbn [v4_masks].
    apply existsb_masks. intros n Hn. apply masked4; auto.
  - unfold snapshot_contains, snapshot_new; cbn [v6_masks].
    destruct (to_ipv4_mapped a); [split; [done|by intros [? _]]|].
    rewrite (existsb_masks _ _ (λ n, net6_contains n a)); [|intros n Hn; apply masked6; auto].
    tauto.
Qed.

(** A snapshot that came from an accepted response survives the disk: what
    is stored is read back as the same snapshot, under the source of the
    reader. *)
Theorem stored_snapshot_round_trip items4 items6 v4 v6 etag unix source source'
    (H4 : parse_cidr_list_v4 items4 = Ok v4) (H6 : parse_cidr_list_v6 items6 = Ok v6) :
  from_stored (to_stored (snapshot_new v4 v6 etag unix source)) source' =
  Ok (snapshot_new v4 v6 etag unix source').
Proof.
  apply parse_v4_accepted in H4. apply parse_v6_accepted in H6.
  unfold from_stored, to_stored; cbn [ipv4_cidrs ipv6_cidrs snap_v4 snap_v6 snapshot_new
    stored_etag stored_fetched_unix snap_etag snap_fetched_unix].
  rewrite parse_show_v4, parse_show_v6 by (by apply Forall_sort_dedup).
  unfold snapshot_new. rewrite !sort_dedup_idem by (apply net4_ord || apply net6_ord). done.
Qed.

(** The special-use check of a listed prefix looks at its network address
    only, so a short prefix that merely covers special-use space is accepted: a
    list naming 169.0.0.0/8 puts the cloud metadata address inside the official
    set. *)
Theorem accepted_prefix_covers_metadata (item : str) etag unix
    (Hitem : parse_net4 item = Some (mk_Ipv4Net (ipv4 169 0 0 0) 8)) :
  ∃ v4, parse_cidr_list_v4 [item] = Ok v4 ∧
    snapshot_contains (snapshot_new v4 [] etag unix SourceApi) (V4 (ipv4 169 254 169 254)) = true ∧
    IpClass.classify (V4 (ipv4 169 254 169 254)) = Some IpClass.CloudMetadata.
Proof.
  set (n := mk_Ipv4Net (ipv4 169 0 0 0) 8) in *.
  assert (net4_network n = ipv4 169 0 0 0) as Hnet by by rewrite net4_network_spec.
  assert (net4_trunc n = n) as Htr by by rewrite net4_trunc_spec, Hnet.
  assert (IpClass.classify_v4 (ipv4 169 0 0 0) = None) as Hc.
  { by apply IpClass.classify_v4_None. }
  exists [n]. split_and!; [|by cbn; rewrite net4_netmask_spec, Hnet by done|done].
  cbn [parse_cidr_list_v4]. rewrite Hitem, Hnet, Hc, Htr. done.
Qed.

(** A candidate snapshot replaces the previous one exactly when it has the
    configured minimum of prefixes in both families and neither family shrank
    below half of what it was. *)
Theorem validate_snapshot_accepts_iff (c : PrefixSnapshot) (prev : option PrefixSnapshot)
    (min_v4 min_v6 : nat) :
  validate_snapshot c prev min_v4 min_v6 = Ok tt <->
  (min_v4 <= length (snap_v4 c))%nat ∧ (min_v6 <= length (snap_v6 c))%nat ∧
  ∀ p, prev = Some p ->
    (length (snap_v4 p) <= 2 * length (snap_v4 c))%nat ∧
    (length (snap_v6 p) <= 2 * length (snap_v6 c))%nat.
Proof.
  unfold validate_snapshot.
  destruct (length (snap_v4 c) <? min_v4)%nat eqn:E4.
  { apply Nat.ltb_lt in E4. split; [done|]. intros. lia. }
  destruct (length (snap_v6 c) <? min_v6)%nat eqn:E6.
  { apply Nat.ltb_lt in E6. split; [done|]. intros. lia. }
  apply Nat.ltb_ge in E4, E6. destruct prev as [p|]; [|by split; [intros _; split_and!|]].
  destruct (length (snap_v4 c) * 2 <? length (snap_v4 p))%nat eqn:Eh.
  { apply Nat.ltb_lt in Eh. split; [done|]. intros (_ & _ & H). destruct (H p eq_refl). lia. }
  apply Nat.ltb_ge in Eh.
  destruct (negb _ && _) eqn:Ej.
  { apply andb_true_iff in Ej as [_ Ej%Nat.ltb_lt]. split; [done|].
    intros (_ & _ & H). destruct (H p eq_refl). lia. }
  split; [|done]. intros _. split_and!; [done..|]. intros p' [= <-].
  apply andb_false_iff in Ej as [Ej%negb_false_iff%Nat.eqb_eq|Ej%Nat.ltb_ge]; lia.
Qed.

End prefixes.

(** ** Witnesses *)

Section witnesses.
#[local] Existing Instance ipnet_reference.
#[local] Existing Instance ipnet_reference_laws.

(** A text form for networks: the binary digits of a code of the address and
    the length. *)
Fixpoint show_pos (p : positive) : str :=
  match p with
  | xO p => "0"%char :: show_pos p
  | xI p => "1"%char :: show_pos p
  | xH => []
  end.
Fixpoint parse_pos (s : str) : positive :=
  match s with
  | [] => xH
  | c :: s => if ascii_eqb c "0"%char then xO (parse_pos s) else xI (parse_pos s)
  end.

Definition show_pair (a len : Z) : str := show_pos (encode (a, len)).
Definition parse_pair (s : str) : option (Z * Z) := decode (parse_pos s).

Lemma parse_show_pair a len : parse_pair (show_pair a len) = Some (a, len).
Proof.
  unfold parse_pair, show_pair.
  assert (∀ p, parse_pos (show_pos p) = p) as -> by (induction p; simpl; congruence).
  apply decode_encode.
Qed.

#[local] Instance digit_text : IpNetText := {
  parse_net4 s :=
    '(a, len) ← parse_pair s; guard (0 <= len <= 32);; Some (mk_Ipv4Net a len);
  parse_net6 s :=
    '(a, len) ← parse_pair s; guard (0 <= len <= 128);; Some (mk_Ipv6Net a len);
  show_net4 n := show_pair (net4_addr n) (net4_prefix_len n);
  show_net6 n := show_pair (net6_addr n) (net6_prefix_len n)
}.

#[local] Instance digit_text_laws : IpNetTextLaws.
Proof.
  split; intros *; simpl.
  - destruct (parse_pair s) as [[a len]|]; simpl; [|done]. intros. by simplify_option_eq.
  - destruct (parse_pair s) as [[a len]|]; simpl; [|done]. intros. by simplify_option_eq.
  - intros H. rewrite parse_show_pair. simpl. rewrite option_guard_True by done. by destruct n.
  - intros H. rewrite parse_show_pair. simpl. rewrite option_guard_True by done. by destruct n.
Qed.

Definition example_v4 : list Ipv4Net :=
  [mk_Ipv4Net (ipv4 104 16 0 0) 13; mk_Ipv4Net (ipv4 104 16 0 0) 13].

Lemma snapshot_membership_exact_witness :
  snapshot_contains (snapshot_new example_v4 [] None 0 SourceApi) (V4 (ipv4 104 17 3 4)) = true.
Proof.
  apply (snapshot_membership_exact example_v4 [] None 0 SourceApi (V4 (ipv4 104 17 3 4))).
  - repeat constructor; simpl; lia.
  - constructor.
  - vm_compute. by split.
  - exists (mk_Ipv4Net (ipv4 104 16 0 0) 13). split; [by left|reflexivity].
Defined.

Lemma stored_snapshot_round_trip_witness :
  from_stored (to_stored (snapshot_new [mk_Ipv4Net (ipv4 8 0 0 0) 8] [] None 0 SourceApi))
    SourceLocalCache =
  Ok (snapshot_new [mk_Ipv4Net (ipv4 8 0 0 0) 8] [] None 0 SourceLocalCache).
Proof.
  apply (stored_snapshot_round_trip [show_net4 (mk_Ipv4Net (ipv4 8 0 0 0) 8)] []); [|reflexivity].
  apply (parse_show_v4 [mk_Ipv4Net (ipv4 8 0 0 0) 8]).
  repeat constructor; simpl; lia || reflexivity.
Defined.

Lemma accepted_prefix_covers_metadata_witness :
  ∃ v4, parse_cidr_list_v4 [show_net4 (mk_Ipv4Net (ipv4 169 0 0 0) 8)] = Ok v4 ∧
    snapshot_contains (snapshot_new v4 [] None 0 SourceApi) (V4 (ipv4 169 254 169 254)) = true ∧
    IpClass.classify (V4 (ipv4 169 254 169 254)) = Some IpClass.CloudMetadata.
Proof.
  apply accepted_prefix_covers_metadata. apply parse_show_net4. simpl; lia.
Defined.

End witnesses.
