(* ===== verification/CloudflarePolicy.v ===== *)
(** * Cloudflare eligibility

    [src/policy/cloudflare.rs]: whether an answer may be treated as a Cloudflare
    answer at all, and how strongly; and the runtime override of the configured
    mode in [src/cloudflare/state.rs]. *)

From Stdlib Require Import Ascii String.
From S2P Require Import Prelude.
From S2P Require Import Names.
From S2P Require Import Net.
From S2P Require Import Config.
From S2P Require Import Dns.
From S2P Require Import DnssecPolicy.
From S2P Require Import Prefixes.

Inductive Eligibility : Set := ElOff | ElPreserve | ElAugment.

#[global] Instance Eligibility_eq_dec : EqDecision Eligibility.
Proof. solve_decision. Defined.

Inductive FallbackReason : Set :=
| FbDisabled | FbNotCloudflare | FbRecordType | FbDomainExcluded | FbDnssecSecure
| FbDnssecUnknown | FbEchUnvalidatable | FbNoBaseline | FbNoVerifiedCandidate
| FbComplexAnswer | FbModeIsPreserve.

Record EligibilityInputs : Type := mk_EligibilityInputs {
  el_mode : CloudflareMode;
  el_enabled : bool;
  el_qtype : RecordType;
  el_dnssec : DnssecStatus;
  el_snapshot : option PrefixSnapshot;
  el_original : list IpAddr;
  el_single_rrset : bool;
  el_excluded : bool;
  el_publishes_ech : bool;
  el_can_validate_ech : bool;
  el_baseline_validated : bool;
  el_has_verified_candidate : bool
}.

Definition evaluate (inputs : EligibilityInputs) : Eligibility * option FallbackReason :=
  if negb (el_enabled inputs) || bool_decide (el_mode inputs = CfOff) then
    (ElOff, Some FbDisabled)
  else if negb (rtype_eqb (el_qtype inputs) RT_A || rtype_eqb (el_qtype inputs) RT_AAAA) then
    (ElOff, Some FbRecordType)
  else if el_excluded inputs then (ElOff, Some FbDomainExcluded)
  else match el_snapshot inputs with
  | None => (ElOff, Some FbNotCloudflare)
  | Some snapshot =>
      if negb (existsb (snapshot_contains snapshot) (el_original inputs)) then
        (ElOff, Some FbNotCloudflare)
      else if bool_decide (el_mode inputs = CfPreserve) then (ElPreserve, Some FbModeIsPreserve)
      else if negb (el_single_rrset inputs) then (ElPreserve, Some FbComplexAnswer)
      else match el_dnssec inputs with
      | Secure => (ElPreserve, Some FbDnssecSecure)
      | Indeterminate | Bogus => (ElPreserve, Some FbDnssecUnknown)
      | Insecure =>
          if el_publishes_ech inputs && negb (el_can_validate_ech inputs) then
            (ElPreserve, Some FbEchUnvalidatable)
          else if negb (el_baseline_validated inputs) then (ElPreserve, Some FbNoBaseline)
          else if negb (el_has_verified_candidate inputs) then
            (ElPreserve, Some FbNoVerifiedCandidate)
          else (ElAugment, None)
      end
  end.

(** SvcParamKey 5. *)
Definition ech_key : Z := 5.

Definition publishes_ech {Name} (msg : Message Name) : bool :=
  existsb (λ r,
    match r_data r with
    | RD_HTTPS params | RD_SVCB params => existsb (Z.eqb ech_key) params
    | _ => false
    end) (answers msg ++ additionals msg ++ authorities msg).

Definition matches_domain (name pattern : str) : bool :=
  let p := to_ascii_lowercase (trim_end_matches dot pattern) in
  match p with
  | [] => false
  | _ => match strip_prefix dot p with
         | Some suffix => str_eqb name suffix || ends_with name (dot :: suffix)
         | None => str_eqb name p
         end
  end.

Definition is_excluded (name : str) (allow deny : list str) : bool :=
  let n := to_ascii_lowercase (trim_end_matches dot name) in
  if existsb (matches_domain n) deny then true
  else if (length allow =? 0)%nat then false
  else negb (existsb (matches_domain n) allow).

(** ** The runtime mode override *)

Module ModeOverride.

Definition mode_rank (m : CloudflareMode) : Z :=
  match m with CfOff => 0 | CfPreserve => 1 | CfVerifiedAugment => 2 end.

Definition mode_to_u8 (m : CloudflareMode) : Z := mode_rank m + 1.

Definition mode_from_u8 (raw : Z) : option CloudflareMode :=
  if raw =? 1 then Some CfOff
  else if raw =? 2 then Some CfPreserve
  else if raw =? 3 then Some CfVerifiedAugment
  else None.

(** The three atomics of the shared state. *)
Record ModeState : Type := mk_ModeState {
  ms_enabled : bool;
  ms_mode : Z;
  ms_override : Z
}.

Definition mode_new (enabled : bool) (mode : CloudflareMode) : ModeState :=
  mk_ModeState enabled (mode_to_u8 mode) 0.

Definition mode_override (s : ModeState) : option CloudflareMode := mode_from_u8 (ms_override s).

Definition configured_mode (s : ModeState) : CloudflareMode :=
  default CfOff (mode_from_u8 (ms_mode s)).

Definition mode (s : ModeState) : CloudflareMode :=
  match mode_from_u8 (ms_override s) with Some m => m | None => configured_mode s end.

Definition reconfigure (s : ModeState) (enabled : bool) (cfg_mode : CloudflareMode) : ModeState :=
  let s := mk_ModeState enabled (mode_to_u8 cfg_mode) (ms_override s) in
  match mode_override s with
  | Some over =>
      if mode_rank cfg_mode <? mode_rank over
      then mk_ModeState (ms_enabled s) (ms_mode s) 0 else s
  | None => s
  end.

Definition effective_mode (s : ModeState) (configured : CloudflareMode) : CloudflareMode :=
  match mode_override s with
  | Some over => if mode_rank over <=? mode_rank configured then over else configured
  | None => configured
  end.

Definition set_mode_override (s : ModeState) (m : CloudflareMode) : result unit ModeState :=
  if mode_rank (configured_mode s) <? mode_rank m then Err tt
  else Ok (mk_ModeState (ms_enabled s) (ms_mode s) (mode_to_u8 m)).

Definition clear_mode_override (s : ModeState) : ModeState :=
  mk_ModeState (ms_enabled s) (ms_mode s) 0.

(** What the operator and the reload path can do to the state. *)
Inductive step : ModeState -> ModeState -> Prop :=
| step_reload s enabled m : step s (reconfigure s enabled m)
| step_set s m s' : set_mode_override s m = Ok s' -> step s s'
| step_clear s : step s (clear_mode_override s).

Inductive reachable : ModeState -> Prop :=
| reach_new enabled m : reachable (mode_new enabled m)
| reach_step s s' : reachable s -> step s s' -> reachable s'.

Lemma mode_from_to m : mode_from_u8 (mode_to_u8 m) = Some m.
Proof. by destruct m. Qed.

(** The stored mode decodes, and an override in force is no stronger. *)
Definition mode_inv (s : ModeState) : Prop :=
  (∃ m, ms_mode s = mode_to_u8 m) ∧
  ∀ o, mode_override s = Some o -> mode_rank o <= mode_rank (configured_mode s).

Lemma mode_inv_step s s' : mode_inv s -> step s s' -> mode_inv s'.
Proof.
  intros [(m & Hm) Ho] Hs. destruct Hs as [s enabled m'|s m' s' Hset|s].
  - unfold reconfigure, mode_override. simpl.
    assert (configured_mode (mk_ModeState enabled (mode_to_u8 m') (ms_override s)) = m') as Hc
      by (unfold configured_mode; simpl; by rewrite mode_from_to).
    destruct (mode_from_u8 (ms_override s)) as [o|] eqn:Eo; [destruct (_ <? _) eqn:El|];
      (split; [by exists m'|]); unfold mode_override; simpl; intros o' Ho'; [done| |congruence].
    rewrite Hc. bool_to_prop. by simplify_eq.
  - unfold set_mode_override in Hset. destruct (_ <? _) eqn:El; [done|].
    injection Hset as <-. bool_to_prop. split; [by exists m|].
    unfold mode_override, configured_mode in *; simpl. rewrite mode_from_to.
    by intros o [= <-].
  - split; [by exists m|]. done.
Qed.

Lemma reachable_mode_inv s : reachable s -> mode_inv s.
Proof.
  induction 1 as [enabled m|s s' _ IH Hs]; [|by eapply mode_inv_step].
  split; [by exists m|done].
Qed.

End ModeOverride.

(** ** Lemmas *)

(** A configured pattern, as labels: [Subtree] is written with a leading dot. *)
Inductive DomainPattern : Type :=
| Exact (ls : list str)
| Subtree (ls : list str).

Definition pattern_text (p : DomainPattern) : str :=
  match p with
  | Exact ls => join_with dot ls
  | Subtree ls => dot :: join_with dot ls
  end.

Definition pattern_ok (p : DomainPattern) : Prop :=
  match p with Exact ls | Subtree ls => ls ≠ [] ∧ Forall label_ok ls end.

(** A pattern covers a name case-insensitively, on whole labels. *)
Definition covers (p : DomainPattern) (ls : list str) : Prop :=
  let low := map to_ascii_lowercase in
  match p with
  | Exact ps => low ps = low ls
  | Subtree ps => label_suffix (low ps) (low ls)
  end.

Lemma drop_while_app c (a b : str) :
  head b = Some c -> (∃ x, x ∈ a ∧ x ≠ c) -> drop_while c (a ++ b) = drop_while c a ++ b.
Proof.
  intros Hb (x & Hx & Hne). induction a as [|y a IH]; [set_solver|]. simpl.
  destruct (ascii_eqb y c) eqn:E; [|done]. apply ascii_eqb_eq in E as ->.
  apply IH. set_solver.
Qed.

Lemma pattern_trim p :
  pattern_ok p -> trim_end_matches dot (pattern_text p) = pattern_text p.
Proof.
  destruct p as [ls|ls]; intros [Hne Hok]; simpl; [by apply trim_end_join|].
  unfold trim_end_matches. simpl. rewrite drop_while_ne.
  - rewrite rev_app_distr, rev_involutive. done.
  - pose proof (join_last_ne ls Hok) as Hl. destruct ls as [|l ls]; [done|].
    pose proof (join_nonempty l ls (Forall_inv Hok)) as Hj.
    destruct (rev (join_with dot (l :: ls))) as [|x r] eqn:E; [|exact Hl].
    apply (f_equal (@rev ascii)) in E. by rewrite rev_involutive in E.
Qed.

Lemma matches_domain_spec p ls :
  pattern_ok p -> Forall label_ok ls ->
  matches_domain (join_with dot (map to_ascii_lowercase ls)) (pattern_text p) = true <->
  covers p ls.
Proof.
  intros Hp Hls. unfold matches_domain. rewrite pattern_trim by done.
  destruct p as [ps|ps]; destruct Hp as [Hne Hps]; simpl.
  - rewrite join_lower. destruct ps as [|q ps]; [done|].
    pose proof (Forall_label_lower _ Hps) as Hlow.
    pose proof (join_nonempty (to_ascii_lowercase q) (map to_ascii_lowercase ps)
      (Forall_inv Hlow)) as Hj.
    pose proof (Forall_inv Hlow) as [Hq1 Hq2].
    change (to_ascii_lowercase q :: map to_ascii_lowercase ps)
      with (map to_ascii_lowercase (q :: ps)) in Hj.
    destruct (join_with dot (map to_ascii_lowercase (q :: ps))) as [|c r] eqn:E; [done|].
    assert (c ≠ dot) as Hc.
    { intros ->. apply Hq2. simpl in E. destruct (to_ascii_lowercase q) as [|x q'] eqn:Eq; [done|].
      destruct (map to_ascii_lowercase ps); simplify_eq/=; by left. }
    simpl. destruct (ascii_eqb c dot) eqn:Ed; [by apply ascii_eqb_eq in Ed|].
    rewrite <- E, str_eqb_eq. split; [|by intros <-].
    intros Heq. symmetry. apply join_inj; auto using Forall_label_lower.
  - rewrite join_lower.
    rewrite subtree_test; auto using Forall_label_lower. by destruct ps.
Qed.

Lemma evaluate_augment (i : EligibilityInputs) :
  fst (evaluate i) = ElAugment ->
  el_enabled i = true ∧ el_mode i = CfVerifiedAugment ∧
  (el_qtype i = RT_A ∨ el_qtype i = RT_AAAA) ∧ el_excluded i = false ∧
  (∃ s, el_snapshot i = Some s ∧ ∃ a, a ∈ el_original i ∧ snapshot_contains s a = true) ∧
  el_single_rrset i = true ∧ el_dnssec i = Insecure ∧
  (el_publishes_ech i = true -> el_can_validate_ech i = true) ∧
  el_baseline_validated i = true ∧ el_has_verified_candidate i = true.
Proof.
  unfold evaluate, rtype_eqb.
  intros H. repeat (case_match; simplify_eq/=). bool_to_prop.
  repeat match goal with
  | H : orb _ _ = true |- _ => apply orb_true_iff in H
  | H : existsb _ _ = true |- _ => apply existsb_elem in H
  | H : andb _ _ = false |- _ => apply andb_false_iff in H
  end.
  rewrite !bool_decide_eq_true in *. rewrite negb_false_iff in *.
  split_and!; try done; [by destruct (el_mode i)|by eauto|].
  destruct (el_publishes_ech i), (el_can_validate_ech i); simpl in *; naive_solver.
Qed.

(** ** Properties *)

(** Verified addresses may be added to an answer exactly when every
    condition of the policy holds at once: the subsystem is on in verified-augment
    mode, the question is for addresses of a domain the policy covers, the answer
    is one RRset that contains a Cloudflare address, it is provably unsigned, no
    unvalidatable ECH is published, and both a baseline and a verified candidate
    exist.  Every other combination yields something weaker, with its reason. *)
Theorem augment_iff_every_condition (i : EligibilityInputs) :
  (fst (evaluate i) = ElAugment <->
   el_enabled i = true ∧ el_mode i = CfVerifiedAugment ∧
   (el_qtype i = RT_A ∨ el_qtype i = RT_AAAA) ∧ el_excluded i = false ∧
   (∃ s, el_snapshot i = Some s ∧ ∃ a, a ∈ el_original i ∧ snapshot_contains s a = true) ∧
   el_single_rrset i = true ∧ el_dnssec i = Insecure ∧
   (el_publishes_ech i = true -> el_can_validate_ech i = true) ∧
   el_baseline_validated i = true ∧ el_has_verified_candidate i = true) ∧
  (snd (evaluate i) = None <-> fst (evaluate i) = ElAugment).
Proof.
  split; split.
  - apply evaluate_augment.
  - unfold evaluate, rtype_eqb.
    intros (-> & -> & Hq & -> & (s & -> & Hex%existsb_elem) & -> & -> & Hech & -> & ->).
    rewrite Hex. simpl.
    assert (bool_decide (el_qtype i = RT_A) || bool_decide (el_qtype i = RT_AAAA) = true) as ->.
    { apply orb_true_iff. by rewrite !bool_decide_eq_true. }
    simpl. destruct (el_publishes_ech i); simpl; [by rewrite Hech|done].
  - unfold evaluate. intros H. repeat (case_match; simplify_eq/=; try done).
  - unfold evaluate. intros H. repeat (case_match; simplify_eq/=; try done).
Qed.

(** The allow and deny lists work on whole labels and without regard to case
    or a trailing dot: a name is excluded exactly when a deny pattern covers it,
    or when there is an allow list and no entry of it does. *)
Theorem is_excluded_on_labels (ls : list str) (allow deny : list DomainPattern) (text : str)
    (Hls : Forall label_ok ls) (Htext : text = join_with dot ls ∨ text = dotted ls)
    (Hallow : Forall pattern_ok allow) (Hdeny : Forall pattern_ok deny) :
  is_excluded text (map pattern_text allow) (map pattern_text deny) = true <->
  (∃ p, p ∈ deny ∧ covers p ls) ∨ (allow ≠ [] ∧ ∀ p, p ∈ allow -> ¬ covers p ls).
Proof.
  unfold is_excluded.
  assert (to_ascii_lowercase (trim_end_matches dot text) =
          join_with dot (map to_ascii_lowercase ls)) as ->.
  { destruct Htext as [->| ->]; rewrite ?trim_end_join, ?trim_end_dotted by done;
      apply join_lower. }
  set (n := join_with dot (map to_ascii_lowercase ls)).
  assert (∀ ps, Forall pattern_ok ps ->
    existsb (matches_domain n) (map pattern_text ps) = true <->
    ∃ p, p ∈ ps ∧ covers p ls) as Hex.
  { intros ps Hps. rewrite existsb_elem. rewrite Forall_forall in Hps. split.
    - intros (x & (p & -> & Hp)%list_elem_of_fmap & Hm). exists p. split; [done|].
      apply matches_domain_spec in Hm; auto.
    - intros (p & Hp & Hc). exists (pattern_text p). split; [by apply list_elem_of_fmap_2|].
      apply matches_domain_spec; auto. }
  destruct (existsb (matches_domain n) (map pattern_text deny)) eqn:Ed.
  { split; [|done]. intros _. left. by apply Hex. }
  assert (¬ ∃ p, p ∈ deny ∧ covers p ls) as Hnd by (rewrite <- Hex by done; congruence).
  destruct allow as [|a allow]; simpl length; [naive_solver|]. simpl Nat.eqb. cbv iota.
  rewrite negb_true_iff, <- not_true_iff_false, Hex by done. naive_solver.
Qed.

(** Whatever sequence of reloads, overrides and clears has happened, the
    mode the foreground path uses is never stronger than the mode of the
    configuration it is handed, and never stronger than the configured mode kept
    in the state. *)
Theorem override_only_weakens (s : ModeOverride.ModeState) (H : ModeOverride.reachable s) :
  ModeOverride.mode_rank (ModeOverride.mode s)
    <= ModeOverride.mode_rank (ModeOverride.configured_mode s) ∧
  ∀ m, ModeOverride.mode_rank (ModeOverride.effective_mode s m) <= ModeOverride.mode_rank m.
Proof.
  apply ModeOverride.reachable_mode_inv in H as [_ Ho]. split.
  - unfold ModeOverride.mode. unfold ModeOverride.mode_override in Ho.
    destruct (ModeOverride.mode_from_u8 (ModeOverride.ms_override s)); [by apply Ho|lia].
  - intros m. unfold ModeOverride.effective_mode.
    destruct (ModeOverride.mode_override s); [|lia]. destruct (_ <=? _) eqn:E; bool_to_prop; lia.
Qed.

(** ** Witnesses *)

Lemma is_excluded_on_labels_witness :
  is_excluded (lit "Shop.Example.com.") []
    (map pattern_text [Subtree [lit "example"; lit "COM"]]) = true.
Proof.
  apply (is_excluded_on_labels [lit "Shop"; lit "Example"; lit "com"] []
    [Subtree [lit "example"; lit "COM"]]).
  - repeat constructor; vm_compute; try done; intros H; inversion_clear H; set_solver.
  - by right.
  - constructor.
  - repeat constructor; vm_compute; try done; set_solver.
  - left. exists (Subtree [lit "example"; lit "COM"]). split; [by left|].
    exists [lit "shop"]. reflexivity.
Defined.

Lemma override_only_weakens_witness :
  let s := ModeOverride.mk_ModeState true 3 2 in
  ModeOverride.mode s = CfPreserve ∧
  ModeOverride.mode_rank (ModeOverride.mode s)
    <= ModeOverride.mode_rank (ModeOverride.configured_mode s).
Proof.
  split; [reflexivity|]. apply override_only_weakens.
  eapply ModeOverride.reach_step; [apply (ModeOverride.reach_new true CfVerifiedAugment)|].
  eapply (ModeOverride.step_set _ CfPreserve). reflexivity.
Defined.
