(* ===== verification/SpecialUse.v ===== *)
(** * Special-use domain names

    [src/dns/specialuse.rs] and the loop marker of [src/config/auto.rs]: which
    question names are answered locally, and how. *)

From Stdlib Require Import Ascii String.
From S2P Require Import Prelude.
From S2P Require Import Names.
From S2P Require Import Net.
From S2P Require Import Dns.

Inductive Disposition : Set := Forward | Loopback | NxDomain | LoopMarker.

Inductive Registry : Set :=
| RegLocalhost | RegInvalid | RegTest | RegMulticastDns | RegHomeArpa | RegOnion
| RegPrivateReverse.

#[global] Instance Disposition_eq_dec : EqDecision Disposition.
Proof. solve_decision. Defined.
#[global] Instance Registry_eq_dec : EqDecision Registry.
Proof. solve_decision. Defined.

Definition NXDOMAIN_SUFFIXES : list (str * Registry) :=
  [ (lit "invalid.", RegInvalid);
    (lit "local.", RegMulticastDns);
    (lit "home.arpa.", RegHomeArpa);
    (lit "onion.", RegOnion);
    (lit "10.in-addr.arpa.", RegPrivateReverse);
    (lit "16.172.in-addr.arpa.", RegPrivateReverse);
    (lit "17.172.in-addr.arpa.", RegPrivateReverse);
    (lit "18.172.in-addr.arpa.", RegPrivateReverse);
    (lit "19.172.in-addr.arpa.", RegPrivateReverse);
    (lit "20.172.in-addr.arpa.", RegPrivateReverse);
    (lit "21.172.in-addr.arpa.", RegPrivateReverse);
    (lit "22.172.in-addr.arpa.", RegPrivateReverse);
    (lit "23.172.in-addr.arpa.", RegPrivateReverse);
    (lit "24.172.in-addr.arpa.", RegPrivateReverse);
    (lit "25.172.in-addr.arpa.", RegPrivateReverse);
    (lit "26.172.in-addr.arpa.", RegPrivateReverse);
    (lit "27.172.in-addr.arpa.", RegPrivateReverse);
    (lit "28.172.in-addr.arpa.", RegPrivateReverse);
    (lit "29.172.in-addr.arpa.", RegPrivateReverse);
    (lit "30.172.in-addr.arpa.", RegPrivateReverse);
    (lit "31.172.in-addr.arpa.", RegPrivateReverse);
    (lit "168.192.in-addr.arpa.", RegPrivateReverse);
    (lit "254.169.in-addr.arpa.", RegPrivateReverse);
    (lit "8.e.f.ip6.arpa.", RegPrivateReverse);
    (lit "9.e.f.ip6.arpa.", RegPrivateReverse);
    (lit "a.e.f.ip6.arpa.", RegPrivateReverse);
    (lit "b.e.f.ip6.arpa.", RegPrivateReverse);
    (lit "c.f.ip6.arpa.", RegPrivateReverse);
    (lit "d.f.ip6.arpa.", RegPrivateReverse) ].

Definition LOOP_MARKER_SUFFIX : str := lit "loop-probe.egressdns.invalid".

Definition is_loop_marker (name : str) : bool :=
  ends_with (to_ascii_lowercase (trim_end_matches dot name)) LOOP_MARKER_SUFFIX.

Definition suffix_matches (name suffix : str) : bool :=
  if str_eqb name suffix then true
  else if (length suffix <=? length name)%nat then
    let cut := (length name - length suffix)%nat in
    if (2 <=? cut)%nat
    then ends_with name suffix && bool_decide (name !! (cut - 1)%nat = Some dot)
    else false
  else false.

Definition classify (qname : str) : option (Registry * Disposition) :=
  let lowered := to_ascii_lowercase qname in
  let name := if ends_with lowered [dot] then lowered else lowered ++ [dot] in
  if suffix_matches name (lit "localhost.") then Some (RegLocalhost, Loopback)
  else if is_loop_marker name then Some (RegInvalid, LoopMarker)
  else (λ e, (e.2, NxDomain)) <$> find_first (λ e, suffix_matches name e.1) NXDOMAIN_SUFFIXES.

(** [Ipv4Addr::LOCALHOST] and [Ipv6Addr::LOCALHOST]. *)
Definition loop_marker_rdata {Name} (qtype : RecordType) : option (RData Name) :=
  match qtype with
  | RT_A => Some (RD_A (ipv4 192 0 2 53))
  | _ => None
  end.

Definition loopback_rdata {Name} (qtype : RecordType) : option (RData Name) :=
  match qtype with
  | RT_A => Some (RD_A (ipv4 127 0 0 1))
  | RT_AAAA => Some (RD_AAAA 1)
  | _ => None
  end.

(** ** Labels of the registry entries *)

(** The labels of a dot-terminated constant. *)
Definition labels_of (s : str) : list str := removelast (split_on dot s).

Fixpoint label_suffixb (ss ls : list str) : bool :=
  bool_decide (ss = ls) ||
  match ls with
  | [] => false
  | _ :: ls' => label_suffixb ss ls'
  end.

Lemma label_suffixb_spec ss ls : label_suffixb ss ls = true <-> label_suffix ss ls.
Proof.
  induction ls as [|l ls IH]; simpl; rewrite orb_true_iff, bool_decide_eq_true.
  - split; [intros [->|?]; [by exists []|done]|].
    intros [ls' E]. left. symmetry in E. by apply app_nil in E as [_ ->].
  - rewrite IH. split.
    + intros [->|[ls' ->]]; [by exists []|by exists (l :: ls')].
    + intros [[|x ls'] E]; simplify_eq/=; [by left|right; by exists ls'].
Qed.

Lemma suffix_matches_labels ls ss :
  Forall label_ok ls -> Forall label_ok ss -> ss ≠ [] ->
  suffix_matches (dotted ls) (dotted ss) = label_suffixb ss ls.
Proof.
  intros Hls Hss Hne. apply eq_true_iff_eq. rewrite label_suffixb_spec.
  unfold suffix_matches. destruct (str_eqb _ _) eqn:Eq.
  { apply str_eqb_eq, dotted_inj in Eq as ->; [|done..]. split; [|done]. by exists []. }
  split.
  - repeat case_match; try done. rewrite andb_true_iff, bool_decide_eq_true, ends_with_spec.
    intros [[t Ht] Hdot]. rewrite Ht, length_app in Hdot.
    replace (length t + length (dotted ss) - length (dotted ss) - 1)%nat
      with (length t - 1)%nat in Hdot by lia.
    destruct t as [|x t _] using rev_ind; [by rewrite Ht, str_eqb_refl in Eq|].
    rewrite length_app in Hdot. simpl in Hdot.
    rewrite lookup_app_l in Hdot by (rewrite length_app; simpl; lia).
    replace (length t + 1 - 1)%nat with (length t) in Hdot by lia.
    rewrite lookup_app_r, Nat.sub_diag in Hdot by lia. simplify_eq/=.
    apply (dotted_cut t); [done..|]. rewrite Ht. by rewrite <- app_assoc.
  - intros [[|l ls'] ->]; [by rewrite str_eqb_refl in Eq|].
    rewrite dotted_app. rewrite length_app.
    assert (2 <= length (dotted (l :: ls')))%nat as Hlen.
    { rewrite dotted_cons, length_app. simpl. apply Forall_app, proj1, Forall_inv in Hls.
      destruct Hls as [Hl _]. destruct l; simpl; [done|lia]. }
    replace (length (dotted (l :: ls')) + length (dotted ss) - length (dotted ss))%nat
      with (length (dotted (l :: ls'))) by lia.
    rewrite (proj2 (Nat.leb_le _ _)) by lia. rewrite (proj2 (Nat.leb_le _ _)) by lia.
    rewrite andb_true_iff, bool_decide_eq_true, ends_with_spec. split; [by eexists|].
    destruct (dotted_last (l :: ls')) as [u Hu]; [done|]. rewrite Hu in *.
    rewrite length_app. simpl. replace (length u + 1 - 1)%nat with (length u) by lia.
    rewrite lookup_app_l by (rewrite length_app; simpl; lia).
    by rewrite lookup_app_r, Nat.sub_diag by lia.
Qed.

(** Every entry is a dot-terminated list of well-formed labels. *)
Lemma registry_labels e :
  e ∈ (lit "localhost.", RegLocalhost) :: NXDOMAIN_SUFFIXES ->
  e.1 = dotted (labels_of e.1) ∧ Forall label_ok (labels_of e.1) ∧ labels_of e.1 ≠ [].
Proof.
  revert e. apply Forall_forall.
  assert (∀ s, forallb (λ l, negb (bool_decide (l = [])) && negb (existsb (ascii_eqb dot) l)) s
    = true -> Forall label_ok s) as Hok.
  { intros s Hs. apply Forall_forall. intros l Hl.
    rewrite forallb_elem in Hs. specialize (Hs l Hl). simpl in Hs. bool_to_prop.
    split; [done|]. intros Hin. rewrite <- not_true_iff_false in H0. apply H0.
    apply existsb_elem. exists dot. split; [done|apply ascii_eqb_refl]. }
  unfold NXDOMAIN_SUFFIXES.
  repeat (apply Forall_cons_2;
    [split_and!; [reflexivity|apply Hok; vm_compute; reflexivity|vm_compute; congruence]|]).
  constructor.
Qed.

(** ** Properties *)

(** The classification on labels, with the loop marker taken as it is. *)
Definition classify_labels (ls : list str) : option (Registry * Disposition) :=
  if label_suffixb [lit "localhost"] ls then Some (RegLocalhost, Loopback)
  else if is_loop_marker (dotted ls) then Some (RegInvalid, LoopMarker)
  else (λ e, (e.2, NxDomain)) <$>
         find_first (λ e, label_suffixb (labels_of e.1) ls) NXDOMAIN_SUFFIXES.

Lemma find_first_ext {A} (p q : A -> bool) l :
  (∀ x, x ∈ l -> p x = q x) -> find_first p l = find_first q l.
Proof.
  unfold find_first. induction l as [|x l IH]; intros H; simpl; [done|].
  rewrite (H x) by by left. rewrite IH; [done|]. intros y Hy. apply H. by right.
Qed.

(** A question name is classified by its labels, whatever its case and
    whether or not its trailing dot is written: the registry entries match the
    name itself and its descendants and nothing else, so no name that merely ends
    in the same characters is answered locally. *)
Theorem classify_on_labels (ls : list str) (text : str)
    (Hls : Forall label_ok ls) (Hne : ls ≠ [])
    (Htext : text = join_with dot ls ∨ text = dotted ls) :
  classify text = classify_labels (map to_ascii_lowercase ls).
Proof.
  set (low := map to_ascii_lowercase ls).
  assert (Forall label_ok low) as Hlow by by apply Forall_label_lower.
  assert (low ≠ []) as Hlne by by destruct ls.
  assert ((if ends_with (to_ascii_lowercase text) [dot] then to_ascii_lowercase text
           else to_ascii_lowercase text ++ [dot]) = dotted low) as Hname.
  { destruct Htext as [->| ->].
    - rewrite join_lower, dotted_join by done.
      destruct (ends_with _ _) eqn:E; [|done].
      apply ends_with_spec in E as [t Ht]. fold low in Ht. exfalso.
      apply (join_last_ne low Hlow). rewrite Ht, rev_app_distr. done.
    - rewrite dotted_lower. fold low.
      rewrite (proj2 (ends_with_spec (dotted low) [dot])); [done|]. by apply dotted_last. }
  unfold classify, classify_labels. rewrite Hname.
  destruct (registry_labels (lit "localhost.", RegLocalhost)) as (_ & H2 & H3); [by left|].
  change (lit "localhost.") with (dotted [lit "localhost"]).
  rewrite (suffix_matches_labels low [lit "localhost"]) by done.
  destruct (label_suffixb _ _); [done|]. destruct (is_loop_marker _); [done|].
  f_equal. apply find_first_ext. intros e He.
  destruct (registry_labels e) as (E1 & E2 & E3); [by right|].
  rewrite E1 at 1. by apply suffix_matches_labels.
Qed.

(** The loop marker is matched on characters, not on labels: a name whose
    last labels are not the marker's is answered with the marker address all the
    same. *)
Theorem loop_marker_ignores_labels :
  ∃ ls, Forall label_ok ls ∧
    ¬ label_suffix [lit "loop-probe"; lit "egressdns"; lit "invalid"] ls ∧
    classify (dotted ls) = Some (RegInvalid, LoopMarker).
Proof.
  exists [lit "xloop-probe"; lit "egressdns"; lit "invalid"]. split_and!.
  - repeat (apply Forall_cons_2; [split; [done|]|]); [vm_compute; set_solver..|constructor].
  - rewrite <- label_suffixb_spec. by vm_compute.
  - by vm_compute.
Qed.

(** ** Witnesses *)

Lemma classify_on_labels_witness :
  classify (lit "Printer.LOCAL") = Some (RegMulticastDns, NxDomain) ∧
  classify (lit "notlocal.") = None.
Proof.
  split.
  - rewrite (classify_on_labels [lit "Printer"; lit "LOCAL"]); [reflexivity| |done|by left].
    repeat (apply Forall_cons_2; [split; [done|]|]); [vm_compute; set_solver..|constructor].
  - rewrite (classify_on_labels [lit "notlocal"]); [reflexivity| |done|by right].
    repeat (apply Forall_cons_2; [split; [done|]|]); [vm_compute; set_solver..|constructor].
Defined.
