(* ===== verification/Sampler.v ===== *)
(** * Sampling official prefixes

    [src/cloudflare/sampler.rs]: each official IPv4 prefix is cut into buckets, and a
    round proposes addresses mostly from buckets never or least recently visited, the
    rest from those that have been productive.  Everything is derived from a seed. *)

From Stdlib Require Import Ascii String.
From S2P Require Import Prelude.
From S2P Require Import Floats.
From S2P Require Import Names.
From S2P Require Import Net.
From S2P Require Import Util.
From S2P Require Import Prefixes.

#[global] Instance Ipv4Net_countable : Countable Ipv4Net.
Proof.
  refine (inj_countable' (λ n, (net4_addr n, net4_prefix_len n)) (λ '(a, l), mk_Ipv4Net a l) _).
  by intros [].
Defined.

Record BucketState : Type := mk_BucketState {
  bs_attempts : Z;
  bs_successes : Z;
  bs_last_round : Z
}.

Definition no_history : BucketState := mk_BucketState 0 0 0.

Definition yield_ratio (s : BucketState) : f64 :=
  if bs_attempts s =? 0 then f64_zero else f64_div (f64_of_Z (bs_successes s)) (f64_of_Z (bs_attempts s)).

Abbreviation BucketKey := (Ipv4Net * Z)%type.

Record StratifiedSampler : Type := mk_StratifiedSampler {
  sm_seed : Z;
  sm_buckets_per_prefix : Z;
  sm_exploit_fraction : f64;
  sm_buckets : gmap BucketKey BucketState;
  sm_round : Z
}.

Definition sampler_new (seed buckets_per_prefix : Z) (exploit_fraction : f64) : StratifiedSampler :=
  mk_StratifiedSampler seed (Z.max 1 (Z.min buckets_per_prefix 4096))
    (f64_clamp f64_zero f64_one exploit_fraction) ∅ 0.

Definition prefix_size (prefix : Ipv4Net) : Z := Z.shiftl 1 (32 - net4_prefix_len prefix).

(** [to_be_bytes] at [n] bytes. *)
Definition be_bytes (n : nat) (x : Z) : list Z := rev (le_bytes n x).

(** Step off the first and the last host value of a /24, at most [n] times. *)
Fixpoint avoid_edges (n : nat) (base size offset : Z) : Z :=
  match n with
  | O => offset
  | S n =>
      let last := Z.land (base + offset) 255 in
      if negb (last =? 0) && negb (last =? 255) then offset
      else avoid_edges n base size ((offset + 1) mod size)
  end.

Section sampler.
Context {NL : IpNetLib}.
Implicit Types (s : StratifiedSampler) (prefix : Ipv4Net).

Definition buckets_for s prefix : Z := Z.max (Z.min (sm_buckets_per_prefix s) (prefix_size prefix)) 1.

Definition tiebreak s prefix (bucket : Z) : Z :=
  fnv1a64 (be_bytes 4 (net4_network prefix) ++ [net4_prefix_len prefix] ++ be_bytes 4 bucket
           ++ take 7 (be_bytes 8 (sm_seed s))).

Definition address_in_bucket s prefix (bucket round : Z) : option Z :=
  let size := prefix_size prefix / buckets_for s prefix in
  if size =? 0 then None
  else
    let base := net4_network prefix + bucket * size in
    let h := fnv1a64 (be_bytes 8 (sm_seed s) ++ be_bytes 4 (net4_network prefix)
                      ++ [net4_prefix_len prefix] ++ be_bytes 4 bucket ++ be_bytes 8 round) in
    let value := base + avoid_edges 4 base size (h mod size) in
    if 2 ^ 32 - 1 <? value then None else Some value.

(** The buckets of a prefix, with what is known of each. *)
Definition buckets_of s (prefixes : list Ipv4Net) : list (BucketKey * option BucketState) :=
  flat_map (λ prefix, map (λ b, ((prefix, Z.of_nat b), sm_buckets s !! (prefix, Z.of_nat b)))
                        (seq 0 (Z.to_nat (buckets_for s prefix)))) prefixes.

Definition explore_leb s (a b : BucketKey * Z) : bool :=
  (a.2 <? b.2) || ((a.2 =? b.2) && (tiebreak s a.1.1 a.1.2 <=? tiebreak s b.1.1 b.1.2)).

Definition exploit_leb s (a b : BucketKey * f64) : bool :=
  (f64_key b.2 <? f64_key a.2)
  || ((f64_key b.2 =? f64_key a.2) && (tiebreak s a.1.1 a.1.2 <=? tiebreak s b.1.1 b.1.2)).

Definition to_explore s prefixes : list BucketKey :=
  map fst (stable_sort (explore_leb s)
    (map (λ e : BucketKey * option BucketState, (e.1, default 0 (bs_last_round <$> e.2)))
       (buckets_of s prefixes))).

Definition to_exploit s prefixes : list BucketKey :=
  map fst (stable_sort (exploit_leb s)
    (omap (λ e : BucketKey * option BucketState,
             match e.2 with
             | Some st => if 0 <? bs_attempts st then Some (e.1, yield_ratio st) else None
             | None => None
             end) (buckets_of s prefixes))).

(** A prefix gets its fair share of the exploring budget. *)
Fixpoint choose_explore (budget fair_share : nat) (buckets : list BucketKey)
    (per_prefix : gmap Ipv4Net nat) (chosen : list BucketKey) : list BucketKey :=
  match buckets with
  | [] => chosen
  | (prefix, bucket) :: buckets =>
      if (budget <=? length chosen)%nat then chosen
      else
        let used := default 0%nat (per_prefix !! prefix) in
        if (fair_share <=? used)%nat then choose_explore budget fair_share buckets per_prefix chosen
        else choose_explore budget fair_share buckets (<[prefix := S used]> per_prefix)
               (chosen ++ [(prefix, bucket)])
  end.

Fixpoint choose_exploit (budget : nat) (buckets chosen : list BucketKey) : list BucketKey :=
  match buckets with
  | [] => chosen
  | b :: buckets =>
      if (budget <=? length chosen)%nat then chosen
      else if bool_decide (b ∈ chosen) then choose_exploit budget buckets chosen
      else choose_exploit budget buckets (chosen ++ [b])
  end.

Definition chosen_buckets s prefixes (budget : nat) : list BucketKey :=
  let exploit_budget := Z.to_nat (f64_as_u64 (f64_mul (f64_of_Z (Z.of_nat budget)) (sm_exploit_fraction s))) in
  let explore_budget := (budget - exploit_budget)%nat in
  let fair_share := Nat.max ((budget + length prefixes - 1) / length prefixes) 1 in
  choose_exploit budget (to_exploit s prefixes)
    (choose_explore explore_budget fair_share (to_explore s prefixes) ∅ []).

Definition attempted_in (round : Z) (st : BucketState) : BucketState :=
  mk_BucketState (sat_add u32_max (bs_attempts st) 1) (bs_successes st) round.

Definition propose s (round : Z) (acc : gmap BucketKey BucketState * list Z) (b : BucketKey)
    : gmap BucketKey BucketState * list Z :=
  match address_in_bucket s b.1 b.2 round with
  | Some addr =>
      (<[b := attempted_in round (default no_history (acc.1 !! b))]> acc.1, acc.2 ++ [addr])
  | None => acc
  end.

Definition next_round s (snapshot : PrefixSnapshot) (budget : nat) : list Z * StratifiedSampler :=
  let prefixes := snap_v4 snapshot in
  if bool_decide (prefixes = []) || (budget =? 0)%nat then ([], s)
  else
    let round := sm_round s + 1 in
    let '(buckets, out) := fold_left (propose s round) (chosen_buckets s prefixes budget) (sm_buckets s, []) in
    let buckets :=
      if (Z.to_nat 200000 <? size buckets)%nat
      then filter (λ e : BucketKey * BucketState, round ⊖ 1000 <= bs_last_round e.2) buckets
      else buckets in
    (out, mk_StratifiedSampler (sm_seed s) (sm_buckets_per_prefix s) (sm_exploit_fraction s) buckets round).

Definition locate s (snapshot : PrefixSnapshot) (addr : Z) : option BucketKey :=
  match List.find (λ n, net4_contains n addr) (snap_v4 snapshot) with
  | None => None
  | Some prefix =>
      let buckets := buckets_for s prefix in
      let size := prefix_size prefix / buckets in
      let offset := addr - net4_network prefix in
      Some (prefix, Z.min (offset / Z.max size 1) (buckets - 1))
  end.

Definition sample_succeeded s (snapshot : PrefixSnapshot) (addr : Z) : StratifiedSampler :=
  match locate s snapshot addr with
  | None => s
  | Some b =>
      let st := default no_history (sm_buckets s !! b) in
      mk_StratifiedSampler (sm_seed s) (sm_buckets_per_prefix s) (sm_exploit_fraction s)
        (<[b := mk_BucketState (bs_attempts st) (sat_add u32_max (bs_successes st) 1) (bs_last_round st)]>
           (sm_buckets s)) (sm_round s)
  end.

End sampler.

(** ** Lemmas *)

Lemma prefix_size_pow prefix : net4_ok prefix -> prefix_size prefix = 2 ^ (32 - net4_prefix_len prefix).
Proof. intros H. unfold prefix_size, net4_ok in *. rewrite Z.shiftl_mul_pow2 by lia. lia. Qed.

Lemma avoid_edges_range n base size offset :
  0 <= offset < size -> 0 <= avoid_edges n base size offset < size.
Proof.
  revert offset. induction n as [|n IH]; intros offset Ho; cbn [avoid_edges]; [done|].
  destruct (_ && _); [done|]. apply IH, Z.mod_pos_bound. lia.
Qed.

Definition host_edge (x : Z) : bool := let last := Z.land x 255 in (last =? 0) || (last =? 255).

Lemma host_edge_mod x : host_edge x = true <-> x mod 256 = 0 ∨ x mod 256 = 255.
Proof.
  unfold host_edge. change 255 with (Z.ones 8) at 1 2. rewrite Z.land_ones by lia.
  rewrite orb_true_iff, !Z.eqb_eq. done.
Qed.

Lemma avoid_edges_step n base size offset :
  avoid_edges (S n) base size offset =
    if host_edge (base + offset) then avoid_edges n base size ((offset + 1) mod size) else offset.
Proof.
  cbn [avoid_edges]. unfold host_edge. destruct (Z.land (base + offset) 255 =? 0), (Z.land (base + offset) 255 =? 255);
    done.
Qed.

(** Four steps are enough, also across the end of a bucket. *)
Lemma avoid_edges_works base size offset :
  3 <= size -> 0 <= offset < size -> host_edge (base + avoid_edges 4 base size offset) = false.
Proof.
  intros Hs Ho. rewrite !avoid_edges_step. cbn [avoid_edges].
  assert (∀ x, 0 <= x < size -> (x + 1) mod size = if x + 1 =? size then 0 else x + 1) as Hn.
  { intros x Hx. destruct (Z.eqb_spec (x + 1) size) as [->|]; [apply Z_mod_same_full|].
    apply Z.mod_small. lia. }
  assert (∀ x, 0 <= x < size -> 0 <= (x + 1) mod size < size) as Hb by (intros; apply Z.mod_pos_bound; lia).
  pose proof (Hb _ Ho) as H1. pose proof (Hb _ H1) as H2. pose proof (Hb _ H2) as H3.
  pose proof (Hn _ Ho) as E1. pose proof (Hn _ H1) as E2. pose proof (Hn _ H2) as E3. pose proof (Hn _ H3) as E4.
  set (o1 := (offset + 1) mod size) in *. set (o2 := (o1 + 1) mod size) in *.
  set (o3 := (o2 + 1) mod size) in *. set (o4 := (o3 + 1) mod size) in *. clearbody o1 o2 o3 o4.
  assert (∀ x, host_edge x = true -> x mod 256 = 0 ∨ x mod 256 = 255) as He by (intros x; apply host_edge_mod).
  destruct (host_edge (base + offset)) eqn:F0; [|done].
  destruct (host_edge (base + o1)) eqn:F1; [|done].
  destruct (host_edge (base + o2)) eqn:F2; [|done].
  destruct (host_edge (base + o3)) eqn:F3; [|done].
  destruct (host_edge (base + o4)) eqn:F4; [|done]. exfalso.
  apply He in F0, F1, F2, F3, F4. clear He Hn Hb.
  destruct (Z.eqb_spec (offset + 1) size), (Z.eqb_spec (o1 + 1) size), (Z.eqb_spec (o2 + 1) size),
    (Z.eqb_spec (o3 + 1) size); subst; try lia.
  all: Z.to_euclidean_division_equations; lia.
Qed.

Section properties.
Context {NL : IpNetLib} {NLaws : IpNetLaws}.
Implicit Types (s : StratifiedSampler) (prefix : Ipv4Net).

(** A prefix as the official list has it. *)
Definition prefix_wf prefix : Prop := net4_ok prefix ∧ 0 <= net4_addr prefix < 2 ^ 32.

Lemma network_bounds prefix :
  prefix_wf prefix ->
  0 <= net4_network prefix ∧ net4_network prefix + prefix_size prefix <= 2 ^ 32 ∧
  ∀ a, net4_network prefix <= a < net4_network prefix + prefix_size prefix <-> net4_contains prefix a = true.
Proof.
  intros [Hok Ha]. rewrite prefix_size_pow, net4_network_spec by done.
  unfold network_of, leading, net4_ok in *. set (k := 32 - net4_prefix_len prefix).
  assert (0 < 2 ^ k) as Hk by (apply Z.pow_pos_nonneg; unfold k; lia).
  assert (2 ^ 32 = 2 ^ net4_prefix_len prefix * 2 ^ k) as E.
  { rewrite <- Z.pow_add_r by (unfold k; lia). f_equal. unfold k. lia. }
  set (q := net4_addr prefix / 2 ^ k).
  assert (0 <= q < 2 ^ net4_prefix_len prefix) as Hq.
  { unfold q. split; [apply Z.div_pos; lia|apply Z.div_lt_upper_bound; nia]. }
  split_and!; [nia|nia|]. intros a. rewrite net4_contains_spec by done. unfold leading. fold k q.
  rewrite Z.eqb_eq. pose proof (Z.div_mod a (2 ^ k) ltac:(lia)). pose proof (Z.mod_pos_bound a (2 ^ k) Hk). nia.
Qed.

Lemma buckets_for_range s prefix :
  prefix_wf prefix -> 1 <= buckets_for s prefix <= prefix_size prefix.
Proof.
  intros [Hok _]. unfold buckets_for. rewrite prefix_size_pow by done.
  assert (0 < 2 ^ (32 - net4_prefix_len prefix)) by (apply Z.pow_pos_nonneg; unfold net4_ok in *; lia). lia.
Qed.

Definition bucket_size s prefix : Z := prefix_size prefix / buckets_for s prefix.

Lemma bucket_size_range s prefix :
  prefix_wf prefix -> 1 <= bucket_size s prefix ∧ buckets_for s prefix * bucket_size s prefix <= prefix_size prefix.
Proof.
  intros Hw. pose proof (buckets_for_range s prefix Hw) as Hb. unfold bucket_size. split.
  - apply Z.div_le_lower_bound; lia.
  - apply Z.mul_div_le. lia.
Qed.

(** A bucket always has an address to propose, and it lies in that bucket. *)
Lemma address_in_bucket_spec s prefix bucket round :
  prefix_wf prefix -> 0 <= bucket < buckets_for s prefix ->
  ∃ a, address_in_bucket s prefix bucket round = Some a ∧
    net4_network prefix + bucket * bucket_size s prefix <= a
      < net4_network prefix + (bucket + 1) * bucket_size s prefix ∧
    net4_contains prefix a = true ∧ (3 <= bucket_size s prefix -> host_edge a = false).
Proof.
  intros Hw Hb. destruct (bucket_size_range s prefix Hw) as [Hs Hp].
  destruct (network_bounds prefix Hw) as (H0 & H1 & Hc).
  unfold address_in_bucket. fold (bucket_size s prefix). rewrite (proj2 (Z.eqb_neq _ _)) by lia.
  set (base := net4_network prefix + bucket * bucket_size s prefix).
  set (h := fnv1a64 _). pose proof (Z.mod_pos_bound h (bucket_size s prefix) ltac:(lia)) as Hh.
  pose proof (avoid_edges_range 4 base (bucket_size s prefix) (h mod bucket_size s prefix) ltac:(lia)) as Ho.
  pose proof (avoid_edges_works base (bucket_size s prefix) (h mod bucket_size s prefix)) as He.
  set (o := avoid_edges 4 base (bucket_size s prefix) (h mod bucket_size s prefix)) in *. clearbody o.
  assert (base + bucket_size s prefix <= net4_network prefix + prefix_size prefix) as Hend
    by (unfold base; nia).
  destruct (Z.ltb_spec (2 ^ 32 - 1) (base + o)); [lia|].
  assert (net4_network prefix <= base) by (unfold base; nia).
  exists (base + o). split_and!; [done|lia|unfold base; lia|apply Hc; lia|]. intros H3. apply He; lia.
Qed.

Lemma buckets_of_elem s prefixes b o :
  (b, o) ∈ buckets_of s prefixes -> b.1 ∈ prefixes ∧ 0 <= b.2 < buckets_for s b.1.
Proof.
  unfold buckets_of. rewrite list_elem_of_In, in_flat_map. intros (prefix & Hp & Hin).
  apply in_map_iff in Hin as (i & [= <- <-] & Hi). apply in_seq in Hi. cbn [fst snd].
  split; [by apply list_elem_of_In|lia].
Qed.

Definition bucket_ok s (prefixes : list Ipv4Net) (b : BucketKey) : Prop :=
  b.1 ∈ prefixes ∧ 0 <= b.2 < buckets_for s b.1.

Lemma to_explore_ok s prefixes b : b ∈ to_explore s prefixes -> bucket_ok s prefixes b.
Proof.
  unfold to_explore. intros ([b' r] & -> & Hin)%list_elem_of_fmap. rewrite stable_sort_elem_of in Hin.
  apply list_elem_of_fmap in Hin as ([b0 o] & [= -> _] & Hin). by apply buckets_of_elem in Hin.
Qed.

Lemma to_exploit_ok s prefixes b : b ∈ to_exploit s prefixes -> bucket_ok s prefixes b.
Proof.
  unfold to_exploit. intros ([b' y] & -> & Hin)%list_elem_of_fmap. rewrite stable_sort_elem_of in Hin.
  apply list_elem_of_omap in Hin as ([b0 o] & Hin & Ho). cbn in Ho.
  destruct o as [st|]; [|done]. destruct (0 <? bs_attempts st); [|done]. injection Ho as -> _.
  by apply buckets_of_elem in Hin.
Qed.

Lemma choose_explore_spec budget fair buckets per chosen (P : BucketKey -> Prop) :
  (length chosen <= budget)%nat -> Forall P chosen -> (∀ b, b ∈ buckets -> P b) ->
  NoDup (chosen ++ buckets) ->
  (length (choose_explore budget fair buckets per chosen) <= budget)%nat ∧
  Forall P (choose_explore budget fair buckets per chosen) ∧ NoDup (choose_explore budget fair buckets per chosen).
Proof.
  revert per chosen. induction buckets as [|[prefix bucket] buckets IH]; intros per chosen Hl Hc Hb Hnd;
    cbn [choose_explore].
  { rewrite app_nil_r in Hnd. done. }
  destruct (Nat.leb_spec budget (length chosen)) as [|Hlt].
  { split_and!; [lia|done|]. by apply NoDup_app in Hnd as (? & _). }
  destruct (_ <=? _)%nat.
  - apply IH; [done|done|intros b Hin; apply Hb; by right|].
    eapply sublist_NoDup; [exact Hnd|]. apply sublist_app; [done|]. by apply sublist_cons.
  - apply IH; [rewrite length_app; cbn; lia| |intros b Hin; apply Hb; by right|].
    + apply Forall_app. split; [done|]. constructor; [|done]. apply Hb. left.
    + by rewrite <- app_assoc.
Qed.

Lemma choose_exploit_spec budget buckets chosen (P : BucketKey -> Prop) :
  (length chosen <= budget)%nat -> Forall P chosen -> (∀ b, b ∈ buckets -> P b) -> NoDup chosen ->
  (length (choose_exploit budget buckets chosen) <= budget)%nat ∧
  Forall P (choose_exploit budget buckets chosen) ∧ NoDup (choose_exploit budget buckets chosen).
Proof.
  revert chosen. induction buckets as [|b buckets IH]; intros chosen Hl Hc Hb Hnd; cbn [choose_exploit]; [done|].
  destruct (Nat.leb_spec budget (length chosen)); [done|].
  case_bool_decide as Hin; [apply IH; try done; intros b' Hb'; apply Hb; by right|].
  apply IH; [rewrite length_app; cbn; lia| |intros b' Hb'; apply Hb; by right|].
  - apply Forall_app. split; [done|]. constructor; [|done]. apply Hb. left.
  - apply NoDup_app. split_and!; [done| |by apply NoDup_singleton]. by intros x Hx ->%list_elem_of_singleton.
Qed.

Lemma buckets_of_NoDup s prefixes : NoDup prefixes -> NoDup (buckets_of s prefixes).*1.
Proof.
  intros Hnd. unfold buckets_of. induction Hnd as [|prefix prefixes Hni Hnd IH]; cbn [flat_map]; [constructor|].
  rewrite fmap_app. apply NoDup_app. split_and!; [|intros b Hb Hb'|done].
  - rewrite <- list_fmap_compose. apply NoDup_fmap_2; [|apply NoDup_seq]. intros i j H. cbn in H. injection H. lia.
  - apply list_elem_of_fmap in Hb as ([b1 o1] & -> & Hb). apply list_elem_of_fmap in Hb as (i & [= -> _] & _).
    apply list_elem_of_fmap in Hb' as ([b2 o2] & E & Hb'). cbn in E. subst b2.
    apply buckets_of_elem in Hb' as [Hb' _]. by apply Hni.
Qed.

Lemma chosen_buckets_spec s prefixes budget :
  NoDup prefixes ->
  (length (chosen_buckets s prefixes budget) <= budget)%nat ∧
  Forall (bucket_ok s prefixes) (chosen_buckets s prefixes budget) ∧ NoDup (chosen_buckets s prefixes budget).
Proof.
  intros Hnd. unfold chosen_buckets. cbn zeta.
  match goal with |- context [choose_explore ?b ?f _ _ _] =>
    destruct (choose_explore_spec b f (to_explore s prefixes) ∅ [] (bucket_ok s prefixes)) as (H1 & H2 & H3)
  end.
  - cbn. lia.
  - constructor.
  - apply to_explore_ok.
  - cbn [app]. unfold to_explore. rewrite stable_sort_perm.
    change (map fst (map ?f ?l)) with ((f <$> l).*1). rewrite <- list_fmap_compose.
    by apply buckets_of_NoDup.
  - apply choose_exploit_spec; [lia|done|apply to_exploit_ok|done].
Qed.

(** A sorted list without consecutive duplicates has none at all. *)
Lemma dedup_sorted_NoDup {A} `{EqDecision A} (leb : A -> A -> bool) (l : list A) :
  OrdLaws leb -> StronglySorted (le_of leb) l -> NoDup (dedup l).
Proof.
  intros Hord. induction 1 as [|x l Hl IH Hall]; [constructor|]. destruct l as [|y l]; [by apply NoDup_singleton|].
  change (dedup (x :: y :: l)) with (if decide (x = y) then dedup (y :: l) else x :: dedup (y :: l)).
  case_decide as Hne; [done|]. constructor; [|done]. rewrite dedup_elem_of. intros Hin.
  apply Hne. apply StronglySorted_inv in Hl as [_ Hy]. rewrite Forall_forall in Hy.
  rewrite Forall_cons in Hall. destruct Hall as [Hxy _].
  apply elem_of_cons in Hin as [->|Hin]; [done|]. apply (ord_antisym _ Hord); [exact Hxy|by apply Hy].
Qed.

Lemma snapshot_prefixes v4 v6 etag unix source :
  NoDup (snap_v4 (snapshot_new v4 v6 etag unix source)) ∧
  ∀ n, n ∈ snap_v4 (snapshot_new v4 v6 etag unix source) <-> n ∈ v4.
Proof.
  cbn [snap_v4 snapshot_new]. split.
  - apply (dedup_sorted_NoDup net4_leb); [apply net4_ord|].
    apply stable_sort_sorted; [apply (ord_total _ net4_ord)|apply (ord_trans _ net4_ord)].
  - intros n. by rewrite dedup_elem_of, stable_sort_elem_of.
Qed.

(** Every chosen bucket gives an address. *)
Lemma propose_all s round prefixes chosen m out :
  (∀ p, p ∈ prefixes -> prefix_wf p) -> Forall (bucket_ok s prefixes) chosen ->
  ∃ addrs, (fold_left (propose s round) chosen (m, out)).2 = out ++ addrs ∧
    Forall2 (λ b a, address_in_bucket s b.1 b.2 round = Some a) chosen addrs.
Proof.
  intros Hw Hc. revert m out. induction Hc as [|b chosen [Hin Hb] _ IH]; intros m out; cbn [fold_left].
  { exists []. rewrite app_nil_r. by split. }
  destruct (address_in_bucket_spec s b.1 b.2 round (Hw _ Hin) Hb) as (a & Ea & _).
  unfold propose at 2. rewrite Ea. destruct (IH (<[b := attempted_in round (default no_history (m !! b))]> m)
    (out ++ [a])) as (addrs & E & H2). cbn [fst snd] in *.
  exists (a :: addrs). rewrite E, <- app_assoc. split; [done|by constructor].
Qed.

(** An address is found again in the bucket it was drawn from. *)
Lemma locate_address s snapshot prefix bucket round a :
  prefix_wf prefix -> 0 <= bucket < buckets_for s prefix ->
  List.find (λ n, net4_contains n a) (snap_v4 snapshot) = Some prefix ->
  address_in_bucket s prefix bucket round = Some a -> locate s snapshot a = Some (prefix, bucket).
Proof.
  intros Hw Hb Hf Ha. destruct (address_in_bucket_spec s prefix bucket round Hw Hb) as (a' & E & Hr & _).
  rewrite Ha in E. injection E as <-. destruct (bucket_size_range s prefix Hw) as [Hs _].
  unfold locate. rewrite Hf. fold (bucket_size s prefix). rewrite Z.max_l by lia.
  assert ((a - net4_network prefix) / bucket_size s prefix = bucket) as ->.
  { symmetry. apply (Z.div_unique_pos _ _ _ (a - net4_network prefix - bucket * bucket_size s prefix)); lia. }
  by rewrite Z.min_l by lia.
Qed.

(** No address is in two of the prefixes. *)
Definition disjoint_prefixes (l : list Ipv4Net) : Prop :=
  ∀ p q a, p ∈ l -> q ∈ l -> net4_contains p a = true -> net4_contains q a = true -> p = q.

Lemma find_disjoint (l : list Ipv4Net) p a :
  disjoint_prefixes l -> p ∈ l -> net4_contains p a = true ->
  List.find (λ n, net4_contains n a) l = Some p.
Proof.
  intros Hd Hp Hc. destruct (List.find (λ n, net4_contains n a) l) as [q|] eqn:E.
  - apply List.find_some in E as [Hq Hqc]. f_equal. apply (Hd q p a); [by apply list_elem_of_In|done..].
  - apply List.find_none with (x := p) in E; [congruence|by apply list_elem_of_In].
Qed.

(** The buckets behind the addresses of a round. *)
Lemma next_round_buckets s snapshot budget out s' :
  NoDup (snap_v4 snapshot) -> (∀ p, p ∈ snap_v4 snapshot -> prefix_wf p) ->
  next_round s snapshot budget = (out, s') ->
  ∃ chosen, (length chosen <= budget)%nat ∧ NoDup chosen ∧ Forall (bucket_ok s (snap_v4 snapshot)) chosen ∧
    Forall2 (λ b a, ∃ round, address_in_bucket s b.1 b.2 round = Some a) chosen out.
Proof.
  intros Hnd Hw. unfold next_round. destruct (_ || _).
  { intros [= <- _]. exists []. split_and!; [cbn; lia|constructor..]. }
  destruct (chosen_buckets_spec s (snap_v4 snapshot) budget Hnd) as (H1 & H2 & H3).
  destruct (propose_all s (sm_round s + 1) (snap_v4 snapshot) (chosen_buckets s (snap_v4 snapshot) budget)
    (sm_buckets s) []) as (addrs & E & H4); [done..|].
  destruct (fold_left _ _ _) as [m l]. cbn [snd app] in E. subst l. intros [= <- _].
  exists (chosen_buckets s (snap_v4 snapshot) budget). split_and!; try done.
  eapply Forall2_impl; [exact H4|]. intros b a H. by exists (sm_round s + 1).
Qed.

Lemma sampled_address s snapshot b a round :
  (∀ p, p ∈ snap_v4 snapshot -> prefix_wf p) -> bucket_ok s (snap_v4 snapshot) b ->
  address_in_bucket s b.1 b.2 round = Some a ->
  0 <= a < 2 ^ 32 ∧ net4_contains b.1 a = true ∧ (3 <= bucket_size s b.1 -> host_edge a = false) ∧
  (disjoint_prefixes (snap_v4 snapshot) -> locate s snapshot a = Some b).
Proof.
  intros Hw [Hp Hb] Ha.
  destruct (address_in_bucket_spec s b.1 b.2 round (Hw _ Hp) Hb) as (a' & E & _ & Hc & He).
  rewrite Ha in E. injection E as <-. destruct (network_bounds b.1 (Hw _ Hp)) as (H0 & H1 & Hcb).
  apply Hcb in Hc as Hr. split_and!; [lia|lia|done|done|]. intros Hd.
  rewrite (locate_address s snapshot b.1 b.2 round a), <- surjective_pairing; [done|by apply Hw|done| |done].
  by apply find_disjoint.
Qed.

(** A sampling round proposes at most its budget, and only addresses inside the
    official prefixes; where a bucket has at least three addresses it proposes none
    that ends in 0 or 255; and with disjoint prefixes no two proposals come from the
    same bucket, and the success of one is credited to the bucket it came from. *)
Theorem samples_are_official s v4 v6 etag unix source budget out s'
    (Hv4 : Forall prefix_wf v4)
    (Hround : next_round s (snapshot_new v4 v6 etag unix source) budget = (out, s')) :
  let snapshot := snapshot_new v4 v6 etag unix source in
  (length out <= budget)%nat ∧
  (∀ a, a ∈ out -> 0 <= a < 2 ^ 32 ∧ snapshot_contains snapshot (V4 a) = true) ∧
  (∀ a, a ∈ out -> (∀ p, p ∈ v4 -> 3 <= bucket_size s p) -> a mod 256 ≠ 0 ∧ a mod 256 ≠ 255) ∧
  (disjoint_prefixes v4 ->
   ∃ buckets, NoDup buckets ∧ map (locate s snapshot) out = map Some buckets).
Proof.
  intros snapshot. fold snapshot in Hround. rewrite Forall_forall in Hv4.
  destruct (snapshot_prefixes v4 v6 etag unix source) as [Hnd Hin]. fold snapshot in Hnd, Hin.
  assert (∀ p, p ∈ snap_v4 snapshot -> prefix_wf p) as Hw by (intros p Hp; by apply Hv4, Hin).
  destruct (next_round_buckets s snapshot budget out s' Hnd Hw Hround) as (chosen & Hl & Hn & Hok & H2).
  assert (∀ a, a ∈ out -> ∃ b round, bucket_ok s (snap_v4 snapshot) b ∧
    address_in_bucket s b.1 b.2 round = Some a) as Hout.
  { intros a Ha. apply list_elem_of_lookup_1 in Ha as (i & Hi).
    destruct (Forall2_lookup_r _ _ _ _ _ H2 Hi) as (b & Hb & round & E).
    exists b, round. split; [by eapply Forall_lookup_1|done]. }
  split_and!.
  - by rewrite <- (Forall2_length _ _ _ H2).
  - intros a Ha. destruct (Hout a Ha) as (b & round & Hb & E).
    destruct (sampled_address s snapshot b a round Hw Hb E) as (Hr & Hc & _). split; [done|].
    unfold snapshot, snapshot_contains, snapshot_new. cbn [v4_masks].
    apply (existsb_masks net4_leb (λ n, (net4_network n, net4_netmask n)) (λ n, net4_contains n a)).
    + intros n Hn'. apply masked4; [by apply Hv4|done].
    + exists b.1. split; [by apply Hin, Hb|done].
  - intros a Ha Hs. destruct (Hout a Ha) as (b & round & Hb & E).
    destruct (sampled_address s snapshot b a round Hw Hb E) as (_ & _ & He & _).
    specialize (He (Hs _ (proj1 (Hin _) (proj1 Hb)))). destruct (host_edge_mod a) as [_ Hm]. rewrite He in Hm.
    split; intros Hx; (assert (false = true) by (apply Hm; tauto)); done.
  - intros Hd. exists chosen. split; [done|].
    assert (disjoint_prefixes (snap_v4 snapshot)) as Hd' by (intros p q a Hp Hq; apply Hd; by apply Hin).
    clear -H2 Hok Hw Hd' NLaws. induction H2 as [|b a chosen out (round & E) _ IH]; [done|]. cbn [map].
    rewrite Forall_cons in Hok. destruct Hok as [Hb Hok].
    destruct (sampled_address s snapshot b a round Hw Hb E) as (_ & _ & _ & Hloc).
    rewrite (Hloc Hd'). f_equal. by apply IH.
Qed.

End properties.

(** ** A concrete round *)

Section witnesses.
#[local] Existing Instance ipnet_reference.
#[local] Existing Instance ipnet_reference_laws.

Definition two_prefixes : list Ipv4Net := [mk_Ipv4Net (ipv4 104 16 0 0) 22; mk_Ipv4Net (ipv4 131 0 72 0) 22].

Definition first_round : list Z * StratifiedSampler :=
  Eval vm_compute in next_round (sampler_new 7 4 f64_zero)
    (snapshot_new two_prefixes [] None 0 SourceBuiltin) 3.

Lemma samples_are_official_witness :
  length first_round.1 = 3%nat ∧ Forall (λ a, a mod 256 ≠ 0 ∧ a mod 256 ≠ 255) first_round.1.
Proof.
  split; [reflexivity|].
  assert (Forall prefix_wf two_prefixes) as Hwf by (repeat constructor; vm_compute; discriminate).
  assert (next_round (sampler_new 7 4 f64_zero) (snapshot_new two_prefixes [] None 0 SourceBuiltin) 3
    = (first_round.1, first_round.2)) as Hr by (vm_compute; reflexivity).
  destruct (samples_are_official (sampler_new 7 4 f64_zero) two_prefixes [] None 0 SourceBuiltin 3
    first_round.1 first_round.2 Hwf Hr) as (_ & _ & He & _).
  apply Forall_forall. intros a Ha. apply (He a Ha). intros p [->|[->|[]%elem_of_nil]%elem_of_cons]%elem_of_cons;
    vm_compute; discriminate.
Defined.

End witnesses.
