(* ===== verification/Quality.v ===== *)
(** * The per-address quality model

    [src/ranking/model.rs]: a decayed Beta posterior, an EWMA and a ring of
    recent latencies per address, and the expected cost derived from them. *)

From S2P Require Import Prelude.
From S2P Require Import Floats.
From S2P Require Import Config.

Definition WINDOW : nat := 16.

Inductive ObservationClass : Set :=
| ObsSuccess | ObsApplicableFailure | ObsAmbiguousFailure | ObsUnsupported
| ObsTimeout | ObsPolicyBlocked.

Definition is_penalising (c : ObservationClass) : bool :=
  match c with ObsApplicableFailure | ObsTimeout => true | _ => false end.

Inductive Confidence : Set := Unknown | Low | Medium | High.

#[global] Instance Confidence_eq_dec : EqDecision Confidence.
Proof. solve_decision. Defined.

Record QualityStats : Type := mk_QualityStats {
  q_alpha : f64;
  q_beta : f64;
  q_ewma_ms : f64;
  q_jitter_ms : f64;
  q_window : list f32;
  q_window_len : nat;
  q_window_pos : nat;
  q_consecutive_failures : Z;
  q_samples : Z;
  q_successes : Z;
  q_last_update : option Instant;
  q_last_success : option Instant;
  q_generation : Z
}.

Definition PRIOR_ALPHA : f64 := f64_one.
Definition PRIOR_BETA : f64 := f64_one.
Definition EWMA_WEIGHT : f64 := f64_lit 25 100.

Definition quality_new (generation : Z) : QualityStats := {|
  q_alpha := PRIOR_ALPHA;
  q_beta := PRIOR_BETA;
  q_ewma_ms := f64_zero;
  q_jitter_ms := f64_zero;
  q_window := repeat f64_zero WINDOW;
  q_window_len := 0;
  q_window_pos := 0;
  q_consecutive_failures := 0;
  q_samples := 0;
  q_successes := 0;
  q_last_update := None;
  q_last_success := None;
  q_generation := generation
|}.

Definition has_applicable_evidence (s : QualityStats) : bool :=
  (0 <? q_samples s) && ((0 <? q_successes s) || (0 <? q_consecutive_failures s)).

Definition percentile (s : QualityStats) (q : f64) : f64 :=
  if (q_window_len s =? 0)%nat then f64_zero
  else
    let v := stable_sort f32_total_leb (take (q_window_len s) (q_window s)) in
    let idx := clampZ 1 (Z.of_nat (length v))
                 (f64_ceil_as_usize (f64_mul q (f64_of_Z (Z.of_nat (length v))))) - 1 in
    f64_from_f32 (default f64_zero (v !! Z.to_nat idx)).

Definition p50_ms (s : QualityStats) : f64 := percentile s (f64_lit 5 10).
Definition p95_ms (s : QualityStats) : f64 := percentile s (f64_lit 95 100).
Definition p99_ms (s : QualityStats) : f64 := percentile s (f64_lit 99 100).

Definition with_posterior (s : QualityStats) (alpha beta : f64) : QualityStats := {|
  q_alpha := alpha; q_beta := beta;
  q_ewma_ms := q_ewma_ms s; q_jitter_ms := q_jitter_ms s;
  q_window := q_window s; q_window_len := q_window_len s; q_window_pos := q_window_pos s;
  q_consecutive_failures := q_consecutive_failures s;
  q_samples := q_samples s; q_successes := q_successes s;
  q_last_update := q_last_update s; q_last_success := q_last_success s;
  q_generation := q_generation s
|}.

(** [p + (x - p) * factor]. *)
Definition towards (prior x factor : f64) : f64 :=
  f64_add prior (f64_mul (f64_sub x prior) factor).

Section model.
Context {FL : FloatLib}.

Definition decay (s : QualityStats) (now : Instant) (cfg : RankingConfig) : QualityStats :=
  match q_last_update s with
  | None => s
  | Some last =>
      let elapsed := as_secs_f64 (since now last) in
      if f64_leb elapsed f64_zero then s
      else
        let half_life := f64_max (as_secs_f64 (evidence_half_life cfg)) f64_one in
        let factor := powf (f64_lit 5 10) (f64_div elapsed half_life) in
        with_posterior s (towards PRIOR_ALPHA (q_alpha s) factor)
                         (towards PRIOR_BETA (q_beta s) factor)
  end.

(** [(1 - w) * old + w * sample]. *)
Definition ewma (old sample : f64) : f64 :=
  f64_add (f64_mul (f64_sub f64_one EWMA_WEIGHT) old) (f64_mul EWMA_WEIGHT sample).

Definition record_success (s : QualityStats) (latency : Duration) (now : Instant)
    (cfg : RankingConfig) : QualityStats :=
  let s := decay s now cfg in
  let ms := f64_mul (as_secs_f64 latency) (f64_of_Z 1000) in
  let first := (q_window_len s =? 0)%nat in
  {| q_alpha := f64_add (q_alpha s) f64_one;
     q_beta := q_beta s;
     q_ewma_ms := if first then ms else ewma (q_ewma_ms s) ms;
     q_jitter_ms :=
       if first then q_jitter_ms s
       else ewma (q_jitter_ms s) (f64_abs (f64_sub ms (q_ewma_ms s)));
     q_window := <[q_window_pos s := f64_to_f32 ms]> (q_window s);
     q_window_len := Nat.min (q_window_len s + 1) WINDOW;
     q_window_pos := (q_window_pos s + 1) mod WINDOW;
     q_consecutive_failures := 0;
     q_samples := sat_add u32_max (q_samples s) 1;
     q_successes := sat_add u32_max (q_successes s) 1;
     q_last_update := Some now;
     q_last_success := Some now;
     q_generation := q_generation s |}.

Definition record_failure (s : QualityStats) (class : ObservationClass) (now : Instant)
    (cfg : RankingConfig) : QualityStats :=
  let s := decay s now cfg in
  {| q_alpha := q_alpha s;
     q_beta := if is_penalising class then f64_add (q_beta s) f64_one else q_beta s;
     q_ewma_ms := q_ewma_ms s;
     q_jitter_ms := q_jitter_ms s;
     q_window := q_window s;
     q_window_len := q_window_len s;
     q_window_pos := q_window_pos s;
     q_consecutive_failures :=
       if is_penalising class then sat_add u32_max (q_consecutive_failures s) 1
       else q_consecutive_failures s;
     q_samples := sat_add u32_max (q_samples s) 1;
     q_successes := q_successes s;
     q_last_update := Some now;
     q_last_success := q_last_success s;
     q_generation := q_generation s |}.

Definition record (s : QualityStats) (class : ObservationClass) (latency : option Duration)
    (now : Instant) (cfg : RankingConfig) : QualityStats :=
  match class, latency with
  | ObsSuccess, Some d => record_success s d now cfg
  | ObsSuccess, None => record_success s 0 now cfg
  | other, _ => record_failure s other now cfg
  end.

Definition success_probability (s : QualityStats) : f64 :=
  f64_div (q_alpha s) (f64_add (q_alpha s) (q_beta s)).

Definition posterior_sd (s : QualityStats) : f64 :=
  let n := f64_add (q_alpha s) (q_beta s) in
  f64_sqrt (f64_div (f64_mul (q_alpha s) (q_beta s))
                    (f64_mul (f64_mul n n) (f64_add n f64_one))).

Definition success_probability_lower_bound (s : QualityStats) : f64 :=
  f64_clamp f64_zero f64_one (f64_sub (success_probability s) (posterior_sd s)).

Definition uncertainty (s : QualityStats) : f64 := f64_clamp f64_zero f64_one (posterior_sd s).

Definition confidence (s : QualityStats) (cfg : RankingConfig) (now : Instant) : Confidence :=
  if q_samples s =? 0 then Unknown
  else
    let fresh := match q_last_update s with
                 | Some t => since now t <=? sample_max_age cfg
                 | None => false
                 end in
    if negb fresh then Low
    else if q_samples s <=? 2 then Low
    else if q_samples s <=? 9 then Medium
    else High.

Definition expected_cost (s : QualityStats) (cfg : RankingConfig) (now : Instant) : f64 :=
  if q_samples s =? 0 then neutral_cost_ms cfg
  else
    let base := if q_successes s =? 0 then neutral_cost_ms cfg else q_ewma_ms s in
    let tail := f64_mul (tail_weight cfg) (p95_ms s) in
    let jitter := f64_mul (jitter_weight cfg) (q_jitter_ms s) in
    let failure := f64_mul (f64_sub f64_one (success_probability_lower_bound s))
                           (failure_penalty_ms cfg) in
    let streak :=
      if q_consecutive_failures s =? 0 then f64_zero
      else f64_div (f64_mul (failure_penalty_ms cfg)
                      (powi (consecutive_failure_base cfg) (Z.min (q_consecutive_failures s) 8)))
                   (f64_of_Z 8) in
    let unc := f64_mul (uncertainty s) (uncertainty_penalty_ms cfg) in
    let stale := match q_last_update s with
                 | Some t => if sample_max_age cfg <? since now t
                             then stale_sample_penalty_ms cfg else f64_zero
                 | None => f64_zero
                 end in
    f64_add (f64_add (f64_add (f64_add (f64_add (f64_add base tail) jitter) failure) streak) unc)
            stale.

End model.

Definition demote_to_prior (s : QualityStats) (new_generation : Z) (factor : f64) : QualityStats :=
  let f := f64_clamp f64_zero f64_one factor in
  {| q_alpha := towards PRIOR_ALPHA (q_alpha s) f;
     q_beta := towards PRIOR_BETA (q_beta s) f;
     q_ewma_ms := q_ewma_ms s;
     q_jitter_ms := q_jitter_ms s;
     q_window := q_window s;
     q_window_len := q_window_len s;
     q_window_pos := q_window_pos s;
     q_consecutive_failures := 0;
     q_samples := f64_as_u32 (f64_mul (f64_of_Z (q_samples s)) f);
     q_successes := f64_as_u32 (f64_mul (f64_of_Z (q_successes s)) f);
     q_last_update := q_last_update s;
     q_last_success := q_last_success s;
     q_generation := new_generation |}.

Definition from_persisted (generation : Z) (alpha beta ewma_ms p95 jitter_ms : f64)
    (samples successes : Z) : QualityStats :=
  let s := quality_new generation in
  let warm := f64_ltb f64_zero ewma_ms in
  {| q_alpha := f64_max alpha PRIOR_ALPHA;
     q_beta := f64_max beta PRIOR_BETA;
     q_ewma_ms := f64_max ewma_ms f64_zero;
     q_jitter_ms := f64_max jitter_ms f64_zero;
     q_window :=
       if warm then <[1%nat := f64_to_f32 (f64_max p95 ewma_ms)]>
                      (<[0%nat := f64_to_f32 ewma_ms]> (q_window s))
       else q_window s;
     q_window_len := if warm then 2 else q_window_len s;
     q_window_pos := if warm then (2 mod WINDOW)%nat else q_window_pos s;
     q_consecutive_failures := q_consecutive_failures s;
     q_samples := samples;
     q_successes := successes;
     q_last_update := q_last_update s;
     q_last_success := q_last_success s;
     q_generation := generation |}.

(** ** Lemmas *)

(** The representation invariant of a statistics record. *)
Record quality_wf (s : QualityStats) : Prop := {
  wf_window : length (q_window s) = WINDOW;
  wf_len : (q_window_len s <= WINDOW)%nat;
  wf_pos : (q_window_pos s < WINDOW)%nat;
  wf_samples : is_u32 (q_samples s);
  wf_failures : is_u32 (q_consecutive_failures s);
  wf_successes : 0 <= q_successes s <= q_samples s
}.

Section lemmas.
Context {FL : FloatLib}.

(** Decay touches nothing but the posterior. *)
Lemma decay_eq s now cfg : ∃ a b, decay s now cfg = with_posterior s a b.
Proof.
  unfold decay. destruct (q_last_update s); [case_match|].
  2: by eexists _, _.
  all: exists (q_alpha s), (q_beta s); by destruct s.
Qed.

Lemma sat_add_u32 a : is_u32 a -> is_u32 (sat_add u32_max a 1).
Proof. unfold is_u32, sat_add, u32_max. lia. Qed.

Lemma quality_new_wf g : quality_wf (quality_new g).
Proof. split; simpl; unfold is_u32, u32_max, WINDOW; first [lia | reflexivity]. Qed.

Lemma record_success_wf s d now cfg : quality_wf s -> quality_wf (record_success s d now cfg).
Proof.
  intros [H1 H2 H3 H4 H5 H6]. unfold record_success.
  destruct (decay_eq s now cfg) as (a & b & ->). split; simpl.
  - by rewrite length_insert.
  - lia.
  - change ((q_window_pos s + 1) mod WINDOW < WINDOW)%nat. by apply Nat.mod_upper_bound.
  - by apply sat_add_u32.
  - unfold is_u32, u32_max. lia.
  - unfold sat_add, u32_max. lia.
Qed.

Lemma record_failure_wf s c now cfg : quality_wf s -> quality_wf (record_failure s c now cfg).
Proof.
  intros [H1 H2 H3 H4 H5 H6]. unfold record_failure.
  destruct (decay_eq s now cfg) as (a & b & ->). split; simpl; try done.
  - by apply sat_add_u32.
  - destruct (is_penalising c); [by apply sat_add_u32|done].
  - unfold is_u32, sat_add in *. lia.
Qed.

Lemma record_wf s c l now cfg : quality_wf s -> quality_wf (record s c l now cfg).
Proof. destruct c, l; simpl; auto using record_success_wf, record_failure_wf. Qed.

Lemma percentile_mem s q :
  quality_wf s -> (0 < q_window_len s)%nat ->
  ∃ i x, (i < q_window_len s)%nat ∧ q_window s !! i = Some x ∧ percentile s q = f64_from_f32 x.
Proof.
  intros [H1 H2 _ _ _ _] Hpos. unfold percentile.
  rewrite (proj2 (Nat.eqb_neq _ _)) by lia.
  set (v := stable_sort _ _).
  assert (length v = q_window_len s) as Hv.
  { unfold v. rewrite stable_sort_length, length_take. lia. }
  set (idx := clampZ _ _ _ - 1).
  assert (0 <= idx < Z.of_nat (length v)) as Hidx.
  { unfold idx. pose proof (clampZ_range 1 (Z.of_nat (length v))
      (f64_ceil_as_usize (f64_mul q (f64_of_Z (Z.of_nat (length v))))) ltac:(lia)). lia. }
  destruct (lookup_lt_is_Some_2 v (Z.to_nat idx)) as [x Hx]; [lia|].
  rewrite Hx. simpl.
  assert (x ∈ take (q_window_len s) (q_window s)) as Hin.
  { apply (stable_sort_elem_of f32_total_leb). fold v. by eapply list_elem_of_lookup_2. }
  apply list_elem_of_lookup in Hin as [i Hi]. apply lookup_take_Some in Hi as [Hi Hlt]. eauto.
Qed.

(** Reading an observation list from left to right. *)
Definition record_all (s : QualityStats) (cfg : RankingConfig)
    (obs : list (ObservationClass * option Duration * Instant)) : QualityStats :=
  fold_left (λ s o, record s o.1.1 o.1.2 o.2 cfg) obs s.

Definition says_nothing (c : ObservationClass) : bool :=
  match c with ObsAmbiguousFailure | ObsUnsupported | ObsPolicyBlocked => true | _ => false end.

Lemma record_nothing s c l now cfg :
  says_nothing c = true ->
  q_successes (record s c l now cfg) = q_successes s ∧
  q_consecutive_failures (record s c l now cfg) = q_consecutive_failures s ∧
  q_window (record s c l now cfg) = q_window s ∧
  q_window_len (record s c l now cfg) = q_window_len s ∧
  q_ewma_ms (record s c l now cfg) = q_ewma_ms s.
Proof.
  intros Hc. destruct (decay_eq s now cfg) as (a & b & E).
  destruct c; try done; simpl; unfold record_failure; rewrite E; done.
Qed.

(** ** Properties *)

(** Any sequence of observations keeps the statistics well formed: the ring
    keeps its sixteen slots with its cursor inside, the counters stay in 32 bits,
    and there are never more successes than samples.  Every percentile read from
    a record with samples is one of the latencies stored in the ring. *)
Theorem observations_keep_invariant g cfg obs (q : f64) :
  let s := record_all (quality_new g) cfg obs in
  quality_wf s ∧
  ((0 < q_window_len s)%nat ->
   ∃ i x, (i < q_window_len s)%nat ∧ q_window s !! i = Some x ∧ percentile s q = f64_from_f32 x).
Proof.
  simpl. assert (quality_wf (record_all (quality_new g) cfg obs)) as Hwf.
  { unfold record_all. pose proof (quality_new_wf g) as H. revert H.
    generalize (quality_new g). induction obs as [|o obs IH]; intros s H; simpl; [done|].
    apply IH. by apply record_wf. }
  split; [done|]. by apply percentile_mem.
Qed.

(** Lack of evidence is not evidence of failure: however many ambiguous
    failures, unsupported probes and policy blocks are recorded for an address
    that has never been measured, it has no applicable evidence, so the ordering
    keeps giving it the neutral cost. *)
Theorem nothing_observed_means_no_evidence g cfg obs
    (Hobs : Forall (λ o, says_nothing o.1.1 = true) obs) :
  has_applicable_evidence (record_all (quality_new g) cfg obs) = false.
Proof.
  assert (q_successes (record_all (quality_new g) cfg obs) = 0 ∧
          q_consecutive_failures (record_all (quality_new g) cfg obs) = 0) as [Hs Hf].
  { unfold record_all.
    assert (q_successes (quality_new g) = 0 ∧ q_consecutive_failures (quality_new g) = 0) as H
      by done.
    revert H. generalize (quality_new g). induction Hobs as [|o obs Ho _ IH]; intros s H; [done|].
    simpl. apply IH. destruct (record_nothing s o.1.1 o.1.2 o.2 cfg Ho) as (-> & -> & _). done. }
  unfold has_applicable_evidence. rewrite Hs, Hf. apply andb_false_r.
Qed.

(** A blocked probe nevertheless counts as a sample: ten of them lift the
    confidence in an address nobody ever dialled to its highest class. *)
Theorem blocked_probes_raise_confidence g cfg now
    (Hage : 0 <= sample_max_age cfg) :
  confidence (record_all (quality_new g) cfg (repeat (ObsPolicyBlocked, None, now) 10)) cfg now
    = High.
Proof.
  unfold confidence.
  assert (∀ n s, (0 < n)%nat ->
    q_last_update (record_all s cfg (repeat (ObsPolicyBlocked, None, now) n)) = Some now) as Hu.
  { intros n s Hn. destruct n as [|n]; [lia|]. clear Hn. revert s.
    induction n as [|n IH]; intros s; [done|]. apply IH. }
  assert (∀ n s, 0 <= q_samples s -> q_samples s + Z.of_nat n <= u32_max ->
    q_samples (record_all s cfg (repeat (ObsPolicyBlocked, None, now) n))
      = q_samples s + Z.of_nat n) as Hn.
  { intros n. induction n as [|n IH]; intros s H0 Hle; [simpl; lia|].
    change (record_all s cfg (repeat _ (S n))) with
      (record_all (record s ObsPolicyBlocked None now cfg) cfg
         (repeat (ObsPolicyBlocked, None, now) n)).
    assert (q_samples (record s ObsPolicyBlocked None now cfg) = q_samples s + 1) as Hrec.
    { simpl. unfold record_failure. destruct (decay_eq s now cfg) as (a & b & ->); simpl.
      unfold sat_add. lia. }
    rewrite IH; lia. }
  rewrite (Hn 10%nat) by (simpl; unfold u32_max; lia). rewrite (Hu 10%nat) by lia.
  unfold since, sat_sub. rewrite Z.sub_diag, Z.max_id.
  by rewrite (proj2 (Z.leb_le 0 (sample_max_age cfg))).
Qed.

End lemmas.

(** ** Witnesses *)

Section witnesses.
(** Any implementation of the two unspecified operations will do. *)
#[local] Instance float_stub : FloatLib := { powf _ _ := f64_one; powi _ _ := f64_one }.

Lemma nothing_observed_means_no_evidence_witness :
  has_applicable_evidence
    (record_all (quality_new 1) default_RankingConfig
       [(ObsPolicyBlocked, None, 5); (ObsUnsupported, Some 7, 9)]) = false.
Proof. apply nothing_observed_means_no_evidence. repeat constructor. Defined.

Lemma blocked_probes_raise_confidence_witness :
  confidence (record_all (quality_new 1) default_RankingConfig
    (repeat (ObsPolicyBlocked, None, 1000) 10)) default_RankingConfig 1000 = High.
Proof. apply blocked_probes_raise_confidence. vm_compute. discriminate. Defined.

End witnesses.
