(* ===== verification/Ranking.v ===== *)
(** * Ordering the addresses of one RRset

    [order_addresses] of [src/ranking/mod.rs]. *)

From S2P Require Import Prelude.
From S2P Require Import Floats.
From S2P Require Import Net.
From S2P Require Import Config.
From S2P Require Import Util.
From S2P Require Import Quality.

Inductive OrderDecision : Set :=
| OdDisabled | OdNoEvidence | OdBelowHysteresis | OdExploration | OdReordered | OdUnchanged.

#[global] Instance OrderDecision_eq_dec : EqDecision OrderDecision.
Proof. solve_decision. Defined.

Record Ordering : Type := mk_Ordering {
  ord_addresses : list IpAddr;
  ord_decision : OrderDecision;
  ord_confidence : Confidence
}.

(** One scored address: its index, the address, its cost and the confidence. *)
Record Scored : Type := mk_Scored {
  sc_idx : nat;
  sc_addr : IpAddr;
  sc_cost : f64;
  sc_conf : Confidence
}.

(** [a.2.total_cmp(&b.2).then(a.0.cmp(&b.0))], as a weak order. *)
Definition scored_leb (a b : Scored) : bool :=
  (f64_key (sc_cost a) <? f64_key (sc_cost b))
  || ((f64_key (sc_cost a) =? f64_key (sc_cost b)) && (sc_idx a <=? sc_idx b)%nat).

Section ranking.
Context {FL : FloatLib}.
Implicit Types stats : gmap IpAddr QualityStats.

Definition score_one stats (cfg : RankingConfig) (now : Instant) (idx : nat) (addr : IpAddr)
    : Scored :=
  match stats !! addr with
  | Some s =>
      if has_applicable_evidence s
      then mk_Scored idx addr (expected_cost s cfg now) (confidence s cfg now)
      else mk_Scored idx addr (neutral_cost_ms cfg) Unknown
  | None => mk_Scored idx addr (neutral_cost_ms cfg) Unknown
  end.

Definition score_all stats cfg now (original : list IpAddr) : list Scored :=
  imap (λ idx addr, score_one stats cfg now idx addr) original.

Definition any_evidence stats (original : list IpAddr) : bool :=
  existsb (λ addr, match stats !! addr with
                   | Some s => has_applicable_evidence s
                   | None => false
                   end) original.

Definition explores (cfg : RankingConfig) (seed : Z) : bool :=
  f64_ltb f64_zero (exploration_rate cfg)
  && f64_ltb (unit_from_seed seed) (exploration_rate cfg).

(** The gate on displacing the address the upstream put first. *)
Definition may_not_lead stats (cfg : RankingConfig) (incumbent : f64) (challenger : Scored)
    : bool :=
  let advantage := f64_div (f64_sub incumbent (sc_cost challenger))
                           (f64_max incumbent f64_one) in
  let successes := match stats !! sc_addr challenger with
                   | Some s => q_successes s
                   | None => 0
                   end in
  f64_ltb advantage (hysteresis cfg) || (successes <? min_successes_to_lead cfg).

Definition order_addresses (original : list IpAddr) stats (cfg : RankingConfig)
    (now : Instant) (explore_seed : Z) : Ordering :=
  if negb (ranking_enabled cfg) || (length original <? 2)%nat then
    mk_Ordering original OdDisabled Unknown
  else
    let scored := score_all stats cfg now original in
    if negb (any_evidence stats original) then mk_Ordering original OdNoEvidence Unknown
    else if explores cfg explore_seed then mk_Ordering original OdExploration Unknown
    else
      match scored, stable_sort scored_leb scored with
      | incumbent :: _, (challenger :: _) as sorted =>
          if negb (sc_idx challenger =? 0)%nat
             && may_not_lead stats cfg (sc_cost incumbent) challenger
          then mk_Ordering original OdBelowHysteresis (sc_conf challenger)
          else
            let addresses := map sc_addr sorted in
            let decision := if bool_decide (addresses = original)
                            then OdUnchanged else OdReordered in
            mk_Ordering addresses decision (sc_conf challenger)
      | _, _ => mk_Ordering original OdDisabled Unknown
      end.

(** ** Lemmas *)

Lemma scored_leb_spec a b :
  scored_leb a b = true <->
  f64_key (sc_cost a) < f64_key (sc_cost b) ∨
  (f64_key (sc_cost a) = f64_key (sc_cost b) ∧ (sc_idx a <= sc_idx b)%nat).
Proof.
  unfold scored_leb. rewrite orb_true_iff, andb_true_iff, Z.ltb_lt, Z.eqb_eq, Nat.leb_le. done.
Qed.

Lemma scored_leb_total a b : scored_leb a b = true ∨ scored_leb b a = true.
Proof. rewrite !scored_leb_spec. lia. Qed.

Lemma scored_leb_trans a b c :
  scored_leb a b = true -> scored_leb b c = true -> scored_leb a c = true.
Proof. rewrite !scored_leb_spec. lia. Qed.

Lemma score_one_addr stats cfg now idx a : sc_addr (score_one stats cfg now idx a) = a.
Proof. unfold score_one. repeat case_match; done. Qed.

Lemma score_one_idx stats cfg now idx a : sc_idx (score_one stats cfg now idx a) = idx.
Proof. unfold score_one. repeat case_match; done. Qed.

Lemma score_all_addr stats cfg now original :
  map sc_addr (score_all stats cfg now original) = original.
Proof.
  unfold score_all. rewrite fmap_imap.
  transitivity (imap (λ _ a, a) original).
  - apply imap_ext. intros i x _. apply score_one_addr.
  - induction original as [|x l IH]; [done|]. simpl. f_equal. exact IH.
Qed.

Lemma score_all_idx stats cfg now original x :
  x ∈ score_all stats cfg now original -> original !! sc_idx x = Some (sc_addr x).
Proof.
  intros (i & y & -> & Hy)%elem_of_lookup_imap.
  by rewrite score_one_idx, score_one_addr.
Qed.

(** Everything the function can return. *)
Lemma order_addresses_cases original stats cfg now seed :
  let o := order_addresses original stats cfg now seed in
  (ord_addresses o = original ∧
   ord_decision o ∈ [OdDisabled; OdNoEvidence; OdExploration; OdBelowHysteresis]) ∨
  (∃ inc rest ch tl,
     score_all stats cfg now original = inc :: rest ∧
     stable_sort scored_leb (score_all stats cfg now original) = ch :: tl ∧
     ord_addresses o = map sc_addr (ch :: tl) ∧
     ord_decision o = (if bool_decide (map sc_addr (ch :: tl) = original)
                       then OdUnchanged else OdReordered) ∧
     (sc_idx ch = 0%nat ∨ may_not_lead stats cfg (sc_cost inc) ch = false) ∧
     any_evidence stats original = true ∧ explores cfg seed = false).
Proof.
  cbv zeta. unfold order_addresses.
  destruct (negb _ || _) eqn:E1; [left; split; [done|set_solver]|].
  destruct (any_evidence stats original) eqn:E2; cbn [negb]; [|left; split; [done|set_solver]].
  destruct (explores cfg seed) eqn:E3; [left; split; [done|set_solver]|].
  generalize (score_all stats cfg now original). intros scored.
  destruct scored as [|inc rest]; [left; split; [done|set_solver]|].
  destruct (stable_sort scored_leb (inc :: rest)) as [|ch tl] eqn:Et;
    [left; split; [done|set_solver]|].
  destruct (negb _ && _) eqn:E4; [left; split; [done|set_solver]|].
  right. exists inc, rest, ch, tl. split_and!; try done.
  apply andb_false_iff in E4 as [E4|E4]; [left|by right].
  by apply negb_false_iff, Nat.eqb_eq in E4.
Qed.

Lemma order_addresses_perm original stats cfg now seed :
  ord_addresses (order_addresses original stats cfg now seed) ≡ₚ original.
Proof.
  destruct (order_addresses_cases original stats cfg now seed)
    as [[-> _]|(inc & rest & ch & tl & _ & Hs & -> & _)]; [done|].
  rewrite <- Hs, stable_sort_perm. by rewrite score_all_addr.
Qed.

(** ** Properties *)

(** The result is always a permutation of the upstream RRset: no address is
    added and none is lost, whatever the evidence. *)
Theorem order_is_permutation original stats cfg now seed :
  ord_addresses (order_addresses original stats cfg now seed) ≡ₚ original.
Proof. apply order_addresses_perm. Qed.

(** The order is left exactly as the upstream sent it unless the evidence
    decided; and when it did, the addresses come in order of expected cost with
    ties broken by the upstream order, so two addresses of equal cost are never
    swapped. *)
Theorem order_follows_cost original stats cfg now seed :
  let o := order_addresses original stats cfg now seed in
  (ord_decision o ≠ OdReordered -> ord_addresses o = original) ∧
  (ord_decision o = OdReordered ->
   ∃ sorted, ord_addresses o = map sc_addr sorted ∧
     sorted ≡ₚ score_all stats cfg now original ∧
     StronglySorted (λ a b,
       f64_key (sc_cost a) < f64_key (sc_cost b) ∨
       (f64_key (sc_cost a) = f64_key (sc_cost b) ∧ (sc_idx a <= sc_idx b)%nat)) sorted).
Proof.
  simpl. destruct (order_addresses_cases original stats cfg now seed)
    as [[Ho Hd]|(inc & rest & ch & tl & _ & Hs & Ha & Hd & _)].
  - split; [done|]. intros E. rewrite E in Hd. by rewrite !elem_of_cons, elem_of_nil in Hd; naive_solver.
  - split.
    + intros Hne. rewrite Ha. rewrite Hd in Hne. by case_bool_decide.
    + intros _. exists (ch :: tl). split_and!; [done|rewrite <- Hs; apply stable_sort_perm|].
      rewrite <- Hs.
      pose proof (stable_sort_sorted scored_leb scored_leb_total scored_leb_trans
        (score_all stats cfg now original)) as Hsort.
      eapply StronglySorted_impl; [|exact Hsort].
      intros a b Hab. by apply scored_leb_spec.
Qed.

(** An address is moved to the front only on real evidence: it has the
    configured number of successes and its relative advantage over the address
    the upstream put first is not below the hysteresis, and it is a cheapest
    address of the set. *)
Theorem new_leader_is_earned original stats cfg now seed a rest b tl
    (Horig : original = a :: rest)
    (Ho : ord_addresses (order_addresses original stats cfg now seed) = b :: tl)
    (Hab : a ≠ b) :
  ∃ ch, sc_addr ch = b ∧ ch ∈ score_all stats cfg now original ∧
    (∀ x, x ∈ score_all stats cfg now original -> f64_key (sc_cost ch) <= f64_key (sc_cost x)) ∧
    f64_ltb (f64_div (f64_sub (sc_cost (score_one stats cfg now 0 a)) (sc_cost ch))
                     (f64_max (sc_cost (score_one stats cfg now 0 a)) f64_one))
            (hysteresis cfg) = false ∧
    min_successes_to_lead cfg <= default 0 (q_successes <$> stats !! b).
Proof.
  destruct (order_addresses_cases original stats cfg now seed)
    as [[Heq _]|(inc & rest' & ch & tl' & Hinc & Hs & Ha & _ & Hlead & _)]; [congruence|].
  assert (sc_addr ch = b) as Hb by (rewrite Ha in Ho; simplify_eq/=; congruence).
  assert (ch ∈ score_all stats cfg now original) as Hin.
  { apply (stable_sort_elem_of scored_leb). rewrite Hs. by left. }
  exists ch. split_and!; [done..| | |].
  - intros x Hx. pose proof (stable_sort_head scored_leb scored_leb_total scored_leb_trans
      ch _ tl' Hs x Hx) as Hle%scored_leb_spec. lia.
  - destruct Hlead as [H0|Hl].
    { apply score_all_idx in Hin. rewrite H0, Horig in Hin. by simplify_eq/=. }
    unfold may_not_lead in Hl. apply orb_false_iff in Hl as [Hl _].
    rewrite Horig in Hinc. injection Hinc as <- _. done.
  - destruct Hlead as [H0|Hl].
    { apply score_all_idx in Hin. rewrite H0, Horig in Hin. by simplify_eq/=. }
    unfold may_not_lead in Hl. apply orb_false_iff in Hl as [_ Hl%Z.ltb_ge].
    rewrite Hb in Hl. by destruct (stats !! b).
Qed.

End ranking.

(** ** Witnesses *)

Section witnesses.
#[local] Instance float_unit : FloatLib := { powf _ _ := f64_one; powi _ _ := f64_one }.

Definition no_exploration : RankingConfig := {|
  ranking_enabled := true; neutral_cost_ms := f64_of_Z 120; failure_penalty_ms := f64_of_Z 400;
  tail_weight := f64_lit 35 100; jitter_weight := f64_lit 25 100;
  uncertainty_penalty_ms := f64_of_Z 60; stale_sample_penalty_ms := f64_of_Z 40;
  sample_max_age := from_secs 1800; evidence_half_life := from_secs 3600;
  hysteresis := f64_lit 12 100; min_successes_to_lead := 3;
  exploration_rate := f64_zero; consecutive_failure_base := f64_lit 18 10 |}.

Definition seen (latency_ms : Z) : QualityStats :=
  record_all (quality_new 1) no_exploration
    (repeat (ObsSuccess, Some (from_millis latency_ms), 1000) 5).

Definition two_addresses : list IpAddr := [V4 (ipv4 1 1 1 1); V4 (ipv4 2 2 2 2)].
Definition slow_and_fast : gmap IpAddr QualityStats :=
  {[ V4 (ipv4 1 1 1 1) := seen 200; V4 (ipv4 2 2 2 2) := seen 5 ]}.

Lemma new_leader_is_earned_witness :
  ord_addresses (order_addresses two_addresses slow_and_fast no_exploration 1000 7)
    = [V4 (ipv4 2 2 2 2); V4 (ipv4 1 1 1 1)] ∧
  3 <= default 0 (q_successes <$> slow_and_fast !! V4 (ipv4 2 2 2 2)).
Proof.
  assert (ord_addresses (order_addresses two_addresses slow_and_fast no_exploration 1000 7)
    = [V4 (ipv4 2 2 2 2); V4 (ipv4 1 1 1 1)]) as Ho by (vm_compute; reflexivity).
  split; [exact Ho|].
  destruct (new_leader_is_earned two_addresses slow_and_fast no_exploration 1000 7
    (V4 (ipv4 1 1 1 1)) [V4 (ipv4 2 2 2 2)] (V4 (ipv4 2 2 2 2)) [V4 (ipv4 1 1 1 1)]
    eq_refl Ho ltac:(vm_compute; congruence)) as (_ & _ & _ & _ & _ & H).
  exact H.
Defined.

End witnesses.
