(* ===== verification/AnswerPolicy.v ===== *)
(** * Applying answer policy to a complete response

    [src/policy/answer.rs]: reordering inside the address RRsets of an answer,
    prepending verified Cloudflare addresses, and the client TTL. *)

From Stdlib Require Import Ascii String.
From S2P Require Import Prelude.
From S2P Require Import Floats.
From S2P Require Import Names.
From S2P Require Import Net.
From S2P Require Import Config.
From S2P Require Import Dns.
From S2P Require Import TtlPolicy.
From S2P Require Import DnssecPolicy.
From S2P Require Import Prefixes.
From S2P Require Import CloudflarePolicy.
From S2P Require Import Quality.
From S2P Require Import Ranking.
From S2P Require Import Message.

Record VerifiedCandidate : Type := mk_VerifiedCandidate {
  vc_addr : IpAddr;
  vc_successes : Z;
  vc_cost_ms : f64;
  vc_samples : Z;
  vc_fresh : bool
}.

Record AnswerContext : Type := mk_AnswerContext {
  cx_qtype : RecordType;
  cx_dnssec : DnssecStatus;
  cx_cloudflare_enabled : bool;
  cx_cloudflare_mode : CloudflareMode;
  cx_snapshot : option PrefixSnapshot;
  cx_domain_excluded : bool;
  cx_baseline_validated : bool;
  cx_verified : list VerifiedCandidate;
  cx_can_validate_ech : bool;
  cx_quality : gmap IpAddr QualityStats;
  cx_ranking : RankingConfig;
  cx_augment : AugmentConfig;
  cx_ttl : TtlConfig;
  cx_remaining_authoritative : Z;
  cx_remaining_signature : option Z;
  cx_is_stale : bool;
  cx_recent_network_change : bool;
  cx_now : Instant;
  cx_explore_seed : Z
}.

Record AnswerOutcome : Type := mk_AnswerOutcome {
  oc_cloudflare_applied : Eligibility;
  oc_fallback : option FallbackReason;
  oc_order : OrderDecision;
  oc_added : nat;
  oc_client_ttl : Z;
  oc_ttl_reason : TtlReason;
  oc_modified : bool
}.

Section answer.
Context {Name : Type} {NLib : NameLib Name} {IPL : IpNetLib} {FL : FloatLib}.
Implicit Types msg : Message Name.
Implicit Types r : DnsRecord Name.

Definition with_answers msg (l : list (DnsRecord Name)) : Message Name :=
  mk_Message (metadata msg) (queries msg) l (authorities msg) (additionals msg) (edns msg).

Definition record_address r : option IpAddr :=
  match r_data r with
  | RD_A a => Some (V4 a)
  | RD_AAAA a => Some (V6 a)
  | _ => None
  end.

(** Add the index to the group of its owner, or open a new group. *)
Fixpoint add_to_group (n : Name) (i : nat) (groups : list (Name * list nat))
    : list (Name * list nat) :=
  match groups with
  | [] => [(n, [i])]
  | (m, idx) :: groups' =>
      if name_eqb m n then (m, idx ++ [i]) :: groups'
      else (m, idx) :: add_to_group n i groups'
  end.

Fixpoint group_from (rtype : RecordType) (i : nat) (rs : list (DnsRecord Name))
    (groups : list (Name * list nat)) : list (Name * list nat) :=
  match rs with
  | [] => groups
  | r :: rs' =>
      group_from rtype (S i) rs'
        (if negb (rtype_eqb (record_type r) rtype) then groups
         else add_to_group (r_name r) i groups)
  end.

Definition rrset_groups msg (rtype : RecordType) : list (Name * list nat) :=
  group_from rtype 0 (answers msg) [].

Definition records_at (l : list (DnsRecord Name)) (indices : list nat) : list (DnsRecord Name) :=
  omap (λ i, l !! i) indices.

Definition addresses_of msg (indices : list nat) : list IpAddr :=
  omap record_address (records_at (answers msg) indices).

Definition group_ttl msg (indices : list nat) : Z :=
  default 0 (min_list (map r_ttl (records_at (answers msg) indices))).

(** ** Reordering *)

(** Take the record of the first slot that holds the wanted address. *)
Fixpoint take_slot (want : IpAddr) (slots : list (option (DnsRecord Name)))
    : option (DnsRecord Name * list (option (DnsRecord Name))) :=
  match slots with
  | [] => None
  | slot :: slots' =>
      match slot with
      | Some r =>
          if bool_decide (record_address r = Some want) then Some (r, None :: slots')
          else prod_map id (cons slot) <$> take_slot want slots'
      | None => prod_map id (cons slot) <$> take_slot want slots'
      end
  end.

Fixpoint place (desired : list IpAddr) (slots : list (option (DnsRecord Name)))
    : list (DnsRecord Name) * list (option (DnsRecord Name)) :=
  match desired with
  | [] => ([], slots)
  | want :: desired' =>
      match take_slot want slots with
      | Some (r, slots') => prod_map (cons r) id (place desired' slots')
      | None => place desired' slots
      end
  end.

Fixpoint write_at (indices : list nat) (rs : list (DnsRecord Name))
    (l : list (DnsRecord Name)) : list (DnsRecord Name) :=
  match indices, rs with
  | i :: indices', r :: rs' => write_at indices' rs' (<[i := r]> l)
  | _, _ => l
  end.

Definition reorder_in_place msg (indices : list nat) (desired : list IpAddr) : Message Name :=
  let taken := map (λ i, answers msg !! i) indices in
  let '(placed, left_over) := place desired taken in
  with_answers msg (write_at indices (placed ++ omap id left_over) (answers msg)).

(** ** Augmenting *)

(** [Vec::insert]. *)
Definition insert_at {A} (i : nat) (x : A) (l : list A) : list A := take i l ++ x :: drop i l.

Definition new_record (owner : Name) (ttl : Z) (rtype : RecordType) (a : IpAddr)
    : option (DnsRecord Name) :=
  match a, rtype with
  | V4 v4, RT_A => Some (mk_Record owner IN ttl (RD_A v4) PIndeterminate)
  | V6 v6, RT_AAAA => Some (mk_Record owner IN ttl (RD_AAAA v6) PIndeterminate)
  | _, _ => None
  end.

Fixpoint insert_all {A} (i : nat) (xs l : list A) : list A :=
  match xs with
  | [] => l
  | x :: xs' => insert_all (S i) xs' (insert_at i x l)
  end.

Definition prepend_addresses msg (indices : list nat) (owner : Name) (ttl : Z)
    (addrs : list IpAddr) (rtype : RecordType) : Message Name :=
  match indices with
  | [] => msg
  | first :: _ =>
      with_answers msg
        (insert_all first (omap (new_record owner ttl rtype) addrs) (answers msg))
  end.

Definition is_ipv4 (a : IpAddr) : bool := match a with V4 _ => true | V6 _ => false end.

(** The checks one candidate must pass; [to_add] is what was accepted before. *)
Definition candidate_ok (ctx : AnswerContext) (rtype : RecordType) (existing to_add : list IpAddr)
    (best_original_cost : f64) (c : VerifiedCandidate) : bool :=
  vc_fresh c && (min_validations (cx_augment ctx) <=? vc_successes c)
  && (min_samples (cx_augment ctx) <=? vc_samples c)
  && Bool.eqb (is_ipv4 (vc_addr c)) (rtype_eqb rtype RT_A)
  && is_cloudflare (cx_snapshot ctx) (vc_addr c)
  && IpClass.is_global_unicast (vc_addr c)
  && negb (bool_decide (vc_addr c ∈ existing) || bool_decide (vc_addr c ∈ to_add))
  && (if f64_is_finite best_original_cost then
        negb (f64_ltb (f64_div (f64_sub best_original_cost (vc_cost_ms c))
                               (f64_max best_original_cost f64_one))
                      (min_advantage (cx_augment ctx)))
      else true).

Fixpoint select_candidates (ctx : AnswerContext) (rtype : RecordType) (existing : list IpAddr)
    (best : f64) (cs : list VerifiedCandidate) (to_add : list IpAddr) : list IpAddr :=
  match cs with
  | [] => to_add
  | c :: cs' =>
      if (max_added (cx_augment ctx) <=? length to_add)%nat then to_add
      else if candidate_ok ctx rtype existing to_add best c
      then select_candidates ctx rtype existing best cs' (to_add ++ [vc_addr c])
      else select_candidates ctx rtype existing best cs' to_add
  end.

Definition best_cost (ctx : AnswerContext) (existing : list IpAddr) : f64 :=
  fold_left f64_min
    (map (λ s, expected_cost s (cx_ranking ctx) (cx_now ctx))
         (omap (λ a, cx_quality ctx !! a) existing))
    (SpecFloat.S754_infinity false).

(** ** The policy *)

Definition ttl_inputs (ctx : AnswerContext) (augmented cf_preserved optimized : bool) : TtlInputs :=
  {| remaining_authoritative := cx_remaining_authoritative ctx;
     remaining_signature := cx_remaining_signature ctx;
     is_stale := cx_is_stale ctx;
     recent_network_change := cx_recent_network_change ctx;
     cloudflare_augmented := augmented;
     cloudflare_preserved := cf_preserved;
     optimized_multi := optimized |}.

Definition finish_ttl msg (ctx : AnswerContext) (o : AnswerOutcome)
    (augmented cf_preserved optimized : bool) : Message Name * AnswerOutcome :=
  let '(ttl, reason) := effective_client_ttl (cx_ttl ctx)
                          (ttl_inputs ctx augmented cf_preserved optimized) in
  (cap_ttls msg ttl,
   mk_AnswerOutcome (oc_cloudflare_applied o) (oc_fallback o) (oc_order o) (oc_added o)
     ttl reason (oc_modified o)).

(** One turn of the ordering loop: the message, whether anything moved, and the
    last decision. *)
Definition order_group (ctx : AnswerContext) (acc : Message Name * bool * OrderDecision)
    (g : Name * list nat) : Message Name * bool * OrderDecision :=
  let '(msg, any_reorder, last_decision) := acc in
  let original := addresses_of msg g.2 in
  if (length original <? 2)%nat then acc
  else
    let o := order_addresses original (cx_quality ctx) (cx_ranking ctx) (cx_now ctx)
               (cx_explore_seed ctx) in
    if bool_decide (ord_addresses o = original) then (msg, any_reorder, ord_decision o)
    else (reorder_in_place msg g.2 (ord_addresses o), true, ord_decision o).

Definition order_groups (ctx : AnswerContext) msg (groups : list (Name * list nat))
    : Message Name * bool * OrderDecision :=
  fold_left (order_group ctx) groups (msg, false, OdDisabled).

Definition eligibility_inputs (ctx : AnswerContext) msg (groups : list (Name * list nat))
    (final : Name * list nat) : EligibilityInputs :=
  {| el_mode := cx_cloudflare_mode ctx;
     el_enabled := cx_cloudflare_enabled ctx;
     el_qtype := cx_qtype ctx;
     el_dnssec := cx_dnssec ctx;
     el_snapshot := cx_snapshot ctx;
     el_original := addresses_of msg final.2;
     el_single_rrset := (length groups =? 1)%nat;
     el_excluded := cx_domain_excluded ctx;
     el_publishes_ech := publishes_ech msg;
     el_can_validate_ech := cx_can_validate_ech ctx;
     el_baseline_validated := cx_baseline_validated ctx;
     el_has_verified_candidate :=
       existsb (λ v, vc_fresh v && (min_validations (cx_augment ctx) <=? vc_successes v))
         (cx_verified ctx) |}.

Definition initial_outcome : AnswerOutcome :=
  mk_AnswerOutcome ElOff None OdDisabled 0 0 TtlDefault false.

Definition target_type (qtype : RecordType) : option RecordType :=
  match qtype with RT_A => Some RT_A | RT_AAAA => Some RT_AAAA | _ => None end.

Definition apply_answer_policy msg (ctx : AnswerContext) : Message Name * AnswerOutcome :=
  match target_type (cx_qtype ctx) with
  | None => finish_ttl msg ctx initial_outcome false false false
  | Some rtype =>
      let groups := rrset_groups msg rtype in
      match last groups with
      | None => finish_ttl msg ctx initial_outcome false false false
      | Some final =>
          let '(eligibility, fallback) := evaluate (eligibility_inputs ctx msg groups final) in
          let '(msg1, any_reorder, decision) := order_groups ctx msg groups in
          let existing := addresses_of msg1 final.2 in
          let to_add :=
            if bool_decide (eligibility = ElAugment)
            then select_candidates ctx rtype existing (best_cost ctx existing)
                   (cx_verified ctx) []
            else [] in
          let augmented := negb (length to_add =? 0)%nat in
          let '(applied, fallback) :=
            if bool_decide (eligibility = ElAugment) && negb augmented
            then (ElPreserve, Some FbNoVerifiedCandidate) else (eligibility, fallback) in
          let msg2 :=
            if augmented
            then prepend_addresses msg1 final.2 final.1 (group_ttl msg1 final.2) to_add rtype
            else msg1 in
          let touched :=
            negb (bool_decide (applied = ElOff)) && (any_reorder || augmented) in
          finish_ttl msg2 ctx
            (mk_AnswerOutcome applied fallback decision (length to_add) 0 TtlDefault augmented)
            augmented (touched && negb augmented) (any_reorder && negb touched)
      end
  end.

(** ** Lemmas on positions *)

Lemma omap_lookup_seq {A} (l : list A) : omap (λ i, l !! i) (seq 0 (length l)) = l.
Proof.
  assert (∀ l1 l2 : list A, omap (λ i, (l1 ++ l2) !! i) (seq (length l1) (length l2)) = l2) as H.
  { intros l1 l2. revert l1. induction l2 as [|x l2 IH]; intros l1; simpl; [done|].
    rewrite list_lookup_middle by done. f_equal.
    specialize (IH (l1 ++ [x])). rewrite length_app, Nat.add_comm in IH. simpl in IH.
    by rewrite <- app_assoc in IH. }
  apply (H [] l).
Qed.

(** A list is its elements at some distinct positions and the rest. *)
Lemma split_positions {A} (l : list A) (indices : list nat) :
  NoDup indices -> Forall (λ i, i < length l)%nat indices ->
  l ≡ₚ omap (λ i, l !! i) indices
       ++ omap (λ i, l !! i) (filter (.∉ indices) (seq 0 (length l))).
Proof.
  intros Hnd Hlt. rewrite <- (omap_lookup_seq l) at 1. rewrite <- omap_app.
  apply omap_Permutation, NoDup_Permutation.
  - apply NoDup_seq.
  - apply NoDup_app. split_and!; [done| |by apply NoDup_filter, NoDup_seq].
    intros i Hi [Hn _]%list_elem_of_filter. done.
  - intros i. rewrite elem_of_app, list_elem_of_filter, elem_of_seq.
    rewrite Forall_forall in Hlt. split.
    + intros Hi. destruct (decide (i ∈ indices)); [by left|by right].
    + intros [Hi|[_ ?]]; [|done]. specialize (Hlt i Hi). lia.
Qed.

Lemma write_at_length ix rs l : length (write_at ix rs l) = length l.
Proof.
  revert rs l. induction ix as [|i ix IH]; intros [|r rs] l; simpl; try done.
  by rewrite IH, length_insert.
Qed.

Lemma write_at_other ix rs l j : j ∉ ix -> write_at ix rs l !! j = l !! j.
Proof.
  revert rs l. induction ix as [|i ix IH]; intros [|r rs] l Hj; simpl; try done.
  rewrite not_elem_of_cons in Hj. destruct Hj as [Hne Hj].
  rewrite IH by done. by rewrite list_lookup_insert_ne.
Qed.

Lemma write_at_here ix rs l :
  NoDup ix -> Forall (λ i, i < length l)%nat ix -> length rs = length ix ->
  omap (λ i, write_at ix rs l !! i) ix = rs.
Proof.
  intros Hnd. revert rs l. induction Hnd as [|i ix Hi Hnd IH]; intros [|r rs] l Hlt Hlen;
    simpl in *; try done.
  apply Forall_cons in Hlt as [Hi' Hlt]. rewrite write_at_other by done.
  rewrite list_lookup_insert_eq by done. f_equal.
  apply IH; [|lia]. eapply Forall_impl; [exact Hlt|]. intros. by rewrite length_insert.
Qed.

Lemma write_at_perm ix rs l :
  NoDup ix -> Forall (λ i, i < length l)%nat ix -> rs ≡ₚ records_at l ix ->
  length rs = length ix -> write_at ix rs l ≡ₚ l.
Proof.
  intros Hnd Hlt Hp Hlen.
  assert (Forall (λ i, i < length (write_at ix rs l))%nat ix) as Hlt'
    by by rewrite write_at_length.
  etransitivity; [apply (split_positions (write_at ix rs l) ix Hnd Hlt')|].
  symmetry. etransitivity; [apply (split_positions l ix Hnd Hlt)|]. symmetry.
  rewrite write_at_here by done. rewrite write_at_length.
  apply Permutation_app; [exact Hp|]. apply Permutation_refl'.
  apply list_omap_ext, Forall_Forall2_diag, Forall_forall.
  intros j [Hj _]%list_elem_of_filter. by rewrite write_at_other.
Qed.

Lemma records_at_map l ix :
  Forall (λ i, i < length l)%nat ix -> map (λ i, l !! i) ix = map Some (records_at l ix).
Proof.
  induction 1 as [|i ix Hi _ IH]; simpl; [done|].
  destruct (lookup_lt_is_Some_2 l i Hi) as [x Hx]. rewrite Hx. simpl. by rewrite IH.
Qed.

Lemma records_at_length l ix :
  Forall (λ i, i < length l)%nat ix -> length (records_at l ix) = length ix.
Proof.
  intros H. apply records_at_map in H. apply (f_equal length) in H.
  by rewrite !length_map in H.
Qed.

(** ** Lemmas on slots *)

Lemma take_slot_perm want slots r slots' :
  take_slot want slots = Some (r, slots') ->
  record_address r = Some want ∧ omap id slots ≡ₚ r :: omap id slots'.
Proof.
  revert slots'. induction slots as [|[x|] slots IH]; intros slots'; simpl; [done|..].
  - case_bool_decide.
    + intros [= -> <-]. done.
    + intros ([y ys] & Hy & E)%fmap_Some. simplify_eq/=.
      destruct (IH ys Hy) as [Ha Hp]. split; [done|]. rewrite Hp. constructor.
  - intros ([y ys] & Hy & E)%fmap_Some. simplify_eq/=. by apply IH.
Qed.

Lemma take_slot_Some want slots :
  want ∈ omap record_address (omap id slots) -> is_Some (take_slot want slots).
Proof.
  induction slots as [|[x|] slots IH]; simpl; [set_solver|..].
  - case_bool_decide as E; [done|]. intros Hw. apply fmap_is_Some, IH.
    destruct (record_address x) as [a|]; simpl in *; [|done].
    apply elem_of_cons in Hw as [->|Hw]; done.
  - intros Hw. by apply fmap_is_Some, IH.
Qed.

Lemma place_perm desired slots :
  (place desired slots).1 ++ omap id (place desired slots).2 ≡ₚ omap id slots.
Proof.
  revert slots. induction desired as [|w desired IH]; intros slots; simpl; [done|].
  destruct (take_slot w slots) as [[r slots']|] eqn:E; [|apply IH].
  apply take_slot_perm in E as [_ Hp]. rewrite Hp. simpl. by rewrite IH.
Qed.

Lemma place_addresses desired slots :
  desired ≡ₚ omap record_address (omap id slots) ->
  (∀ r, r ∈ omap id slots -> is_Some (record_address r)) ->
  omap record_address ((place desired slots).1 ++ omap id (place desired slots).2) = desired.
Proof.
  revert slots. induction desired as [|w desired IH]; intros slots Hp Hall; simpl.
  - assert (omap id slots = []) as ->; [|done].
    destruct (omap id slots) as [|r l] eqn:E; [done|].
    destruct (Hall r) as [a Ha]; [by left|]. simpl in Hp. rewrite Ha in Hp.
    by apply Permutation_nil_cons in Hp.
  - destruct (take_slot_Some w slots) as [[r slots'] E]; [rewrite <- Hp; by left|].
    rewrite E. simpl. apply take_slot_perm in E as [Ha Hs]. rewrite Ha. f_equal.
    apply IH.
    + rewrite Hs in Hp. simpl in Hp. rewrite Ha in Hp. by apply Permutation_cons_inv in Hp.
    + intros r' Hr'. apply Hall. rewrite Hs. by right.
Qed.

(** Reordering one group: the answer section is permuted among the positions of
    the group, and when the wanted order is one of the group's addresses it is
    the order they come in. *)
Definition group_ok msg (ix : list nat) : Prop :=
  NoDup ix ∧ Forall (λ i, i < length (answers msg))%nat ix.

Lemma omap_id_Some {A} (l : list A) : omap id (map Some l) = l.
Proof. induction l as [|x l IH]; [done|]. cbn. by f_equal. Qed.

Lemma reorder_in_place_spec msg ix desired :
  group_ok msg ix ->
  let msg' := reorder_in_place msg ix desired in
  answers msg' ≡ₚ answers msg ∧
  records_at (answers msg') ix ≡ₚ records_at (answers msg) ix ∧
  (∀ j, j ∉ ix -> answers msg' !! j = answers msg !! j).
Proof.
  intros [Hnd Hlt]. unfold reorder_in_place. rewrite records_at_map by done.
  pose proof (place_perm desired (map Some (records_at (answers msg) ix))) as Hp.
  rewrite omap_id_Some in Hp.
  destruct (place desired _) as [placed rest]. simpl in *.
  assert (length (placed ++ omap id rest) = length ix) as Hlen.
  { rewrite Hp. by apply records_at_length. }
  split_and!.
  - by apply write_at_perm.
  - unfold records_at at 1. by rewrite write_at_here.
  - intros j Hj. by apply write_at_other.
Qed.

Lemma reorder_in_place_addresses msg ix desired :
  group_ok msg ix -> (∀ r, r ∈ records_at (answers msg) ix -> is_Some (record_address r)) ->
  desired ≡ₚ addresses_of msg ix ->
  addresses_of (reorder_in_place msg ix desired) ix = desired.
Proof.
  intros [Hnd Hlt] Hall Hd. unfold reorder_in_place. rewrite records_at_map by done.
  pose proof (place_perm desired (map Some (records_at (answers msg) ix))) as Hp.
  pose proof (place_addresses desired (map Some (records_at (answers msg) ix))) as Ha.
  rewrite omap_id_Some in Hp, Ha. specialize (Ha Hd Hall).
  destruct (place desired _) as [placed rest]. simpl in *.
  unfold addresses_of, records_at; simpl. rewrite write_at_here; [done..|].
  rewrite Hp. by apply records_at_length.
Qed.

(** ** Lemmas on groups *)

Definition positions (groups : list (Name * list nat)) : list nat := concat (map snd groups).

Lemma add_to_group_positions n i groups :
  positions (add_to_group n i groups) ≡ₚ i :: positions groups.
Proof.
  unfold positions. induction groups as [|[m ix] groups IH]; simpl; [done|].
  destruct (name_eqb m n); simpl.
  - rewrite <- app_assoc. simpl. by rewrite Permutation_middle.
  - rewrite IH. by rewrite Permutation_middle.
Qed.

(** The positions collected are exactly those of the records of the type. *)
Lemma group_from_positions rtype i rs groups :
  positions (group_from rtype i rs groups)
  ≡ₚ positions groups ++
     omap (λ jr, if rtype_eqb (record_type jr.2) rtype then Some jr.1 else None)
       (zip (seq i (length rs)) rs).
Proof.
  revert i groups. induction rs as [|r rs IH]; intros i groups; simpl.
  { by rewrite app_nil_r. }
  rewrite IH. destruct (rtype_eqb (record_type r) rtype); simpl; [|done].
  rewrite add_to_group_positions. simpl. by rewrite Permutation_middle.
Qed.

Lemma zip_seq_lookup {A} (l : list A) k i x :
  (i, x) ∈ zip (seq k (length l)) l <-> (k <= i)%nat ∧ l !! (i - k)%nat = Some x.
Proof.
  revert k. induction l as [|y l IH]; intros k; simpl.
  { rewrite elem_of_nil, lookup_nil. naive_solver. }
  rewrite elem_of_cons, IH. split.
  - intros [[= -> ->]|[Hle Hx]]; [by rewrite Nat.sub_diag|].
    split; [lia|]. by replace (i - k)%nat with (S (i - S k)) by lia.
  - intros [Hle Hx]. destruct (decide (i = k)) as [->|Hne].
    + rewrite Nat.sub_diag in Hx. simplify_eq/=. by left.
    + right. split; [lia|]. replace (i - k)%nat with (S (i - S k)) in Hx by lia. done.
Qed.

Lemma rrset_groups_elem msg rtype i :
  i ∈ positions (rrset_groups msg rtype) <->
  ∃ r, answers msg !! i = Some r ∧ record_type r = rtype.
Proof.
  unfold rrset_groups. rewrite group_from_positions. simpl.
  rewrite list_elem_of_omap. split.
  - intros ([j r] & Hz & Hj). apply zip_seq_lookup in Hz as [_ Hr].
    rewrite Nat.sub_0_r in Hr. simpl in Hj. destruct (rtype_eqb _ _) eqn:E; simplify_eq.
    exists r. split; [done|]. by apply bool_decide_eq_true in E.
  - intros (r & Hr & Ht). exists (i, r). split.
    + apply zip_seq_lookup. rewrite Nat.sub_0_r. split; [lia|done].
    + simpl. unfold rtype_eqb. by rewrite bool_decide_true.
Qed.

Lemma omap_zip_NoDup {A} (p : A -> bool) (l : list A) k :
  NoDup (omap (λ jr : nat * A, if p jr.2 then Some jr.1 else None) (zip (seq k (length l)) l)).
Proof.
  revert k. induction l as [|x l IH]; intros k; simpl; [constructor|].
  destruct (p x); simpl; [|apply IH]. constructor; [|apply IH].
  intros ([j y] & Hz & Hj)%list_elem_of_omap. apply zip_seq_lookup in Hz as [Hle _].
  simpl in Hj. destruct (p y); simplify_eq. lia.
Qed.

Lemma rrset_groups_NoDup msg rtype : NoDup (positions (rrset_groups msg rtype)).
Proof.
  unfold rrset_groups. rewrite group_from_positions. simpl.
  apply (omap_zip_NoDup (λ r, rtype_eqb (record_type r) rtype)).
Qed.

(** ** The ordering loop *)

Definition same_shell msg msg' : Prop :=
  metadata msg' = metadata msg ∧ queries msg' = queries msg ∧
  authorities msg' = authorities msg ∧ additionals msg' = additionals msg ∧
  edns msg' = edns msg.

Definition ordered_addresses (ctx : AnswerContext) (l : list IpAddr) : list IpAddr :=
  ord_addresses (order_addresses l (cx_quality ctx) (cx_ranking ctx) (cx_now ctx)
                   (cx_explore_seed ctx)).

Lemma ordered_perm ctx l : ordered_addresses ctx l ≡ₚ l.
Proof. apply order_addresses_perm. Qed.

Lemma ordered_short ctx l : (length l < 2)%nat -> ordered_addresses ctx l = l.
Proof.
  intros H. unfold ordered_addresses, order_addresses.
  rewrite (proj2 (Nat.ltb_lt _ _) H), orb_true_r. done.
Qed.

(** The groups are address groups: distinct positions of records that hold an
    address. *)
Definition groups_ok msg (groups : list (Name * list nat)) : Prop :=
  NoDup (positions groups) ∧
  ∀ i, i ∈ positions groups ->
    ∃ r, answers msg !! i = Some r ∧ is_Some (record_address r).

(** What reordering may do to a message. *)
Record permuted_within msg msg' (groups : list (Name * list nat)) : Prop := {
  pw_shell : same_shell msg msg';
  pw_perm : answers msg' ≡ₚ answers msg;
  pw_out j : j ∉ positions groups -> answers msg' !! j = answers msg !! j;
  pw_in g : g ∈ groups -> records_at (answers msg') g.2 ≡ₚ records_at (answers msg) g.2
}.

Lemma records_at_ext (l l' : list (DnsRecord Name)) ix :
  (∀ i, i ∈ ix -> l !! i = l' !! i) -> records_at l ix = records_at l' ix.
Proof.
  intros H. apply list_omap_ext, Forall_Forall2_diag, Forall_forall. exact H.
Qed.

Lemma groups_ok_cons msg g groups :
  groups_ok msg (g :: groups) ->
  group_ok msg g.2 ∧
  (∀ r, r ∈ records_at (answers msg) g.2 -> is_Some (record_address r)) ∧
  groups_ok msg groups ∧ (∀ i, i ∈ g.2 -> i ∉ positions groups).
Proof.
  intros [Hnd Hr]. unfold positions in *. simpl in *. apply NoDup_app in Hnd as (H1 & H2 & H3).
  split_and!.
  - split; [done|]. apply Forall_forall. intros i Hi.
    destruct (Hr i) as (r & E & _); [by apply elem_of_app; left|].
    by eapply lookup_lt_Some.
  - intros r (i & Hi & E)%list_elem_of_omap.
    destruct (Hr i) as (r' & E' & ?); [by apply elem_of_app; left|]. by simplify_eq.
  - split; [done|]. intros i Hi. apply Hr. by apply elem_of_app; right.
  - done.
Qed.

(** One turn of the loop. *)
Lemma order_group_spec ctx msg b d g groups :
  groups_ok msg (g :: groups) ->
  let '(msg', b', _) := order_group ctx (msg, b, d) g in
  permuted_within msg msg' [g] ∧ (b' = false -> b = false ∧ msg' = msg) ∧
  addresses_of msg' g.2 = ordered_addresses ctx (addresses_of msg g.2).
Proof.
  intros (Hg & Haddr & _ & _)%groups_ok_cons.
  assert (permuted_within msg msg [g]) as Hrefl by by repeat split.
  unfold order_group.
  destruct (length (addresses_of msg g.2) <? 2)%nat eqn:El.
  { apply Nat.ltb_lt in El. split_and!; [done..|]. by rewrite ordered_short. }
  fold (ordered_addresses ctx (addresses_of msg g.2)).
  case_bool_decide as E; [by split_and!|].
  destruct (reorder_in_place_spec msg g.2 (ordered_addresses ctx (addresses_of msg g.2)) Hg)
    as (H1 & H2 & H3).
  split_and!; [|done|].
  - split; [| |intros j Hj; apply H3|intros g' ->%list_elem_of_singleton; done].
    + unfold reorder_in_place. destruct (place _ _). by repeat split.
    + done.
    + unfold positions in Hj. simpl in Hj. by rewrite app_nil_r in Hj.
  - apply reorder_in_place_addresses; [done..|]. apply ordered_perm.
Qed.

Lemma groups_ok_step msg msg' g groups :
  groups_ok msg (g :: groups) -> permuted_within msg msg' [g] ->
  groups_ok msg' groups ∧
  (∀ g', g' ∈ groups -> records_at (answers msg') g'.2 = records_at (answers msg) g'.2).
Proof.
  intros Hok [_ _ Hout _]. apply groups_ok_cons in Hok as (_ & _ & [Hnd Hr] & Hdis).
  assert (∀ i, i ∈ positions groups -> answers msg' !! i = answers msg !! i) as Hsame.
  { intros i Hi. apply Hout. unfold positions. simpl. rewrite app_nil_r.
    intros Hin. by apply (Hdis i Hin). }
  split; [split; [done|]|].
  - intros i Hi. rewrite Hsame by done. by apply Hr.
  - intros g' Hg'. apply records_at_ext. intros i Hi. apply Hsame.
    unfold positions. apply list_elem_of_In, in_concat. exists g'.2.
    rewrite <- !list_elem_of_In. split; [|done]. by apply list_elem_of_fmap_2.
Qed.

Lemma permuted_trans msg msg1 msg2 g groups :
  groups_ok msg (g :: groups) ->
  permuted_within msg msg1 [g] -> permuted_within msg1 msg2 groups ->
  permuted_within msg msg2 (g :: groups) ∧
  records_at (answers msg2) g.2 = records_at (answers msg1) g.2.
Proof.
  intros Hok H1 H2. pose proof (groups_ok_step _ _ _ _ Hok H1) as [_ Hsame].
  destruct H1 as [(A1 & A2 & A3 & A4 & A5) P1 O1 I1], H2 as [(B1 & B2 & B3 & B4 & B5) P2 O2 I2].
  apply groups_ok_cons in Hok as (_ & _ & _ & Hdis).
  assert (records_at (answers msg2) g.2 = records_at (answers msg1) g.2) as Hg.
  { apply records_at_ext. intros i Hi. apply O2. by apply Hdis. }
  split; [|done]. split.
  - split_and!; congruence.
  - by rewrite P2.
  - intros j Hj. unfold positions in *. simpl in Hj. rewrite not_elem_of_app in Hj.
    destruct Hj as [Hj1 Hj2]. rewrite O2 by done. apply O1. simpl. by rewrite app_nil_r.
  - intros g' [->|Hg']%elem_of_cons.
    + rewrite Hg. apply I1. by left.
    + rewrite <- (Hsame g') by done. by apply I2.
Qed.

Lemma order_groups_fold ctx msg b d groups :
  groups_ok msg groups ->
  let '(msg', b', _) := fold_left (order_group ctx) groups (msg, b, d) in
  permuted_within msg msg' groups ∧ (b' = false -> b = false ∧ msg' = msg) ∧
  ∀ g, g ∈ groups -> addresses_of msg' g.2 = ordered_addresses ctx (addresses_of msg g.2).
Proof.
  revert msg b d. induction groups as [|g groups IH]; intros msg b d Hok; cbn [fold_left].
  { split_and!; [by repeat split|done|]. intros g Hg. by apply elem_of_nil in Hg. }
  pose proof (order_group_spec ctx msg b d g groups Hok) as Hstep.
  destruct (order_group ctx (msg, b, d) g) as [[msg1 b1] d1].
  destruct Hstep as (Hp & Hb & Ha).
  pose proof (groups_ok_step _ _ _ _ Hok Hp) as [Hok1 Hsame].
  specialize (IH msg1 b1 d1 Hok1).
  destruct (fold_left (order_group ctx) groups (msg1, b1, d1)) as [[msg2 b2] d2].
  destruct IH as (Hp2 & Hb2 & Ha2).
  destruct (permuted_trans _ _ _ _ _ Hok Hp Hp2) as [Hpt Hg].
  split_and!; [done| |].
  - intros Hf. destruct (Hb2 Hf) as [Hf1 ->]. by apply Hb.
  - intros g' [->|Hg']%elem_of_cons.
    + unfold addresses_of. rewrite Hg. exact Ha.
    + rewrite Ha2 by done. unfold addresses_of. by rewrite Hsame.
Qed.

(** ** Lemmas on augmentation *)

Lemma insert_all_eq {A} (i : nat) (xs l : list A) :
  (i <= length l)%nat -> insert_all i xs l = take i l ++ xs ++ drop i l.
Proof.
  revert i l. induction xs as [|x xs IH]; intros i l Hi; simpl.
  { by rewrite take_drop. }
  assert (length (take i l) = i) as Hti by (rewrite length_take; lia).
  rewrite IH; unfold insert_at.
  - rewrite take_app, drop_app, Hti.
    replace (S i - i)%nat with 1%nat by lia.
    rewrite (take_ge (take i l)), (drop_ge (take i l)) by lia. simpl.
    rewrite take_0, drop_0. by rewrite <- app_assoc.
  - rewrite length_app. simpl. rewrite length_drop. lia.
Qed.

(** What every accepted candidate has shown. *)
Definition accepted (ctx : AnswerContext) (rtype : RecordType) (existing : list IpAddr)
    (a : IpAddr) : Prop :=
  ∃ c, c ∈ cx_verified ctx ∧ vc_addr c = a ∧ vc_fresh c = true ∧
    min_validations (cx_augment ctx) <= vc_successes c ∧
    min_samples (cx_augment ctx) <= vc_samples c ∧
    is_ipv4 a = rtype_eqb rtype RT_A ∧
    is_cloudflare (cx_snapshot ctx) a = true ∧
    IpClass.is_global_unicast a = true ∧ a ∉ existing.

Lemma candidate_ok_accepted ctx rtype existing to_add best c :
  c ∈ cx_verified ctx -> candidate_ok ctx rtype existing to_add best c = true ->
  accepted ctx rtype existing (vc_addr c) ∧ vc_addr c ∉ to_add.
Proof.
  unfold candidate_ok. intros Hc H. rewrite !andb_true_iff in H.
  destruct H as [[[[[[[H1 H2] H3] H4] H5] H6] H7] _]. apply Bool.eqb_prop in H4.
  bool_to_prop. split; [|done]. exists c. by split_and!.
Qed.

Lemma select_candidates_spec ctx rtype existing best cs to_add :
  (∀ c, c ∈ cs -> c ∈ cx_verified ctx) ->
  NoDup to_add -> Forall (accepted ctx rtype existing) to_add ->
  (length to_add <= max_added (cx_augment ctx))%nat ->
  let res := select_candidates ctx rtype existing best cs to_add in
  NoDup res ∧ Forall (accepted ctx rtype existing) res ∧
  (length res <= max_added (cx_augment ctx))%nat.
Proof.
  revert to_add. induction cs as [|c cs IH]; intros to_add Hcs Hnd Hall Hlen; simpl; [done|].
  destruct (_ <=? _)%nat eqn:El; [done|]. apply Nat.leb_gt in El.
  assert (∀ c', c' ∈ cs -> c' ∈ cx_verified ctx) as Hcs' by (intros; apply Hcs; by right).
  destruct (candidate_ok _ _ _ _ _ _) eqn:E; [|by apply IH].
  apply candidate_ok_accepted in E as [Ha Hn]; [|apply Hcs; by left]. apply IH; [done|..].
  - apply NoDup_app. split_and!; [done| |apply NoDup_singleton].
    intros x Hx ->%list_elem_of_singleton. done.
  - apply Forall_app. split; [done|]. by constructor.
  - rewrite length_app. simpl. lia.
Qed.

Lemma new_records_spec owner ttl rtype addrs :
  rtype = RT_A ∨ rtype = RT_AAAA ->
  Forall (λ a, is_ipv4 a = rtype_eqb rtype RT_A) addrs ->
  map record_address (omap (new_record owner ttl rtype) addrs) = map Some addrs ∧
  Forall (λ r, r_name r = owner ∧ r_ttl r = ttl) (omap (new_record owner ttl rtype) addrs).
Proof.
  intros Ht. induction 1 as [|a addrs Ha _ [IH1 IH2]]; [done|].
  assert (∃ r, new_record owner ttl rtype a = Some r ∧ record_address r = Some a ∧
    r_name r = owner ∧ r_ttl r = ttl) as (r & Hr & Hra & Hrn).
  { destruct Ht as [->| ->], a as [v|v]; try done; by eexists. }
  cbn. rewrite Hr. cbn. split; [by rewrite Hra, IH1|by constructor].
Qed.

Lemma target_type_spec q t : target_type q = Some t -> q = t ∧ (t = RT_A ∨ t = RT_AAAA).
Proof. destruct q; simpl; intros [= <-]; auto. Qed.

Lemma target_record_address r t :
  (t = RT_A ∨ t = RT_AAAA) -> record_type r = t -> is_Some (record_address r).
Proof.
  unfold record_type, record_address. intros Ht <-.
  destruct (r_data r); simpl in *; destruct Ht; done.
Qed.

Lemma rrset_groups_ok msg t :
  (t = RT_A ∨ t = RT_AAAA) -> groups_ok msg (rrset_groups msg t).
Proof.
  intros Ht. split; [apply rrset_groups_NoDup|].
  intros i (r & Hr & Hrt)%rrset_groups_elem. eauto using target_record_address.
Qed.

Definition capped_at (ttl : Z) r : DnsRecord Name := with_ttl r (Z.min (r_ttl r) ttl).

Lemma finish_ttl_spec msg ctx o b1 b2 b3 :
  let '(out, o') := finish_ttl msg ctx o b1 b2 b3 in
  out = cap_ttls msg (oc_client_ttl o') ∧ oc_modified o' = oc_modified o ∧
  oc_added o' = oc_added o ∧ oc_cloudflare_applied o' = oc_cloudflare_applied o ∧
  oc_client_ttl o' = fst (effective_client_ttl (cx_ttl ctx) (ttl_inputs ctx b1 b2 b3)).
Proof.
  unfold finish_ttl. destruct (effective_client_ttl _ _) as [ttl reason]. by split_and!.
Qed.

(** Every result of the policy is the message with its address groups reordered,
    some records inserted, and the TTLs capped. *)
Definition policy_shape msg ctx (out : Message Name) (o : AnswerOutcome) : Prop :=
  ∃ mid groups k added b2 b3,
    permuted_within msg mid groups ∧
    (∀ i, i ∈ positions groups ->
       ∃ r, answers msg !! i = Some r ∧ record_type r = cx_qtype ctx) ∧
    (∀ g, g ∈ groups -> addresses_of mid g.2 = ordered_addresses ctx (addresses_of msg g.2)) ∧
    (∀ t, target_type (cx_qtype ctx) = Some t -> groups = rrset_groups msg t) ∧
    out = cap_ttls (with_answers mid (take k (answers mid) ++ added ++ drop k (answers mid)))
            (oc_client_ttl o) ∧
    oc_client_ttl o
      = fst (effective_client_ttl (cx_ttl ctx) (ttl_inputs ctx (oc_modified o) b2 b3)) ∧
    length added = oc_added o ∧
    (oc_modified o = false -> added = []) ∧
    (oc_modified o = true ->
     ∃ final rtype to_add, final ∈ groups ∧ oc_cloudflare_applied o = ElAugment ∧
       target_type (cx_qtype ctx) = Some rtype ∧
       fst (evaluate (eligibility_inputs ctx msg groups final)) = ElAugment ∧
       (0 < length to_add <= max_added (cx_augment ctx))%nat ∧
       head final.2 = Some k ∧
       NoDup to_add ∧ Forall (accepted ctx rtype (addresses_of mid final.2)) to_add ∧
       map record_address added = map Some to_add ∧
       Forall (λ r, r_name r = final.1 ∧ r_ttl r = group_ttl mid final.2) added).

Lemma permuted_refl msg groups : permuted_within msg msg groups.
Proof. by repeat split. Qed.

(** The policy that has no address group to work on. *)
Lemma policy_shape_plain msg ctx out o :
  (∀ t, target_type (cx_qtype ctx) = Some t -> rrset_groups msg t = []) ->
  finish_ttl msg ctx initial_outcome false false false = (out, o) ->
  policy_shape msg ctx out o.
Proof.
  intros Hg E. pose proof (finish_ttl_spec msg ctx initial_outcome false false false) as H.
  rewrite E in H. destruct H as (H1 & H2 & H3 & _ & H5).
  exists msg, [], 0%nat, [], false, false. rewrite H2, H3.
  split_and!; try done.
  1,2: intros ? Hin; by apply elem_of_nil in Hin.
  intros t Ht. by rewrite Hg.
Qed.

Lemma group_head msg t g :
  g ∈ rrset_groups msg t -> ∃ k ks, g.2 = k :: ks.
Proof.
  unfold rrset_groups.
  assert (∀ rs i groups, (∀ g', g' ∈ groups -> g'.2 ≠ []) ->
    ∀ g', g' ∈ group_from t i rs groups -> g'.2 ≠ []) as H.
  { intros rs. induction rs as [|r rs IH]; intros i groups Hg; simpl; [done|].
    apply IH. destruct (negb _); [done|]. clear IH. intros g' Hg'. revert Hg'.
    induction groups as [|[m ix] groups IH]; simpl.
    - intros ->%list_elem_of_singleton. done.
    - destruct (name_eqb m (r_name r)); intros [->|Hin]%elem_of_cons.
      + simpl. by destruct ix.
      + apply Hg. by right.
      + apply Hg. by left.
      + apply IH; [|done]. intros x Hx. apply Hg. by right. }
  intros Hg. specialize (H (answers msg) 0%nat []).
  destruct g.2 as [|k ks] eqn:E; [|eauto].
  exfalso. refine (H _ g Hg E). intros g' Hg'. by apply elem_of_nil in Hg'.
Qed.

Lemma policy_shape_reordered msg ctx mid groups o0 b2 b3 out o :
  permuted_within msg mid groups ->
  (∀ i, i ∈ positions groups ->
     ∃ r, answers msg !! i = Some r ∧ record_type r = cx_qtype ctx) ->
  (∀ g, g ∈ groups -> addresses_of mid g.2 = ordered_addresses ctx (addresses_of msg g.2)) ->
  (∀ t, target_type (cx_qtype ctx) = Some t -> groups = rrset_groups msg t) ->
  oc_modified o0 = false -> oc_added o0 = 0%nat ->
  finish_ttl mid ctx o0 false b2 b3 = (out, o) -> policy_shape msg ctx out o.
Proof.
  intros Hp Hpos Haddr Hgr Hm Ha E.
  pose proof (finish_ttl_spec mid ctx o0 false b2 b3) as H.
  rewrite E in H. destruct H as (H1 & H2 & H3 & _ & H5).
  exists mid, groups, 0%nat, [], b2, b3. rewrite H2, H3, Hm, Ha. by split_and!.
Qed.

Lemma policy_shape_augmented msg ctx mid groups final k ks rtype to_add o0 b2 b3 out o :
  permuted_within msg mid groups ->
  (∀ i, i ∈ positions groups ->
     ∃ r, answers msg !! i = Some r ∧ record_type r = cx_qtype ctx) ->
  (∀ g, g ∈ groups -> addresses_of mid g.2 = ordered_addresses ctx (addresses_of msg g.2)) ->
  (∀ t, target_type (cx_qtype ctx) = Some t -> groups = rrset_groups msg t) ->
  final ∈ groups -> final.2 = k :: ks -> target_type (cx_qtype ctx) = Some rtype ->
  NoDup to_add -> Forall (accepted ctx rtype (addresses_of mid final.2)) to_add ->
  (0 < length to_add <= max_added (cx_augment ctx))%nat ->
  fst (evaluate (eligibility_inputs ctx msg groups final)) = ElAugment ->
  oc_modified o0 = true -> oc_added o0 = length to_add -> oc_cloudflare_applied o0 = ElAugment ->
  finish_ttl (prepend_addresses mid final.2 final.1 (group_ttl mid final.2) to_add rtype)
    ctx o0 true b2 b3 = (out, o) ->
  policy_shape msg ctx out o.
Proof.
  intros Hp Hpos Haddr Hgr Hfin Hk Ht Hnd Hacc Hlen Hev Hm Ha Hap E.
  destruct final as [owner ix]. cbn [fst snd] in *. subst ix.
  set (ttl := group_ttl mid (k :: ks)) in *.
  pose proof (finish_ttl_spec (prepend_addresses mid (k :: ks) owner ttl to_add rtype)
    ctx o0 true b2 b3) as H.
  rewrite E in H. destruct H as (H1 & H2 & H3 & H4 & H5).
  pose proof (target_type_spec _ _ Ht) as [_ Hrt].
  assert (Forall (λ a, is_ipv4 a = rtype_eqb rtype RT_A) to_add) as Hfam.
  { eapply Forall_impl; [exact Hacc|]. intros a (c & _ & _ & _ & _ & _ & H & _). done. }
  destruct (new_records_spec owner ttl rtype to_add Hrt Hfam) as [Hr1 Hr2].
  assert (k < length (answers mid))%nat as Hkl.
  { rewrite (pw_perm _ _ _ Hp). destruct (Hpos k) as (r & Hr & _); [|by eapply lookup_lt_Some].
    unfold positions. apply list_elem_of_In, in_concat. exists (k :: ks).
    rewrite <- !list_elem_of_In. split; [|by left].
    by apply (list_elem_of_fmap_2 snd groups (owner, k :: ks)). }
  exists mid, groups, k, (omap (new_record owner ttl rtype) to_add), b2, b3.
  rewrite H2, H3, Hm, Ha. split_and!; try done.
  - rewrite H1. unfold prepend_addresses. by rewrite insert_all_eq by lia.
  - rewrite <- (length_map record_address), Hr1. apply length_map.
  - intros _. exists (owner, k :: ks), rtype, to_add. rewrite H4. split_and!; done || lia.
Qed.

Lemma apply_answer_policy_shape msg ctx out o :
  apply_answer_policy msg ctx = (out, o) -> policy_shape msg ctx out o.
Proof.
  unfold apply_answer_policy.
  destruct (target_type (cx_qtype ctx)) as [rtype|] eqn:Et;
    [|apply policy_shape_plain; by rewrite Et].
  apply target_type_spec in Et as Ht. destruct Ht as [Hq Ht].
  pose proof (rrset_groups_ok msg rtype Ht) as Hok.
  pose proof (rrset_groups_elem msg rtype) as Helem.
  pose proof (group_head msg rtype) as Hhead.
  destruct (last (rrset_groups msg rtype)) as [final|] eqn:El.
  2:{ apply policy_shape_plain. intros t Ht'. rewrite Et in Ht'. injection Ht' as <-.
      by apply last_None in El. }
  assert (final ∈ rrset_groups msg rtype) as Hfin by by apply last_Some_elem_of.
  destruct (Hhead final Hfin) as (k & ks & Hk). clear Hhead.
  assert (∀ t, target_type (cx_qtype ctx) = Some t -> rrset_groups msg rtype = rrset_groups msg t)
    as Hgr by (intros t Ht'; rewrite Et in Ht'; by injection Ht' as <-).
  set (groups := rrset_groups msg rtype) in *.
  destruct (evaluate (eligibility_inputs ctx msg groups final)) as [el fb] eqn:Ee.
  unfold order_groups.
  pose proof (order_groups_fold ctx msg false OdDisabled groups Hok) as Hord.
  destruct (fold_left _ groups _) as [[mid any] dec]. destruct Hord as (Hperm & _ & Haddr).
  assert (∀ i, i ∈ positions groups ->
    ∃ r, answers msg !! i = Some r ∧ record_type r = cx_qtype ctx) as Hpos.
  { intros i Hi. rewrite Hq. by apply Helem. }
  set (existing := addresses_of mid final.2).
  destruct (select_candidates_spec ctx rtype existing (best_cost ctx existing)
    (cx_verified ctx) []) as (Hnd & Hacc & Hlen);
    [done|constructor|constructor|simpl; lia|].
  revert Hnd Hacc Hlen. generalize (select_candidates ctx rtype existing
    (best_cost ctx existing) (cx_verified ctx) []). intros res Hnd Hacc Hlen.
  destruct (bool_decide (el = ElAugment) && negb (length res =? 0)%nat) eqn:Eaug.
  - apply andb_true_iff in Eaug as [->%bool_decide_eq_true Hres].
    rewrite bool_decide_true by done. rewrite Hres. cbn [negb andb]. intros E.
    apply negb_true_iff, Nat.eqb_neq in Hres.
    eapply (policy_shape_augmented msg ctx mid groups final k ks rtype res); try done; try lia; try reflexivity.
    by rewrite Ee.
  - assert ((if bool_decide (el = ElAugment) then res else []) = []) as ->.
    { case_bool_decide; [|done]. simpl in Eaug.
      apply negb_false_iff, Nat.eqb_eq in Eaug. by apply nil_length_inv. }
    cbn [length Nat.eqb negb]. rewrite ?andb_true_r, ?andb_false_r, ?orb_false_r.
    destruct (bool_decide (el = ElAugment)); intros E;
      (eapply policy_shape_reordered; [exact Hperm|exact Hpos|exact Haddr|exact Hgr| | |exact E]);
      done.
Qed.

(** ** Properties *)

Lemma cap_answers msg l ttl : answers (cap_ttls (with_answers msg l) ttl) = map (capped_at ttl) l.
Proof. done. Qed.

Lemma records_at_capped ttl l ix :
  omap record_address (records_at (map (capped_at ttl) l) ix)
  = omap record_address (records_at l ix).
Proof.
  unfold records_at. induction ix as [|i ix IH]; cbn; [done|].
  rewrite list_lookup_fmap. destruct (l !! i) as [r|]; cbn; [|exact IH].
  change (record_address (capped_at ttl r)) with (record_address r).
  destruct (record_address r); [f_equal|]; exact IH.
Qed.

(** Unless addresses were added, the policy reorders and nothing else: the
    answer section is a permutation of the upstream's, every record that is not
    of the queried address type stays at its position, the other sections and
    the header are as they were, and the only change inside any record is that
    its TTL is lowered to the client TTL. *)
Theorem policy_only_permutes msg ctx out o
    (Happly : apply_answer_policy msg ctx = (out, o)) (Hmod : oc_modified o = false) :
  answers out ≡ₚ map (capped_at (oc_client_ttl o)) (answers msg) ∧
  (∀ i r, answers msg !! i = Some r -> record_type r ≠ cx_qtype ctx ->
     answers out !! i = Some (capped_at (oc_client_ttl o) r)) ∧
  authorities out = map (capped_at (oc_client_ttl o)) (authorities msg) ∧
  additionals out = map (capped_at (oc_client_ttl o)) (additionals msg) ∧
  metadata out = metadata msg ∧ queries out = queries msg ∧ edns out = edns msg ∧
  oc_added o = 0%nat.
Proof.
  apply apply_answer_policy_shape in Happly
    as (mid & groups & k & added & b2 & b3 & Hp & Hpos & _ & _ & -> & _ & Hlen & Hadd & _).
  specialize (Hadd Hmod) as ->. destruct (pw_shell _ _ _ Hp) as (S1 & S2 & S3 & S4 & S5).
  rewrite cap_answers. cbn [app]. rewrite take_drop. split_and!; try done.
  - by rewrite (pw_perm _ _ _ Hp).
  - intros i r Hi Hne. rewrite list_lookup_fmap, (pw_out _ _ _ Hp), Hi; [done|].
    intros (r' & Hr' & Ht)%Hpos. congruence.
  - simpl. by rewrite S3.
  - simpl. by rewrite S4.
Qed.

(** In such an answer every RRset comes in the order the quality model chose
    for it: the addresses of each group of the result are those of the group in
    the upstream answer, arranged by [order_addresses]. *)
Theorem policy_orders_each_rrset msg ctx out o rtype
    (Happly : apply_answer_policy msg ctx = (out, o)) (Hmod : oc_modified o = false)
    (Htype : target_type (cx_qtype ctx) = Some rtype) (g : Name * list nat)
    (Hg : g ∈ rrset_groups msg rtype) :
  addresses_of out g.2 = ordered_addresses ctx (addresses_of msg g.2).
Proof.
  apply apply_answer_policy_shape in Happly
    as (mid & groups & k & added & b2 & b3 & _ & _ & Ha & Hgr & -> & _ & _ & Hadd & _).
  specialize (Hadd Hmod) as ->. rewrite (Hgr _ Htype) in Ha. rewrite <- Ha by done.
  unfold addresses_of. rewrite cap_answers. cbn [app]. rewrite take_drop.
  apply records_at_capped.
Qed.

(** When addresses were added, every original record is still there, in an
    order the plain policy could have produced, and the additions are one
    contiguous block in front of the RRset that answers the question.  There are
    between one and the configured maximum of them, all different, and each one
    is a fresh, sufficiently validated and sufficiently measured candidate of the
    queried family that lies in the official prefixes, is ordinary global
    unicast, and was not in the answer already.  This happens only to an answer
    proved insecure, in verified-augment mode. *)
Theorem policy_additions_are_verified msg ctx out o
    (Happly : apply_answer_policy msg ctx = (out, o)) (Hmod : oc_modified o = true) :
  ∃ mid k added addrs existing rtype,
    mid ≡ₚ answers msg ∧
    (∀ i r, answers msg !! i = Some r -> record_type r ≠ cx_qtype ctx -> mid !! i = Some r) ∧
    answers out = map (capped_at (oc_client_ttl o)) (take k mid ++ added ++ drop k mid) ∧
    map record_address added = map Some addrs ∧ NoDup addrs ∧
    (0 < length addrs <= max_added (cx_augment ctx))%nat ∧ oc_added o = length addrs ∧
    Forall (accepted ctx rtype existing) addrs ∧
    (∃ g, g ∈ rrset_groups msg rtype ∧ existing ≡ₚ addresses_of msg g.2) ∧
    cx_dnssec ctx = Insecure ∧ cx_cloudflare_mode ctx = CfVerifiedAugment ∧
    cx_domain_excluded ctx = false ∧ cx_baseline_validated ctx = true.
Proof.
  apply apply_answer_policy_shape in Happly
    as (mid & groups & k & added & b2 & b3 & Hp & Hpos & Ha & Hgr & -> & _ & Hlen & _ & Haug).
  destruct (Haug Hmod) as (final & rtype & to_add & Hfin & _ & Ht & Hev & Hcount & Hk & Hnd &
    Hacc & Hra & _).
  apply evaluate_augment in Hev as (_ & Hmode & _ & Hex & _ & _ & Hd & _ & Hb & _).
  exists (answers mid), k, added, to_add, (addresses_of mid final.2), rtype.
  assert (length added = length to_add) as Hl
    by (by rewrite <- (length_map record_address), Hra, length_map).
  split_and!; try done; try lia.
  - apply (pw_perm _ _ _ Hp).
  - intros i r Hi Hne. rewrite (pw_out _ _ _ Hp); [done|].
    intros (r' & Hr' & Hr'')%Hpos. congruence.
  - exists final. rewrite <- (Hgr _ Ht). split; [done|]. rewrite Ha by done. apply ordered_perm.
Qed.

Lemma policy_ttls msg ctx out o :
  apply_answer_policy msg ctx = (out, o) ->
  (∀ r, r ∈ answers out ++ authorities out ++ additionals out -> r_ttl r <= oc_client_ttl o) ∧
  oc_client_ttl o <= cx_remaining_authoritative ctx ∧
  (∀ sig, cx_remaining_signature ctx = Some sig -> oc_client_ttl o <= sig) ∧
  (cx_recent_network_change ctx = true -> oc_client_ttl o <= cap_network_change (cx_ttl ctx)).
Proof.
  intros (mid & groups & k & added & b2 & b3 & _ & _ & _ & _ & -> & Httl & _)%apply_answer_policy_shape.
  split.
  - intros r Hr. cbn [answers authorities additionals cap_ttls map_ttls] in Hr.
    rewrite <- !map_app in Hr. apply list_elem_of_fmap in Hr as (r' & -> & _). simpl. lia.
  - rewrite Httl. rewrite effective_client_ttl_eq. unfold capped. simpl.
    split_and!; intros; repeat case_match; simplify_eq/=; lia.
Qed.

(** Whatever the policy decides, the header, the question and the OPT record stay. *)
Lemma policy_shell msg ctx out o :
  apply_answer_policy msg ctx = (out, o) ->
  metadata out = metadata msg ∧ queries out = queries msg ∧ edns out = edns msg.
Proof.
  intros (mid & groups & k & added & b2 & b3 & Hp & _ & _ & _ & -> & _)%apply_answer_policy_shape.
  destruct (pw_shell _ _ _ Hp) as (? & ? & _ & _ & ?). done.
Qed.

(** Only an answer that is proved insecure is ever added to. *)
Lemma policy_modified_needs msg ctx out o :
  apply_answer_policy msg ctx = (out, o) -> oc_modified o = true ->
  cx_cloudflare_enabled ctx = true ∧ cx_cloudflare_mode ctx = CfVerifiedAugment ∧ cx_dnssec ctx = Insecure.
Proof.
  intros (mid & groups & k & added & b2 & b3 & _ & _ & _ & _ & _ & _ & _ & _ & Haug)
    %apply_answer_policy_shape Hm.
  destruct (Haug Hm) as (final & rtype & to_add & _ & _ & _ & Hev & _).
  by apply evaluate_augment in Hev as (? & ? & _ & _ & _ & _ & ? & _).
Qed.

Lemma policy_unmodified msg ctx out o :
  apply_answer_policy msg ctx = (out, o) -> cx_dnssec ctx ≠ Insecure ->
  oc_modified o = false ∧
  answers out ≡ₚ map (capped_at (oc_client_ttl o)) (answers msg) ∧
  authorities out = map (capped_at (oc_client_ttl o)) (authorities msg) ∧
  additionals out = map (capped_at (oc_client_ttl o)) (additionals msg).
Proof.
  intros Happly Hd.
  assert (oc_modified o = false) as Hm.
  { destruct (oc_modified o) eqn:E; [|done]. by destruct (policy_modified_needs _ _ _ _ Happly E) as (_ & _ & ?). }
  apply apply_answer_policy_shape in Happly
    as (mid & groups & k & added & b2 & b3 & Hp & _ & _ & _ & -> & _ & _ & Hadd & _).
  rewrite (Hadd Hm). destruct (pw_shell _ _ _ Hp) as (_ & _ & S3 & S4 & _).
  rewrite cap_answers. cbn [app]. rewrite take_drop. split_and!; [done|..].
  - by rewrite (pw_perm _ _ _ Hp).
  - cbn. by rewrite S3.
  - cbn. by rewrite S4.
Qed.

(** Where the records of the answer section come from. *)
Lemma policy_answer_origin msg ctx out o r :
  apply_answer_policy msg ctx = (out, o) -> r ∈ answers out ->
  (∃ r0, r0 ∈ answers msg ∧ r = capped_at (oc_client_ttl o) r0) ∨
  (∃ a rtype existing, record_address r = Some a ∧ accepted ctx rtype existing a ∧
     cx_cloudflare_mode ctx = CfVerifiedAugment ∧ cx_dnssec ctx = Insecure).
Proof.
  intros (mid & groups & k & added & b2 & b3 & Hp & _ & _ & _ & -> & _ & _ & Hadd & Haug)
    %apply_answer_policy_shape.
  rewrite cap_answers. intros (r0 & -> & Hr0)%list_elem_of_fmap.
  assert (r0 ∈ answers mid -> ∃ r1, r1 ∈ answers msg ∧
    capped_at (oc_client_ttl o) r0 = capped_at (oc_client_ttl o) r1) as Hmid.
  { intros Hin. exists r0. split; [|done]. by rewrite <- (pw_perm _ _ _ Hp). }
  rewrite !elem_of_app in Hr0. destruct Hr0 as [Hr0|[Hr0|Hr0]].
  - left. apply Hmid. rewrite <- (take_drop k (answers mid)). apply elem_of_app. by left.
  - right. destruct (oc_modified o) eqn:Hm.
    2:{ rewrite (Hadd eq_refl) in Hr0. by apply elem_of_nil in Hr0. }
    destruct (Haug eq_refl) as (final & rtype & to_add & _ & _ & _ & Hev & _ & _ & _ & Hacc & Hra & _).
    apply evaluate_augment in Hev as (_ & Hmode & _ & _ & _ & _ & Hd & _).
    assert (record_address r0 ∈ map record_address added) as Hin by (by apply list_elem_of_fmap_2).
    rewrite Hra in Hin. apply list_elem_of_fmap in Hin as (a & Ha & Hin).
    exists a, rtype, (addresses_of mid final.2). rewrite Forall_forall in Hacc.
    split_and!; [exact Ha|by apply Hacc|done|done].
  - left. apply Hmid. rewrite <- (take_drop k (answers mid)). apply elem_of_app. by right.
Qed.

(** Without a reason to reorder or to add anything, the answer section passes
    through as it is. *)
Lemma order_groups_id ctx msg b d groups :
  (∀ l, ordered_addresses ctx l = l) ->
  ∃ d', fold_left (order_group ctx) groups (msg, b, d) = (msg, b, d').
Proof.
  intros Hid. revert d. induction groups as [|g groups IH]; intros d; cbn [fold_left]; [by eexists|].
  assert (∃ d', order_group ctx (msg, b, d) g = (msg, b, d')) as [d' ->]; [|apply IH].
  unfold order_group. destruct (_ <? _)%nat; [by eexists|].
  rewrite bool_decide_true by apply Hid. by eexists.
Qed.

Lemma policy_passes_through msg ctx out o :
  (∀ l, ordered_addresses ctx l = l) -> oc_modified o = false ->
  apply_answer_policy msg ctx = (out, o) -> answers out = map (capped_at (oc_client_ttl o)) (answers msg).
Proof.
  intros Hid Hm. assert (∀ msg' o' b1 b2 b3, finish_ttl msg' ctx o' b1 b2 b3 = (out, o) ->
    answers out = map (capped_at (oc_client_ttl o)) (answers msg') ∧ oc_modified o = oc_modified o') as Hf.
  { intros msg' o' b1 b2 b3 E. pose proof (finish_ttl_spec msg' ctx o' b1 b2 b3) as H. rewrite E in H.
    destruct H as (-> & -> & _). done. }
  unfold apply_answer_policy, order_groups. repeat case_match; try (intros ?%Hf; tauto).
  all: match goal with H : fold_left _ ?gs (?m, ?b, ?d) = _ |- _ =>
         destruct (order_groups_id ctx m b d gs Hid) as [d' Hd]; rewrite Hd in H; simplify_eq end.
  all: intros [-> Hm']%Hf; rewrite Hm in Hm'; cbn [oc_modified] in Hm'.
  all: match goal with H : negb _ = true |- _ => congruence | _ => done end.
Qed.

(** No record of any section leaves the policy with a TTL above the client
    TTL, and the client TTL respects the remaining authoritative TTL, the
    signature lifetime and, after a network change, the reduced cap. *)
Theorem policy_bounds_every_ttl msg ctx out o
    (Happly : apply_answer_policy msg ctx = (out, o)) :
  (∀ r, r ∈ answers out ++ authorities out ++ additionals out -> r_ttl r <= oc_client_ttl o) ∧
  oc_client_ttl o <= cx_remaining_authoritative ctx ∧
  (∀ sig, cx_remaining_signature ctx = Some sig -> oc_client_ttl o <= sig) ∧
  (cx_recent_network_change ctx = true -> oc_client_ttl o <= cap_network_change (cx_ttl ctx)).
Proof. by apply (policy_ttls msg). Qed.

End answer.

(** ** Witnesses *)

Section witnesses.
#[local] Existing Instance text_names.
#[local] Existing Instance ipnet_reference.
#[local] Instance float_one : FloatLib := { powf _ _ := f64_one; powi _ _ := f64_one }.

Definition rec_a (owner : string) (a : Z) : DnsRecord (list ascii) :=
  mk_Record (lit owner) IN 300 (RD_A a) PInsecure.

(** An alias, its two addresses, and a signature in between. *)
Definition answer_message : Message (list ascii) :=
  mk_Message (mk_Metadata 7 MtResponse OpQuery false false true true false false NoError)
    [mk_Query (lit "www.example.com.") RT_A IN]
    [mk_Record (lit "www.example.com.") IN 300 (RD_CNAME (lit "cdn.example.net.")) PInsecure;
     rec_a "cdn.example.net." (ipv4 104 16 0 1);
     mk_Record (lit "cdn.example.net.") IN 300 (RD_RRSIG 0) PInsecure;
     rec_a "cdn.example.net." (ipv4 104 16 0 2)] [] [] None.

Definition fast_at (latency_ms : Z) : QualityStats :=
  record_all (quality_new 1) no_exploration
    (repeat (ObsSuccess, Some (from_millis latency_ms), 1000) 5).

Definition answer_context (mode : CloudflareMode) : AnswerContext := {|
  cx_qtype := RT_A; cx_dnssec := Insecure; cx_cloudflare_enabled := true;
  cx_cloudflare_mode := mode; cx_snapshot := Some builtin; cx_domain_excluded := false;
  cx_baseline_validated := true;
  cx_verified := [mk_VerifiedCandidate (V4 (ipv4 104 16 0 9)) 5 (f64_of_Z 1) 20 true];
  cx_can_validate_ech := false;
  cx_quality := {[ V4 (ipv4 104 16 0 1) := fast_at 200; V4 (ipv4 104 16 0 2) := fast_at 5 ]};
  cx_ranking := no_exploration; cx_augment := default_AugmentConfig; cx_ttl := default_TtlConfig;
  cx_remaining_authoritative := 250; cx_remaining_signature := None; cx_is_stale := false;
  cx_recent_network_change := false; cx_now := 1000; cx_explore_seed := 7 |}.

Definition preserved : Message (list ascii) * AnswerOutcome :=
  Eval vm_compute in apply_answer_policy answer_message (answer_context CfPreserve).
Definition augmented_answer : Message (list ascii) * AnswerOutcome :=
  Eval vm_compute in apply_answer_policy answer_message (answer_context CfVerifiedAugment).

Lemma policy_only_permutes_witness :
  omap record_address (answers preserved.1) = [V4 (ipv4 104 16 0 2); V4 (ipv4 104 16 0 1)] ∧
  answers preserved.1 ≡ₚ map (capped_at (oc_client_ttl preserved.2)) (answers answer_message).
Proof.
  split; [reflexivity|].
  apply (policy_only_permutes answer_message (answer_context CfPreserve) preserved.1 preserved.2);
    vm_compute; reflexivity.
Defined.

Definition cdn_group : list ascii * list nat := (lit "cdn.example.net.", [1; 3]%nat).

Lemma policy_orders_each_rrset_witness :
  addresses_of preserved.1 cdn_group.2
    = ordered_addresses (answer_context CfPreserve) (addresses_of answer_message cdn_group.2).
Proof.
  assert (apply_answer_policy answer_message (answer_context CfPreserve)
    = (preserved.1, preserved.2)) as Happly by (vm_compute; reflexivity).
  assert (cdn_group ∈ rrset_groups answer_message RT_A) as Hg by (vm_compute; left).
  exact (policy_orders_each_rrset answer_message (answer_context CfPreserve) preserved.1
    preserved.2 RT_A Happly eq_refl eq_refl cdn_group Hg).
Defined.

Lemma policy_additions_are_verified_witness :
  oc_added augmented_answer.2 = 1%nat ∧
  cx_dnssec (answer_context CfVerifiedAugment) = Insecure.
Proof.
  split; [reflexivity|].
  assert (apply_answer_policy answer_message (answer_context CfVerifiedAugment)
    = (augmented_answer.1, augmented_answer.2)) as Happly by (vm_compute; reflexivity).
  destruct (policy_additions_are_verified answer_message (answer_context CfVerifiedAugment)
    augmented_answer.1 augmented_answer.2 Happly eq_refl)
    as (_ & _ & _ & _ & _ & _ & _ & _ & _ & _ & _ & _ & _ & _ & _ & H & _).
  exact H.
Defined.

Lemma policy_bounds_every_ttl_witness :
  oc_client_ttl preserved.2 <= cx_remaining_authoritative (answer_context CfPreserve).
Proof.
  assert (apply_answer_policy answer_message (answer_context CfPreserve)
    = (preserved.1, preserved.2)) as Happly by (vm_compute; reflexivity).
  exact (proj1 (proj2 (policy_bounds_every_ttl answer_message (answer_context CfPreserve)
    preserved.1 preserved.2 Happly))).
Defined.

End witnesses.
