(* ===== verification/Evidence.v ===== *)
(** * What is known about addresses and names

    [src/ranking/store.rs]: the bounded store of measurement series, one for each
    address, port and profile.  [src/ranking/service.rs]: the bounded list of names
    with evidence of an HTTPS service, which decides whether measurements may order
    an answer at all. *)

From Stdlib Require Import Ascii String.
From S2P Require Import Prelude.
From S2P Require Import Hashing.
From S2P Require Import Floats.
From S2P Require Import Names.
From S2P Require Import Net.
From S2P Require Import Config.
From S2P Require Import Dns.
From S2P Require Import Quality.
From S2P Require Import Ranking.

(** ** Measurement series *)

Record ProbeKey : Type := mk_ProbeKey {
  pk_addr : IpAddr;
  pk_port : Z;
  pk_profile : str
}.

#[global] Instance ProbeKey_eq_dec : EqDecision ProbeKey.
Proof. solve_decision. Defined.

#[global] Instance ProbeKey_countable : Countable ProbeKey.
Proof.
  refine (inj_countable' (λ k, (pk_addr k, pk_port k, pk_profile k))
    (λ '(a, p, f), mk_ProbeKey a p f) _).
  by intros [].
Defined.

Definition https_key (addr : IpAddr) (port : Z) (hostname : str) : ProbeKey :=
  mk_ProbeKey addr port (lit "https:" ++ trim_end_matches dot hostname).

Definition generic_key (addr : IpAddr) (port : Z) : ProbeKey := mk_ProbeKey addr port (lit "generic").
Definition quic_key (addr : IpAddr) (port : Z) : ProbeKey := mk_ProbeKey addr port (lit "quic").

Record PersistedQuality : Type := mk_PersistedQuality {
  pq_alpha : f64;
  pq_beta : f64;
  pq_ewma_ms : f64;
  pq_p95_ms : f64;
  pq_jitter_ms : f64;
  pq_samples : Z;
  pq_successes : Z;
  pq_generation : Z
}.

Definition to_persisted (s : QualityStats) : PersistedQuality :=
  mk_PersistedQuality (q_alpha s) (q_beta s) (q_ewma_ms s) (p95_ms s) (q_jitter_ms s) (q_samples s)
    (q_successes s) (q_generation s).

Definition revived (p : PersistedQuality) : QualityStats :=
  from_persisted (pq_generation p) (pq_alpha p) (pq_beta p) (pq_ewma_ms p) (pq_p95_ms p)
    (pq_jitter_ms p) (pq_samples p) (pq_successes p).

Record QualityStore : Type := mk_QualityStore {
  qs_inner : gmap ProbeKey QualityStats;
  qs_capacity : nat
}.

Definition store_new (capacity : nat) : QualityStore := mk_QualityStore ∅ (Nat.max capacity 1).

Section store.
Context {FL : FloatLib} {HK : HashOrder ProbeKey}.
Implicit Types (st : QualityStore) (key : ProbeKey) (cfg : RankingConfig).

Definition fewer_samples (a b : QualityStats) : bool := q_samples a <=? q_samples b.

Definition evict (m : gmap ProbeKey QualityStats) (count : nat) : gmap ProbeKey QualityStats :=
  drop_least fewer_samples count m.

(** What one observation does to a series, or to a new one. *)
Definition observe_series cfg (s : option QualityStats) (class : ObservationClass)
    (latency : option Duration) (generation : Z) (now : Instant) : QualityStats :=
  let s := default (quality_new generation) s in
  let s := if q_generation s =? generation then s
           else demote_to_prior s generation (f64_min (neutral_cost_ms cfg) f64_one) in
  record s class latency now cfg.

Definition store_record st key (class : ObservationClass) (latency : option Duration) (generation : Z)
    (now : Instant) cfg : QualityStore :=
  let m := qs_inner st in
  let m := if (qs_capacity st <=? size m)%nat && negb (bool_decide (is_Some (m !! key)))
           then evict m (qs_capacity st / 16 + 1) else m in
  mk_QualityStore (<[key := observe_series cfg (m !! key) class latency generation now]> m)
    (qs_capacity st).

Definition store_get st key : option QualityStats := qs_inner st !! key.

Definition snapshot_for st (addrs : list IpAddr) (port : Z) (hostname : str) : gmap IpAddr QualityStats :=
  fold_left (λ out addr,
    match qs_inner st !! https_key addr port hostname with
    | Some s => <[addr := s]> out
    | None =>
        match qs_inner st !! generic_key addr port with
        | Some s => <[addr := s]> out
        | None => out
        end
    end) addrs ∅.

Definition store_generation_change st (generation : Z) (factor : f64) : QualityStore :=
  mk_QualityStore ((λ s, demote_to_prior s generation factor) <$> qs_inner st) (qs_capacity st).

Definition store_export st : list (ProbeKey * PersistedQuality) :=
  map (λ e : ProbeKey * QualityStats, (e.1, to_persisted e.2)) (hash_iter (qs_inner st)).

Fixpoint import_rows (capacity : nat) (rows : list (ProbeKey * PersistedQuality))
    (m : gmap ProbeKey QualityStats) : gmap ProbeKey QualityStats :=
  match rows with
  | [] => m
  | (key, p) :: rows =>
      if (capacity <=? size m)%nat then m else import_rows capacity rows (<[key := revived p]> m)
  end.

Definition store_import st (rows : list (ProbeKey * PersistedQuality)) : QualityStore :=
  mk_QualityStore (import_rows (qs_capacity st) rows (qs_inner st)) (qs_capacity st).

Definition store_clear st : QualityStore := mk_QualityStore ∅ (qs_capacity st).

(** *** Runs *)

Inductive StoreOp : Type :=
| OpRecord (key : ProbeKey) (class : ObservationClass) (latency : option Duration) (generation : Z)
    (now : Instant)
| OpGeneration (generation : Z) (factor : f64)
| OpImport (rows : list (ProbeKey * PersistedQuality))
| OpClear.

Definition store_step cfg st (op : StoreOp) : QualityStore :=
  match op with
  | OpRecord key class latency generation now => store_record st key class latency generation now cfg
  | OpGeneration generation factor => store_generation_change st generation factor
  | OpImport rows => store_import st rows
  | OpClear => store_clear st
  end.

Definition store_run cfg (ops : list StoreOp) st : QualityStore := fold_left (store_step cfg) ops st.

(** The same run, as one series sees it: nothing but its own observations counts. *)
Definition replay cfg key (s : option QualityStats) (op : StoreOp) : option QualityStats :=
  match op with
  | OpRecord k class latency generation now =>
      if decide (k = key) then Some (observe_series cfg s class latency generation now) else s
  | OpGeneration generation factor => (λ s, demote_to_prior s generation factor) <$> s
  | OpImport rows => fold_left (λ s e, if decide (e.1 = key) then Some (revived e.2) else s) rows s
  | OpClear => None
  end.

Definition op_keys (op : StoreOp) : list ProbeKey :=
  match op with
  | OpRecord key _ _ _ _ => [key]
  | OpImport rows => rows.*1
  | _ => []
  end.

(** *** Lemmas *)

Lemma import_rows_size capacity rows m :
  (size m <= capacity)%nat -> (size (import_rows capacity rows m) <= capacity)%nat.
Proof.
  revert m. induction rows as [|[key p] rows IH]; intros m Hm; cbn [import_rows]; [done|].
  destruct (Nat.leb_spec capacity (size m)) as [_|Hlt]; [done|]. apply IH.
  rewrite map_size_insert. case_match; unfold id; lia.
Qed.

Lemma store_step_capacity cfg st op : qs_capacity (store_step cfg st op) = qs_capacity st.
Proof. by destruct op. Qed.

Lemma store_step_bounded cfg st op :
  (1 <= qs_capacity st)%nat -> (size (qs_inner st) <= qs_capacity st)%nat ->
  (size (qs_inner (store_step cfg st op)) <= qs_capacity st)%nat.
Proof.
  intros Hc Hs. destruct op; cbn [store_step store_record store_generation_change store_import
    store_clear qs_inner].
  - rewrite map_size_insert. destruct (Nat.leb_spec (qs_capacity st) (size (qs_inner st))) as [Hf|Hf];
      cbn [andb]; [|case_match; unfold id; lia].
    case_bool_decide as Hk; cbn [negb].
    + destruct Hk as [s Hk]. rewrite Hk. unfold id. lia.
    + unfold evict. rewrite drop_least_size. case_match; unfold id; lia.
  - by rewrite map_size_fmap.
  - by apply import_rows_size.
  - rewrite map_size_empty. lia.
Qed.

(** Imported rows, while there is room for all of them. *)
Lemma import_rows_lookup (S : gset ProbeKey) capacity rows m key :
  dom m ⊆ S -> (∀ k, k ∈ rows.*1 -> k ∈ S) -> (size S < capacity)%nat ->
  import_rows capacity rows m !! key
    = fold_left (λ s e, if decide (e.1 = key) then Some (revived e.2) else s) rows (m !! key) ∧
  dom (import_rows capacity rows m) ⊆ S.
Proof.
  revert m. induction rows as [|[k p] rows IH]; intros m Hm Hk Hs; cbn [import_rows fold_left fst snd].
  { done. }
  assert (size m <= size S)%nat as Hle by (rewrite <- size_dom; by apply subseteq_size).
  destruct (Nat.leb_spec capacity (size m)) as [|_]; [lia|].
  assert (k ∈ S) as Hin by (apply Hk; left).
  destruct (IH (<[k := revived p]> m)) as [E1 E2]; [set_solver|intros k' Hk'; apply Hk; by right|done|].
  split; [|exact E2]. rewrite E1. f_equal. case_decide as E.
  - subst. by rewrite lookup_insert_eq.
  - by rewrite lookup_insert_ne.
Qed.

Lemma store_step_replay cfg (S : gset ProbeKey) st op key :
  dom (qs_inner st) ⊆ S -> (∀ k, k ∈ op_keys op -> k ∈ S) -> (size S < qs_capacity st)%nat ->
  store_get (store_step cfg st op) key = replay cfg key (store_get st key) op ∧
  dom (qs_inner (store_step cfg st op)) ⊆ S.
Proof.
  intros Hd Hk Hs. unfold store_get.
  assert (size (qs_inner st) <= size S)%nat as Hle by (rewrite <- size_dom; by apply subseteq_size).
  destruct op as [k class latency generation now|generation factor|rows|];
    cbn [store_step store_record store_generation_change store_import store_clear qs_inner replay].
  - destruct (Nat.leb_spec (qs_capacity st) (size (qs_inner st))) as [|_]; [lia|]. cbn [andb].
    assert (k ∈ S) as Hin by (apply Hk; left). split; [|set_solver].
    case_decide as E; [subst; by rewrite lookup_insert_eq|by rewrite lookup_insert_ne].
  - by rewrite lookup_fmap, dom_fmap_L.
  - by apply import_rows_lookup.
  - split; [apply lookup_empty|set_solver].
Qed.

(** The store stays within its capacity, and while the keys it is told about fit
    in it, it is a family of independent series: what is stored under a key after
    any run of observations, imports, network changes and clears is what that key's
    own observations make of it, whatever is recorded under other keys. *)
Theorem series_are_independent cfg n ops :
  (size (qs_inner (store_run cfg ops (store_new n))) <= Nat.max n 1)%nat ∧
  ((size (list_to_set (ops ≫= op_keys) : gset ProbeKey) < Nat.max n 1)%nat ->
   ∀ key, store_get (store_run cfg ops (store_new n)) key = fold_left (replay cfg key) ops None).
Proof.
  split.
  - assert (∀ st, (1 <= qs_capacity st)%nat -> (size (qs_inner st) <= qs_capacity st)%nat ->
      (size (qs_inner (store_run cfg ops st)) <= qs_capacity st)%nat) as H.
    { induction ops as [|op ops IH]; intros st Hc Hs; [done|]. cbn [store_run fold_left].
      rewrite <- (store_step_capacity cfg st op) at 1. apply IH.
      - by rewrite store_step_capacity.
      - rewrite store_step_capacity. by apply store_step_bounded. }
    apply (H (store_new n)); cbn; [lia|]. rewrite map_size_empty. lia.
  - set (S := list_to_set (ops ≫= op_keys) : gset ProbeKey). intros Hs key.
    assert (∀ op k, op ∈ ops -> k ∈ op_keys op -> k ∈ S) as Hk.
    { intros op k Hop Hin. apply elem_of_list_to_set, list_elem_of_bind. by exists op. }
    clearbody S. change (None : option QualityStats) with (store_get (store_new n) key).
    assert (dom (qs_inner (store_new n)) ⊆ S) as Hd by (cbn; set_solver).
    change (Nat.max n 1) with (qs_capacity (store_new n)) in Hs.
    generalize dependent (store_new n). induction ops as [|op ops IH]; intros st Hs Hd; [done|].
    cbn [store_run fold_left].
    destruct (store_step_replay cfg S st op key) as [<- Hd']; [done|intros k; apply Hk; left|done|].
    apply IH; [intros op' k Hop; apply Hk; by right|by rewrite store_step_capacity|done].
Qed.

(** What the answer policy is shown of an address: its series for the host, or else
    the generic one. *)
Lemma snapshot_for_lookup st addrs port hostname a :
  snapshot_for st addrs port hostname !! a =
    if bool_decide (a ∈ addrs)
    then match store_get st (https_key a port hostname) with
         | Some s => Some s
         | None => store_get st (generic_key a port)
         end
    else None.
Proof.
  unfold snapshot_for, store_get.
  assert (∀ out : gmap IpAddr QualityStats, fold_left (λ out addr,
    match qs_inner st !! https_key addr port hostname with
    | Some s => <[addr := s]> out
    | None => match qs_inner st !! generic_key addr port with
              | Some s => <[addr := s]> out | None => out end
    end) addrs out !! a = if bool_decide (a ∈ addrs)
    then match qs_inner st !! https_key a port hostname with
         | Some s => Some s
         | None => match qs_inner st !! generic_key a port with Some s => Some s | None => out !! a end
         end
    else out !! a) as H.
  { induction addrs as [|b addrs IH]; intros out; [done|]. cbn [fold_left]. rewrite IH. clear IH.
    destruct (decide (a = b)) as [->|Hne].
    - rewrite (bool_decide_true (b ∈ b :: addrs)) by left.
      repeat case_match; rewrite ?lookup_insert_eq; done.
    - rewrite (bool_decide_ext (a ∈ b :: addrs) (a ∈ addrs)) by (rewrite elem_of_cons; naive_solver).
      repeat case_match; rewrite ?lookup_insert_ne by done; done. }
  rewrite H. case_bool_decide; [|done]. rewrite lookup_empty. repeat case_match; congruence.
Qed.

(** Making room costs the least: when a new key is recorded in a full store,
    [capacity / 16 + 1] series go, none of them with more samples than one that stays. *)
Theorem eviction_costs_the_least_measured st key class latency generation now cfg
    (Hfull : size (qs_inner st) = qs_capacity st) (Hnew : store_get st key = None)
    (Hc : (1 <= qs_capacity st)%nat) :
  let st' := store_record st key class latency generation now cfg in
  size (qs_inner st') = (qs_capacity st - qs_capacity st / 16)%nat ∧
  is_Some (store_get st' key) ∧
  ∀ k s, k ≠ key -> store_get st' k = Some s ->
    store_get st k = Some s ∧
    ∀ k0 s0, store_get st k0 = Some s0 -> store_get st' k0 = None -> q_samples s0 <= q_samples s.
Proof.
  unfold store_get in *. cbn zeta. unfold store_record. cbn [qs_inner].
  rewrite Hfull, Nat.leb_refl, Hnew, bool_decide_false by (by intros []). cbn [andb negb].
  set (m := evict (qs_inner st) (qs_capacity st / 16 + 1)).
  assert (m ⊆ qs_inner st) as Hsub by apply drop_least_subseteq.
  assert (m !! key = None) as Hm by (by eapply lookup_weaken_None).
  split_and!.
  - rewrite map_size_insert, Hm. unfold m, evict. rewrite drop_least_size, Hfull.
    pose proof (Nat.Div0.div_le_upper_bound (qs_capacity st) 16 (qs_capacity st) ltac:(lia)).
    assert (qs_capacity st / 16 < qs_capacity st)%nat by (apply Nat.div_lt; lia). lia.
  - rewrite lookup_insert_eq. by eexists.
  - intros k s Hne Hs. rewrite lookup_insert_ne in Hs by done.
    split; [by eapply lookup_weaken|]. intros k0 s0 H0 Hgone.
    destruct (decide (k0 = key)) as [->|Hne0]; [congruence|]. rewrite lookup_insert_ne in Hgone by done.
    apply Z.leb_le. refine (drop_least_lowest fewer_samples _ _ k0 s0 k s _ _ H0 Hgone Hs);
      unfold fewer_samples; intros *; lia.
Qed.

End store.

(** ** Names that are web services *)

Inductive ServiceClass : Set := Https | UnknownService.

(** The known names, most recently confirmed first. *)
Record ServiceClassifier : Type := mk_ServiceClassifier {
  sc_known : list str;
  sc_capacity : nat
}.

Definition classifier_new (capacity : nat) : ServiceClassifier :=
  mk_ServiceClassifier [] (Nat.max capacity 1).

Definition normalise_host (name : str) : str := to_ascii_lowercase (trim_end_matches dot name).

(** [Vec::remove] at a position that is known to exist, [Vec::pop]. *)
Definition remove_at {A} (i : nat) (l : list A) : list A := take i l ++ drop (S i) l.
Definition pop {A} (l : list A) : list A := take (length l - 1) l.

Definition note_https (c : ServiceClassifier) (name : str) : ServiceClassifier :=
  let key := normalise_host name in
  match position (str_eqb key) (sc_known c) with
  | Some pos => mk_ServiceClassifier (key :: remove_at pos (sc_known c)) (sc_capacity c)
  | None =>
      let known := key :: sc_known c in
      mk_ServiceClassifier (if (sc_capacity c <? length known)%nat then pop known else known)
        (sc_capacity c)
  end.

Definition classify_service (c : ServiceClassifier) (name : str) : ServiceClass :=
  if existsb (str_eqb (normalise_host name)) (sc_known c) then Https else UnknownService.

Definition is_web_service (c : ServiceClassifier) (name : str) : bool :=
  match classify_service c name with Https => true | UnknownService => false end.

Definition is_service_binding (rtype : RecordType) : bool :=
  match rtype with RT_HTTPS | RT_SVCB => true | _ => false end.

(** The names noted so far, each once, the most recent first. *)
Fixpoint distinct {A} `{EqDecision A} (l : list A) : list A :=
  match l with
  | [] => []
  | x :: l => x :: List.filter (λ y, negb (bool_decide (y = x))) (distinct l)
  end.

Definition without {A} `{EqDecision A} (x : A) (l : list A) : list A :=
  List.filter (λ y, negb (bool_decide (y = x))) l.

Lemma without_notin {A} `{EqDecision A} (x : A) l : x ∉ l -> without x l = l.
Proof.
  induction l as [|y l IH]; [done|]. intros [Hne Hni]%not_elem_of_cons. cbn.
  rewrite bool_decide_false by congruence. cbn. f_equal. by apply IH.
Qed.

Lemma without_app {A} `{EqDecision A} (x : A) l1 l2 : without x (l1 ++ l2) = without x l1 ++ without x l2.
Proof. apply List.filter_app. Qed.

Lemma without_elem {A} `{EqDecision A} (x y : A) l : y ∈ without x l <-> y ∈ l ∧ y ≠ x.
Proof.
  unfold without. rewrite list_elem_of_In, filter_In, <- list_elem_of_In, negb_true_iff, bool_decide_eq_false.
  done.
Qed.

Lemma distinct_NoDup {A} `{EqDecision A} (l : list A) : NoDup (distinct l).
Proof.
  induction l as [|x l IH]; cbn; constructor.
  - intros H%without_elem. naive_solver.
  - apply NoDup_ListNoDup, List.NoDup_filter, NoDup_ListNoDup, IH.
Qed.

Lemma distinct_elem {A} `{EqDecision A} (l : list A) x : x ∈ distinct l <-> x ∈ l.
Proof.
  induction l as [|y l IH]; [done|]. cbn. fold (without y (distinct l)).
  rewrite !elem_of_cons, without_elem, IH. destruct (decide (x = y)); naive_solver.
Qed.

(** Removing an element from the middle, where it is the only one. *)
Lemma without_middle {A} `{EqDecision A} (x : A) l1 l2 :
  NoDup (l1 ++ x :: l2) -> without x (l1 ++ x :: l2) = l1 ++ l2.
Proof.
  intros (_ & Hd & [Hni _]%NoDup_cons)%NoDup_app. rewrite without_app. cbn.
  rewrite bool_decide_true by done. cbn. fold (without x l2).
  rewrite !without_notin; [done|done|]. intros H1. apply (Hd x); [done|left].
Qed.

Lemma position_split {A} (p : A -> bool) l i :
  position p l = Some i -> ∃ x, l = take i l ++ x :: drop (S i) l ∧ p x = true.
Proof.
  intros (x & Hx & Hp)%position_Some. exists x. split; [|done]. symmetry. by apply take_drop_middle.
Qed.

Lemma position_None {A} (p : A -> bool) l : position p l = None -> ∀ x, x ∈ l -> p x = false.
Proof.
  induction l as [|y l IH]; cbn; [by intros _ x ?%elem_of_nil|].
  destruct (p y) eqn:E; [done|]. destruct (position p l); [done|].
  intros _ x [->|Hx]%elem_of_cons; auto.
Qed.

(** One more name, seen from the whole history [h] of distinct names. *)
Lemma note_https_step c name h :
  NoDup h -> (1 <= sc_capacity c)%nat -> sc_known c = take (sc_capacity c) h ->
  sc_known (note_https c name)
    = take (sc_capacity c) (normalise_host name :: without (normalise_host name) h).
Proof.
  intros Hnd Hc Hk. unfold note_https. set (key := normalise_host name). cbn zeta.
  destruct (sc_capacity c) as [|cap] eqn:Ecap; [lia|]. cbn [take].
  destruct (position (str_eqb key) (sc_known c)) as [i|] eqn:Ep.
  - cbn [sc_known]. f_equal. apply position_split in Ep as (x & Es & Hx). apply str_eqb_eq in Hx as <-.
    assert (length (sc_known c) <= S cap)%nat as Hlen by (rewrite Hk, length_take; lia).
    rewrite <- (take_drop (S cap) h), <- Hk in Hnd |- *. unfold remove_at.
    set (a := take i (sc_known c)) in *. set (b := drop (S i) (sc_known c)) in *. rewrite Es in Hnd |- *.
    rewrite <- app_assoc in Hnd |- *. cbn [app] in Hnd |- *. rewrite without_middle by done.
    rewrite app_assoc. assert (length (a ++ b) <= cap)%nat as Hab.
    { rewrite Es in Hlen. rewrite length_app in *. cbn in Hlen. lia. }
    destruct (decide (drop (S cap) h = [])) as [->|Hne].
    { rewrite app_nil_r, take_ge; done. }
    assert (length (a ++ b) = cap) as <-; [|by rewrite take_app_length].
    assert (S cap < length h)%nat.
    { destruct (decide (S cap < length h)%nat); [done|]. exfalso. apply Hne, drop_ge. lia. }
    assert (length (sc_known c) = S cap) as Hl by (rewrite Hk, length_take; lia).
    rewrite Es in Hl. rewrite length_app in *. cbn in Hl. lia.
  - assert (key ∉ sc_known c) as Hni.
    { intros Hin. pose proof (position_None _ _ Ep key Hin) as H. by rewrite str_eqb_refl in H. }
    assert (take cap (without key h) = take cap h) as ->.
    { destruct (decide (key ∈ h)) as [Hin|Hnin]; [|by rewrite without_notin].
      apply list_elem_of_split in Hin as (l1 & l2 & ->). rewrite without_middle by done.
      assert (S cap <= length l1)%nat as Hl.
      { destruct (decide (S cap <= length l1)%nat); [done|]. exfalso. apply Hni. rewrite Hk.
        rewrite take_app_ge by lia. apply elem_of_app. right.
        replace (S cap - length l1)%nat with (S (cap - length l1)) by lia. left. }
      rewrite !take_app_le by lia. done. }
    cbn [sc_known length]. rewrite Hk.
    destruct (Nat.ltb_spec (S cap) (S (length (take (S cap) h)))) as [Hlt|Hge]; unfold pop; cbn [length].
    + rewrite length_take in *. replace (S (S cap `min` length h) - 1)%nat with (S cap) by lia.
      cbn [take]. f_equal. rewrite take_take. f_equal. lia.
    + rewrite length_take in Hge. f_equal. rewrite !take_ge; [done|lia|lia].
Qed.

(** The bounded list implements its specification: after any sequence of
    confirmations it holds the [capacity] most recently confirmed distinct names,
    most recent first; so a name counts as a web service exactly when it is one of
    those, in whatever letter case and with or without the root dot it is asked for. *)
Theorem classifier_keeps_the_most_recent n names :
  let c := fold_left note_https names (classifier_new n) in
  sc_known c = take (Nat.max n 1) (distinct (rev (map normalise_host names))) ∧
  ∀ name, is_web_service c name = true <->
    normalise_host name ∈ take (Nat.max n 1) (distinct (rev (map normalise_host names))).
Proof.
  intros c.
  assert (sc_capacity c = Nat.max n 1 ∧
    sc_known c = take (Nat.max n 1) (distinct (rev (map normalise_host names)))) as [_ Hk].
  { unfold c. clear c. rewrite <- (rev_involutive names) at 1 2.
    rewrite <- map_rev. induction (rev names) as [|name l [IH1 IH2]]; [split; [done|cbn; by rewrite firstn_nil]|].
    cbn [rev map distinct]. rewrite fold_left_app. cbn [fold_left].
    split; [unfold note_https; by destruct (position _ _)|].
    rewrite (note_https_step _ _ (distinct (map normalise_host l))), IH1;
      [done|apply distinct_NoDup|lia|by rewrite IH1]. }
  split; [exact Hk|]. intros name. rewrite <- Hk. unfold is_web_service, classify_service.
  assert (existsb (str_eqb (normalise_host name)) (sc_known c) = true <-> normalise_host name ∈ sc_known c)
    as Hiff.
  { rewrite existsb_exists. split.
    - intros (x & Hx & E%str_eqb_eq). rewrite E. by apply list_elem_of_In.
    - intros H. exists (normalise_host name). split; [by apply list_elem_of_In|apply str_eqb_refl]. }
  rewrite <- Hiff. by destruct (existsb _ _).
Qed.

(** ** Concrete series *)

Section witnesses.
#[local] Instance evidence_floats : FloatLib := { powf _ _ := f64_one; powi _ _ := f64_one }.
#[local] Instance series_order : HashOrder ProbeKey := {
  hash_iter A m := map_to_list m; hash_iter_perm A m := Permutation_refl _ }.

Definition site (n : Z) : ProbeKey := https_key (V4 (ipv4 104 16 0 n)) 443 (lit "www.example.com.").

Definition hit (key : ProbeKey) (generation : Z) : StoreOp :=
  OpRecord key ObsSuccess (Some (from_millis 20)) generation (from_secs 1).

(** Ten measurements on one network, and one on the next. *)
Definition two_networks : QualityStore :=
  store_run default_RankingConfig (repeat (hit (site 1) 1) 10 ++ [hit (site 1) 2]) (store_new 8).

(** A series last measured on another network is to be kept as a weak prior only.
    The first observation on the new network keeps all of its weight: the factor
    passed is the neutral cost, which is above one. *)
Theorem first_observation_keeps_the_old_network :
  q_samples <$> store_get two_networks (site 1) = Some 11 ∧
  q_generation <$> store_get two_networks (site 1) = Some 2 ∧
  q_samples <$> store_get (store_generation_change (store_run default_RankingConfig
      (repeat (hit (site 1) 1) 10) (store_new 8)) 2 (f64_lit 25 100)) (site 1) = Some 2.
Proof. split_and!; vm_compute; reflexivity. Qed.

Lemma series_are_independent_witness :
  store_get (store_run default_RankingConfig [hit (site 1) 1; hit (site 2) 1] (store_new 8)) (site 2)
  = fold_left (replay default_RankingConfig (site 2)) [hit (site 1) 1; hit (site 2) 1] None.
Proof.
  refine (proj2 (series_are_independent default_RankingConfig 8 [hit (site 1) 1; hit (site 2) 1]) _ _).
  vm_compute. lia.
Defined.

Definition two_series : QualityStore :=
  store_run default_RankingConfig [hit (site 1) 1; hit (site 1) 1; hit (site 2) 1] (store_new 2).

Lemma eviction_costs_the_least_measured_witness :
  size (qs_inner (store_record two_series (site 3) ObsSuccess None 1 (from_secs 2) default_RankingConfig))
  = 2%nat.
Proof.
  refine (proj1 (eviction_costs_the_least_measured two_series (site 3) ObsSuccess None 1 (from_secs 2)
    default_RankingConfig _ _ _)); [vm_compute; reflexivity..|]. cbn. lia.
Defined.

End witnesses.
