(* ===== verification/Candidates.v ===== *)
(** * Cloudflare candidates and their validations

    [src/cloudflare/candidates.rs]: the bounded pool of candidate addresses, its
    admission pipeline and its eviction.  [src/cloudflare/state.rs]: the record of
    domain-level validations, the baselines, and what a change of prefixes or of
    network does to all of them.  (The operating mode of the same file is in
    [CloudflarePolicy].) *)

From Stdlib Require Import Ascii String.
From S2P Require Import Prelude.
From S2P Require Import Hashing.
From S2P Require Import Floats.
From S2P Require Import Names.
From S2P Require Import Net.
From S2P Require Import Config.
From S2P Require Import Prefixes.
From S2P Require Import Quality.
From S2P Require Import AnswerPolicy.

(** ** The pool *)

Inductive CandidateOrigin : Set := DnsAnswer | Seed | Sampling | FromConfig | Persisted.

Definition priority (o : CandidateOrigin) : Z :=
  match o with DnsAnswer => 0 | FromConfig => 1 | Persisted => 2 | Seed => 3 | Sampling => 4 end.

Inductive RejectReason : Set :=
| NotOfficialPrefix | SpecialUseAddress | NoSnapshot | PoolFull | BudgetExhausted
| Ipv6SamplingDisabled.

Inductive CandidateStage : Set := StageNew | TcpOk | TlsOk | HttpOk.

#[global] Instance CandidateStage_eq_dec : EqDecision CandidateStage.
Proof. solve_decision. Defined.

Definition stage_rank (s : CandidateStage) : Z :=
  match s with StageNew => 0 | TcpOk => 1 | TlsOk => 2 | HttpOk => 3 end.

Record Candidate : Type := mk_Candidate {
  cd_addr : IpAddr;
  cd_origin : CandidateOrigin;
  cd_first_seen : Instant;
  cd_last_seen : Instant;
  cd_last_probe : option Instant;
  cd_stage : CandidateStage;
  cd_successes : Z;
  cd_generation : Z;
  cd_colo : option str
}.

Definition is_eligible (c : Candidate) (min_successes : Z) : bool :=
  bool_decide (cd_stage c = HttpOk) && (min_successes <=? cd_successes c).

Record CandidatePool : Type := mk_CandidatePool {
  p_v4 : gmap IpAddr Candidate;
  p_v6 : gmap IpAddr Candidate;
  p_admitted_this_hour : Z;
  p_hour_started : option Instant;
  p_capacity : nat
}.

Definition pool_new (capacity : nat) : CandidatePool := mk_CandidatePool ∅ ∅ 0 None (max capacity 1).

Inductive Admission : Set := Added | Refreshed | RejectedFor (r : RejectReason).

Definition ipv4_addr (a : IpAddr) : bool := match a with V4 _ => true | V6 _ => false end.

(** The map of an address's family. *)
Definition family (p : CandidatePool) (a : IpAddr) : gmap IpAddr Candidate :=
  if ipv4_addr a then p_v4 p else p_v6 p.

Definition with_family (p : CandidatePool) (a : IpAddr) (m : gmap IpAddr Candidate) : CandidatePool :=
  if ipv4_addr a
  then mk_CandidatePool m (p_v6 p) (p_admitted_this_hour p) (p_hour_started p) (p_capacity p)
  else mk_CandidatePool (p_v4 p) m (p_admitted_this_hour p) (p_hour_started p) (p_capacity p).

Definition pool_size (p : CandidatePool) : nat := (size (p_v4 p) + size (p_v6 p))%nat.

Section pool.
Context {IPL : IpNetLib} {HO : HashOrder IpAddr}.

(** The entry to evict: of those that may go, the least wanted origin, and of
    those the one not seen for the longest time. *)
Definition evict_victim (p : CandidatePool) (incoming : CandidateOrigin) : option (IpAddr * Candidate) :=
  fold_left (λ victim e,
    let c := e.2 in
    if (priority (cd_origin c) <=? priority incoming) && negb (bool_decide (cd_stage c = StageNew))
    then victim
    else
      match victim with
      | None => Some e
      | Some (_, v) =>
          if (priority (cd_origin v) <? priority (cd_origin c))
             || ((priority (cd_origin c) =? priority (cd_origin v)) && (cd_last_seen c <? cd_last_seen v))
          then Some e else victim
      end)
    (hash_iter (p_v4 p) ++ hash_iter (p_v6 p)) None.

Definition evict_one (p : CandidatePool) (incoming : CandidateOrigin) : bool * CandidatePool :=
  match evict_victim p incoming with
  | Some (addr, c) =>
      (bool_decide (is_Some (family p addr !! addr)), with_family p addr (delete addr (family p addr)))
  | None => (false, p)
  end.

(** The hourly budget of new admissions. *)
Definition hour_gate (p : CandidatePool) (hourly_budget : option Z) (now : Instant)
    : bool * CandidatePool :=
  match hourly_budget with
  | None => (true, p)
  | Some budget =>
      let reset := match p_hour_started p with
                   | None => true
                   | Some start => 3600 <=? as_secs (since now start)
                   end in
      let p := if reset then mk_CandidatePool (p_v4 p) (p_v6 p) 0 (Some now) (p_capacity p) else p in
      (negb (budget <=? p_admitted_this_hour p), p)
  end.

Definition add_candidate (p : CandidatePool) (c : Candidate) : CandidatePool :=
  let p := with_family p (cd_addr c) (<[cd_addr c := c]> (family p (cd_addr c))) in
  mk_CandidatePool (p_v4 p) (p_v6 p) (p_admitted_this_hour p + 1) (p_hour_started p) (p_capacity p).

Definition admit_candidate (p : CandidatePool) (addr : IpAddr) (origin : CandidateOrigin)
    (snapshot : option PrefixSnapshot) (generation : Z) (now : Instant) (hourly_budget : option Z)
    : Admission * CandidatePool :=
  if negb (bool_decide (IpClass.classify addr = None)) then (RejectedFor SpecialUseAddress, p)
  else
    match snapshot with
    | None => (RejectedFor NoSnapshot, p)
    | Some snapshot =>
        if negb (snapshot_contains snapshot addr) then (RejectedFor NotOfficialPrefix, p)
        else
          match family p addr !! addr with
          | Some c =>
              let origin := if priority origin <? priority (cd_origin c) then origin
                            else cd_origin c in
              (Refreshed,
               with_family p addr
                 (<[addr := mk_Candidate (cd_addr c) origin (cd_first_seen c) now (cd_last_probe c)
                              (cd_stage c) (cd_successes c) (cd_generation c) (cd_colo c)]>
                    (family p addr)))
          | None =>
              let '(allowed, p) := hour_gate p hourly_budget now in
              if negb allowed then (RejectedFor BudgetExhausted, p)
              else
                let '(room, p) :=
                  if (p_capacity p <=? pool_size p)%nat then evict_one p origin else (true, p) in
                if negb room then (RejectedFor PoolFull, p)
                else
                  (Added, add_candidate p
                            (mk_Candidate addr origin now now None StageNew 0 generation None))
          end
    end.

Definition record_stage (p : CandidatePool) (addr : IpAddr) (stage : CandidateStage) (success : bool)
    (colo : option str) (now : Instant) : CandidatePool :=
  match family p addr !! addr with
  | None => p
  | Some c =>
      let c' :=
        if success then
          mk_Candidate (cd_addr c) (cd_origin c) (cd_first_seen c) (cd_last_seen c) (Some now)
            (if stage_rank (cd_stage c) <? stage_rank stage then stage else cd_stage c)
            (sat_add u32_max (cd_successes c) 1) (cd_generation c)
            (match colo with Some _ => colo | None => cd_colo c end)
        else
          mk_Candidate (cd_addr c) (cd_origin c) (cd_first_seen c) (cd_last_seen c) (Some now)
            (cd_stage c) 0 (cd_generation c) (cd_colo c) in
      with_family p addr (<[addr := c']> (family p addr))
  end.

Definition eligible_candidates (p : CandidatePool) (ipv4 : bool) (min_successes : Z) : list Candidate :=
  List.filter (λ c, is_eligible c min_successes)
    (map snd (hash_iter (if ipv4 then p_v4 p else p_v6 p))).

Definition due_for_probe (p : CandidatePool) (cooldown : Duration) (now : Instant) (limit : nat)
    : list Candidate :=
  let due := List.filter (λ c, match cd_last_probe c with
                               | None => true
                               | Some t => cooldown <=? since now t
                               end) (map snd (hash_iter (p_v4 p) ++ hash_iter (p_v6 p))) in
  take limit (stable_sort (λ a b, default (cd_first_seen a) (cd_last_probe a)
                                  <=? default (cd_first_seen b) (cd_last_probe b)) due).

Definition revalidate (p : CandidatePool) (snapshot : PrefixSnapshot) : nat * CandidatePool :=
  let keep := filter (λ e : IpAddr * Candidate, snapshot_contains snapshot e.1 = true) in
  let p' := mk_CandidatePool (keep (p_v4 p)) (keep (p_v6 p)) (p_admitted_this_hour p)
              (p_hour_started p) (p_capacity p) in
  ((pool_size p - pool_size p')%nat, p').

Definition forget_evidence (generation : Z) (c : Candidate) : Candidate :=
  mk_Candidate (cd_addr c) (cd_origin c) (cd_first_seen c) (cd_last_seen c) None StageNew 0 generation
    (cd_colo c).

Definition pool_generation_change (p : CandidatePool) (generation : Z) : CandidatePool :=
  mk_CandidatePool (forget_evidence generation <$> p_v4 p) (forget_evidence generation <$> p_v6 p)
    (p_admitted_this_hour p) (p_hour_started p) (p_capacity p).

Definition pool_clear (p : CandidatePool) : CandidatePool :=
  mk_CandidatePool ∅ ∅ (p_admitted_this_hour p) (p_hour_started p) (p_capacity p).

End pool.

(** ** The shared state *)

Record SourceStatus : Type := mk_SourceStatus {
  ss_name : str;
  ss_ok : bool;
  ss_detail : str;
  ss_attempted_unix : Z;
  ss_succeeded_unix : option Z;
  ss_accepted : nat;
  ss_rejected : nat
}.

Record DomainValidation : Type := mk_DomainValidation {
  dv_successes : Z;
  dv_failures : Z;
  dv_last_success : option Instant;
  dv_last_attempt : option Instant;
  dv_colo : option str
}.

Definition validation_new : DomainValidation := mk_DomainValidation 0 0 None None None.

Definition validation_fresh (v : DomainValidation) (now : Instant) (ttl : Duration) : bool :=
  match dv_last_success v with Some t => since now t <? ttl | None => false end.

Record BaselineState : Type := mk_BaselineState { bs_validated : bool; bs_last_success_unix : Z }.

Definition ValidationKey : Type := list ascii * IpAddr.

Record CloudflareState : Type := mk_CloudflareState {
  cs_prefixes : option PrefixSnapshot;
  cs_pool : CandidatePool;
  cs_validations : gmap (list ascii * IpAddr) DomainValidation;
  cs_baseline : gmap (list ascii) BaselineState;
  cs_sources : gmap (list ascii) SourceStatus;
  cs_max_validations : nat
}.

Definition host_key (hostname : str) : str := trim_end_matches dot hostname.

Section state.
Context {IPL : IpNetLib} {HA : HashOrder IpAddr} {HV : HashOrder (list ascii * IpAddr)}.

Definition state_new (candidate_pool_max : nat) (builtin : PrefixSnapshot) : CloudflareState :=
  mk_CloudflareState (Some builtin) (pool_new candidate_pool_max) ∅ ∅ ∅
    (max (candidate_pool_max * 4) 1024).

Definition set_prefixes (s : CloudflareState) (snapshot : PrefixSnapshot) : CloudflareState :=
  mk_CloudflareState (Some snapshot) (revalidate (cs_pool s) snapshot).2 (cs_validations s)
    (cs_baseline s) (cs_sources s) (cs_max_validations s).

Definition record_source (s : CloudflareState) (status : SourceStatus) : CloudflareState :=
  let m := if (64 <? size (cs_sources s))%nat then ∅ else cs_sources s in
  mk_CloudflareState (cs_prefixes s) (cs_pool s) (cs_validations s) (cs_baseline s)
    (<[ss_name status := status]> m) (cs_max_validations s).

(** The order of [Option<Instant>]: no attempt comes first. *)
Definition attempt_leb (a b : option Instant) : bool :=
  match a, b with
  | None, _ => true
  | Some _, None => false
  | Some x, Some y => x <=? y
  end.

(** Make room for a new key by dropping the least recently attempted ones. *)
Definition drop_oldest (max : nat) (m : gmap (list ascii * IpAddr) DomainValidation)
    : gmap (list ascii * IpAddr) DomainValidation :=
  drop_least (λ a b, attempt_leb (dv_last_attempt a) (dv_last_attempt b)) (max / 16 + 1) m.

Definition attempted (v : DomainValidation) (success : bool) (colo : option str) (now : Instant)
    : DomainValidation :=
  if success then
    mk_DomainValidation (sat_add u32_max (dv_successes v) 1) 0 (Some now) (Some now)
      (match colo with Some _ => colo | None => dv_colo v end)
  else
    mk_DomainValidation 0 (sat_add u32_max (dv_failures v) 1) (dv_last_success v) (Some now) (dv_colo v).

Definition with_validations (s : CloudflareState) m : CloudflareState :=
  mk_CloudflareState (cs_prefixes s) (cs_pool s) m (cs_baseline s) (cs_sources s) (cs_max_validations s).

Definition record_validation (s : CloudflareState) (hostname : str) (addr : IpAddr) (success : bool)
    (colo : option str) (now : Instant) : CloudflareState :=
  let key := (host_key hostname, addr) in
  let m := cs_validations s in
  let m := if (cs_max_validations s <=? size m)%nat && negb (bool_decide (is_Some (m !! key)))
           then drop_oldest (cs_max_validations s) m else m in
  with_validations s (<[key := attempted (default validation_new (m !! key)) success colo now]> m).

Definition validation (s : CloudflareState) (hostname : str) (addr : IpAddr) : option DomainValidation :=
  cs_validations s !! (host_key hostname, addr).

(** [cost] is what the quality store knows of an address. *)
Definition verified_for (s : CloudflareState) (hostname : str) (ipv4 : bool) (min_validations : Z)
    (validation_ttl : Duration) (now : Instant) (cost : IpAddr -> f64 * Z) : list VerifiedCandidate :=
  let host := host_key hostname in
  let matching :=
    List.filter (λ e : list ascii * IpAddr * DomainValidation,
        str_eqb e.1.1 host && Bool.eqb (ipv4_addr e.1.2) ipv4 && (min_validations <=? dv_successes e.2))
      (hash_iter (cs_validations s)) in
  stable_sort (λ a b, f64_total_leb (vc_cost_ms a) (vc_cost_ms b))
    (map (λ e : list ascii * IpAddr * DomainValidation,
            mk_VerifiedCandidate e.1.2 (dv_successes e.2) (cost e.1.2).1 (cost e.1.2).2
              (validation_fresh e.2 now validation_ttl)) matching).

Definition set_baseline (s : CloudflareState) (hostname : str) (validated : bool) (now_unix : Z)
    : CloudflareState :=
  let m := if (cs_max_validations s <? size (cs_baseline s))%nat then ∅ else cs_baseline s in
  let key := host_key hostname in
  let old := default (mk_BaselineState false 0) (m !! key) in
  mk_CloudflareState (cs_prefixes s) (cs_pool s) (cs_validations s)
    (<[key := mk_BaselineState validated (if validated then now_unix else bs_last_success_unix old)]> m)
    (cs_sources s) (cs_max_validations s).

Definition baseline (s : CloudflareState) (hostname : str) : bool :=
  match cs_baseline s !! host_key hostname with Some b => bs_validated b | None => false end.

Definition on_generation_change (s : CloudflareState) (generation : Z) : CloudflareState :=
  mk_CloudflareState (cs_prefixes s) (pool_generation_change (cs_pool s) generation) ∅ ∅
    (cs_sources s) (cs_max_validations s).

(** Operations on the pool go through the shared state. *)
Definition with_pool (s : CloudflareState) (p : CandidatePool) : CloudflareState :=
  mk_CloudflareState (cs_prefixes s) p (cs_validations s) (cs_baseline s) (cs_sources s)
    (cs_max_validations s).

(** ** Histories *)

Inductive Event : Type :=
| EvAdmit (addr : IpAddr) (origin : CandidateOrigin) (generation : Z) (now : Instant) (budget : option Z)
| EvStage (addr : IpAddr) (stage : CandidateStage) (success : bool) (colo : option str) (now : Instant)
| EvValidation (hostname : str) (addr : IpAddr) (success : bool) (colo : option str) (now : Instant)
| EvBaseline (hostname : str) (validated : bool) (now_unix : Z)
| EvPrefixes (snapshot : PrefixSnapshot)
| EvSource (status : SourceStatus)
| EvGeneration (generation : Z).

(** An address is proposed against the snapshot in force. *)
Definition apply_event (s : CloudflareState) (e : Event) : CloudflareState :=
  match e with
  | EvAdmit a o g now b => with_pool s (admit_candidate (cs_pool s) a o (cs_prefixes s) g now b).2
  | EvStage a st ok colo now => with_pool s (record_stage (cs_pool s) a st ok colo now)
  | EvValidation h a ok colo now => record_validation s h a ok colo now
  | EvBaseline h ok now => set_baseline s h ok now
  | EvPrefixes snapshot => set_prefixes s snapshot
  | EvSource status => record_source s status
  | EvGeneration g => on_generation_change s g
  end.

(** The state after a history; the most recent event comes first. *)
Definition history (s : CloudflareState) (es : list Event) : CloudflareState :=
  foldr (λ e s, apply_event s e) s es.

(** The consecutive successful validations of an address for a host, and the time
    of the last one, that a history ends in: failures and changes of the network
    start them over. *)
Fixpoint streak (es : list Event) (host : str) (addr : IpAddr) : Z :=
  match es with
  | [] => 0
  | EvValidation h a ok _ _ :: rest =>
      if bool_decide (host_key h = host ∧ a = addr) then
        (if ok then streak rest host addr + 1 else 0)
      else streak rest host addr
  | EvGeneration _ :: _ => 0
  | _ :: rest => streak rest host addr
  end.

(** Some successful validation since the last change of the network was at [t]. *)
Fixpoint validated_at (es : list Event) (host : str) (addr : IpAddr) (t : Instant) : Prop :=
  match es with
  | [] => False
  | EvValidation h a ok _ now :: rest =>
      (host_key h = host ∧ a = addr ∧ ok = true ∧ now = t) ∨ validated_at rest host addr t
  | EvGeneration _ :: _ => False
  | _ :: rest => validated_at rest host addr t
  end.

(** ** Validations *)

Lemma streak_nonneg es host addr : 0 <= streak es host addr.
Proof. induction es as [|[] es IH]; cbn; repeat case_match; lia. Qed.

(** What the validation record knows is what has happened. *)
Definition validations_inv (es : list Event) (m : gmap (list ascii * IpAddr) DomainValidation) : Prop :=
  ∀ h a v, m !! (h, a) = Some v ->
    0 <= dv_successes v <= streak es h a ∧
    (∀ t, dv_last_success v = Some t -> validated_at es h a t).

Lemma validations_inv_subseteq es m m' : m' ⊆ m -> validations_inv es m -> validations_inv es m'.
Proof. intros Hs Hi h a v Hv. apply Hi. by eapply lookup_weaken. Qed.

(** Events that leave the record alone. *)
Lemma validations_inv_skip e es m :
  (∀ h a, streak (e :: es) h a = streak es h a) ->
  (∀ h a t, validated_at (e :: es) h a t <-> validated_at es h a t) ->
  validations_inv es m -> validations_inv (e :: es) m.
Proof.
  intros H1 H2 Hi h a v Hv. rewrite H1. destruct (Hi h a v Hv) as [Hs Ht]. split; [done|].
  intros t. rewrite H2. apply Ht.
Qed.

Lemma validations_inv_record s es host addr ok colo now :
  validations_inv es (cs_validations s) ->
  validations_inv (EvValidation host addr ok colo now :: es)
    (cs_validations (record_validation s host addr ok colo now)).
Proof.
  intros Hi. unfold record_validation. cbn zeta. cbn [cs_validations with_validations].
  match goal with |- validations_inv _ (<[_ := _]> ?m0) => set (m := m0) end.
  assert (validations_inv es m) as Hm.
  { unfold m. case_match; [|done]. by eapply validations_inv_subseteq; [apply drop_least_subseteq|]. }
  clearbody m. intros h a v. pose proof (streak_nonneg es h a) as Hnn.
  destruct (decide ((host_key host, addr) = (h, a))) as [Heq|Hne].
  - injection Heq as <- <-. rewrite lookup_insert_eq. intros [= <-].
    cbn [streak validated_at]. rewrite bool_decide_true by done.
    assert (0 <= dv_successes (default validation_new (m !! (host_key host, addr)))
              <= streak es (host_key host) addr ∧
            ∀ t, dv_last_success (default validation_new (m !! (host_key host, addr))) = Some t ->
              validated_at es (host_key host) addr t) as [Hs Ht].
    { destruct (m !! (host_key host, addr)) as [v|] eqn:Ev; cbn; [by apply Hm|]. split; [lia|done]. }
    unfold attempted. destruct ok; cbn [dv_successes dv_last_success].
    + split; [unfold sat_add, u32_max; lia|]. intros t [= <-]. by left.
    + split; [lia|]. intros t Hl. right. by apply Ht.
  - rewrite lookup_insert_ne by done. intros Hv. destruct (Hm h a v Hv) as [Hs Ht].
    cbn [streak validated_at]. rewrite bool_decide_false by (intros [<- <-]; by apply Hne).
    split; [done|]. intros t Hl. right. by apply Ht.
Qed.

Lemma history_validations s es :
  cs_validations s = ∅ -> validations_inv es (cs_validations (history s es)).
Proof.
  intros Hs. induction es as [|e es IH]; cbn.
  - rewrite Hs. intros h a v. by rewrite lookup_empty.
  - fold (history s es). destruct e; cbn [apply_event];
      try (by apply (validations_inv_skip _ es); [done|done|exact IH]).
    + by apply validations_inv_record.
    + intros h a v. cbn. by rewrite lookup_empty.
Qed.

Lemma verified_streak s es hostname ipv4 required window now cost vc
    (Hs : cs_validations s = ∅)
    (Hvc : vc ∈ verified_for (history s es) hostname ipv4 required window now cost) :
  required <= vc_successes vc <= streak es (host_key hostname) (vc_addr vc) ∧
  ipv4_addr (vc_addr vc) = ipv4 ∧
  (vc_fresh vc = true ->
   ∃ t, validated_at es (host_key hostname) (vc_addr vc) t ∧ since now t < window) ∧
  vc_samples vc = (cost (vc_addr vc)).2.
Proof.
  pose proof (history_validations s es Hs) as Hi. unfold verified_for in Hvc.
  apply stable_sort_elem_of, list_elem_of_fmap in Hvc as ([[h a] v] & -> & Hin).
  apply list_elem_of_In, filter_In in Hin as [Hin Hf]. cbn in Hf.
  apply andb_true_iff in Hf as [[Hh Hfam]%andb_true_iff Hreq].
  apply str_eqb_eq in Hh as ->. apply Bool.eqb_prop in Hfam. apply Z.leb_le in Hreq.
  apply list_elem_of_In in Hin. rewrite hash_iter_perm in Hin. apply elem_of_map_to_list in Hin.
  destruct (Hi _ _ _ Hin) as [Hst Ht]. cbn. split_and!; [lia|lia|done| |done].
  unfold validation_fresh. destruct (dv_last_success v) as [t|]; [|done].
  intros Hw%Z.ltb_lt. exists t. split; [by apply Ht|done].
Qed.

(** An address is offered for a host only on the strength of validations for that
    host on this network: whatever the history, each candidate of [verified_for] has
    at least the required number of successful validations in a row, with no
    failure and no change of the network since, and one called fresh has one that
    is no older than the validity window. *)
Theorem verified_needs_a_streak s es hostname ipv4 required window now cost vc
    (Hs : cs_validations s = ∅)
    (Hvc : vc ∈ verified_for (history s es) hostname ipv4 required window now cost) :
  required <= vc_successes vc <= streak es (host_key hostname) (vc_addr vc) ∧
  ipv4_addr (vc_addr vc) = ipv4 ∧
  (vc_fresh vc = true ->
   ∃ t, validated_at es (host_key hostname) (vc_addr vc) t ∧ since now t < window).
Proof. by apply verified_streak in Hvc as (? & ? & ? & _). Qed.

(** ** The pool *)

(** Every candidate may be in the pool, under its own address and family. *)
Definition member_ok (prefixes : option PrefixSnapshot) (fam : bool) (a : IpAddr) (c : Candidate) : Prop :=
  cd_addr c = a ∧ ipv4_addr a = fam ∧ IpClass.classify a = None ∧
  ∃ snapshot, prefixes = Some snapshot ∧ snapshot_contains snapshot a = true.

Record pool_inv (prefixes : option PrefixSnapshot) (p : CandidatePool) : Prop := {
  pi_capacity : (1 <= p_capacity p)%nat;
  pi_size : (pool_size p <= p_capacity p)%nat;
  pi_v4 : map_Forall (member_ok prefixes true) (p_v4 p);
  pi_v6 : map_Forall (member_ok prefixes false) (p_v6 p)
}.

Lemma family_ok prefixes p a c :
  pool_inv prefixes p -> family p a !! a = Some c -> member_ok prefixes (ipv4_addr a) a c.
Proof. intros [_ _ H4 H6]. unfold family. destruct (ipv4_addr a); [apply H4|apply H6]. Qed.

Lemma with_family_size p a m :
  (pool_size (with_family p a m) + size (family p a) = pool_size p + size m)%nat ∧
  p_capacity (with_family p a m) = p_capacity p.
Proof. unfold with_family, family, pool_size. destruct (ipv4_addr a); cbn; split; lia. Qed.

(** The invariant does not depend on the hourly counters. *)
Lemma pool_inv_with_family prefixes p a m h t :
  pool_inv prefixes p -> map_Forall (member_ok prefixes (ipv4_addr a)) m ->
  (pool_size p + size m <= p_capacity p + size (family p a))%nat ->
  let p' := with_family p a m in
  pool_inv prefixes (mk_CandidatePool (p_v4 p') (p_v6 p') h t (p_capacity p')).
Proof.
  intros [Hc Hsz H4 H6] Hm Hle p'. unfold p', with_family, family, pool_size in *.
  destruct (ipv4_addr a); split; cbn in *; try done; unfold pool_size in *; cbn in *; lia.
Qed.

Lemma pool_inv_counters prefixes p h t :
  pool_inv prefixes p -> pool_inv prefixes (mk_CandidatePool (p_v4 p) (p_v6 p) h t (p_capacity p)).
Proof. by intros []. Qed.

Lemma with_family_eta p a m :
  with_family p a m =
  mk_CandidatePool (p_v4 (with_family p a m)) (p_v6 (with_family p a m)) (p_admitted_this_hour p)
    (p_hour_started p) (p_capacity (with_family p a m)).
Proof. unfold with_family. by destruct (ipv4_addr a). Qed.

(** Replacing a candidate keeps the size; a new one needs room. *)
Lemma pool_inv_replace prefixes p a c c' :
  pool_inv prefixes p -> family p a !! a = Some c -> member_ok prefixes (ipv4_addr a) a c' ->
  pool_inv prefixes (with_family p a (<[a := c']> (family p a))).
Proof.
  intros Hi Hc Hc'. rewrite with_family_eta. apply pool_inv_with_family; [done| |].
  - apply map_Forall_insert_2; [done|]. unfold family. destruct Hi as [_ _ H4 H6].
    by destruct (ipv4_addr a).
  - rewrite map_size_insert_Some by done. destruct Hi. lia.
Qed.

Lemma evict_victim_in p incoming a c :
  evict_victim p incoming = Some (a, c) -> p_v4 p !! a = Some c ∨ p_v6 p !! a = Some c.
Proof.
  unfold evict_victim.
  assert (∀ l v, (∀ e, v = Some e -> e ∈ hash_iter (p_v4 p) ++ hash_iter (p_v6 p)) ->
    (∀ e, e ∈ l -> e ∈ hash_iter (p_v4 p) ++ hash_iter (p_v6 p)) ->
    ∀ e, fold_left (λ victim e,
      let c := e.2 in
      if (priority (cd_origin c) <=? priority incoming) && negb (bool_decide (cd_stage c = StageNew))
      then victim
      else match victim with
           | None => Some e
           | Some (_, v) =>
               if (priority (cd_origin v) <? priority (cd_origin c))
                  || ((priority (cd_origin c) =? priority (cd_origin v))
                      && (cd_last_seen c <? cd_last_seen v))
               then Some e else victim
           end) l v = Some e -> e ∈ hash_iter (p_v4 p) ++ hash_iter (p_v6 p)) as Hgen.
  { induction l as [|x l IH]; intros v Hv Hl e; cbn [fold_left]; [apply Hv|].
    apply IH; [|intros; apply Hl; by right]. intros e' He'. revert He'. cbn zeta.
    assert (x ∈ hash_iter (p_v4 p) ++ hash_iter (p_v6 p)) by (apply Hl; left).
    repeat case_match; intros; simplify_eq; auto. }
  intros H. apply (Hgen _ None) in H; [|done|done].
  apply elem_of_app in H as [H|H]; rewrite hash_iter_perm in H; apply elem_of_map_to_list in H; auto.
Qed.

Lemma evict_one_inv prefixes p incoming room p' :
  pool_inv prefixes p -> evict_one p incoming = (room, p') ->
  pool_inv prefixes p' ∧ p_capacity p' = p_capacity p ∧ (room = true -> (pool_size p' < pool_size p)%nat).
Proof.
  intros Hi. unfold evict_one. destruct (evict_victim p incoming) as [[a c]|] eqn:Ev.
  2:{ intros [= <- <-]. split_and!; done. }
  intros [= <- <-].
  assert (family p a !! a = Some c) as Ha.
  { unfold family. apply evict_victim_in in Ev. destruct Hi as [_ _ H4 H6].
    destruct Ev as [Ev|Ev]; [destruct (H4 a c Ev) as (_ & -> & _)|destruct (H6 a c Ev) as (_ & -> & _)];
      done. }
  destruct (with_family_size p a (delete a (family p a))) as [Hsz Hcap].
  assert (size (family p a) = S (size (delete a (family p a)))) as Hdel.
  { rewrite map_size_delete, Ha. assert (size (family p a) ≠ 0%nat); [|lia].
    apply map_size_ne_0_lookup. by exists a. }
  split_and!; [|done|lia].
  rewrite with_family_eta. apply pool_inv_with_family; [done| |destruct Hi; lia].
  apply map_Forall_delete. unfold family. destruct Hi as [_ _ H4 H6]. by destruct (ipv4_addr a).
Qed.

Lemma hour_gate_inv prefixes p b now ok p' :
  pool_inv prefixes p -> hour_gate p b now = (ok, p') ->
  pool_inv prefixes p' ∧ p_v4 p' = p_v4 p ∧ p_v6 p' = p_v6 p ∧ p_capacity p' = p_capacity p.
Proof.
  intros Hi. unfold hour_gate. destruct b as [b|]; [|intros [= <- <-]; done].
  cbn zeta. destruct (match p_hour_started p with None => _ | Some _ => _ end); intros [= <- <-];
    (split; [by apply pool_inv_counters || done|done]).
Qed.

Lemma admit_inv s a o g now b :
  pool_inv (cs_prefixes s) (cs_pool s) ->
  pool_inv (cs_prefixes s) (admit_candidate (cs_pool s) a o (cs_prefixes s) g now b).2.
Proof.
  intros Hi. unfold admit_candidate. case_bool_decide as Hclass; cbn [negb]; [|done].
  destruct (cs_prefixes s) as [snapshot|] eqn:Ep; [|done].
  destruct (snapshot_contains snapshot a) eqn:Ec; cbn [negb]; [|done].
  assert (∀ c, cd_addr c = a -> member_ok (Some snapshot) (ipv4_addr a) a c) as Hok
    by (intros c Hc; split_and!; eauto).
  destruct (family (cs_pool s) a !! a) as [c|] eqn:Ef.
  { cbn [snd]. eapply pool_inv_replace; [done..|]. apply Hok. cbn.
    by destruct (family_ok _ _ _ _ Hi Ef) as [? _]. }
  destruct (hour_gate (cs_pool s) b now) as [allowed p] eqn:Eg.
  destruct (hour_gate_inv _ _ _ _ _ _ Hi Eg) as (Hp & H4 & H6 & Hcap).
  destruct allowed; cbn [negb]; [|done].
  assert (∀ room p', (if (p_capacity p <=? pool_size p)%nat then evict_one p o else (true, p)) = (room, p') ->
    pool_inv (Some snapshot) p' ∧ (room = true -> (pool_size p' < p_capacity p')%nat)) as Hroom.
  { intros room p'. destruct (Nat.leb_spec (p_capacity p) (pool_size p)) as [Hle|Hlt].
    - intros He. destruct (evict_one_inv _ _ _ _ _ Hp He) as (Hp' & -> & Hs). split; [done|].
      intros Hr. specialize (Hs Hr). destruct Hp. lia.
    - intros [= <- <-]. done. }
  destruct (if (p_capacity p <=? pool_size p)%nat then evict_one p o else (true, p)) as [room p'] eqn:Er.
  destruct (Hroom _ _ eq_refl) as [Hp' Hlt]. destruct room; cbn [negb snd]; [|done].
  unfold add_candidate. cbn zeta. apply pool_inv_with_family; [done| |].
  - apply map_Forall_insert_2; [by apply Hok|]. unfold family. destruct Hp' as [_ _ P4 P6].
    cbn [cd_addr]. by destruct (ipv4_addr a).
  - cbn [cd_addr]. rewrite map_size_insert. specialize (Hlt eq_refl).
    destruct (family p' a !! a); unfold id; lia.
Qed.

Lemma record_stage_inv prefixes p a st ok colo now :
  pool_inv prefixes p -> pool_inv prefixes (record_stage p a st ok colo now).
Proof.
  intros Hi. unfold record_stage. destruct (family p a !! a) as [c|] eqn:Ef; [|done].
  cbn zeta. eapply pool_inv_replace; [done..|]. destruct (family_ok _ _ _ _ Hi Ef) as (Ha & H).
  by destruct ok.
Qed.

Lemma revalidate_inv prefixes p snapshot :
  pool_inv prefixes p -> pool_inv (Some snapshot) (revalidate p snapshot).2.
Proof.
  intros [Hc Hs H4 H6]. unfold revalidate. cbn [snd].
  split; cbn [p_capacity p_v4 p_v6]; [done| | |].
  - unfold pool_size in *. cbn [p_v4 p_v6].
    pose proof (map_size_filter (λ e : IpAddr * Candidate, snapshot_contains snapshot e.1 = true) (p_v4 p)).
    pose proof (map_size_filter (λ e : IpAddr * Candidate, snapshot_contains snapshot e.1 = true) (p_v6 p)).
    lia.
  - intros a c [Ha Hin]%map_lookup_filter_Some. destruct (H4 a c Ha) as (? & ? & ? & _).
    split_and!; eauto.
  - intros a c [Ha Hin]%map_lookup_filter_Some. destruct (H6 a c Ha) as (? & ? & ? & _).
    split_and!; eauto.
Qed.

Lemma generation_inv prefixes p g :
  pool_inv prefixes p -> pool_inv prefixes (pool_generation_change p g).
Proof.
  intros [Hc Hs H4 H6]. unfold pool_generation_change.
  split; cbn [p_capacity p_v4 p_v6]; [done| | |].
  - unfold pool_size in *. cbn [p_v4 p_v6]. by rewrite !map_size_fmap.
  - intros a c (c0 & <- & Hc0)%lookup_fmap_Some. by apply (H4 a c0).
  - intros a c (c0 & <- & Hc0)%lookup_fmap_Some. by apply (H6 a c0).
Qed.

(** The bounds and the membership rule of the whole state. *)
Record state_inv (s : CloudflareState) : Prop := {
  si_pool : pool_inv (cs_prefixes s) (cs_pool s);
  si_limit : (1 <= cs_max_validations s)%nat;
  si_validations : (size (cs_validations s) <= cs_max_validations s)%nat;
  si_baseline : (size (cs_baseline s) <= S (cs_max_validations s))%nat;
  si_sources : (size (cs_sources s) <= 65)%nat
}.

Lemma record_validation_size s h a ok colo now :
  state_inv s -> (size (cs_validations (record_validation s h a ok colo now)) <= cs_max_validations s)%nat.
Proof.
  intros [_ Hlim Hv _ _]. unfold record_validation. cbn zeta. cbn [cs_validations with_validations].
  set (k := (host_key h, a)). rewrite map_size_insert.
  destruct (Nat.leb_spec (cs_max_validations s) (size (cs_validations s))) as [Hle|Hlt]; cbn [andb].
  - case_bool_decide as Hk; cbn [negb].
    + destruct Hk as [v Hk]. rewrite Hk. unfold id. lia.
    + unfold drop_oldest. rewrite drop_least_size.
      case_match; unfold id; lia.
  - case_match; unfold id; lia.
Qed.

Lemma apply_event_inv s e : state_inv s -> state_inv (apply_event s e).
Proof.
  intros Hi. pose proof (record_validation_size s) as Hrec. destruct Hi as [Hp Hl Hv Hb Hs] eqn:Ei.
  destruct e; cbn [apply_event].
  - split; cbn; try done. by apply admit_inv.
  - split; cbn; try done. by apply record_stage_inv.
  - split; cbn [cs_pool cs_prefixes cs_max_validations cs_baseline cs_sources record_validation
      with_validations]; try done. by apply Hrec.
  - split; cbn [cs_pool cs_prefixes cs_max_validations cs_validations cs_baseline cs_sources set_baseline];
      try done. rewrite map_size_insert.
    destruct (Nat.ltb_spec (cs_max_validations s) (size (cs_baseline s)));
      [rewrite map_size_empty|]; case_match; unfold id; lia.
  - split; cbn; try done. by eapply revalidate_inv.
  - split; cbn [cs_pool cs_prefixes cs_max_validations cs_validations cs_baseline cs_sources record_source];
      try done. rewrite map_size_insert. destruct (Nat.ltb_spec 64 (size (cs_sources s)));
      [rewrite map_size_empty|]; case_match; unfold id; lia.
  - split; cbn [cs_pool cs_prefixes cs_max_validations cs_validations cs_baseline cs_sources
      on_generation_change]; rewrite ?map_size_empty; try done; [by apply generation_inv|lia|lia].
Qed.

Lemma state_new_inv n builtin : state_inv (state_new n builtin).
Proof.
  split; cbn [state_new cs_pool cs_prefixes cs_max_validations cs_validations cs_baseline cs_sources];
    rewrite ?map_size_empty; try lia.
  split; unfold pool_size; cbn [pool_new p_capacity p_v4 p_v6]; rewrite ?map_size_empty;
    [lia|lia|apply map_Forall_empty..].
Qed.

Lemma history_inv n builtin es : state_inv (history (state_new n builtin) es).
Proof. induction es as [|e es IH]; [apply state_new_inv|]. by apply apply_event_inv. Qed.

Lemma history_capacity n builtin es :
  p_capacity (cs_pool (history (state_new n builtin) es)) = max n 1 ∧
  cs_max_validations (history (state_new n builtin) es) = max (n * 4) 1024.
Proof.
  assert (∀ p a m, p_capacity (with_family p a m) = p_capacity p) as Hw
    by (intros p a m; unfold with_family; by destruct (ipv4_addr a)).
  induction es as [|e es [IH1 IH2]]; [done|]. cbn [history foldr] in *.
  fold (history (state_new n builtin) es) in *. set (s := history _ es) in *. clearbody s.
  destruct e; cbn [apply_event]; split; try exact IH1; try exact IH2.
  - cbn [cs_pool with_pool]. rewrite <- IH1. unfold admit_candidate, hour_gate, evict_one, add_candidate.
    cbn zeta. repeat case_match; simplify_eq; cbn [snd p_capacity]; rewrite ?Hw; try done.
  - cbn [cs_pool with_pool]. unfold record_stage. case_match; [|done]. cbn zeta. by rewrite Hw.
Qed.

(** The candidate pool and everything learned about candidates stay bounded, and
    the pool holds only what it may: after any sequence of proposals, probes,
    validations, prefix updates and network changes it has at most the configured
    number of addresses, none of them special-use and each inside the official
    prefixes in force at that moment, also right after those have changed; and at
    most four validations are remembered for each place in the pool (or 1024). *)
Theorem pool_bounded_and_official n builtin es :
  let s := history (state_new n builtin) es in
  (pool_size (cs_pool s) <= max n 1)%nat ∧
  (size (cs_validations s) <= max (n * 4) 1024)%nat ∧
  ∀ a c, family (cs_pool s) a !! a = Some c ->
    cd_addr c = a ∧ IpClass.classify a = None ∧
    ∃ snapshot, cs_prefixes s = Some snapshot ∧ snapshot_contains snapshot a = true.
Proof.
  intros s. pose proof (history_inv n builtin es) as Hi. fold s in Hi.
  destruct (history_capacity n builtin es) as [Hc Hm]. fold s in Hc, Hm.
  split_and!.
  - rewrite <- Hc. apply Hi.
  - rewrite <- Hm. apply Hi.
  - intros a c Ha. destruct (family_ok _ _ _ _ (si_pool _ Hi) Ha) as (? & _ & ? & ?). done.
Qed.

End state.

(** ** Concrete pools *)

Section witnesses.
#[local] Existing Instance ipnet_reference.
#[local] Instance addr_order : HashOrder IpAddr := {
  hash_iter A m := map_to_list m; hash_iter_perm A m := Permutation_refl _ }.
#[local] Instance validation_order : HashOrder (list ascii * IpAddr) := {
  hash_iter A m := map_to_list m; hash_iter_perm A m := Permutation_refl _ }.

Definition edge (n : Z) : IpAddr := V4 (ipv4 104 16 0 n).

Definition official : PrefixSnapshot :=
  snapshot_new [mk_Ipv4Net (ipv4 104 16 0 0) 13] [] None 0 SourceBuiltin.

(** A pool of one place that holds an address seen in a real answer. *)
Definition full_pool : CandidatePool :=
  (admit_candidate (pool_new 1) (edge 1) DnsAnswer (Some official) 0 0 None).2.

(** An address taken from a real answer and not probed yet gives way to a random
    sample, the least wanted origin, although the pool is said to evict only
    entries of strictly lower priority. *)
Theorem sample_evicts_observed_address :
  priority DnsAnswer < priority Sampling ∧
  (admit_candidate full_pool (edge 2) Sampling (Some official) 0 1 None).1 = Added ∧
  p_v4 (admit_candidate full_pool (edge 2) Sampling (Some official) 0 1 None).2 !! edge 1 = None.
Proof. split_and!; vm_compute; reflexivity. Qed.

(** Addresses admitted without a budget use up the budget of those with one: after
    one sample and one observed address, the second sample of a budget of two is
    refused. *)
Theorem unbudgeted_admissions_spend_the_budget :
  let p1 := (admit_candidate (pool_new 8) (edge 1) Sampling (Some official) 0 0 (Some 2)).2 in
  let p2 := (admit_candidate p1 (edge 2) DnsAnswer (Some official) 0 1 None).2 in
  (admit_candidate p2 (edge 3) Sampling (Some official) 0 2 (Some 2)).1 = RejectedFor BudgetExhausted.
Proof. vm_compute. reflexivity. Qed.

(** A state in which one address has passed three validations in a row. *)
Definition three_passes : list Event :=
  repeat (EvValidation (lit "www.example.com") (edge 1) true None 100) 3.

Definition after_passes : CloudflareState := history (state_new 8 official) three_passes.

Definition offered (hostname : str) : list VerifiedCandidate :=
  verified_for after_passes hostname true 3 (from_secs 60) 200 (λ _, (f64_zero, 9)).

(** Host names are compared as they are written: a query that spells the name in
    another letter case is offered nothing. *)
Theorem validations_depend_on_letter_case :
  map vc_addr (offered (lit "www.example.com.")) = [edge 1] ∧
  offered (lit "WWW.example.com.") = [].
Proof. split; vm_compute; reflexivity. Qed.

Lemma verified_needs_a_streak_witness :
  streak three_passes (lit "www.example.com") (edge 1) = 3 ∧
  3 <= streak three_passes (host_key (lit "www.example.com.")) (edge 1).
Proof.
  split; [vm_compute; reflexivity|].
  pose proof (verified_needs_a_streak (state_new 8 official) three_passes (lit "www.example.com.") true 3
    (from_secs 60) 200 (λ _, (f64_zero, 9)) (mk_VerifiedCandidate (edge 1) 3 f64_zero 9 true)
    eq_refl) as H.
  assert (mk_VerifiedCandidate (edge 1) 3 f64_zero 9 true ∈
    verified_for (history (state_new 8 official) three_passes) (lit "www.example.com.") true 3
      (from_secs 60) 200 (λ _, (f64_zero, 9))) as Hin.
  { assert (verified_for (history (state_new 8 official) three_passes) (lit "www.example.com.") true 3
      (from_secs 60) 200 (λ _, (f64_zero, 9)) = [mk_VerifiedCandidate (edge 1) 3 f64_zero 9 true]) as ->
      by (vm_compute; reflexivity). left. }
  destruct (proj1 (H Hin)) as [H1 H2]. exact (Z.le_trans _ _ _ H1 H2).
Defined.

End witnesses.
