(* ===== verification/Cache.v ===== *)
(** * The answer, failure and variant caches

    [src/cache/mod.rs].  The three stores are [moka] caches, which are a
    parameter: a store answers a lookup with what was last inserted under the
    key, or forgets it, and never answers with anything else ([MokaLaws]).
    Evictions by size and by age are the forgetting. *)

From Stdlib Require Import Ascii String.
From S2P Require Import Prelude.
From S2P Require Import Names.
From S2P Require Import Config.
From S2P Require Import Dns.
From S2P Require Import DnssecPolicy.

(** ** The [moka] crate *)

Class MokaLib (K : Type) : Type := {
  moka : Type -> Type;
  (** [Cache::builder()] with [max_capacity], [weigher], [time_to_live]. *)
  m_new : ∀ {V}, Z -> (V -> Z) -> Duration -> moka V;
  m_get : ∀ {V}, moka V -> K -> option V;
  m_insert : ∀ {V}, moka V -> K -> V -> moka V;
  m_invalidate : ∀ {V}, moka V -> K -> moka V;
  m_invalidate_if : ∀ {V}, moka V -> (K -> V -> bool) -> moka V;
  m_invalidate_all : ∀ {V}, moka V -> moka V;
  m_maintain : ∀ {V}, moka V -> moka V
}.

Class MokaLaws (K : Type) {ML : MokaLib K} : Prop := {
  m_get_new V cap weigh ttl k : m_get (m_new (V := V) cap weigh ttl) k = None;
  m_get_insert V (c : moka V) k v k' v' :
    m_get (m_insert c k v) k' = Some v' ->
    (k' = k ∧ v' = v) ∨ (k' ≠ k ∧ m_get c k' = Some v');
  m_get_invalidate V (c : moka V) k k' v' :
    m_get (m_invalidate c k) k' = Some v' -> k' ≠ k ∧ m_get c k' = Some v';
  m_get_invalidate_if V (c : moka V) p k v :
    m_get (m_invalidate_if c p) k = Some v -> m_get c k = Some v ∧ p k v = false;
  m_get_invalidate_all V (c : moka V) k : m_get (m_invalidate_all c) k = None;
  m_get_maintain V (c : moka V) k v : m_get (m_maintain c) k = Some v -> m_get c k = Some v
}.

(** ** Keys and entries *)

Inductive EntryKind : Set := Positive | NoData | NxDomainKind.

#[global] Instance EntryKind_eq_dec : EqDecision EntryKind.
Proof. solve_decision. Defined.

Record PolicyView : Type := mk_PolicyView {
  view_group : str;
  view_ecs_identity : option str
}.

Record ReqMode : Type := mk_ReqMode {
  mode_dnssec_ok : bool;
  mode_checking_disabled : bool
}.

Record CacheKey : Type := mk_CacheKey {
  key_name : str;
  key_qtype : RecordType;
  key_qclass : DNSClass;
  key_view : PolicyView;
  key_mode : ReqMode
}.

#[global] Instance PolicyView_eq_dec : EqDecision PolicyView.
Proof. solve_decision. Defined.
#[global] Instance ReqMode_eq_dec : EqDecision ReqMode.
Proof. solve_decision. Defined.
#[global] Instance CacheKey_eq_dec : EqDecision CacheKey.
Proof. solve_decision. Defined.

#[global] Instance CacheKey_countable : Countable CacheKey.
Proof.
  refine (inj_countable'
    (λ k, (key_name k, key_qtype k, key_qclass k,
           (view_group (key_view k), view_ecs_identity (key_view k)),
           (mode_dnssec_ok (key_mode k), mode_checking_disabled (key_mode k))))
    (λ '(n, t, c, (g, e), (d, x)), mk_CacheKey n t c (mk_PolicyView g e) (mk_ReqMode d x)) _).
  by intros [? ? ? [] []].
Defined.

Definition normalize_name (name : str) : str :=
  let s := to_ascii_lowercase name in
  if ends_with s [dot] then s else s ++ [dot].

Definition cache_key (name : str) (qtype : RecordType) (qclass : DNSClass) (view : PolicyView)
    (mode : ReqMode) : CacheKey :=
  mk_CacheKey (normalize_name name) qtype qclass view mode.

Record AnswerSource : Type := mk_AnswerSource {
  src_server : str;
  src_transport : TransportKind
}.

(** [config/validate.rs]. *)
Definition FAILURE_MAX_TTL_CEILING : Duration := from_secs 300.

Definition MAX_VARIANTS_PER_KEY : nat := 4.

Definition name_in_suffix (name suffix : str) : bool :=
  if str_eqb name suffix then true
  else if str_eqb suffix [dot] then true
  else ends_with name suffix && (length suffix <? length name)%nat
       && bool_decide (name !! (length name - length suffix - 1)%nat = Some dot).

Section cache.
Context {Name : Type} {ML : MokaLib CacheKey}.

Record CacheEntry : Type := mk_CacheEntry {
  ent_message : Message Name;
  ent_received_at : Instant;
  ent_received_unix : Z;
  ent_ttl : Z;
  ent_kind : EntryKind;
  ent_dnssec : DnssecStatus;
  ent_source : AnswerSource;
  ent_fingerprint : Z;
  ent_rrsig_expiry_unix : option Z;
  ent_approx_bytes : Z
}.

Definition age_secs (e : CacheEntry) (now : Instant) : Z :=
  as_u32 (as_secs (since now (ent_received_at e))).

Definition remaining_ttl (e : CacheEntry) (now : Instant) : Z := ent_ttl e ⊖ age_secs e now.

Definition is_fresh (e : CacheEntry) (now : Instant) : bool := 0 <? remaining_ttl e now.

Definition staleness_secs (e : CacheEntry) (now : Instant) : Z := age_secs e now ⊖ ent_ttl e.

Definition remaining_signature_secs (e : CacheEntry) (now_unix : Z) : option Z :=
  (λ exp, Z.min (exp ⊖ now_unix) u32_max) <$> ent_rrsig_expiry_unix e.

Inductive Lookup : Type :=
| Fresh (entry : CacheEntry) (remaining : Z)
| Stale (entry : CacheEntry) (staleness : Z)
| Miss.

Record FailureEntry : Type := mk_FailureEntry {
  fail_recorded_at : Instant;
  fail_ttl : Duration;
  fail_rcode : ResponseCode;
  fail_reason : str;
  fail_consecutive : Z
}.

Definition is_active (f : FailureEntry) (now : Instant) : bool :=
  since now (fail_recorded_at f) <? fail_ttl f.

Record VariantRecord : Type := mk_VariantRecord {
  var_fingerprint : Z;
  var_message : Message Name;
  var_source : AnswerSource;
  var_observed_at : Instant;
  var_ttl : Z;
  var_dnssec : DnssecStatus
}.

Definition is_valid (v : VariantRecord) (now : Instant) : bool :=
  as_secs (since now (var_observed_at v)) <? var_ttl v.

Record VariantSet : Type := mk_VariantSet {
  vs_variants : list VariantRecord;
  vs_selected : option Z;
  vs_selected_at : option Instant
}.

Definition default_VariantSet : VariantSet := mk_VariantSet [] None None.

Record DnsCache : Type := mk_DnsCache {
  c_answers : moka CacheEntry;
  c_failures : moka FailureEntry;
  c_variants : moka VariantSet;
  c_serve_stale : ServeStaleConfig;
  c_internal_max_ttl : Z
}.

(** [wire_len] is the length of the encoded message, when it encodes. *)
Definition estimate_bytes (wire_len : Message Name -> option Z) (msg : Message Name) : Z :=
  let wire := default 512 (wire_len msg) in
  sat_add u32_max (sat_mul u32_max (as_u32 wire) 4) 512.

Definition variant_set_bytes (wire_len : Message Name -> option Z) (set : VariantSet) : Z :=
  fold_left (λ acc v, sat_add u32_max acc (estimate_bytes wire_len (var_message v)))
    (vs_variants set) 256.

Definition retention (cfg : CacheConfig) (stale : ServeStaleConfig) : Duration :=
  if stale_enabled stale then max_stale stale + from_secs (cache_internal_max_ttl cfg)
  else from_secs (cache_internal_max_ttl cfg).

Definition cache_new (wire_len : Message Name -> option Z) (cfg : CacheConfig)
    (stale : ServeStaleConfig) : DnsCache :=
  let retention := retention cfg stale in
  {| c_answers := m_new (cache_max_memory_bytes cfg) (λ v, Z.max (ent_approx_bytes v) 1) retention;
     c_failures := m_new (cache_failure_max_entries cfg) (λ _, 1)
                     (FAILURE_MAX_TTL_CEILING + from_secs 1);
     c_variants := m_new (cache_variant_max_memory_bytes cfg)
                     (λ v, Z.max (variant_set_bytes wire_len v) 1) retention;
     c_serve_stale := stale;
     c_internal_max_ttl := cache_internal_max_ttl cfg |}.

Definition with_stores (c : DnsCache) a f v : DnsCache :=
  mk_DnsCache a f v (c_serve_stale c) (c_internal_max_ttl c).

(** ** Operations *)

Definition cache_get (c : DnsCache) (key : CacheKey) (now : Instant) : Lookup :=
  match m_get (c_answers c) key with
  | None => Miss
  | Some entry =>
      let remaining := remaining_ttl entry now in
      if 0 <? remaining then Fresh entry remaining
      else if negb (stale_enabled (c_serve_stale c)) then Miss
      else
        let staleness := staleness_secs entry now in
        if as_secs (max_stale (c_serve_stale c)) <? staleness then Miss
        else if bool_decide (ent_dnssec entry = Bogus) then Miss
        else Stale entry staleness
  end.

Definition cache_insert (c : DnsCache) (key : CacheKey) (entry : CacheEntry) : DnsCache :=
  if bool_decide (ent_dnssec entry = Bogus) then c
  else with_stores c (m_insert (c_answers c) key entry) (c_failures c) (c_variants c).

Definition record_failure (c : DnsCache) (key : CacheKey) (entry : FailureEntry) : DnsCache :=
  with_stores c (c_answers c) (m_insert (c_failures c) key entry) (c_variants c).

Definition clear_failure (c : DnsCache) (key : CacheKey) : DnsCache :=
  with_stores c (c_answers c) (m_invalidate (c_failures c) key) (c_variants c).

Definition failure (c : DnsCache) (key : CacheKey) (now : Instant)
    : option FailureEntry * DnsCache :=
  match m_get (c_failures c) key with
  | None => (None, c)
  | Some f => if is_active f now then (Some f, c) else (None, clear_failure c key)
  end.

Definition failure_streak (c : DnsCache) (key : CacheKey) : Z :=
  match m_get (c_failures c) key with Some f => fail_consecutive f | None => 0 end.

Definition variants (c : DnsCache) (key : CacheKey) : option VariantSet :=
  m_get (c_variants c) key.

Definition older (a b : VariantRecord) : bool := var_observed_at a <=? var_observed_at b.

(** The update of one set. *)
Definition push_variant (set : VariantSet) (record : VariantRecord) (now : Instant) : VariantSet :=
  let kept := List.filter (λ v, negb (var_fingerprint v =? var_fingerprint record)
                                && is_valid v now) (vs_variants set) in
  let all := kept ++ [record] in
  let bounded :=
    if (MAX_VARIANTS_PER_KEY <? length all)%nat
    then drop (length all - MAX_VARIANTS_PER_KEY) (stable_sort older all)
    else all in
  mk_VariantSet bounded (vs_selected set) (vs_selected_at set).

Definition record_variant (c : DnsCache) (key : CacheKey) (record : VariantRecord)
    (now : Instant) : bool * DnsCache :=
  let set := default default_VariantSet (m_get (c_variants c) key) in
  let is_new := negb (existsb (λ v, var_fingerprint v =? var_fingerprint record)
                        (vs_variants set)) in
  (is_new,
   with_stores c (c_answers c) (c_failures c)
     (m_insert (c_variants c) key (push_variant set record now))).

Definition set_selected_variant (c : DnsCache) (key : CacheKey) (fingerprint : Z)
    (now : Instant) : DnsCache :=
  match m_get (c_variants c) key with
  | None => c
  | Some set =>
      if bool_decide (vs_selected set = Some fingerprint) then c
      else with_stores c (c_answers c) (c_failures c)
             (m_insert (c_variants c) key
                (mk_VariantSet (vs_variants set) (Some fingerprint) (Some now)))
  end.

Definition invalidate_keys (c : DnsCache) (p : CacheKey -> bool) : DnsCache :=
  with_stores c (m_invalidate_if (c_answers c) (λ k _, p k))
    (m_invalidate_if (c_failures c) (λ k _, p k))
    (m_invalidate_if (c_variants c) (λ k _, p k)).

Definition flush_name (c : DnsCache) (name : str) : DnsCache :=
  let target := normalize_name name in
  invalidate_keys c (λ k, str_eqb (key_name k) target).

Definition flush_suffix (c : DnsCache) (suffix : str) : DnsCache :=
  let target := normalize_name suffix in
  invalidate_keys c (λ k, name_in_suffix (key_name k) target).

Definition flush_all (c : DnsCache) : DnsCache :=
  with_stores c (m_invalidate_all (c_answers c)) (m_invalidate_all (c_failures c))
    (m_invalidate_all (c_variants c)).

Definition run_maintenance (c : DnsCache) : DnsCache :=
  with_stores c (m_maintain (c_answers c)) (m_maintain (c_failures c))
    (m_maintain (c_variants c)).

Definition with_dnssec (e : CacheEntry) (s : DnssecStatus) : CacheEntry :=
  mk_CacheEntry (ent_message e) (ent_received_at e) (ent_received_unix e) (ent_ttl e)
    (ent_kind e) s (ent_source e) (ent_fingerprint e) (ent_rrsig_expiry_unix e)
    (ent_approx_bytes e).

Definition promote (c : DnsCache) (key : CacheKey) (fingerprint : Z) (status : DnssecStatus)
    : bool * DnsCache :=
  match m_get (c_answers c) key with
  | None => (false, c)
  | Some existing =>
      if negb (ent_fingerprint existing =? fingerprint) then (false, c)
      else if bool_decide (ent_dnssec existing = status) then (false, c)
      else (true, with_stores c (m_insert (c_answers c) key (with_dnssec existing status))
                    (c_failures c) (c_variants c))
  end.

Definition evict_variant (c : DnsCache) (key : CacheKey) (fingerprint : Z) : bool * DnsCache :=
  match m_get (c_answers c) key with
  | None => (false, c)
  | Some existing =>
      if negb (ent_fingerprint existing =? fingerprint) then (false, c)
      else (true, with_stores c (m_invalidate (c_answers c) key) (c_failures c) (c_variants c))
  end.

End cache.
Arguments CacheEntry Name : clear implicits.
Arguments VariantRecord Name : clear implicits.
Arguments VariantSet Name : clear implicits.
Arguments DnsCache Name {ML}.
Arguments Lookup Name : clear implicits.

(** ** The store that never forgets

    An association list satisfies the laws; it shows that they can hold
    together. *)

Fixpoint assoc_get {V} (c : list (CacheKey * V)) (k : CacheKey) : option V :=
  match c with
  | [] => None
  | (k', v) :: c' => if bool_decide (k' = k) then Some v else assoc_get c' k
  end.

Definition assoc_remove {V} (p : CacheKey -> V -> bool) (c : list (CacheKey * V)) :=
  List.filter (λ kv, negb (p kv.1 kv.2)) c.

#[local] Instance moka_assoc : MokaLib CacheKey := {
  moka V := list (CacheKey * V);
  m_new V _ _ _ := [];
  m_get V := assoc_get;
  m_insert V c k v := (k, v) :: c;
  m_invalidate V c k := assoc_remove (λ k' _, bool_decide (k' = k)) c;
  m_invalidate_if V c p :=
    assoc_remove (λ k _, match assoc_get c k with Some v => p k v | None => false end) c;
  m_invalidate_all V _ := [];
  m_maintain V c := c
}.

Lemma assoc_get_remove {V} (q : CacheKey -> bool) (c : list (CacheKey * V)) k :
  assoc_get (assoc_remove (λ k' _, q k') c) k = if q k then None else assoc_get c k.
Proof.
  unfold assoc_remove. induction c as [|[k' v] c IH]; cbn; [by destruct (q k)|].
  destruct (q k') eqn:E; cbn; rewrite IH; case_bool_decide; subst; rewrite ?E; done.
Qed.

#[local] Instance moka_assoc_laws : MokaLaws CacheKey.
Proof.
  split; cbn -[assoc_remove]; intros V; [done|..]; intros c; [..|done|done].
  - intros k v k' v'. case_bool_decide; naive_solver.
  - intros k k' v'. rewrite (assoc_get_remove (λ k', bool_decide (k' = k))).
    case_bool_decide; [done|]. by split.
  - intros p k v.
    rewrite (assoc_get_remove (λ k, match assoc_get c k with Some v => p k v | None => false end)).
    destruct (assoc_get c k) as [w|]; [|done].
    destruct (p k w) eqn:Ep; [done|]. intros [= <-]. done.
Qed.

(** ** States reached by the operations *)

Section states.
Context {Name : Type} {ML : MokaLib CacheKey}.
Implicit Types c : DnsCache Name.

(** [c'] answers with nothing that [c] does not. *)
Definition only_forgets {V} (c c' : moka V) : Prop :=
  ∀ k v, m_get c' k = Some v -> m_get c k = Some v.

(** One operation.  [promote] is called by the background validation, which
    evicts what it finds Bogus and promotes the rest. *)
Inductive cache_step : DnsCache Name -> DnsCache Name -> Prop :=
| step_insert c k e : cache_step c (cache_insert c k e)
| step_record_failure c k f : cache_step c (record_failure c k f)
| step_failure c k now : cache_step c (failure c k now).2
| step_clear_failure c k : cache_step c (clear_failure c k)
| step_record_variant c k r now : cache_step c (record_variant c k r now).2
| step_select c k fp now : cache_step c (set_selected_variant c k fp now)
| step_flush_name c n : cache_step c (flush_name c n)
| step_flush_suffix c s : cache_step c (flush_suffix c s)
| step_flush_all c : cache_step c (flush_all c)
| step_promote c k fp st : st ≠ Bogus -> cache_step c (promote c k fp st).2
| step_evict c k fp : cache_step c (evict_variant c k fp).2
| step_maintain c : cache_step c (run_maintenance c)
| step_forget c a f v :
    only_forgets (c_answers c) a -> only_forgets (c_failures c) f ->
    only_forgets (c_variants c) v -> cache_step c (with_stores c a f v).

Inductive reachable : DnsCache Name -> Prop :=
| reachable_new wire_len cfg stale : reachable (cache_new wire_len cfg stale)
| reachable_step c c' : reachable c -> cache_step c c' -> reachable c'.

Definition variants_ok (vs : list (VariantRecord Name)) : Prop :=
  (length vs <= MAX_VARIANTS_PER_KEY)%nat ∧ NoDup (map var_fingerprint vs).

Record cache_inv (c : DnsCache Name) : Prop := {
  inv_no_bogus : ∀ k e, m_get (c_answers c) k = Some e -> ent_dnssec e ≠ Bogus;
  inv_variants : ∀ k s, m_get (c_variants c) k = Some s -> variants_ok (vs_variants s)
}.

Context {MLaws : MokaLaws CacheKey}.

Lemma filter_fingerprints (p : VariantRecord Name -> bool) vs :
  NoDup (map var_fingerprint vs) -> NoDup (map var_fingerprint (List.filter p vs)).
Proof.
  induction vs as [|v vs IH]; [done|]. cbn [map List.filter]. intros [Hv Hvs]%NoDup_cons.
  destruct (p v); [|by apply IH]. cbn [map]. apply NoDup_cons. split; [|by apply IH].
  intros (x & Hx & Hin)%list_elem_of_fmap. apply Hv. rewrite Hx. apply list_elem_of_fmap_2.
  by apply list_elem_of_In, filter_In in Hin as [Hin%list_elem_of_In _].
Qed.

Lemma push_variant_ok set r now :
  NoDup (map var_fingerprint (vs_variants set)) -> variants_ok (vs_variants (push_variant set r now)).
Proof.
  intros Hnd. unfold push_variant. cbn [vs_variants].
  set (kept := List.filter _ _). assert (NoDup (map var_fingerprint (kept ++ [r]))) as Hall.
  { rewrite map_app. apply NoDup_app. split_and!.
    - by apply filter_fingerprints.
    - intros z (x & -> & Hin)%list_elem_of_fmap Hz. apply list_elem_of_In, filter_In in Hin.
      destruct Hin as [_ Hp]. bool_to_prop. by apply list_elem_of_singleton in Hz.
    - apply NoDup_singleton. }
  case_match eqn:E; [|split; [apply Nat.ltb_ge in E; lia|done]].
  apply Nat.ltb_lt in E. split.
  - rewrite length_drop, stable_sort_length. lia.
  - assert (NoDup (map var_fingerprint (stable_sort older (kept ++ [r])))) as Hs.
    { by rewrite (fmap_Permutation _ _ _ (stable_sort_perm older (kept ++ [r]))). }
    revert Hs. generalize (stable_sort older (kept ++ [r])). intros l Hs.
    rewrite <- (take_drop (length (kept ++ [r]) - MAX_VARIANTS_PER_KEY) l) in Hs.
    rewrite map_app in Hs. by apply NoDup_app in Hs as (_ & _ & ?).
Qed.

Lemma cache_inv_weaken c c' :
  cache_inv c -> only_forgets (c_answers c) (c_answers c') ->
  only_forgets (c_variants c) (c_variants c') -> cache_inv c'.
Proof. intros [H1 H2] Ha Hv. split; intros k x Hx; [eapply H1|eapply H2]; eauto. Qed.

Lemma only_forgets_refl {V} (m : moka V) : only_forgets m m.
Proof. by intros k v. Qed.

Lemma only_forgets_invalidate {V} (m : moka V) k : only_forgets m (m_invalidate m k).
Proof. by intros k' v [_ ?]%m_get_invalidate. Qed.

Lemma only_forgets_invalidate_if {V} (m : moka V) p : only_forgets m (m_invalidate_if m p).
Proof. by intros k v [? _]%m_get_invalidate_if. Qed.

Lemma only_forgets_all {V} (m : moka V) : only_forgets m (m_invalidate_all m).
Proof. intros k v. by rewrite m_get_invalidate_all. Qed.

Lemma only_forgets_maintain {V} (m : moka V) : only_forgets m (m_maintain m).
Proof. by intros k v ?%m_get_maintain. Qed.

#[local] Hint Resolve only_forgets_refl only_forgets_invalidate only_forgets_invalidate_if
  only_forgets_all only_forgets_maintain : egress.

Lemma cache_inv_put c k e :
  cache_inv c -> ent_dnssec e ≠ Bogus ->
  cache_inv (with_stores c (m_insert (c_answers c) k e) (c_failures c) (c_variants c)).
Proof.
  intros [H1 H2] He. split; [|done]. intros k' e'. cbn. intros [[-> ->]|[_ ?]]%m_get_insert; eauto.
Qed.

Lemma cache_inv_put_variants c k s :
  cache_inv c -> variants_ok (vs_variants s) ->
  cache_inv (with_stores c (c_answers c) (c_failures c) (m_insert (c_variants c) k s)).
Proof.
  intros [H1 H2] He. split; [done|]. intros k' e'. cbn. intros [[-> ->]|[_ ?]]%m_get_insert; eauto.
Qed.

Lemma cache_inv_step c c' : cache_inv c -> cache_step c c' -> cache_inv c'.
Proof.
  intros Hc Hs.
  destruct Hs; try (eapply cache_inv_weaken; [exact Hc|cbn; auto with egress..]; fail).
  - unfold cache_insert. case_bool_decide; [done|]. by apply cache_inv_put.
  - unfold failure. repeat case_match; try done.
    eapply cache_inv_weaken; [exact Hc|cbn; auto with egress..].
  - apply cache_inv_put_variants; [done|]. apply push_variant_ok.
    destruct (m_get (c_variants c) k) eqn:E; cbn; [|constructor].
    by apply (inv_variants _ Hc) in E as [_ ?].
  - unfold set_selected_variant. repeat case_match; try done.
    apply cache_inv_put_variants; [done|]. cbn. by eapply (inv_variants c Hc k).
  - unfold promote. repeat case_match; try done. cbn [snd]. apply cache_inv_put; done.
  - unfold evict_variant. repeat case_match; try done.
    eapply cache_inv_weaken; [exact Hc|cbn; auto with egress..].
Qed.

Lemma reachable_inv c : reachable c -> cache_inv c.
Proof.
  induction 1 as [w cfg st|c c' _ IH Hs]; [|by eapply cache_inv_step].
  split; intros k x; cbn; by rewrite m_get_new.
Qed.

Lemma cache_get_found c k now e x :
  (cache_get c k now = Fresh e x ∨ cache_get c k now = Stale e x) ->
  m_get (c_answers c) k = Some e.
Proof. unfold cache_get. intros [H|H]; repeat case_match; by simplify_eq. Qed.

Lemma name_in_suffix_dotted ls ss :
  Forall label_ok ls -> Forall label_ok ss -> ls ≠ [] -> ss ≠ [] ->
  name_in_suffix (dotted ls) (dotted ss) = true <-> label_suffix ss ls.
Proof.
  intros Hl Hs Hln Hsn. unfold name_in_suffix.
  destruct (str_eqb (dotted ls) (dotted ss)) eqn:E.
  { apply str_eqb_eq in E. apply dotted_inj in E as ->; [|done..].
    split; [|done]. intros _. by exists []. }
  replace (str_eqb (dotted ss) [dot]) with false.
  2: { symmetry. apply not_true_iff_false. intros Hd%str_eqb_eq. destruct ss as [|s ss]; [done|].
       rewrite dotted_cons in Hd. apply Forall_cons in Hs as [[Hne _] _].
       destruct s as [|a s]; [done|]. by destruct s. }
  rewrite !andb_true_iff, ends_with_spec, Nat.ltb_lt, bool_decide_eq_true. split.
  - intros [[[t Ht] Hlen] Hdot]. rewrite Ht in Hdot. rewrite length_app in Hdot.
    assert (t ≠ []) as Htn by (intros ->; rewrite Ht in Hlen; cbn in Hlen; lia).
    destruct (exists_last Htn) as (u & a & ->). rewrite length_app in Hdot. cbn [length] in Hdot.
    replace (length u + 1 + length (dotted ss) - length (dotted ss) - 1)%nat
      with (length u) in Hdot by lia.
    rewrite <- app_assoc in Hdot. cbn [app] in Hdot.
    rewrite list_lookup_middle in Hdot by done. simplify_eq.
    apply (dotted_cut u); [done..|]. rewrite Ht. by rewrite <- app_assoc.
  - intros Hsuf. destruct (label_suffix_dotted _ _ Hsuf) as (t & Ht & [->|[u ->]]).
    { rewrite Ht in E. cbn in E. by rewrite str_eqb_refl in E. }
    rewrite Ht, !length_app. cbn [length]. split_and!; [by eexists|lia|].
    replace (length u + 1 + length (dotted ss) - length (dotted ss) - 1)%nat
      with (length u) by lia.
    rewrite <- app_assoc. by apply list_lookup_middle.
Qed.

Lemma normalize_name_dotted ss text :
  Forall label_ok ss -> ss ≠ [] -> text = join_with dot ss ∨ text = dotted ss ->
  normalize_name text = dotted (map to_ascii_lowercase ss).
Proof.
  intros Hs Hne Ht. unfold normalize_name.
  assert (map to_ascii_lowercase ss ≠ []) as Hne' by by intros ?%map_eq_nil.
  destruct Ht as [->| ->].
  - rewrite join_lower, (dotted_join (map to_ascii_lowercase ss)) by done.
    destruct (ends_with _ _) eqn:E; [|done]. apply ends_with_spec in E as [t Et].
    exfalso. eapply (join_last_ne (map to_ascii_lowercase ss)); [by apply Forall_label_lower|].
    by rewrite Et, rev_app_distr.
  - rewrite dotted_lower. destruct (dotted_last _ Hne') as [t Et].
    replace (ends_with _ _) with true; [done|]. symmetry. apply ends_with_spec. eauto.
Qed.

End states.

Section properties.
Context {Name : Type} {ML : MokaLib CacheKey}.

(** C37. A lookup is decided by the whole seconds since receipt: before the TTL
    runs out the entry is fresh with the difference left, after that it is stale
    exactly while serve-stale is enabled, its window is open and the entry is not
    Bogus, and it is a miss otherwise. *)
Theorem lookup_decided_by_age (c : DnsCache Name) k e now :
  m_get (c_answers c) k = Some e -> is_u32 (ent_ttl e) ->
  as_secs (since now (ent_received_at e)) <= u32_max ->
  let age := as_secs (since now (ent_received_at e)) in
  cache_get c k now =
    if age <? ent_ttl e then Fresh e (ent_ttl e - age)
    else if stale_enabled (c_serve_stale c) && (age - ent_ttl e <=? as_secs (max_stale (c_serve_stale c)))
            && negb (bool_decide (ent_dnssec e = Bogus))
    then Stale e (age - ent_ttl e) else Miss.
Proof.
  intros Hk [Ht0 Ht1] Hage age. unfold cache_get, remaining_ttl, staleness_secs, age_secs.
  rewrite Hk, as_u32_small.
  2: { split; [|done]. apply as_secs_nonneg, sat_sub_nonneg. }
  fold age. unfold sat_sub.
  destruct (Z.ltb_spec age (ent_ttl e)).
  - rewrite Z.max_r by lia. destruct (Z.ltb_spec 0 (ent_ttl e - age)); [done|lia].
  - rewrite Z.max_l, Z.max_r by lia. cbn [Z.ltb Z.compare].
    destruct (stale_enabled _); cbn [negb andb]; [|done].
    rewrite Z.leb_antisym.
    destruct (as_secs (max_stale (c_serve_stale c)) <? age - ent_ttl e); cbn [negb andb]; [done|].
    by destruct (bool_decide (ent_dnssec e = Bogus)).
Qed.

Context {MLaws : MokaLaws CacheKey}.

(** Whatever sequence of operations, evictions and expiries a cache has been
    through, a lookup never returns an answer known to be Bogus, fresh or stale. *)
Theorem bogus_never_served (c : DnsCache Name) k now e x :
  reachable c -> cache_get c k now = Fresh e x ∨ cache_get c k now = Stale e x ->
  ent_dnssec e ≠ Bogus.
Proof. intros Hr Hg%cache_get_found. eapply inv_no_bogus; [by apply reachable_inv|done]. Qed.

(** In every reachable cache a key holds at most four variants, no two with
    the same fingerprint; and recording the newest observation keeps it, whatever
    has to be dropped. *)
Theorem variants_bounded_and_distinct (c : DnsCache Name) k s r now :
  reachable c -> variants c k = Some s -> (∀ v, v ∈ vs_variants s -> older v r = true) ->
  variants_ok (vs_variants s) ∧ variants_ok (vs_variants (push_variant s r now))
  ∧ r ∈ vs_variants (push_variant s r now).
Proof.
  intros Hr%reachable_inv Hs Hold. pose proof (inv_variants _ Hr _ _ Hs) as Hok.
  split_and!; [done|apply push_variant_ok; apply Hok|].
  unfold push_variant. cbn [vs_variants]. set (kept := List.filter _ _).
  assert (∀ v, v ∈ kept -> older v r = true) as Hk.
  { intros v [? _]%list_elem_of_In%filter_In. by apply Hold, list_elem_of_In. }
  case_match; [|set_solver]. rewrite stable_sort_last by done.
  rewrite drop_app_le; [set_solver|].
  rewrite stable_sort_length, length_app. unfold MAX_VARIANTS_PER_KEY. cbn [length]. lia.
Qed.

(** A verdict changes only the answer it is about: after a promotion or an
    eviction every stored answer is one that was there before, except the promoted
    one, which was stored under the key with the validated fingerprint and differs
    in its DNSSEC state alone; an eviction leaves an answer with another
    fingerprint where it was. *)
Lemma verdict_touches_only_its_answer (c : DnsCache Name) k fp st k' e' :
  (m_get (c_answers (promote c k fp st).2) k' = Some e' ->
   m_get (c_answers c) k' = Some e'
   ∨ k' = k ∧ (promote c k fp st).1 = true
     ∧ ∃ e, m_get (c_answers c) k = Some e ∧ ent_fingerprint e = fp ∧ e' = with_dnssec e st)
  ∧ (m_get (c_answers (evict_variant c k fp).2) k' = Some e' ->
     m_get (c_answers c) k' = Some e')
  ∧ (∀ e, m_get (c_answers c) k = Some e -> ent_fingerprint e ≠ fp ->
     promote c k fp st = (false, c) ∧ evict_variant c k fp = (false, c)).
Proof.
  unfold promote, evict_variant. split_and!.
  - destruct (m_get (c_answers c) k) as [e|] eqn:E; [|by left].
    destruct (Z.eqb_spec (ent_fingerprint e) fp); cbn [negb]; [|by left].
    case_bool_decide; [by left|]. cbn. intros [[-> ->]|[_ ?]]%m_get_insert; eauto 10.
  - destruct (m_get (c_answers c) k) as [e|] eqn:E; [|done]. case_match; [done|].
    cbn. by intros [_ ?]%m_get_invalidate.
  - intros e -> Hne%Z.eqb_neq. by rewrite Hne.
Qed.

(** Flushing a suffix removes from all three stores every key at or below it
    in whole labels, in any letter case and with or without the trailing dot, and
    the flush considers no other key. *)
Theorem flush_suffix_on_labels (c : DnsCache Name) k ls ss text :
  Forall label_ok ls -> ls ≠ [] -> Forall label_ok ss -> ss ≠ [] ->
  key_name k = dotted (map to_ascii_lowercase ls) ->
  text = join_with dot ss ∨ text = dotted ss ->
  (name_in_suffix (key_name k) (normalize_name text) = true
   <-> label_suffix (map to_ascii_lowercase ss) (map to_ascii_lowercase ls))
  ∧ (label_suffix (map to_ascii_lowercase ss) (map to_ascii_lowercase ls) ->
     m_get (c_answers (flush_suffix c text)) k = None
     ∧ m_get (c_failures (flush_suffix c text)) k = None
     ∧ m_get (c_variants (flush_suffix c text)) k = None).
Proof.
  intros Hl Hln Hs Hsn Hk Ht.
  assert (normalize_name text = dotted (map to_ascii_lowercase ss)) as Hn
    by by apply normalize_name_dotted.
  assert (name_in_suffix (key_name k) (normalize_name text) = true
   <-> label_suffix (map to_ascii_lowercase ss) (map to_ascii_lowercase ls)) as Hiff.
  { rewrite Hn, Hk. apply name_in_suffix_dotted; auto using Forall_label_lower;
      by intros ?%map_eq_nil. }
  split; [done|]. intros Hsuf%Hiff.
  split_and!; apply eq_None_not_Some; intros [x [_ Hx]%m_get_invalidate_if]; congruence.
Qed.

(** Asking for the active failure of a key forgets it, and its streak, as soon as
    it has expired. *)
Lemma failure_none_get (c c' : DnsCache Name) k now :
  failure c k now = (None, c') -> m_get (c_failures c') k = None.
Proof.
  unfold failure. destruct (m_get (c_failures c) k) as [f|] eqn:E; [|by intros [= <-]].
  case_match; [done|]. intros [= <-]. cbn [clear_failure with_stores c_failures].
  destruct (m_get (m_invalidate _ _) k) as [f'|] eqn:E'; [|done].
  by apply m_get_invalidate in E' as [? _].
Qed.

Lemma failure_none_streak (c c' : DnsCache Name) k now :
  failure c k now = (None, c') -> failure_streak c' k = 0.
Proof. intros H%failure_none_get. unfold failure_streak. by rewrite H. Qed.

End properties.

(** ** Concrete caches *)

Definition sample_key : CacheKey :=
  cache_key (lit "www.Example.com") RT_A IN (mk_PolicyView (lit "default") None)
    (mk_ReqMode false false).

Definition sample_message : Message str :=
  mk_Message (mk_Metadata 1 MtResponse OpQuery false false true true false false NoError)
    [] [] [] [] None.

Definition sample_entry : CacheEntry str :=
  mk_CacheEntry sample_message 0 1000 60 Positive Indeterminate
    (mk_AnswerSource (lit "one") Udp) 7 None 512.

Definition sample_variant (fp at_ : Z) : VariantRecord str :=
  mk_VariantRecord fp sample_message (mk_AnswerSource (lit "one") Udp) at_ 60 Indeterminate.

Definition empty_cache : DnsCache str :=
  cache_new (λ _, None) default_CacheConfig default_ServeStaleConfig.

Definition filled_cache : DnsCache str := cache_insert empty_cache sample_key sample_entry.

Lemma filled_cache_reachable : reachable filled_cache.
Proof. eapply reachable_step; [apply reachable_new|apply step_insert]. Qed.

Definition variant_cache : DnsCache str :=
  (record_variant filled_cache sample_key (sample_variant 7 0) 0).2.

Lemma variant_cache_reachable : reachable variant_cache.
Proof. eapply reachable_step; [apply filled_cache_reachable|apply step_record_variant]. Qed.

Lemma lookup_decided_by_age_witness :
  cache_get filled_cache sample_key (from_secs 45) = Fresh sample_entry 15
  ∧ cache_get filled_cache sample_key (from_secs 90) = Stale sample_entry 30.
Proof.
  split.
  - rewrite (lookup_decided_by_age filled_cache sample_key sample_entry (from_secs 45));
      vm_compute; done.
  - rewrite (lookup_decided_by_age filled_cache sample_key sample_entry (from_secs 90));
      vm_compute; done.
Defined.

Lemma bogus_never_served_witness : ent_dnssec sample_entry ≠ Bogus.
Proof.
  apply (bogus_never_served filled_cache sample_key (from_secs 45) sample_entry 15);
    [apply filled_cache_reachable|left; vm_compute; reflexivity].
Defined.

Lemma variants_bounded_and_distinct_witness :
  sample_variant 8 5 ∈ vs_variants
    (push_variant (mk_VariantSet [sample_variant 7 0] None None) (sample_variant 8 5) 5).
Proof.
  apply (variants_bounded_and_distinct variant_cache sample_key
    (mk_VariantSet [sample_variant 7 0] None None) (sample_variant 8 5) 5).
  - apply variant_cache_reachable.
  - vm_compute. reflexivity.
  - intros v Hv%list_elem_of_singleton. cbn in Hv. subst v. reflexivity.
Defined.

Lemma flush_suffix_on_labels_witness :
  m_get (c_answers (flush_suffix filled_cache (lit "EXAMPLE.com"))) sample_key = None.
Proof.
  apply (flush_suffix_on_labels filled_cache sample_key
    [lit "www"; lit "Example"; lit "com"] [lit "EXAMPLE"; lit "com"] (lit "EXAMPLE.com")).
  - repeat (apply Forall_cons_2; [split; [done|by apply (bool_decide_unpack _)]|]). apply Forall_nil_2.
  - done.
  - repeat (apply Forall_cons_2; [split; [done|by apply (bool_decide_unpack _)]|]). apply Forall_nil_2.
  - done.
  - vm_compute. reflexivity.
  - left. vm_compute. reflexivity.
  - exists [lit "www"]. reflexivity.
Defined.

Definition failed_cache : DnsCache str :=
  record_failure empty_cache sample_key
    (mk_FailureEntry 0 (from_secs 5) ServFail (lit "timeout") 3).
