(* ===== verification/Datasets.v ===== *)
(** * Static local data

    [src/datasets/]: the hosts table and the parser of hosts files, the internal
    zones built from configuration, the suffix rules that route a name to an
    upstream group, and the snapshot put together from them.  Files are given by
    what reading them returned; parsing a domain name is the DNS library's and a
    parameter.  The advisory GeoIP readers are left out and the hasher
    behind the change digest is an argument. *)

From Stdlib Require Import Ascii String.
From stdpp Require Import strings.
From S2P Require Import Prelude.
From S2P Require Import Names.
From S2P Require Import Net.
From S2P Require Import Text.
From S2P Require Import Dns.
From S2P Require Import Cache.

(** ** Hosts *)

Module Hosts.

Record LoadStats : Type := mk_LoadStats { added : Z; dropped : Z }.

Abbreviation HostsTable := (gmap (list ascii) (list IpAddr)) (only parsing).

Definition push_address (entry : list IpAddr) (a : IpAddr) : list IpAddr :=
  if bool_decide (a ∈ entry) then entry else entry ++ [a].

Definition insert (t : HostsTable) (name : str) (addresses : list IpAddr) : HostsTable :=
  let key := normalize_name name in
  <[key := fold_left push_address addresses (default [] (t !! key))]> t.

Definition get (t : HostsTable) (name : str) : option (list IpAddr) := t !! normalize_name name.

Definition is_v4 (a : IpAddr) : bool := match a with V4 _ => true | V6 _ => false end.

Definition get_family (t : HostsTable) (name : str) (ipv4 : bool) : list IpAddr :=
  match get t name with
  | Some addrs => List.filter (λ a, Bool.eqb (is_v4 a) ipv4) addrs
  | None => []
  end.

Definition drop_one (s : LoadStats) : LoadStats := mk_LoadStats (added s) (dropped s + 1).
Definition add_one (s : LoadStats) : LoadStats := mk_LoadStats (added s + 1) (dropped s).

(** The names of one line; the flag tells whether any was stored. *)
Fixpoint load_names (max_records : Z) (addr : IpAddr) (names : list str) (t : HostsTable)
    (stats : LoadStats) (any : bool) : HostsTable * LoadStats * bool :=
  match names with
  | [] => (t, stats, any)
  | name :: rest =>
      if max_records <=? Z.of_nat (size t) then (t, drop_one stats, any)
      else if 253 <? Z.of_nat (length name)
      then load_names max_records addr rest t (drop_one stats) any
      else load_names max_records addr rest (insert t name [addr]) (add_one stats) true
  end.

Definition hash : ascii := "#"%char.

Definition load_line (max_records : Z) (acc : HostsTable * LoadStats) (line : str)
    : HostsTable * LoadStats :=
  let '(t, stats) := acc in
  let line := trim (match split_once (ascii_eqb hash) line with
                    | Some (before, _) => before
                    | None => line
                    end) in
  match split_whitespace line with
  | [] => (t, stats)
  | addr_text :: names =>
      match parse_ip addr_text with
      | None => (t, drop_one stats)
      | Some addr =>
          let '(t, stats, any) := load_names max_records addr names t stats false in
          (t, if any then stats else drop_one stats)
      end
  end.

Definition load_hosts_format (t : HostsTable) (text : str) (max_records : Z)
    : HostsTable * LoadStats :=
  fold_left (load_line max_records) (lines text) (t, mk_LoadStats 0 0).

End Hosts.

(** ** Internal zones *)

Module Zones.

(** The configuration of a zone. *)
Record LocalRecord : Type := mk_LocalRecord {
  lr_name : str;
  lr_rtype : str;
  lr_value : str;
  lr_ttl : option Z
}.

Record LocalZone : Type := mk_LocalZone {
  lz_name : str;
  lz_records : list LocalRecord;
  lz_authoritative : bool
}.

(** The reasons a zone is refused, for their text. *)
Inductive ZoneError : Type :=
| EmptyZoneName
| InvalidOwner (owner : str)
| InvalidIpv4 (value : str)
| InvalidIpv6 (value : str)
| InvalidName (value : str)
| MxShape (value : str)
| InvalidMxPreference (pref : str)
| SrvShape (value : str)
| InvalidSrvPriority
| InvalidSrvWeight
| InvalidSrvPort
| UnsupportedType (rtype : str).

Section zones.
Context {Name : Type} (name_from_str : str -> option Name).

Inductive ZoneAnswer : Type :=
| Records (rs : list (DnsRecord Name))
| NoData
| NxDomain
| NotInZone.

Record Zone : Type := mk_Zone {
  z_apex : str;
  z_authoritative : bool;
  z_records : gmap (list ascii) (list (DnsRecord Name))
}.

Definition parse_name (value : str) : result ZoneError Name :=
  let text := if ends_with value [dot] then value else value ++ [dot] in
  match name_from_str text with Some n => Ok n | None => Err (InvalidName value) end.

Definition u16_max : Z := 65535.

Definition build_rdata (rtype value : str) : result ZoneError (RData Name) :=
  let value := trim value in
  let rtype := to_ascii_uppercase rtype in
  let target (mk : Name -> RData Name) (v : str) :=
    match parse_name v with Ok n => Ok (mk n) | Err e => Err e end in
  if str_eqb rtype (lit "A") then
    match parse_ipv4 value with Some a => Ok (RD_A a) | None => Err (InvalidIpv4 value) end
  else if str_eqb rtype (lit "AAAA") then
    match parse_ipv6 value with Some a => Ok (RD_AAAA a) | None => Err (InvalidIpv6 value) end
  else if str_eqb rtype (lit "CNAME") then target RD_CNAME value
  else if str_eqb rtype (lit "NS") then target RD_NS value
  else if str_eqb rtype (lit "PTR") then target RD_PTR value
  else if str_eqb rtype (lit "TXT") then Ok (RD_TXT [value])
  else if str_eqb rtype (lit "MX") then
    match split_once is_whitespace value with
    | None => Err (MxShape value)
    | Some (pref, host) =>
        match parse_uint u16_max (trim pref) with
        | None => Err (InvalidMxPreference pref)
        | Some p => target (RD_MX p) (trim host)
        end
    end
  else if str_eqb rtype (lit "SRV") then
    match split_whitespace value with
    | [priority; weight; port; host] =>
        match parse_uint u16_max priority with
        | None => Err InvalidSrvPriority
        | Some pr => match parse_uint u16_max weight with
          | None => Err InvalidSrvWeight
          | Some w => match parse_uint u16_max port with
            | None => Err InvalidSrvPort
            | Some po => target (RD_SRV pr w po) host
            end
          end
        end
    | _ => Err (SrvShape value)
    end
  else Err (UnsupportedType rtype).

Definition build_record (name : Name) (ttl : Z) (rtype value : str)
    : result ZoneError (DnsRecord Name) :=
  match build_rdata rtype value with
  | Ok d => Ok (mk_Record name IN ttl d PIndeterminate)
  | Err e => Err e
  end.

(** The owner of a record: relative to the apex unless it ends in a dot. *)
Definition owner_of (apex name : str) : str :=
  if str_eqb name (lit "@") || is_empty name then apex ++ [dot]
  else if ends_with name [dot] then to_ascii_lowercase name
  else to_ascii_lowercase name ++ dot :: apex ++ [dot].

Definition add_record (m : gmap (list ascii) (list (DnsRecord Name))) (owner : str)
    (r : DnsRecord Name) : gmap (list ascii) (list (DnsRecord Name)) :=
  let key := normalize_name owner in <[key := default [] (m !! key) ++ [r]]> m.

Fixpoint build_records (apex : str) (default_ttl : Z) (recs : list LocalRecord)
    (m : gmap (list ascii) (list (DnsRecord Name)))
    : result ZoneError (gmap (list ascii) (list (DnsRecord Name))) :=
  match recs with
  | [] => Ok m
  | rec :: rest =>
      let owner := owner_of apex (lr_name rec) in
      match name_from_str owner with
      | None => Err (InvalidOwner owner)
      | Some name =>
          match build_record name (default default_ttl (lr_ttl rec)) (lr_rtype rec) (lr_value rec) with
          | Err e => Err e
          | Ok r => build_records apex default_ttl rest (add_record m owner r)
          end
      end
  end.

Definition build_zone (default_ttl : Z) (zone : LocalZone) : result ZoneError Zone :=
  let apex := to_ascii_lowercase (trim_end_matches dot (lz_name zone)) in
  if is_empty apex then Err EmptyZoneName
  else
    match build_records apex default_ttl (lz_records zone) ∅ with
    | Err e => Err e
    | Ok m => Ok (mk_Zone apex (lz_authoritative zone) m)
    end.

Fixpoint build_all (default_ttl : Z) (zones : list LocalZone) : result ZoneError (list Zone) :=
  match zones with
  | [] => Ok []
  | zone :: rest =>
      match build_zone default_ttl zone with
      | Err e => Err e
      | Ok z => match build_all default_ttl rest with Ok zs => Ok (z :: zs) | Err e => Err e end
      end
  end.

(** Longest apex first; the sort is stable. *)
Definition longer_apex (a b : Zone) : bool := (length (z_apex b) <=? length (z_apex a))%nat.

Definition build (zones : list LocalZone) (default_ttl : Z) : result ZoneError (list Zone) :=
  match build_all default_ttl zones with
  | Ok zs => Ok (stable_sort longer_apex zs)
  | Err e => Err e
  end.

Definition record_count (zones : list Zone) : Z :=
  foldr (λ z acc, acc + map_fold (λ _ rs n, n + Z.of_nat (length rs)) 0 (z_records z)) 0 zones.

Definition in_zone (n apex : str) : bool := str_eqb n apex || ends_with n (dot :: apex).

(** The answer of the zone that covers the name. *)
Definition zone_answer (zone : Zone) (n : str) (qtype : RecordType) : ZoneAnswer :=
  match z_records zone !! normalize_name n with
  | Some records =>
      match List.filter (λ r, rtype_eqb (record_type r) qtype || rtype_eqb (record_type r) RT_CNAME)
              records with
      | [] => NoData
      | matching => Records matching
      end
  | None => if z_authoritative zone then NxDomain else NotInZone
  end.

Definition lookup (zones : list Zone) (name : str) (qtype : RecordType) : ZoneAnswer :=
  let n := to_ascii_lowercase (trim_end_matches dot name) in
  match find_first (λ z, in_zone n (z_apex z)) zones with
  | Some zone => zone_answer zone n qtype
  | None => NotInZone
  end.

End zones.
End Zones.
Arguments Zones.Zone Name : clear implicits.
Arguments Zones.ZoneAnswer Name : clear implicits.

(** ** Suffix rules and the snapshot *)

Module Snapshot.

Record SuffixRule : Type := mk_SuffixRule { sr_suffix : str; sr_group : str }.

Fixpoint str_leb (a b : str) : bool :=
  match a, b with
  | [], _ => true
  | _ :: _, [] => false
  | x :: a', y :: b' =>
      if code x <? code y then true else if code y <? code x then false else str_leb a' b'
  end.

Definition rule_of (r : SuffixRule) : str * str :=
  (to_ascii_lowercase (trim_start_matches dot (trim_end_matches dot (sr_suffix r))), sr_group r).

(** Longest first, then in the order of their text. *)
Definition rule_leb (a b : str * str) : bool :=
  if (length b.1 <? length a.1)%nat then true
  else if (length a.1 <? length b.1)%nat then false
  else str_leb a.1 b.1.

Definition build_suffix_rules (rules : list SuffixRule) : list (str * str) :=
  stable_sort rule_leb (map rule_of rules).

Definition group_for (rules : list (str * str)) (name : str) : option str :=
  let n := to_ascii_lowercase (trim_end_matches dot name) in
  snd <$> find_first (λ r, str_eqb n r.1 || ends_with n (dot :: r.1)) rules.

(** One line of a category file. *)
Definition category_line (line : str) : option (str * str) :=
  let line := trim line in
  match line with
  | [] => None
  | c :: _ =>
      if ascii_eqb c Hosts.hash then None
      else
        match split_once (ascii_eqb colon) line with
        | None => None
        | Some (category, domain) =>
            let category := to_ascii_lowercase (trim category) in
            let domain := to_ascii_lowercase (trim_end_matches dot (trim domain)) in
            if is_empty category || is_empty domain || (253 <? Z.of_nat (length domain))
            then None else Some (category, domain)
        end
  end.

Record Categories : Type := mk_Categories {
  cat_map : gmap (list ascii) (list (list ascii));
  cat_entries : Z;
  cat_dropped : Z
}.

Definition load_category (max_records : Z) (c : Categories) (line : str) : Categories :=
  if max_records <=? cat_entries c
  then mk_Categories (cat_map c) (cat_entries c) (cat_dropped c + 1)
  else
    match category_line line with
    | None => c
    | Some (category, domain) =>
        mk_Categories (<[category := default [] (cat_map c !! category) ++ [domain]]> (cat_map c))
          (cat_entries c + 1) (cat_dropped c)
    end.

Definition load_categories (max_records : Z) (texts : list str) : Categories :=
  fold_left (load_category max_records) (concat (map lines texts)) (mk_Categories ∅ 0 0).

Definition categories_of (m : gmap (list ascii) (list (list ascii))) (name : str) : list str :=
  let n := to_ascii_lowercase (trim_end_matches dot name) in
  stable_sort str_leb
    (fst <$> List.filter (λ cd, existsb (λ d, str_eqb n d || ends_with n (dot :: d)) cd.2)
               (map_to_list m)).

Record HostEntry : Type := mk_HostEntry { he_name : str; he_addresses : list IpAddr }.

Record LocalConfig : Type := mk_LocalConfig {
  lc_hosts : list HostEntry;
  lc_zones : list Zones.LocalZone;
  lc_suffix_rules : list SuffixRule;
  lc_local_ttl : Z
}.

(** What reading the configured files returned, [None] for one that is skipped. *)
Record DatasetFiles : Type := mk_DatasetFiles {
  df_hosts : list (option str);
  df_categories : list (option str);
  df_max_records : Z
}.

Record DatasetStats : Type := mk_DatasetStats {
  st_host_entries : Z;
  st_zone_records : Z;
  st_suffix_rules : Z;
  st_category_entries : Z;
  st_skipped_files : Z;
  st_dropped_records : Z;
  st_loaded_unix : Z
}.

Record DatasetSnapshot {Name : Type} : Type := mk_DatasetSnapshot {
  ds_hosts : Hosts.HostsTable;
  ds_zones : list (Zones.Zone Name);
  ds_suffix_rules : list (str * str);
  ds_categories : gmap (list ascii) (list (list ascii));
  ds_stats : DatasetStats
}.
Arguments DatasetSnapshot Name : clear implicits.

Definition empty {Name} : DatasetSnapshot Name :=
  mk_DatasetSnapshot Name ∅ [] [] ∅ (mk_DatasetStats 0 0 0 0 0 0 0).

Definition load_hosts_files (max_records : Z) (acc : Hosts.HostsTable * Z) (file : option str)
    : Hosts.HostsTable * Z :=
  match file with
  | Some text =>
      let '(t, stats) := Hosts.load_hosts_format acc.1 text max_records in
      (t, acc.2 + Hosts.dropped stats)
  | None => acc
  end.

Definition skipped (files : list (option str)) : Z :=
  Z.of_nat (length (List.filter (λ f, match f with None => true | Some _ => false end) files)).

Definition build_snapshot {Name} (name_from_str : str -> option Name) (files : DatasetFiles)
    (local : LocalConfig) (now_unix : Z) : result Zones.ZoneError (DatasetSnapshot Name) :=
  let hosts := fold_left (λ t e, Hosts.insert t (he_name e) (he_addresses e)) (lc_hosts local) ∅ in
  let '(hosts, dropped) :=
    fold_left (load_hosts_files (df_max_records files)) (df_hosts files) (hosts, 0) in
  match Zones.build name_from_str (lc_zones local) (lc_local_ttl local) with
  | Err e => Err e
  | Ok zones =>
      let rules := build_suffix_rules (lc_suffix_rules local) in
      let cats := load_categories (df_max_records files) (omap id (df_categories files)) in
      Ok (mk_DatasetSnapshot Name hosts zones rules (cat_map cats)
            (mk_DatasetStats (Z.of_nat (size hosts)) (Zones.record_count zones)
               (Z.of_nat (length rules)) (cat_entries cats)
               (skipped (df_hosts files) + skipped (df_categories files))
               (dropped + cat_dropped cats) now_unix))
  end.

(** What the change digest is computed from.  The advisory GeoIP readers, of which
    it takes the presence, are not part of the model. *)
Definition key_leb {A} (a b : str * A) : bool := str_leb a.1 b.1.

Definition sorted_entries {A} (m : gmap (list ascii) A) : list (str * A) :=
  stable_sort key_leb (map_to_list m).

Definition zone_view {Name} (z : Zones.Zone Name) : str * bool * list (str * list (RData Name * Z)) :=
  (Zones.z_apex z, Zones.z_authoritative z,
   map (λ kv, (kv.1, map (λ r, (r_data r, r_ttl r)) kv.2)) (sorted_entries (Zones.z_records z))).

Record ContentView {Name : Type} : Type := mk_ContentView {
  cv_hosts : list (str * list IpAddr);
  cv_zones : list (str * bool * list (str * list (RData Name * Z)));
  cv_suffix_rules : list (str * str);
  cv_categories : list (str * nat);
  cv_counts : Z * Z * Z
}.
Arguments ContentView Name : clear implicits.

Definition content_view {Name} (ds : DatasetSnapshot Name) : ContentView Name :=
  mk_ContentView Name
    (sorted_entries (ds_hosts ds)) (map zone_view (ds_zones ds)) (ds_suffix_rules ds)
    (sorted_entries (@length (list ascii) <$> ds_categories ds))
    (st_host_entries (ds_stats ds), st_zone_records (ds_stats ds),
     st_category_entries (ds_stats ds)).

(** [digest] is the standard library's hasher; the result is the snapshot in
    force and whether it is a new one. *)
Definition publish_if_changed {Name} (digest : ContentView Name -> Z)
    (current snapshot : DatasetSnapshot Name) : DatasetSnapshot Name * bool :=
  if digest (content_view current) =? digest (content_view snapshot) then (current, false)
  else (snapshot, true).

End Snapshot.

(** ** Hosts: theorems *)

Section hosts_facts.
Import Hosts.

Lemma push_address_elem e a b : b ∈ push_address e a <-> b ∈ e ∨ b = a.
Proof. unfold push_address. case_bool_decide; set_solver. Qed.

Lemma push_address_NoDup e a : NoDup e -> NoDup (push_address e a).
Proof.
  intros He. unfold push_address. case_bool_decide; [done|].
  apply NoDup_app. split_and!; [done|set_solver|apply NoDup_singleton].
Qed.

Lemma push_addresses_spec addrs e :
  let e' := fold_left push_address addrs e in
  (NoDup e -> NoDup e') ∧ (∀ a, a ∈ e' <-> a ∈ e ∨ a ∈ addrs) ∧ ∃ more, e' = e ++ more.
Proof.
  revert e. induction addrs as [|a addrs IH]; intros e; cbn.
  - split_and!; [done|set_solver|by exists []; rewrite app_nil_r].
  - destruct (IH (push_address e a)) as (Hn & He & more & Hm). split_and!.
    + intros H. by apply Hn, push_address_NoDup.
    + intros b. rewrite He, push_address_elem. set_solver.
    + rewrite Hm. unfold push_address. case_bool_decide; [by eexists|].
      exists (a :: more). by rewrite <- app_assoc.
Qed.

(** Every table a program can build from the empty one. *)
Inductive hosts_reachable : HostsTable -> Prop :=
| hosts_empty : hosts_reachable ∅
| hosts_insert t name addrs : hosts_reachable t -> hosts_reachable (insert t name addrs).

Lemma reachable_NoDup t name e : hosts_reachable t -> get t name = Some e -> NoDup e.
Proof.
  intros Ht. revert e. unfold get. generalize (normalize_name name). intros k.
  induction Ht as [|t n addrs _ IH]; intros e; [done|]. unfold insert. cbn zeta.
  destruct (decide (normalize_name n = k)) as [->|Hne].
  - rewrite lookup_insert_eq. intros [= <-]. apply push_addresses_spec.
    destruct (t !! k) as [e0|] eqn:E; [by apply IH|constructor].
  - rewrite lookup_insert_ne by done. apply IH.
Qed.

(** A hosts mapping is found under any spelling of its name: after an insertion
    a lookup of a name that agrees up to letter case and trailing dot returns the
    addresses it had, in their order, followed by the new ones, each once, and a
    lookup of any other name returns what it did before. *)
Theorem hosts_insert_then_get t name addrs other (Ht : hosts_reachable t) :
  (normalize_name other = normalize_name name ->
   ∃ more, get (insert t name addrs) other = Some (default [] (get t other) ++ more) ∧
     NoDup (default [] (get t other) ++ more) ∧
     (∀ a, a ∈ default [] (get t other) ++ more <-> a ∈ default [] (get t other) ∨ a ∈ addrs)) ∧
  (normalize_name other ≠ normalize_name name ->
   get (insert t name addrs) other = get t other).
Proof.
  split.
  - intros Heq. pose proof (reachable_NoDup t other) as Hnd. unfold get, insert in *.
    cbn zeta. rewrite Heq in *. rewrite lookup_insert_eq.
    destruct (push_addresses_spec addrs (default [] (t !! normalize_name name)))
      as (Hn & He & more & Hm). exists more. rewrite <- Hm. split_and!; [done| |done].
    apply Hn. destruct (t !! normalize_name name) as [e|]; [by apply Hnd|constructor].
  - intros Hne. unfold get, insert. cbn zeta. by rewrite lookup_insert_ne.
Qed.

Lemma insert_size t name addrs : (size t <= size (insert t name addrs) <= S (size t))%nat.
Proof. unfold insert. cbn zeta. rewrite map_size_insert. case_match; unfold id; lia. Qed.

Lemma load_names_size max addr names t stats any :
  Z.of_nat (size (load_names max addr names t stats any).1.1) <= Z.max (Z.of_nat (size t)) max.
Proof.
  revert t stats any. induction names as [|n names IH]; intros t stats any; cbn; [lia|].
  destruct (Z.leb_spec max (Z.of_nat (size t))); [cbn; lia|].
  destruct (_ <? _); [apply IH|].
  pose proof (IH (insert t n [addr]) (add_one stats) true).
  pose proof (insert_size t n [addr]). lia.
Qed.

(** A hosts file never takes the table past the record limit, whatever is in
    it. *)
Theorem hosts_table_bounded t text max_records :
  Z.of_nat (size (load_hosts_format t text max_records).1)
  <= Z.max (Z.of_nat (size t)) max_records.
Proof.
  unfold load_hosts_format. generalize (mk_LoadStats 0 0). revert t.
  induction (lines text) as [|l ls IH]; intros t stats; cbn [fold_left]; [cbn; lia|].
  destruct (load_line max_records (t, stats) l) as [t' stats'] eqn:E.
  specialize (IH t' stats').
  enough (Z.of_nat (size t') <= Z.max (Z.of_nat (size t)) max_records) by lia.
  revert E. unfold load_line. destruct (split_whitespace _) as [|a names]; [intros [= <- _]; lia|].
  destruct (parse_ip a) as [addr|]; [|intros [= <- _]; lia].
  pose proof (load_names_size max_records addr names t stats false) as Hs.
  destruct (load_names _ _ _ _ _ _) as [[t1 s1] any]. intros [= <- _]. exact Hs.
Qed.

(** A line of a hosts file and what may stand on it. *)
Definition host_line (e : Z * str) : str := join_with space [print_ipv4 e.1; e.2].

Definition host_ok (e : Z * str) : Prop :=
  0 <= e.1 < 2 ^ 32 ∧ word e.2 ∧ (hash ∉ e.2) ∧ Z.of_nat (length e.2) <= 253.

Lemma host_line_words e : host_ok e -> Forall word [print_ipv4 e.1; e.2].
Proof. intros (_ & Hw & _). repeat constructor; [apply print_ipv4_word..|apply Hw|apply Hw]. Qed.

Lemma host_line_chars e c :
  host_ok e -> c ∈ host_line e -> c ≠ hash ∧ c ≠ newline ∧ (c = space ∨ is_whitespace c = false).
Proof.
  intros (_ & [_ Hw] & Hh & _) [->|(w & Hin & Hc)]%join_elem; [by split_and!; [..|left]|].
  rewrite !elem_of_cons in Hin. destruct Hin as [->|[->|Hn]]; [| |set_solver].
  - apply print_ipv4_chars in Hc as Ha. pose proof (address_char_not_space c Ha) as Hs.
    split_and!; [|by intros ->|by right].
    intros ->. destruct Ha as [Ha|[Ha _]]; [discriminate Ha|by apply Ha].
  - pose proof (Hw c Hc) as Hs. split_and!; [set_solver| |by right]. intros ->. done.
Qed.

Lemma load_host_line max t stats e :
  host_ok e -> Z.of_nat (size t) < max ->
  load_line max (t, stats) (host_line e) = (insert t e.2 [V4 e.1], add_one stats).
Proof.
  intros He Hsize. pose proof (host_line_words e He) as Hw.
  assert (split_once (ascii_eqb hash) (host_line e) = None) as Hh.
  { apply split_once_none. intros c Hc. apply not_true_iff_false. intros Heq%ascii_eqb_eq.
    destruct (host_line_chars e c He Hc) as [? _]. congruence. }
  unfold load_line. rewrite Hh.
  destruct (join_head_last _ Hw ltac:(done)) as (H1 & H2 & _).
  unfold host_line. rewrite trim_id by done. rewrite split_whitespace_join by done.
  destruct He as (Ha & _ & _ & Hl).
  rewrite (parse_ip_ipv4 _ _ (parse_print_ipv4 _ Ha)). cbn [load_names].
  rewrite (proj2 (Z.leb_gt _ _)), (proj2 (Z.ltb_ge _ _)) by lia. done.
Qed.

(** A hosts file says what is read from it: a file with one address and one
    name on each line, under the record limit, loads as those mappings in that
    order, with every line counted and none dropped. *)
Theorem hosts_file_round_trip (entries : list (Z * str)) max_records
    (Hok : Forall host_ok entries) (Hmax : Z.of_nat (length entries) <= max_records) :
  load_hosts_format ∅ (unlines (map host_line entries)) max_records
  = (fold_left (λ t e, insert t e.2 [V4 e.1]) entries ∅,
     mk_LoadStats (Z.of_nat (length entries)) 0).
Proof.
  unfold load_hosts_format. rewrite lines_unlines.
  2:{ apply Forall_map. eapply Forall_impl; [exact Hok|]. intros e He. split.
      - intros Hn. by destruct (host_line_chars e newline He Hn) as (_ & ? & _).
      - destruct (join_head_last _ (host_line_words e He) ltac:(done)) as (_ & Hl & _).
        intros Hc%Hl. done. }
  assert (∀ t n m, Z.of_nat (size t) <= n -> n + Z.of_nat (length entries) <= max_records ->
    fold_left (load_line max_records) (map host_line entries) (t, mk_LoadStats m 0)
    = (fold_left (λ t e, insert t e.2 [V4 e.1]) entries t,
       mk_LoadStats (m + Z.of_nat (length entries)) 0)) as Hgen.
  { clear Hmax. induction Hok as [|e entries He _ IH]; intros t n m Ht Hn; cbn [map fold_left length] in *.
    - by rewrite Z.add_0_r.
    - rewrite load_host_line by (done || lia). unfold add_one. cbn [added dropped].
      rewrite (IH _ (n + 1)); [f_equal; f_equal; lia| |lia].
      pose proof (insert_size t e.2 [V4 e.1]). lia. }
  by rewrite (Hgen ∅ 0 0).
Qed.

End hosts_facts.

(** ** Zones: theorems *)

Section zone_facts.
Context {Name : Type} (name_from_str : str -> option Name).

(** A configured name in either spelling. *)
Definition spells (text : str) (ls : list str) : Prop :=
  ls ≠ [] ∧ Forall label_ok ls ∧ (text = join_with dot ls ∨ text = dotted ls).

(** [n] is a lower-case name without its final dot; [s] names a subtree it is in. *)
Definition under (n : list str) (s : str) : Prop :=
  ∃ ls, Forall label_ok ls ∧ ls ≠ [] ∧ s = join_with dot ls ∧ label_suffix ls n.

Lemma normal_text text ls :
  Forall label_ok ls -> text = join_with dot ls ∨ text = dotted ls ->
  to_ascii_lowercase (trim_end_matches dot text) = join_with dot (map to_ascii_lowercase ls).
Proof.
  intros Hls [->| ->]; rewrite ?trim_end_join, ?trim_end_dotted by done; apply join_lower.
Qed.

Lemma under_test n ls :
  Forall label_ok n -> ls ≠ [] -> Forall label_ok ls ->
  str_eqb (join_with dot n) (join_with dot ls) ||
  ends_with (join_with dot n) (dot :: join_with dot ls) = true <-> under n (join_with dot ls).
Proof.
  intros Hn Hne Hls. rewrite subtree_test by done. split.
  - intros Hs. by exists ls.
  - intros (ms & Hms & _ & Heq%join_inj & Hs); [|done..]. by rewrite Heq.
Qed.

Lemma build_all_spec ttl cfgs zs z :
  Zones.build_all name_from_str ttl cfgs = Ok zs -> z ∈ zs ->
  ∃ c, c ∈ cfgs ∧ Zones.build_zone name_from_str ttl c = Ok z.
Proof.
  revert zs. induction cfgs as [|c cfgs IH]; intros zs; cbn; [intros [= <-]; set_solver|].
  destruct (Zones.build_zone name_from_str ttl c) as [z0|] eqn:Ez; [|done].
  destruct (Zones.build_all name_from_str ttl cfgs) as [zs0|]; [|done].
  intros [= <-] [->|Hz]%elem_of_cons; [exists c; split; [left|done]|].
  destruct (IH zs0 eq_refl Hz) as (c' & ? & ?). exists c'. split; [by right|done].
Qed.

Lemma build_zone_apex ttl c z ls :
  Zones.build_zone name_from_str ttl c = Ok z -> spells (Zones.lz_name c) ls ->
  Zones.z_apex z = join_with dot (map to_ascii_lowercase ls) ∧
  Zones.z_authoritative z = Zones.lz_authoritative c.
Proof.
  unfold Zones.build_zone. intros Hz (_ & Hls & Ht). rewrite (normal_text _ ls) in Hz by done.
  destruct (is_empty _); [done|]. destruct (Zones.build_records _ _ _ _); by simplify_eq/=.
Qed.

(** A query is answered by the most specific zone that contains it: when no
    configured apex is an ancestor of the name (or the name itself) on label
    boundaries the zones say nothing, and otherwise the answer is that of a zone
    whose apex is the longest such one, whatever the order of the configuration,
    the letter case and the trailing dot. *)
Theorem most_specific_zone_answers ttl cfgs zs text ls qtype
    (Hbuild : Zones.build name_from_str cfgs ttl = Ok zs)
    (Hcfgs : ∀ c, c ∈ cfgs -> ∃ cl, spells (Zones.lz_name c) cl)
    (Hls : Forall label_ok ls) (Htext : text = join_with dot ls ∨ text = dotted ls) :
  let n := map to_ascii_lowercase ls in
  ((∀ z, z ∈ zs -> ~ under n (Zones.z_apex z)) ∧
   Zones.lookup zs text qtype = Zones.NotInZone) ∨
  (∃ z, z ∈ zs ∧ under n (Zones.z_apex z) ∧
     (∀ z', z' ∈ zs -> under n (Zones.z_apex z') ->
        (length (Zones.z_apex z') <= length (Zones.z_apex z))%nat) ∧
     Zones.lookup zs text qtype = Zones.zone_answer z (join_with dot n) qtype).
Proof.
  intros n. unfold Zones.build in Hbuild.
  destruct (Zones.build_all name_from_str ttl cfgs) as [zs0|] eqn:Ea; [|done].
  injection Hbuild as <-.
  assert (Forall label_ok n) as Hn by by apply Forall_label_lower.
  assert (∀ z, z ∈ stable_sort Zones.longer_apex zs0 ->
    Zones.in_zone (join_with dot n) (Zones.z_apex z) = true <-> under n (Zones.z_apex z)) as Hin.
  { intros z Hz%stable_sort_elem_of. destruct (build_all_spec _ _ _ _ Ea Hz) as (c & Hc & Hb).
    destruct (Hcfgs c Hc) as [cl Hcl]. destruct (build_zone_apex _ _ _ _ Hb Hcl) as [-> _].
    destruct Hcl as (Hne & Hcl & _). apply under_test; [done|by destruct cl|by apply Forall_label_lower]. }
  unfold Zones.lookup. rewrite (normal_text text ls) by done. fold n.
  destruct (find_first _ _) as [z|] eqn:Ef.
  - right. apply find_first_Some in Ef as Hz. destruct Hz as [Hz Hp].
    exists z. split_and!; [done|by apply Hin| |done].
    intros z' Hz' Hu%Hin; [|done]. apply Nat.leb_le.
    refine (find_first_sorted (λ a b, Zones.longer_apex a b = true) _ _ _ _ _ Ef z' Hz' Hu).
    + intros x. apply Nat.leb_le. done.
    + apply stable_sort_sorted; unfold Zones.longer_apex; intros *; rewrite !Nat.leb_le; lia.
  - left. split; [|done]. intros z Hz Hu%Hin; [|done].
    pose proof (find_first_none _ _ Ef z Hz) as Hf. cbn in Hf. congruence.
Qed.

(** What the type and the value of a configured line stand for, in upper case and without
    the space around. *)
Definition absolute (v : str) : str := if ends_with v [dot] then v else v ++ [dot].

Inductive line_data : str -> str -> RData Name -> Prop :=
| ld_a v a : parse_ipv4 v = Some a -> line_data (lit "A") v (RD_A a)
| ld_aaaa v a : parse_ipv6 v = Some a -> line_data (lit "AAAA") v (RD_AAAA a)
| ld_cname v n : name_from_str (absolute v) = Some n -> line_data (lit "CNAME") v (RD_CNAME n)
| ld_ns v n : name_from_str (absolute v) = Some n -> line_data (lit "NS") v (RD_NS n)
| ld_ptr v n : name_from_str (absolute v) = Some n -> line_data (lit "PTR") v (RD_PTR n)
| ld_txt v : line_data (lit "TXT") v (RD_TXT [v])
| ld_mx pref space host p n :
    is_whitespace space = true -> (∀ c, c ∈ pref -> is_whitespace c = false) ->
    parse_uint Zones.u16_max (trim pref) = Some p -> name_from_str (absolute (trim host)) = Some n ->
    line_data (lit "MX") (pref ++ space :: host) (RD_MX p n)
| ld_srv v priority weight port host pr w po n :
    split_whitespace v = [priority; weight; port; host] ->
    parse_uint Zones.u16_max priority = Some pr -> parse_uint Zones.u16_max weight = Some w ->
    parse_uint Zones.u16_max port = Some po -> name_from_str (absolute host) = Some n ->
    line_data (lit "SRV") v (RD_SRV pr w po n).

(** The record of a line: under its owner, with its own TTL or the default. *)
Definition line_record (apex : str) (ttl : Z) (rec : Zones.LocalRecord) (r : DnsRecord Name) : Prop :=
  ∃ name data, name_from_str (Zones.owner_of apex (Zones.lr_name rec)) = Some name ∧
    line_data (to_ascii_uppercase (Zones.lr_rtype rec)) (trim (Zones.lr_value rec)) data ∧
    r = mk_Record name IN (default ttl (Zones.lr_ttl rec)) data PIndeterminate.

(** The lines of a zone that are about a name. *)
Definition lines_at (apex : str) (recs : list Zones.LocalRecord) (key : str) : list Zones.LocalRecord :=
  List.filter (λ rec, str_eqb (normalize_name (Zones.owner_of apex (Zones.lr_name rec))) key) recs.

Lemma split_once_some p v pref rest :
  split_once p v = Some (pref, rest) ->
  ∃ c, v = pref ++ c :: rest ∧ p c = true ∧ ∀ x, x ∈ pref -> p x = false.
Proof.
  revert pref. induction v as [|c v IH]; intros pref; cbn; [done|]. destruct (p c) eqn:Ec.
  - intros [= <- <-]. exists c. split_and!; [done..|set_solver].
  - destruct (split_once p v) as [[a b]|]; [|done]. intros [= <- ->].
    destruct (IH a eq_refl) as (d & -> & Hd & Ha). exists d. split_and!; [done..|].
    intros x [->|Hx]%elem_of_cons; [done|by apply Ha].
Qed.

Lemma parse_name_absolute v n : Zones.parse_name name_from_str v = Ok n -> name_from_str (absolute v) = Some n.
Proof. unfold Zones.parse_name, absolute. cbn zeta. destruct (name_from_str _); [by intros [= ->]|done]. Qed.

Lemma build_rdata_reads rtype value d :
  Zones.build_rdata name_from_str rtype value = Ok d ->
  line_data (to_ascii_uppercase rtype) (trim value) d.
Proof.
  unfold Zones.build_rdata. cbn zeta. generalize (trim value), (to_ascii_uppercase rtype). intros v t.
  assert (∀ mk v', match Zones.parse_name name_from_str v' with Ok n => Ok (mk n) | Err e => Err e end = Ok d ->
    ∃ n, name_from_str (absolute v') = Some n ∧ d = mk n) as Hname.
  { intros mk v'. destruct (Zones.parse_name _ v') as [n|] eqn:E; [|done]. intros [= <-].
    exists n. split; [by apply parse_name_absolute|done]. }
  repeat match goal with |- context [if str_eqb t ?k then _ else _] =>
    destruct (str_eqb t k) eqn:?E; [apply str_eqb_eq in E as ->; clear - Hname|clear E] end; [..|done].
  - destruct (parse_ipv4 v) eqn:E; [|done]. intros [= <-]. by constructor.
  - destruct (parse_ipv6 v) eqn:E; [|done]. intros [= <-]. by constructor.
  - intros (n & Hn & ->)%Hname. by constructor.
  - intros (n & Hn & ->)%Hname. by constructor.
  - intros (n & Hn & ->)%Hname. by constructor.
  - intros [= <-]. constructor.
  - destruct (split_once is_whitespace v) as [[pref host]|] eqn:Es; [|done].
    destruct (parse_uint _ _) eqn:Ep; [|done]. intros (n & Hn & ->)%Hname.
    apply split_once_some in Es as (c & -> & Hc & Hpref). by econstructor.
  - destruct (split_whitespace v) as [|x1 [|x2 [|x3 [|x4 [|? ?]]]]] eqn:Es; try done.
    destruct (parse_uint _ x1) eqn:E1; [|done]. destruct (parse_uint _ x2) eqn:E2; [|done].
    destruct (parse_uint _ x3) eqn:E3; [|done]. intros (n & Hn & ->)%Hname. by econstructor.
Qed.

Lemma build_records_spec apex ttl recs m m' :
  Zones.build_records name_from_str apex ttl recs m = Ok m' ->
  ∃ rs, Forall2 (line_record apex ttl) recs rs ∧
    ∀ k, ∃ at_k, Forall2 (line_record apex ttl) (lines_at apex recs k) at_k ∧
      default [] (m' !! k) = default [] (m !! k) ++ at_k ∧
      (is_Some (m' !! k) <-> is_Some (m !! k) ∨ at_k ≠ []).
Proof.
  revert m. induction recs as [|rec recs IH]; intros m; cbn [Zones.build_records].
  { intros [= ->]. exists []. split; [constructor|]. intros k. exists []. rewrite app_nil_r. naive_solver. }
  set (owner := Zones.owner_of apex (Zones.lr_name rec)).
  destruct (name_from_str owner) as [name|] eqn:En; [|done].
  unfold Zones.build_record. destruct (Zones.build_rdata _ _ _) as [d|e] eqn:Ed; [|done].
  set (r := mk_Record name IN _ d _). intros (rs & Hall & Hk)%IH.
  assert (line_record apex ttl rec r) as Hr.
  { exists name, d. split_and!; [done|by apply build_rdata_reads|done]. }
  exists (r :: rs). split; [by constructor|]. intros k. destruct (Hk k) as (at_k & Hat & Hget & Hdom).
  unfold lines_at. cbn [List.filter]. fold owner. unfold Zones.add_record in Hget, Hdom. cbn zeta in Hget, Hdom.
  destruct (str_eqb (normalize_name owner) k) eqn:Ek.
  - apply str_eqb_eq in Ek as <-. rewrite lookup_insert_eq in Hget, Hdom. exists (r :: at_k).
    split_and!; [by constructor|rewrite Hget; cbn; by rewrite <- app_assoc|].
    rewrite Hdom. split; [by right|left; by eexists].
  - exists at_k. rewrite lookup_insert_ne in Hget, Hdom by (intros Heq%str_eqb_eq; congruence). done.
Qed.

Definition apex_of (c : Zones.LocalZone) : str := to_ascii_lowercase (trim_end_matches dot (Zones.lz_name c)).

(** The name is the apex of the zone, or ends in a dot and the apex. *)
Definition covers (c : Zones.LocalZone) (n : str) : Prop :=
  n = apex_of c ∨ ∃ front, n = front ++ dot :: apex_of c.

Lemma in_zone_iff c n : Zones.in_zone n (apex_of c) = true <-> covers c n.
Proof.
  unfold Zones.in_zone, covers. rewrite orb_true_iff, str_eqb_eq.
  by rewrite ends_with_spec.
Qed.

(** What a zone with the records [rs] at a name answers. *)
Definition answer_from (authoritative : bool) (rs : list (DnsRecord Name)) (qtype : RecordType)
    : Zones.ZoneAnswer Name :=
  match rs with
  | [] => if authoritative then Zones.NxDomain else Zones.NotInZone
  | _ => match List.filter (λ r, rtype_eqb (record_type r) qtype || rtype_eqb (record_type r) RT_CNAME) rs with
         | [] => Zones.NoData
         | matching => Zones.Records matching
         end
  end.

Lemma build_zone_spec ttl c z :
  Zones.build_zone name_from_str ttl c = Ok z ->
  Zones.z_apex z = apex_of c ∧
  (∃ rs, Forall2 (line_record (apex_of c) ttl) (Zones.lz_records c) rs) ∧
  ∀ n qtype, ∃ rs,
    Forall2 (line_record (apex_of c) ttl) (lines_at (apex_of c) (Zones.lz_records c) (normalize_name n)) rs ∧
    Zones.zone_answer z n qtype = answer_from (Zones.lz_authoritative c) rs qtype.
Proof.
  unfold Zones.build_zone. fold (apex_of c). destruct (is_empty (apex_of c)); [done|].
  destruct (Zones.build_records _ _ _ _ _) as [m|] eqn:Em; [|done]. intros [= <-].
  apply build_records_spec in Em as (all & Hall & Hk). split_and!; [done|by exists all|].
  intros n qtype. destruct (Hk (normalize_name n)) as (rs & Hrs & Hget & Hdom). exists rs. split; [done|].
  unfold Zones.zone_answer. cbn [Zones.z_records Zones.z_authoritative].
  rewrite lookup_empty in Hget, Hdom. cbn in Hget.
  destruct (m !! normalize_name n) as [l|]; cbn in Hget.
  - subst l. destruct rs as [|r rs']; [|done].
    exfalso. destruct (proj1 Hdom ltac:(by eexists)) as [[? ?]|?]; done.
  - by rewrite <- Hget.
Qed.

Lemma build_all_complete ttl cfgs zs c :
  Zones.build_all name_from_str ttl cfgs = Ok zs -> c ∈ cfgs ->
  ∃ z, z ∈ zs ∧ Zones.build_zone name_from_str ttl c = Ok z.
Proof.
  revert zs. induction cfgs as [|c' cfgs IH]; intros zs; cbn; [intros _ ?%elem_of_nil; done|].
  destruct (Zones.build_zone name_from_str ttl c') as [z0|] eqn:Ez; [|done].
  destruct (Zones.build_all name_from_str ttl cfgs) as [zs0|]; [|done].
  intros [= <-] [->|Hc]%elem_of_cons; [exists z0; split; [left|done]|].
  destruct (IH zs0 eq_refl Hc) as (z & ? & ?). exists z. split; [by right|done].
Qed.

(** C31. A lookup in the local zones answers from the configuration.  When the zones are
    accepted every line of them has been read as a record.  A name that no zone covers is
    in no zone.  Otherwise the zone with the longest apex that covers it decides alone: it
    answers with the records of its lines for the name that have the type asked for, or
    are aliases, in the order of the configuration and with their TTL or the default; with
    an empty answer when the name has lines but none of these; and when it has no line, with
    a denial if the zone is authoritative, and as if the name were in no zone if not. *)
Theorem zone_serves_its_records ttl cfgs zs name qtype
    (Hbuild : Zones.build name_from_str cfgs ttl = Ok zs) :
  let n := to_ascii_lowercase (trim_end_matches dot name) in
  (∀ c, c ∈ cfgs -> ∃ rs, Forall2 (line_record (apex_of c) ttl) (Zones.lz_records c) rs) ∧
  (((∀ c, c ∈ cfgs -> ~ covers c n) ∧ Zones.lookup zs name qtype = Zones.NotInZone) ∨
   ∃ c rs, c ∈ cfgs ∧ covers c n ∧
     (∀ c', c' ∈ cfgs -> covers c' n -> (length (apex_of c') <= length (apex_of c))%nat) ∧
     Forall2 (line_record (apex_of c) ttl) (lines_at (apex_of c) (Zones.lz_records c) (normalize_name n)) rs ∧
     Zones.lookup zs name qtype = answer_from (Zones.lz_authoritative c) rs qtype).
Proof.
  intros n. unfold Zones.build in Hbuild.
  destruct (Zones.build_all name_from_str ttl cfgs) as [zs0|] eqn:Ea; [|done]. injection Hbuild as <-.
  split.
  { intros c (z & _ & Hz)%(build_all_complete _ _ _ _ Ea). by apply build_zone_spec in Hz as (_ & ? & _). }
  assert (∀ c, c ∈ cfgs -> ∃ z, z ∈ stable_sort Zones.longer_apex zs0 ∧ Zones.z_apex z = apex_of c) as Hz.
  { intros c (z & Hz & Hb)%(build_all_complete _ _ _ _ Ea). exists z. rewrite stable_sort_elem_of.
    split; [done|]. by apply build_zone_spec in Hb as (? & _). }
  unfold Zones.lookup. fold n. destruct (find_first _ _) as [z|] eqn:Ef.
  - right. apply find_first_Some in Ef as Hf. destruct Hf as [Hin Hp].
    apply stable_sort_elem_of in Hin. destruct (build_all_spec _ _ _ _ Ea Hin) as (c & Hc & Hb).
    destruct (build_zone_spec _ _ _ Hb) as (Hapex & _ & Hans). destruct (Hans n qtype) as (rs & Hrs & ->).
    rewrite Hapex in Hp. exists c, rs. split_and!; [done|by apply in_zone_iff| |done..].
    intros c' (z' & Hz' & Ha')%Hz Hcov%in_zone_iff. rewrite <- Ha' in Hcov |- *. rewrite <- Hapex.
    apply Nat.leb_le. refine (find_first_sorted (λ a b, Zones.longer_apex a b = true) _ _ _ _ _ Ef z' Hz' Hcov).
    + intros x. by apply Nat.leb_le.
    + apply stable_sort_sorted; unfold Zones.longer_apex; intros *; rewrite !Nat.leb_le; lia.
  - left. split; [|done]. intros c (z & Hin & Ha)%Hz Hcov%in_zone_iff. rewrite <- Ha in Hcov.
    pose proof (find_first_none _ _ Ef z Hin) as Hf. cbn in Hf. congruence.
Qed.

End zone_facts.

(** ** Suffix rules: theorems *)

Lemma str_leb_total a b : Snapshot.str_leb a b = true ∨ Snapshot.str_leb b a = true.
Proof.
  revert b. induction a as [|x a IH]; intros [|y b]; cbn; auto.
  destruct (Z.ltb_spec (code x) (code y)); [by left|].
  destruct (Z.ltb_spec (code y) (code x)); [by right|]. apply IH.
Qed.

Lemma str_leb_trans a b c :
  Snapshot.str_leb a b = true -> Snapshot.str_leb b c = true -> Snapshot.str_leb a c = true.
Proof.
  revert b c. induction a as [|x a IH]; intros [|y b] [|z c]; cbn; try done.
  destruct (Z.ltb_spec (code x) (code y)), (Z.ltb_spec (code y) (code z)),
    (Z.ltb_spec (code x) (code z)), (Z.ltb_spec (code y) (code x)),
    (Z.ltb_spec (code z) (code y)), (Z.ltb_spec (code z) (code x)); try done; try lia.
  apply IH.
Qed.

Lemma rule_leb_sorted rules : StronglySorted (le_of Snapshot.rule_leb)
  (stable_sort Snapshot.rule_leb rules).
Proof.
  apply stable_sort_sorted.
  - intros [a ga] [b gb]. unfold Snapshot.rule_leb. cbn [fst].
    destruct (Nat.ltb_spec (length b) (length a)), (Nat.ltb_spec (length a) (length b));
      auto using str_leb_total.
  - intros [a ga] [b gb] [c gc]. unfold Snapshot.rule_leb. cbn [fst].
    destruct (Nat.ltb_spec (length b) (length a)), (Nat.ltb_spec (length a) (length b)),
      (Nat.ltb_spec (length c) (length b)), (Nat.ltb_spec (length b) (length c)),
      (Nat.ltb_spec (length c) (length a)), (Nat.ltb_spec (length a) (length c));
      try done; try lia. apply str_leb_trans.
Qed.

Lemma rule_leb_length a b : Snapshot.rule_leb a b = true -> (length b.1 <= length a.1)%nat.
Proof.
  unfold Snapshot.rule_leb. destruct (Nat.ltb_spec (length b.1) (length a.1)); [lia|].
  destruct (Nat.ltb_spec (length a.1) (length b.1)); [done|lia].
Qed.

(** The configured suffix may also be written with a leading dot. *)
Definition spells_suffix (text : str) (ls : list str) : Prop :=
  spells text ls ∨ ∃ t, text = dot :: t ∧ spells t ls.

Lemma trim_start_spelled ls :
  ls ≠ [] -> Forall label_ok ls -> trim_start_matches dot (join_with dot ls) = join_with dot ls.
Proof.
  intros Hne Hls. destruct Hls as [|l ls [Hl Hd] _]; [done|].
  apply drop_while_ne. destruct l as [|c l]; [done|]. destruct ls; cbn; intros [= ->]; set_solver.
Qed.

Lemma rule_of_labels r ls :
  spells_suffix (Snapshot.sr_suffix r) ls ->
  Snapshot.rule_of r = (join_with dot (map to_ascii_lowercase ls), Snapshot.sr_group r).
Proof.
  assert (∀ t, spells t ls -> trim_end_matches dot t = join_with dot ls ∧
    trim_end_matches dot (dot :: t) = dot :: join_with dot ls) as Htrim.
  { intros t (Hne & Hls & Ht).
    assert (trim_end_matches dot t = join_with dot ls) as H1.
    { destruct Ht as [->| ->]; by rewrite ?trim_end_join, ?trim_end_dotted. }
    split; [done|]. unfold trim_end_matches in *. cbn [rev].
    assert (drop_while dot (rev t) = rev (join_with dot ls)) as H2
      by (by rewrite <- H1, rev_involutive).
    assert (∀ a b : str, drop_while dot a ≠ [] ->
      drop_while dot (a ++ b) = drop_while dot a ++ b) as H3.
    { intros a b. induction a as [|x a IH]; cbn; [done|].
      destruct (ascii_eqb x dot); [apply IH|done]. }
    rewrite H3, H2, rev_app_distr, rev_involutive; [done|]. rewrite H2. intros Hnil.
    apply (f_equal (@rev ascii)) in Hnil. rewrite rev_involutive in Hnil.
    destruct Hls as [|l ls' Hl _]; [done|]. by apply (join_nonempty l ls' Hl). }
  intros Hs. unfold Snapshot.rule_of. f_equal. rewrite <- join_lower. f_equal.
  destruct Hs as [Hs|(t & -> & Hs)]; destruct (Htrim _ Hs) as [E1 E2].
  - rewrite E1. by apply trim_start_spelled; destruct Hs as (? & ? & _).
  - rewrite E2. unfold trim_start_matches. cbn [drop_while].
    rewrite ascii_eqb_refl. by apply trim_start_spelled; destruct Hs as (? & ? & _).
Qed.

(** A name is routed by the longest configured suffix that contains it on label
    boundaries: no rule applies exactly when the name is under none of the
    suffixes, and the group chosen is that of a rule no other applicable rule is
    longer than.  Case, a leading dot and a trailing dot make no difference. *)
Theorem longest_suffix_routes rules text ls
    (Hrules : ∀ r, r ∈ rules -> ∃ rl, spells_suffix (Snapshot.sr_suffix r) rl)
    (Hls : Forall label_ok ls) (Htext : text = join_with dot ls ∨ text = dotted ls) :
  let n := map to_ascii_lowercase ls in
  let table := Snapshot.build_suffix_rules rules in
  match Snapshot.group_for table text with
  | None => ∀ r, r ∈ rules -> ~ under n (Snapshot.rule_of r).1
  | Some g => ∃ r, r ∈ rules ∧ Snapshot.sr_group r = g ∧ under n (Snapshot.rule_of r).1 ∧
      ∀ r', r' ∈ rules -> under n (Snapshot.rule_of r').1 ->
        (length (Snapshot.rule_of r').1 <= length (Snapshot.rule_of r).1)%nat
  end.
Proof.
  intros n table. assert (Forall label_ok n) as Hn by by apply Forall_label_lower.
  assert (∀ e, e ∈ table <-> ∃ r, r ∈ rules ∧ e = Snapshot.rule_of r) as Hel.
  { intros e. unfold table, Snapshot.build_suffix_rules. rewrite stable_sort_elem_of.
    rewrite list_elem_of_fmap. naive_solver. }
  assert (∀ r, r ∈ rules ->
    str_eqb (join_with dot n) (Snapshot.rule_of r).1 ||
    ends_with (join_with dot n) (dot :: (Snapshot.rule_of r).1) = true
    <-> under n (Snapshot.rule_of r).1) as Hin.
  { intros r Hr. destruct (Hrules r Hr) as [rl Hrl]. rewrite (rule_of_labels r rl Hrl). cbn [fst].
    assert (rl ≠ [] ∧ Forall label_ok rl) as [? ?] by (by destruct Hrl as [(?&?&_)|(?&?&(?&?&_))]).
    apply under_test; [done|by destruct rl|by apply Forall_label_lower]. }
  unfold Snapshot.group_for. rewrite (normal_text text ls) by done. fold n.
  destruct (find_first _ table) as [e|] eqn:Ef; cbn.
  - apply find_first_Some in Ef as He. destruct He as [He Hp].
    apply Hel in He as (r & Hr & ->). exists r. split_and!; [done|done|by apply Hin|].
    intros r' Hr' Hu%Hin; [|done].
    assert (Snapshot.rule_leb (Snapshot.rule_of r) (Snapshot.rule_of r') = true) as Hle.
    { refine (find_first_sorted (le_of Snapshot.rule_leb) _ _ _ _ _ Ef _ _ Hu);
        [|apply rule_leb_sorted|by apply Hel; eauto].
      intros [x gx]. unfold le_of, Snapshot.rule_leb. rewrite Nat.ltb_irrefl.
      by destruct (str_leb_total x x). }
    exact (rule_leb_length _ _ Hle).
  - intros r Hr Hu%Hin; [|done].
    pose proof (find_first_none _ _ Ef (Snapshot.rule_of r) ltac:(apply Hel; eauto)) as Hf.
    cbv beta in Hf. congruence.
Qed.

(** ** Publication *)

Lemma sorted_entries_inj {A} (m m' : gmap (list ascii) A) :
  Snapshot.sorted_entries m = Snapshot.sorted_entries m' -> m = m'.
Proof.
  intros H. apply map_to_list_inj. unfold Snapshot.sorted_entries in H.
  rewrite <- (stable_sort_perm Snapshot.key_leb (map_to_list m)), H.
  apply stable_sort_perm.
Qed.

(** A snapshot that is not published because its digest is the current one has
    the same hosts and the same routing, as far as the digest tells contents
    apart. *)
Lemma unpublished_is_unchanged {Name} (digest : Snapshot.ContentView Name -> Z)
    (ds ds' : Snapshot.DatasetSnapshot Name)
    (Hdigest : digest (Snapshot.content_view ds) = digest (Snapshot.content_view ds') ->
       Snapshot.content_view ds = Snapshot.content_view ds')
    (Hskip : (Snapshot.publish_if_changed digest ds ds').2 = false) :
  Snapshot.ds_hosts ds = Snapshot.ds_hosts ds' ∧
  Snapshot.ds_suffix_rules ds = Snapshot.ds_suffix_rules ds'.
Proof.
  unfold Snapshot.publish_if_changed in Hskip.
  destruct (Z.eqb_spec (digest (Snapshot.content_view ds)) (digest (Snapshot.content_view ds')))
    as [Heq|]; [|done].
  injection (Hdigest Heq) as Hh _ Hr _ _. split; [by apply sorted_entries_inj|done].
Qed.

(** A change of the domain categories goes unnoticed when it keeps the number of
    domains of each: whatever the hash, a snapshot that differs from the current
    one in nothing but the domains its categories hold is not published, and the
    old domains stay in force. *)
Theorem category_change_unnoticed {Name} (digest : Snapshot.ContentView Name -> Z)
    (hosts : gmap (list ascii) (list IpAddr)) (zones : list (Zones.Zone Name))
    (rules : list (str * str)) (old new : gmap (list ascii) (list str))
    (stats : Snapshot.DatasetStats)
    (Hcount : ∀ c, length <$> new !! c = length <$> old !! c) :
  let ds := Snapshot.mk_DatasetSnapshot Name hosts zones rules old stats in
  let ds' := Snapshot.mk_DatasetSnapshot Name hosts zones rules new stats in
  Snapshot.publish_if_changed digest ds ds' = (ds, false).
Proof.
  intros ds ds'. unfold Snapshot.publish_if_changed.
  replace (Snapshot.content_view ds') with (Snapshot.content_view ds); [by rewrite Z.eqb_refl|].
  unfold Snapshot.content_view. cbn. f_equal. f_equal. apply map_eq. intros c.
  rewrite !lookup_fmap. symmetry. apply Hcount.
Qed.

(** ** Concrete data *)

Section witnesses.

Definition any_name (text : str) : option str := Some text.

(** A zone whose only record is two labels below its apex. *)
Definition corp : Zones.LocalZone :=
  Zones.mk_LocalZone (lit "Corp.test.")
    [Zones.mk_LocalRecord (lit "db.lab") (lit "a") (lit "10.1.2.3") None] true.

(** A nested zone without records that leaves other names to the upstream. *)
Definition lab : Zones.LocalZone := Zones.mk_LocalZone (lit "lab.corp.test") [] false.

Definition db_record : DnsRecord str :=
  mk_Record (lit "db.lab.corp.test.") IN 60 (RD_A (ipv4 10 1 2 3)) PIndeterminate.

Definition build_zones (cfgs : list Zones.LocalZone) : list (Zones.Zone str) :=
  match Zones.build any_name cfgs 60 with Ok zs => zs | Err _ => [] end.

(** A name that exists only because a name below it has records is denied: with
    the record of [db.lab.corp.test] served, [lab.corp.test] is NXDOMAIN. *)
Theorem empty_non_terminal_denied :
  Zones.lookup (build_zones [corp]) (lit "db.lab.corp.test.") RT_A = Zones.Records [db_record] ∧
  Zones.lookup (build_zones [corp]) (lit "lab.corp.test.") RT_A = Zones.NxDomain.
Proof. split; vm_compute; reflexivity. Qed.

(** A nested zone that does not hold a name hides the record its parent zone has
    for it, and the answer says the name is in no zone. *)
Theorem inner_zone_hides_parent :
  Zones.lookup (build_zones [corp; lab]) (lit "db.lab.corp.test.") RT_A = Zones.NotInZone.
Proof. vm_compute. reflexivity. Qed.

Lemma hosts_insert_then_get_witness :
  Hosts.get (Hosts.insert (Hosts.insert ∅ (lit "a.lan") [V4 1]) (lit "b.lan") [V4 2]) (lit "A.LAN.")
  = Some [V4 1].
Proof.
  rewrite (proj2 (hosts_insert_then_get (Hosts.insert ∅ (lit "a.lan") [V4 1]) (lit "b.lan") [V4 2]
    (lit "A.LAN.") (hosts_insert ∅ (lit "a.lan") [V4 1] hosts_empty))).
  - vm_compute. reflexivity.
  - vm_compute. discriminate.
Defined.

Lemma hosts_file_round_trip_witness :
  Hosts.load_hosts_format ∅ (unlines (map host_line [(ipv4 10 0 0 1, lit "nas.lan")])) 16
  = (Hosts.insert ∅ (lit "nas.lan") [V4 (ipv4 10 0 0 1)], Hosts.mk_LoadStats 1 0).
Proof.
  refine (hosts_file_round_trip [(ipv4 10 0 0 1, lit "nas.lan")] 16 _ _).
  - repeat constructor; try (vm_compute; congruence).
    + intros c Hc. by repeat (apply elem_of_cons in Hc as [->|Hc]; [vm_compute; reflexivity|]); set_solver.
    + vm_compute. intros Hc. set_solver.
  - vm_compute. discriminate.
Defined.

Lemma most_specific_zone_answers_witness :
  Zones.lookup (build_zones [corp; lab]) (lit "www.example.") RT_A = Zones.NotInZone ∨
  ∃ z, z ∈ build_zones [corp; lab] ∧
    Zones.lookup (build_zones [corp; lab]) (lit "www.example.") RT_A
    = Zones.zone_answer z (lit "www.example") RT_A.
Proof.
  destruct (most_specific_zone_answers any_name 60 [corp; lab] (build_zones [corp; lab])
    (lit "www.example.") [lit "www"; lit "example"] RT_A) as [[_ H]|(z & Hz & _ & _ & H)].
  - vm_compute. reflexivity.
  - intros c [->|[->|Hn]%elem_of_cons]%elem_of_cons; [| |by apply elem_of_nil in Hn].
    + exists [lit "Corp"; lit "test"]. split_and!; [done| |right; vm_compute; reflexivity].
      repeat constructor; vm_compute; try congruence; set_solver.
    + exists [lit "lab"; lit "corp"; lit "test"]. split_and!; [done| |left; vm_compute; reflexivity].
      repeat constructor; vm_compute; try congruence; set_solver.
  - repeat constructor; vm_compute; try congruence; set_solver.
  - right. vm_compute. reflexivity.
  - left. exact H.
  - right. exists z. split; [exact Hz|exact H].
Defined.

Lemma zone_serves_its_records_witness :
  ∃ c, c ∈ [corp; lab] ∧ Zones.lookup (build_zones [corp; lab]) (lit "gw.corp.test.") RT_A
    = answer_from (Zones.lz_authoritative c) [] RT_A.
Proof.
  destruct (zone_serves_its_records any_name 60 [corp; lab] (build_zones [corp; lab]) (lit "gw.corp.test.") RT_A)
    as [_ [[_ H]|(c & rs & Hc & Hcov & _ & Hrs & Hans)]].
  - vm_compute. reflexivity.
  - vm_compute in H. discriminate H.
  - exists c. split; [exact Hc|]. rewrite Hans.
    apply elem_of_cons in Hc as [->|[->|Hn]%elem_of_cons]; [| |by apply elem_of_nil in Hn];
      apply Forall2_length in Hrs; vm_compute in Hrs; by destruct rs.
Defined.

(** A line whose owner ends in a dot may name a place outside its zone: it is accepted, and
    no lookup finds it. *)
Theorem outside_records_are_hidden :
  let stray := Zones.mk_LocalZone (lit "corp.test")
    [Zones.mk_LocalRecord (lit "www.example.net.") (lit "A") (lit "10.1.2.3") None] true in
  (∃ zs, Zones.build any_name [stray] 60 = Ok zs ∧ Zones.record_count zs = 1) ∧
  Zones.lookup (build_zones [stray]) (lit "www.example.net.") RT_A = Zones.NotInZone.
Proof. split; [eexists; split|]; vm_compute; reflexivity. Qed.

Definition site_rules : list Snapshot.SuffixRule :=
  [Snapshot.mk_SuffixRule (lit "Corp.test.") (lit "office");
   Snapshot.mk_SuffixRule (lit ".lab.corp.test") (lit "lab")].

Lemma longest_suffix_routes_witness :
  Snapshot.group_for (Snapshot.build_suffix_rules site_rules) (lit "db.LAB.corp.test.")
    = Some (lit "lab") ∧
  ∃ r, r ∈ site_rules ∧ Snapshot.sr_group r = lit "lab".
Proof.
  assert (Snapshot.group_for (Snapshot.build_suffix_rules site_rules) (lit "db.LAB.corp.test.")
    = Some (lit "lab")) as E by (vm_compute; reflexivity).
  split; [exact E|].
  assert (∀ r, r ∈ site_rules -> ∃ rl, spells_suffix (Snapshot.sr_suffix r) rl) as Hrules.
  { intros r [->|[->|Hn]%elem_of_cons]%elem_of_cons; [| |by apply elem_of_nil in Hn].
    - exists [lit "Corp"; lit "test"]. left. split_and!; [done| |right; vm_compute; reflexivity].
      repeat constructor; vm_compute; try congruence; set_solver.
    - exists [lit "lab"; lit "corp"; lit "test"]. right. exists (lit "lab.corp.test").
      split; [vm_compute; reflexivity|]. split_and!; [done| |left; vm_compute; reflexivity].
      repeat constructor; vm_compute; try congruence; set_solver. }
  pose proof (longest_suffix_routes site_rules (lit "db.LAB.corp.test.")
    [lit "db"; lit "LAB"; lit "corp"; lit "test"] Hrules) as H.
  cbn zeta in H. rewrite E in H. destruct H as (r & Hr & Hg & _).
  - repeat constructor; vm_compute; try congruence; set_solver.
  - right. vm_compute. reflexivity.
  - exists r. split; [exact Hr|exact Hg].
Defined.

Definition one_category (domain : str) : gmap (list ascii) (list (list ascii)) :=
  {[ lit "ads" := [domain] ]}.

Lemma category_change_unnoticed_witness :
  let snapshot domain := Snapshot.mk_DatasetSnapshot str ∅ [] [] (one_category domain)
    (Snapshot.mk_DatasetStats 0 0 0 1 0 0 0) in
  (Snapshot.publish_if_changed (λ _, 0) (snapshot (lit "old.test")) (snapshot (lit "new.test"))).2
  = false.
Proof.
  refine (f_equal snd (category_change_unnoticed (Name := str) (λ _, 0) ∅ [] []
    (one_category (lit "old.test")) (one_category (lit "new.test"))
    (Snapshot.mk_DatasetStats 0 0 0 1 0 0 0) _)).
  intros c. unfold one_category. destruct (decide (c = lit "ads")) as [->|Hne].
  - rewrite !lookup_singleton_eq. reflexivity.
  - rewrite !lookup_singleton_ne by congruence. reflexivity.
Defined.

End witnesses.
