(* ===== verification/HotSet.v ===== *)
(** * Query popularity

    [src/cache/hotset.rs]: decayed hit counts, the transition table behind
    predictive prefetching, and the eviction that keeps both bounded.  The
    iteration order of a [HashMap] is unspecified: it is the parameter [hash_iter],
    any enumeration of the entries. *)

From S2P Require Import Prelude.
From S2P Require Import Hashing.
From S2P Require Import Floats.
From S2P Require Import Dns.
From S2P Require Import Cache.

Record HotEntry : Type := mk_HotEntry {
  he_score : f32;
  he_hits : Z;
  he_last_seen : Instant;
  he_last_prefetch : option Instant
}.

Record HotSet : Type := mk_HotSet {
  hs_map : gmap CacheKey HotEntry;
  hs_last_decay : Instant;
  hs_transitions : gmap CacheKey (gmap CacheKey f32);
  hs_transition_capacity : nat;
  hs_capacity : nat;
  hs_half_life_secs : f32
}.

Definition hotset_new (capacity : nat) (half_life_secs : f32) (transition_capacity : nat)
    (now : Instant) : HotSet :=
  mk_HotSet ∅ now ∅ transition_capacity (Nat.max capacity 1) (f32_max half_life_secs f32_one).

Definition with_map (h : HotSet) (m : gmap CacheKey HotEntry) : HotSet :=
  mk_HotSet m (hs_last_decay h) (hs_transitions h) (hs_transition_capacity h) (hs_capacity h)
    (hs_half_life_secs h).

Definition with_transitions (h : HotSet) (t : gmap CacheKey (gmap CacheKey f32)) : HotSet :=
  mk_HotSet (hs_map h) (hs_last_decay h) t (hs_transition_capacity h) (hs_capacity h)
    (hs_half_life_secs h).

Definition scale_entry (factor : f32) (e : HotEntry) : HotEntry :=
  mk_HotEntry (f32_mul (he_score e) factor) (he_hits e) (he_last_seen e) (he_last_prefetch e).

(** [rank]: by score, then by recency. *)
Definition rank_leb (a b : f32 * Instant) : bool :=
  (f32_key a.1 <? f32_key b.1) || ((f32_key a.1 =? f32_key b.1) && (a.2 <=? b.2)).

Definition rank_of (e : HotEntry) : f32 * Instant := (he_score e, he_last_seen e).

(** Strongest first. *)
Definition stronger (a b : CacheKey * f32) : bool := f32_total_leb b.2 a.2.

Section hotset.
Context {IO : HashOrder CacheKey} {F32 : Float32Lib}.

Definition decay_locked (h : HotSet) (now : Instant) : HotSet :=
  let elapsed := as_secs_f32 (since now (hs_last_decay h)) in
  if f32_ltb elapsed f32_one then h
  else
    let factor := powf32 (f32_lit 5 10) (f32_div elapsed (hs_half_life_secs h)) in
    if f32_leb (f32_lit 999 1000) factor
    then mk_HotSet (hs_map h) now (hs_transitions h) (hs_transition_capacity h) (hs_capacity h)
           (hs_half_life_secs h)
    else
      let m := filter (λ ke : CacheKey * HotEntry, f32_ltb (f32_lit 1 100) (he_score ke.2) = true)
                 (scale_entry factor <$> hs_map h) in
      let t := (λ row : gmap CacheKey f32, filter (λ kw : CacheKey * f32, f32_ltb (f32_lit 1 100) kw.2 = true)
                         ((λ w, f32_mul w factor) <$> row)) <$> hs_transitions h in
      let t := filter (λ kr : CacheKey * gmap CacheKey f32, size kr.2 ≠ 0%nat) t in
      mk_HotSet m now t (hs_transition_capacity h) (hs_capacity h) (hs_half_life_secs h).

(** The keys but one, in iteration order. *)
Definition others (m : gmap CacheKey HotEntry) (protect : CacheKey) : list CacheKey :=
  List.filter (λ k, negb (bool_decide (k = protect))) (fst <$> hash_iter m).

Definition evict_locked (capacity : nat) (m : gmap CacheKey HotEntry) (protect : CacheKey)
    : gmap CacheKey HotEntry :=
  let len := size m in
  let overflow := (len - capacity)%nat in
  if (overflow =? 0)%nat || (len <? 2)%nat then m
  else
    let batch := Nat.max (Nat.min (overflow + capacity / 10 + 1) (len - 1)) 1 in
    let ranks := (λ ke : CacheKey * HotEntry, rank_of ke.2) <$> hash_iter m in
    let idx := Nat.min batch (length ranks - 1) in
    let threshold := default (f32_zero, 0) (stable_sort rank_leb ranks !! idx) in
    let m := filter (λ ke : CacheKey * HotEntry, ke.1 = protect ∨ rank_leb (rank_of ke.2) threshold = false) m in
    let still_over := (size m - capacity)%nat in
    foldr delete m (take still_over (others m protect)).

(** The row of successors after one more transition to [key]. *)
Definition bump_row (row : gmap CacheKey f32) (key : CacheKey) : gmap CacheKey f32 :=
  let row := <[key := f32_add (default f32_zero (row !! key)) f32_one]> row in
  if (8 <? size row)%nat
  then list_to_map (take 8 (stable_sort stronger (hash_iter row))) else row.

Definition bump_transitions (t : gmap CacheKey (gmap CacheKey f32)) (cap : nat)
    (prev key : CacheKey) : gmap CacheKey (gmap CacheKey f32) :=
  let t := <[prev := bump_row (default ∅ (t !! prev)) key]> t in
  if (cap <? size t)%nat
  then match head (hash_iter t) with Some (victim, _) => delete victim t | None => t end
  else t.

Definition observe (h : HotSet) (key : CacheKey) (previous : option CacheKey) (now : Instant)
    : HotSet :=
  let h := decay_locked h now in
  let old := default (mk_HotEntry f32_zero 0 now None) (hs_map h !! key) in
  let entry := mk_HotEntry (f32_add (he_score old) f32_one) (as_u64 (he_hits old + 1)) now
                 (he_last_prefetch old) in
  let m := <[key := entry]> (hs_map h) in
  let m := if (hs_capacity h <? size m)%nat then evict_locked (hs_capacity h) m key else m in
  let h := with_map h m in
  if (0 <? hs_transition_capacity h)%nat then
    match previous with
    | Some prev =>
        if bool_decide (prev = key) then h
        else with_transitions h
               (bump_transitions (hs_transitions h) (hs_transition_capacity h) prev key)
    | None => h
    end
  else h.

Definition mark_prefetch (h : HotSet) (key : CacheKey) (now : Instant) : HotSet :=
  match hs_map h !! key with
  | Some e =>
      with_map h (<[key := mk_HotEntry (he_score e) (he_hits e) (he_last_seen e) (Some now)]>
                    (hs_map h))
  | None => h
  end.

Definition hot_get (h : HotSet) (key : CacheKey) : option HotEntry := hs_map h !! key.

Definition top (h : HotSet) (n : nat) : list (CacheKey * HotEntry) :=
  take n (stable_sort (λ a b : CacheKey * HotEntry, f32_total_leb (he_score b.2) (he_score a.2)) (hash_iter (hs_map h))).

Definition successors (h : HotSet) (key : CacheKey) (n : nat) : list CacheKey :=
  match hs_transitions h !! key with
  | None => []
  | Some row => fst <$> take n (stable_sort stronger (hash_iter row))
  end.

Definition clear (h : HotSet) : HotSet := with_transitions (with_map h ∅) ∅.

(** ** Bounds *)

Inductive hot_step : HotSet -> HotSet -> Prop :=
| hot_observe h k p now : hot_step h (observe h k p now)
| hot_mark h k now : hot_step h (mark_prefetch h k now)
| hot_clear h : hot_step h (clear h).

Definition hot_reachable (h : HotSet) : Prop :=
  ∃ cap hl tcap now, rtc hot_step (hotset_new cap hl tcap now) h.

Record hot_inv (h : HotSet) : Prop := {
  hi_capacity : (0 < hs_capacity h)%nat;
  hi_map : (size (hs_map h) <= hs_capacity h)%nat;
  hi_transitions : (size (hs_transitions h) <= hs_transition_capacity h)%nat;
  hi_rows : ∀ k row, hs_transitions h !! k = Some row -> (size row <= 8)%nat
}.

Lemma foldr_delete_size (m : gmap CacheKey HotEntry) ks :
  NoDup ks -> (∀ k, k ∈ ks -> is_Some (m !! k)) ->
  (size (foldr delete m ks) + length ks = size m)%nat.
Proof.
  intros Hnd. induction Hnd as [|k ks Hk Hnd IH]; intros Hin; cbn; [lia|].
  specialize (IH (λ k' Hk', Hin k' (list_elem_of_further _ _ _ Hk'))).
  assert (foldr delete m ks !! k = m !! k) as Hl.
  { clear IH Hnd Hin. induction ks as [|k' ks IH]; [done|]. cbn. rewrite lookup_delete_ne by set_solver.
    apply IH. set_solver. }
  destruct (Hin k) as [e He]; [set_solver|]. rewrite map_size_delete, Hl, He.
  assert (size (foldr delete m ks) ≠ 0%nat); [|lia].
  apply map_size_ne_0_lookup. exists k. rewrite Hl. eauto.
Qed.

Lemma others_elem m key k : k ∈ others m key <-> is_Some (m !! k) ∧ k ≠ key.
Proof.
  unfold others. rewrite list_elem_of_In, filter_In, <- list_elem_of_In, (hash_iter_perm _ m).
  rewrite negb_true_iff, bool_decide_eq_false.
  split; intros [Ha Hb]; (split; [|done]).
  - apply list_elem_of_fmap in Ha as ([k' e] & -> & He%elem_of_map_to_list). eauto.
  - destruct Ha as [e He%elem_of_map_to_list]. apply list_elem_of_fmap. by exists (k, e).
Qed.

Lemma others_NoDup m key : NoDup (others m key).
Proof.
  apply NoDup_ListNoDup, List.NoDup_filter, NoDup_ListNoDup.
  rewrite (hash_iter_perm _ m). apply NoDup_fst_map_to_list.
Qed.

Lemma others_length m key : is_Some (m !! key) -> S (length (others m key)) = size m.
Proof.
  intros [e He]. rewrite <- length_map_to_list, <- (length_fmap fst (map_to_list m)).
  change (S (length (others m key))) with (length (key :: others m key)).
  apply Permutation_length, NoDup_Permutation; [|apply NoDup_fst_map_to_list|].
  - apply NoDup_cons. split; [|apply others_NoDup]. by intros [_ ?]%others_elem.
  - intros k. rewrite elem_of_cons, others_elem, list_elem_of_fmap. split.
    + intros [->|[[x Hx] _]]; [exists (key, e)|exists (k, x)]; by rewrite elem_of_map_to_list.
    + intros ([k' x] & -> & Hx%elem_of_map_to_list).
      destruct (decide (k' = key)); [by left|right; eauto].
Qed.

Lemma drop_others m key n :
  is_Some (m !! key) -> (n < size m)%nat ->
  let m' := foldr delete m (take n (others m key)) in
  size m' = (size m - n)%nat ∧ is_Some (m' !! key).
Proof.
  intros Hk Hn. pose proof (others_length m key Hk) as Hlen.
  assert (∀ k, k ∈ take n (others m key) -> is_Some (m !! k) ∧ k ≠ key) as Hin.
  { intros k Hk'. apply others_elem. eapply elem_of_submseteq; [exact Hk'|].
    apply sublist_submseteq, sublist_take. }
  split.
  - pose proof (foldr_delete_size m (take n (others m key))) as Hsz.
    rewrite length_take in Hsz. rewrite Nat.min_l in Hsz by lia.
    enough (NoDup (take n (others m key))) as Hnd.
    { specialize (Hsz Hnd (λ k Hk', proj1 (Hin k Hk'))). lia. }
    eapply sublist_NoDup; [apply others_NoDup|apply sublist_take].
  - assert (key ∉ take n (others m key)) as Hnin by (by intros [_ ?]%Hin).
    revert Hnin. generalize (take n (others m key)) as ks. intros ks Hnin.
    induction ks as [|k ks IH]; [done|]. cbn. rewrite lookup_delete_ne by set_solver.
    apply IH. set_solver.
Qed.

Lemma evict_bounds cap m key :
  (0 < cap)%nat -> is_Some (m !! key) ->
  (size (evict_locked cap m key) <= cap)%nat ∧ is_Some (evict_locked cap m key !! key).
Proof.
  intros Hcap Hkey. unfold evict_locked. case_match eqn:E.
  { apply orb_true_iff in E as [?%Nat.eqb_eq|?%Nat.ltb_lt]; split; (done || lia). }
  set (m' := filter _ m).
  assert (is_Some (m' !! key)) as Hk'.
  { destruct Hkey as [e He]. exists e. apply map_lookup_filter_Some. split; [done|by left]. }
  assert (size m' ≠ 0%nat) by (by apply map_size_ne_0_lookup; exists key).
  destruct (drop_others m' key (size m' - cap)) as [-> ?]; [done|lia|]. split; [lia|done].
Qed.

Lemma bump_row_size row key : (size row <= 8)%nat -> (size (bump_row row key) <= 8)%nat.
Proof.
  intros Hr. unfold bump_row. case_match eqn:E; [|apply Nat.ltb_ge in E; lia].
  set (r := <[_ := _]> row). set (l := take 8 _).
  enough (size (list_to_map l : gmap CacheKey f32) <= length l)%nat.
  { unfold l in H at 2. rewrite length_take in H. lia. }
  clear. induction l as [|[k v] l IH]; cbn; [rewrite map_size_empty; lia|].
  rewrite map_size_insert. destruct (_ !! k); cbn; lia.
Qed.

Lemma bump_transitions_bounds t cap prev key :
  (size t <= cap)%nat -> (∀ k row, t !! k = Some row -> (size row <= 8)%nat) ->
  let t' := bump_transitions t cap prev key in
  (size t' <= cap)%nat ∧ (∀ k row, t' !! k = Some row -> (size row <= 8)%nat).
Proof.
  intros Hs Hr. unfold bump_transitions. set (t1 := <[prev := _]> t). cbn zeta.
  assert (∀ k row, t1 !! k = Some row -> (size row <= 8)%nat) as Hr1.
  { intros k row [[<- <-]|[_ ?]]%lookup_insert_Some; [|by eauto]. apply bump_row_size.
    destruct (t !! prev) eqn:E; cbn; [by eauto|]. rewrite map_size_empty. lia. }
  assert (size t1 <= S (size t))%nat as Hs1.
  { unfold t1. rewrite map_size_insert. destruct (t !! prev); cbn; lia. }
  case_match eqn:E; [|split; [apply Nat.ltb_ge in E; lia|done]]. apply Nat.ltb_lt in E.
  pose proof (hash_iter_perm _ t1) as Hperm.
  destruct (hash_iter t1) as [|[v r] l].
  - apply Permutation_length in Hperm. rewrite length_map_to_list in Hperm. cbn in Hperm. lia.
  - cbn [head]. split.
    + assert ((v, r) ∈ map_to_list t1) as Hv%elem_of_map_to_list by (rewrite <- Hperm; set_solver).
      rewrite map_size_delete, Hv. lia.
    + intros k row [_ ?]%lookup_delete_Some. eauto.
Qed.

Lemma decay_bounds h now : hot_inv h -> hot_inv (decay_locked h now).
Proof.
  intros [H1 H2 H3 H4]. unfold decay_locked. repeat case_match; try by split.
  split; cbn [hs_capacity hs_map hs_transitions hs_transition_capacity]; [done| | |].
  - etransitivity; [apply map_subseteq_size, map_filter_subseteq|]. by rewrite map_size_fmap.
  - etransitivity; [apply map_subseteq_size, map_filter_subseteq|]. by rewrite map_size_fmap.
  - intros k row [Hl _]%map_lookup_filter_Some. apply lookup_fmap_Some in Hl as (r & <- & Hr).
    etransitivity; [apply map_subseteq_size, map_filter_subseteq|]. rewrite map_size_fmap. eauto.
Qed.

Lemma observe_bounds h key prev now :
  hot_inv h -> hot_inv (observe h key prev now) ∧ is_Some (hs_map (observe h key prev now) !! key).
Proof.
  intros Hi%(decay_bounds _ now). unfold observe. set (d := decay_locked h now) in *.
  set (m := <[key := _]> (hs_map d)).
  set (m' := if (hs_capacity d <? size m)%nat then _ else m).
  assert ((size m' <= hs_capacity d)%nat ∧ is_Some (m' !! key)) as [Hsz Hk].
  { unfold m'. case_match eqn:E.
    - apply evict_bounds; [apply Hi|]. unfold m. by rewrite lookup_insert_eq.
    - apply Nat.ltb_ge in E. split; [done|]. unfold m. by rewrite lookup_insert_eq. }
  assert (hot_inv (with_map d m')) as Hm by (destruct Hi; by split).
  repeat case_match; try done. split; [|done].
  destruct Hm as [A B C D].
  destruct (bump_transitions_bounds (hs_transitions d) (hs_transition_capacity d) c key C D).
  by split.
Qed.

(** The popularity tracker stays within its ceilings whatever is observed: at
    most [capacity] names, at most [transition_capacity] rows of at most eight
    successors; and the name just observed is always still there. *)
Theorem hot_set_bounded h key prev now :
  hot_reachable h ->
  (size (hs_map h) <= hs_capacity h)%nat
  ∧ (size (hs_transitions h) <= hs_transition_capacity h)%nat
  ∧ (∀ k row, hs_transitions h !! k = Some row -> (size row <= 8)%nat)
  ∧ is_Some (hot_get (observe h key prev now) key).
Proof.
  intros (cap & hl & tcap & t & Hr).
  assert (hot_inv h) as Hi.
  { refine (rtc_ind_r hot_inv _ _ _ h Hr).
    - split; cbn; [lia|rewrite map_size_empty; lia..|by intros k row; rewrite lookup_empty].
    - intros h1 h2 _ Hs Hi. destruct Hs as [h1 k p n|h1 k n|h1].
      + by apply observe_bounds.
      + unfold mark_prefetch. destruct (hs_map h1 !! k) eqn:E; [|done].
        destruct Hi. split; cbn; try done. by rewrite map_size_insert, E.
      + destruct Hi. split; cbn; [done|rewrite map_size_empty; lia..|].
        intros k row. by rewrite lookup_empty. }
  split_and!; [apply Hi..|]. by apply observe_bounds.
Qed.

End hotset.

(** A tracker of one name that has seen one. *)
#[local] Instance some_order : HashOrder CacheKey := {
  hash_iter A m := map_to_list m;
  hash_iter_perm A m := Permutation_refl _
}.
#[local] Instance some_power : Float32Lib := { powf32 _ _ := f32_one }.

Lemma hot_set_bounded_witness :
  is_Some (hot_get (observe (observe (hotset_new 1 f32_one 4 0) sample_key None 0)
                      sample_key None 1) sample_key).
Proof.
  assert (hot_reachable (observe (hotset_new 1 f32_one 4 0) sample_key None 0)) as Hr.
  { exists 1%nat, f32_one, 4%nat, 0. apply rtc_once, hot_observe. }
  exact (proj2 (proj2 (proj2 (hot_set_bounded _ sample_key None 1 Hr)))).
Defined.
