(* ===== verification/Prefetch.v ===== *)
(** * Prefetching

    [src/tasks/prefetch.rs]: once a second the hot names that are about to expire are
    refreshed, within a budget.  A refresh runs as a task of its own and holds a
    permit of the round's semaphore until it is done; the permits in use are kept in
    the state, with the semaphore they belong to. *)

From Stdlib Require Import Ascii String.
From S2P Require Import Prelude.
From S2P Require Import Hashing.
From S2P Require Import Floats.
From S2P Require Import Names.
From S2P Require Import Config.
From S2P Require Import Dns.
From S2P Require Import Message.
From S2P Require Import DnssecPolicy.
From S2P Require Import Cache.
From S2P Require Import HotSet.

Record PrefetchState : Type := mk_PrefetchState {
  pf_enabled : bool;
  pf_issued : Z;
  pf_skipped : Z
}.

Definition prefetch_new (enabled : bool) : PrefetchState := mk_PrefetchState enabled 0 0.
Definition prefetch_disable (s : PrefetchState) : PrefetchState :=
  mk_PrefetchState false (pf_issued s) (pf_skipped s).
Definition set_prefetch (s : PrefetchState) (enabled : bool) : PrefetchState :=
  mk_PrefetchState enabled (pf_issued s) (pf_skipped s).

(** [AtomicU64::fetch_add] wraps. *)
Definition fetch_add (x : Z) : Z := (x + 1) mod 2 ^ 64.
Definition count_issued (s : PrefetchState) : PrefetchState :=
  mk_PrefetchState (pf_enabled s) (fetch_add (pf_issued s)) (pf_skipped s).
Definition count_skipped (s : PrefetchState) : PrefetchState :=
  mk_PrefetchState (pf_enabled s) (pf_issued s) (fetch_add (pf_skipped s)).

(** The loop's own state: the semaphore in use (its number and its size), the permits
    held by running refreshes, whether the warm start has run. *)
Record Prefetcher : Type := mk_Prefetcher {
  pr_state : PrefetchState;
  pr_budget : option (nat * nat);
  pr_running : list (nat * CacheKey);
  pr_semaphores : nat;
  pr_warmed : bool
}.

Section prefetch.
Context {Name : Type} {ML : MokaLib CacheKey} {IO : HashOrder CacheKey}.
Implicit Types (cfg : PrefetchConfig) (cache : DnsCache Name) (h : HotSet) (p : Prefetcher).

Definition rested cfg (e : HotEntry) (now : Instant) : bool :=
  match he_last_prefetch e with
  | Some last => negb (since now last <? per_key_min_interval cfg)
  | None => true
  end.

Definition near_expiry cfg cache (key : CacheKey) (now : Instant) : bool :=
  match cache_get cache key now with
  | Fresh cached remaining =>
      negb (ent_ttl cached =? 0)
      && f64_leb (f64_div (f64_of_Z remaining) (f64_of_Z (ent_ttl cached))) (trigger_fraction cfg)
  | _ => false
  end.

Definition worth_refreshing cfg cache (now : Instant) (ke : CacheKey * HotEntry) : bool :=
  negb (he_hits ke.2 <? min_hits cfg) && rested cfg ke.2 now && near_expiry cfg cache ke.1 now.

Definition select_hot cfg cache h (now : Instant) : list CacheKey :=
  map fst (List.filter (worth_refreshing cfg cache now) (top h (Nat.min (hot_set_size cfg) 4096))).

Definition budget_qps cfg : nat := Z.to_nat (Z.max (prefetch_global_qps cfg) 1).

(** The semaphore of this round: the one in use, or a new one when the budget has
    changed. *)
Definition round_budget cfg p : Prefetcher :=
  match pr_budget p with
  | Some (_, n) =>
      if (n =? budget_qps cfg)%nat then p
      else mk_Prefetcher (pr_state p) (Some (pr_semaphores p, budget_qps cfg)) (pr_running p)
             (S (pr_semaphores p)) (pr_warmed p)
  | None =>
      mk_Prefetcher (pr_state p) (Some (pr_semaphores p, budget_qps cfg)) (pr_running p)
        (S (pr_semaphores p)) (pr_warmed p)
  end.

Definition in_use p (semaphore : nat) : nat :=
  length (List.filter (λ r : nat * CacheKey, r.1 =? semaphore)%nat (pr_running p)).

(** The refreshes one round starts. *)
Fixpoint start_refreshes (semaphore size : nat) (keys : list CacheKey) h (now : Instant) p
    : Prefetcher * HotSet * list CacheKey :=
  match keys with
  | [] => (p, h, [])
  | key :: keys =>
      if (size <=? in_use p semaphore)%nat then
        (mk_Prefetcher (count_skipped (pr_state p)) (pr_budget p) (pr_running p) (pr_semaphores p)
           (pr_warmed p), h, [])
      else
        let h := mark_prefetch h key now in
        let p := mk_Prefetcher (count_issued (pr_state p)) (pr_budget p) ((semaphore, key) :: pr_running p)
                   (pr_semaphores p) (pr_warmed p) in
        let '(p, h, started) := start_refreshes semaphore size keys h now p in
        (p, h, key :: started)
  end.

(** Every key of the warm start is refreshed, on a semaphore of its own, before the
    round goes on. *)
Definition warm_keys cfg h : list CacheKey :=
  map fst (top h (Nat.min (Nat.min (warm_on_start cfg) (hot_set_size cfg)) 1024)).

Definition warm_start cfg h (now : Instant) p : Prefetcher * HotSet * list CacheKey :=
  let keys := warm_keys cfg h in
  (mk_Prefetcher (Nat.iter (length keys) count_issued (pr_state p)) (pr_budget p) (pr_running p)
     (pr_semaphores p) true,
   fold_left (λ h key, mark_prefetch h key now) keys h, keys).

Definition prefetch_round cfg cache h (now : Instant) p : Prefetcher * HotSet * list CacheKey :=
  if negb (prefetch_enabled cfg) || negb (pf_enabled (pr_state p)) then (p, h, [])
  else
    let p := round_budget cfg p in
    let '(p, h, warmed) :=
      if negb (pr_warmed p) && (0 <? warm_on_start cfg)%nat then warm_start cfg h now p else (p, h, []) in
    let keys := take (budget_qps cfg) (select_hot cfg cache h now) in
    let '(semaphore, size) := default (0%nat, 0%nat) (pr_budget p) in
    let '(p, h, started) := start_refreshes semaphore size keys h now p in
    (p, h, warmed ++ started).

(** A refresh is done and its permit is back. *)
Definition refresh_done p (i : nat) : Prefetcher :=
  mk_Prefetcher (pr_state p) (pr_budget p) (delete i (pr_running p)) (pr_semaphores p) (pr_warmed p).

(** ** Lemmas *)

Lemma mark_prefetch_lookup h key now k :
  hs_map (mark_prefetch h key now) !! k =
    if decide (k = key)
    then (λ e, mk_HotEntry (he_score e) (he_hits e) (he_last_seen e) (Some now)) <$> hs_map h !! k
    else hs_map h !! k.
Proof.
  unfold mark_prefetch. destruct (hs_map h !! key) as [e|] eqn:E.
  - cbn [hs_map with_map]. case_decide as Ek.
    + subst. by rewrite lookup_insert_eq, E.
    + by rewrite lookup_insert_ne.
  - case_decide as Ek; [subst; by rewrite E|done].
Qed.

(** What starting refreshes leaves behind. *)
Record started_ok (semaphore size : nat) (keys : list CacheKey) h (now : Instant) p p' h'
    (started : list CacheKey) : Prop := {
  so_prefix : started `prefix_of` keys;
  so_kept : pr_budget p' = pr_budget p;
  so_budget : (in_use p semaphore <= size -> in_use p' semaphore <= size)%nat;
  so_marked k e : k ∈ started -> hs_map h' !! k = Some e -> he_last_prefetch e = Some now;
  so_other k : k ∉ started -> hs_map h' !! k = hs_map h !! k
}.

Lemma start_refreshes_ok semaphore size keys h now p p' h' started :
  start_refreshes semaphore size keys h now p = (p', h', started) ->
  started_ok semaphore size keys h now p p' h' started.
Proof.
  revert h p p' h' started. induction keys as [|key keys IH]; intros h p p' h' started; cbn [start_refreshes].
  { intros [= <- <- <-]. split; try done. by intros k e ?%elem_of_nil. }
  destruct (Nat.leb_spec size (in_use p semaphore)) as [Hfull|Hroom].
  { intros [= <- <- <-]. split; try done; [apply prefix_nil|by intros k e ?%elem_of_nil]. }
  set (p1 := mk_Prefetcher _ _ _ _ _). set (h1 := mark_prefetch h key now).
  destruct (start_refreshes semaphore size keys h1 now p1) as [[p2 h2] rest] eqn:E.
  intros [= <- <- <-]. destruct (IH _ _ _ _ _ E) as [Hp Hkept Hb Hm Ho]. split.
  - by apply prefix_cons.
  - exact Hkept.
  - intros _. apply Hb. unfold in_use, p1. cbn [pr_running List.filter fst]. rewrite Nat.eqb_refl. cbn. apply Hroom.
  - intros k e Hk He. destruct (decide (k ∈ rest)) as [Hr|Hr]; [by eapply Hm|].
    rewrite Ho in He by done. apply elem_of_cons in Hk as [->|]; [|done].
    unfold h1 in He. rewrite mark_prefetch_lookup, decide_True in He by done.
    by apply fmap_Some in He as (e0 & _ & ->).
  - intros k [Hne Hr]%not_elem_of_cons. rewrite Ho by done. unfold h1.
    by rewrite mark_prefetch_lookup, decide_False.
Qed.

Lemma top_elem h n ke : ke ∈ top h n -> hs_map h !! ke.1 = Some ke.2.
Proof.
  destruct ke as [k e]. unfold top. intros (i & Hi & _)%elem_of_take.
  apply list_elem_of_lookup_2 in Hi. rewrite stable_sort_elem_of in Hi. by apply hash_iter_elem.
Qed.

Lemma select_hot_elem cfg cache h now key :
  key ∈ select_hot cfg cache h now ->
  ∃ e, hs_map h !! key = Some e ∧ min_hits cfg <= he_hits e ∧ rested cfg e now = true ∧
    ∃ cached remaining, cache_get cache key now = Fresh cached remaining ∧ ent_ttl cached ≠ 0 ∧
      f64_leb (f64_div (f64_of_Z remaining) (f64_of_Z (ent_ttl cached))) (trigger_fraction cfg) = true.
Proof.
  unfold select_hot. intros ([k e] & -> & Hin)%list_elem_of_fmap.
  apply list_elem_of_In, filter_In in Hin as [Hin Hw]. apply list_elem_of_In in Hin.
  exists e. apply top_elem in Hin. unfold worth_refreshing in Hw. cbn [fst snd] in *.
  apply andb_true_iff in Hw as [[Hh%negb_true_iff%Z.ltb_ge Hr]%andb_true_iff Hn]. split_and!; try done.
  revert Hn. unfold near_expiry. destruct (cache_get cache k now) as [cached remaining| |]; [|done..].
  intros [H0%negb_true_iff%Z.eqb_neq Hf]%andb_true_iff. by exists cached, remaining.
Qed.

Lemma select_hot_NoDup cfg cache h now : NoDup (select_hot cfg cache h now).
Proof.
  unfold select_hot, top. set (items := stable_sort _ _).
  assert (NoDup items.*1) as Hn.
  { unfold items. rewrite stable_sort_perm, hash_iter_perm. apply NoDup_fst_map_to_list. }
  eapply sublist_NoDup; [exact Hn|]. clearbody items. clear Hn.
  transitivity ((take (Nat.min (hot_set_size cfg) 4096) items).*1).
  - generalize (take (Nat.min (hot_set_size cfg) 4096) items). intros l.
    induction l as [|x l IH]; [constructor|]. cbn. destruct (worth_refreshing _ _ _ _); by constructor.
  - rewrite fmap_take. apply sublist_take.
Qed.

Lemma round_budget_ok cfg p :
  ∃ semaphore, pr_budget (round_budget cfg p) = Some (semaphore, budget_qps cfg) ∧
    pr_running (round_budget cfg p) = pr_running p ∧ pr_warmed (round_budget cfg p) = pr_warmed p.
Proof.
  unfold round_budget. destruct (pr_budget p) as [[s n]|] eqn:E; [|by eexists].
  destruct (Nat.eqb_spec n (budget_qps cfg)) as [->|]; by eexists.
Qed.

(** A round of prefetching keeps to its budget: once the warm start is over, it
    starts at most [global_qps] refreshes, each for a different key that is hot, has
    been asked for often enough, and whose cached answer is still fresh but close to
    expiry; the refreshes running on the round's semaphore stay within its size; no
    other key is touched; and a key just refreshed is not chosen again, whatever the
    cache says, until its own interval has passed. *)
Theorem prefetch_keeps_to_its_budget cfg cache h now p p' h' keys
    (Hwarm : pr_warmed p = true)
    (Hround : prefetch_round cfg cache h now p = (p', h', keys)) :
  (length keys <= budget_qps cfg)%nat ∧ NoDup keys ∧
  (∀ key, key ∈ keys -> ∃ e cached remaining,
     hs_map h !! key = Some e ∧ min_hits cfg <= he_hits e ∧ rested cfg e now = true ∧
     cache_get cache key now = Fresh cached remaining ∧ ent_ttl cached ≠ 0 ∧
     f64_leb (f64_div (f64_of_Z remaining) (f64_of_Z (ent_ttl cached))) (trigger_fraction cfg) = true) ∧
  (keys ≠ [] -> ∃ semaphore, pr_budget p' = Some (semaphore, budget_qps cfg) ∧
     (in_use p semaphore <= budget_qps cfg -> in_use p' semaphore <= budget_qps cfg)%nat) ∧
  (∀ key, key ∉ keys -> hs_map h' !! key = hs_map h !! key) ∧
  (∀ key cache' now', key ∈ keys -> since now' now < per_key_min_interval cfg ->
     key ∉ select_hot cfg cache' h' now').
Proof.
  revert Hround. unfold prefetch_round.
  destruct (negb (prefetch_enabled cfg) || negb (pf_enabled (pr_state p))).
  { intros [= <- <- <-]. split_and!; try done; [cbn; lia|constructor|..]; intros key.
    - by intros ?%elem_of_nil.
    - by intros ? ? ?%elem_of_nil. }
  destruct (round_budget_ok cfg p) as (semaphore & Hb & Hr & Hw). rewrite Hw, Hwarm. cbn [negb andb].
  rewrite Hb. cbn [default from_option id].
  destruct (start_refreshes semaphore (budget_qps cfg) (take (budget_qps cfg) (select_hot cfg cache h now)) h
    now (round_budget cfg p)) as [[p1 h1] started] eqn:E.
  intros [= <- <- <-]. cbn [app].
  destruct (start_refreshes_ok _ _ _ _ _ _ _ _ _ E) as [Hp Hkept Hbud Hm Ho].
  assert (∀ key, key ∈ started -> key ∈ select_hot cfg cache h now) as Hsel.
  { intros key Hk. destruct Hp as [rest Hp].
    rewrite <- (take_drop (budget_qps cfg) (select_hot cfg cache h now)), Hp, !elem_of_app. by left; left. }
  split_and!.
  - apply prefix_length in Hp. rewrite length_take in Hp. lia.
  - eapply sublist_NoDup; [apply (select_hot_NoDup cfg cache h now)|].
    transitivity (take (budget_qps cfg) (select_hot cfg cache h now)); [destruct Hp as [rest ->]; apply sublist_inserts_r; done|].
    apply sublist_take.
  - intros key Hk. destruct (select_hot_elem _ _ _ _ _ (Hsel key Hk)) as (e & H1 & H2 & H3 & c & r & H4).
    by exists e, c, r.
  - intros _. exists semaphore. rewrite Hkept. split; [done|]. unfold in_use in *. by rewrite Hr in Hbud.
  - done.
  - intros key cache' now' Hk Hi Hin.
    destruct (select_hot_elem _ _ _ _ _ Hin) as (e & He & _ & Hrest & _).
    unfold rested in Hrest. rewrite (Hm key e Hk He) in Hrest.
    apply negb_true_iff, Z.ltb_ge in Hrest. lia.
Qed.

End prefetch.

(** ** A concrete round *)

Section witnesses.
#[local] Existing Instance moka_assoc.
#[local] Existing Instance some_order.

Definition hot_key (name : string) : CacheKey :=
  mk_CacheKey (lit name) RT_A IN (mk_PolicyView (lit "default") None) (mk_ReqMode false false).

Definition one_hot_name : HotSet :=
  mk_HotSet {[ hot_key "www.example.com." := mk_HotEntry f32_one 9 0 None ]} 0 ∅ 8 8 f32_one.

Definition expiring : CacheEntry str :=
  mk_CacheEntry
    (mk_Message (mk_Metadata 1 MtResponse OpQuery false false true true false false NoError) [] [] [] [] None)
    0 1000 300 Positive Insecure (mk_AnswerSource (lit "one") Udp) 7 None 512.

Definition warm_prefetcher : Prefetcher := mk_Prefetcher (prefetch_new true) None [] 0 true.

Definition expiring_cache : DnsCache str :=
  cache_insert empty_cache (hot_key "www.example.com.") expiring.

Lemma prefetch_keeps_to_its_budget_witness :
  (prefetch_round default_PrefetchConfig expiring_cache one_hot_name (from_secs 280) warm_prefetcher).2
    = [hot_key "www.example.com."] ∧
  hot_key "www.example.com." ∉ select_hot default_PrefetchConfig expiring_cache
    (prefetch_round default_PrefetchConfig expiring_cache one_hot_name (from_secs 280) warm_prefetcher).1.2
    (from_secs 284).
Proof.
  destruct (prefetch_round default_PrefetchConfig expiring_cache one_hot_name (from_secs 280) warm_prefetcher)
    as [[p' h'] keys] eqn:E.
  assert (keys = [hot_key "www.example.com."]) as Hk
    by (change keys with (p', h', keys).2; rewrite <- E; vm_compute; reflexivity).
  split; [exact Hk|].
  refine (proj2 (proj2 (proj2 (proj2 (proj2 (prefetch_keeps_to_its_budget default_PrefetchConfig
    expiring_cache one_hot_name (from_secs 280) warm_prefetcher p' h' keys eq_refl E))))) _ _ _ _ _).
  - rewrite Hk. left.
  - vm_compute. reflexivity.
Defined.

End witnesses.
