(* ===== verification/Probing.v ===== *)
(** * Offering addresses for measurement

    [src/probe/gate.rs]: the gate that keeps an address from being offered again
    within its cooldown.  [src/probe/job.rs]: the jobs and their bounded queue.
    [schedule_probes] of [src/dns/resolver.rs], which offers the addresses of a fresh
    answer. *)

From Stdlib Require Import Ascii String.
From S2P Require Import Prelude.
From S2P Require Import Hashing.
From S2P Require Import Floats.
From S2P Require Import Names.
From S2P Require Import Net.
From S2P Require Import Text.
From S2P Require Import Config.
From S2P Require Import Dns.
From S2P Require Import Util.
From S2P Require Import Message.
From S2P Require Import DnssecPolicy.
From S2P Require Import Prefixes.
From S2P Require Import CloudflarePolicy.
From S2P Require Import Quality.
From S2P Require Import AnswerPolicy.
From S2P Require Import Evidence.
From S2P Require Import Candidates.
From S2P Require Import Cache.

(** ** The gate *)

Definition MAX_ENTRIES : nat := Z.to_nat 8192.

(** An address, a port and a host name. *)
Abbreviation OfferKey := (IpAddr * Z * list ascii)%type.
Abbreviation OfferGate := (gmap OfferKey Instant).

Definition jitter_tenths (key : OfferKey) : Z :=
  let '(addr, port, hostname) := key in
  8 + fnv1a64 (map code (print_ip addr) ++ [port / 256; port mod 256] ++ map code hostname) mod 5.

Definition jittered (cooldown : Duration) (key : OfferKey) : Duration :=
  cooldown * jitter_tenths key / 10.

Section gate.
Context {HO : HashOrder OfferKey}.
Implicit Types (seen : OfferGate) (key : OfferKey).

(** The oldest entries go until a quarter is left. *)
Definition compact seen : OfferGate :=
  drop_least (λ a b, a <=? b) (size seen - size seen / 4) seen.

Definition allow seen key (cooldown : Duration) (now : Instant) : bool * OfferGate :=
  let window := jittered cooldown key in
  if (match seen !! key with Some last => since now last <? window | None => false end)
  then (false, seen)
  else
    let seen :=
      if (MAX_ENTRIES <=? size seen)%nat then
        let seen := filter (λ e : OfferKey * Instant, since now e.2 < window) seen in
        if (MAX_ENTRIES <=? size seen)%nat then compact seen else seen
      else seen in
    (true, <[key := now]> seen).

(** A run of offers, oldest first, and what one triple sees of it: the time of its
    last accepted offer. *)
Abbreviation Offer := (OfferKey * Duration * Instant)%type.

Definition gate_run (offers : list Offer) seen : OfferGate :=
  fold_left (λ seen o, (allow seen o.1.1 o.1.2 o.2).2) offers seen.

Definition due (last : option Instant) key (cooldown : Duration) (now : Instant) : bool :=
  match last with Some last => jittered cooldown key <=? since now last | None => true end.

Definition last_accepted key (offers : list Offer) : option Instant :=
  fold_left (λ last o, if decide (o.1.1 = key)
                       then if due last key o.1.2 o.2 then Some o.2 else last
                       else last) offers None.

Lemma jitter_tenths_range key : 8 <= jitter_tenths key <= 12.
Proof.
  destruct key as [[addr port] hostname]. unfold jitter_tenths.
  match goal with |- context [fnv1a64 ?d mod 5] => pose proof (Z.mod_pos_bound (fnv1a64 d) 5 ltac:(lia)) end.
  lia.
Qed.

Lemma jittered_range cooldown key :
  0 <= cooldown -> cooldown * 8 / 10 <= jittered cooldown key <= cooldown * 12 / 10.
Proof.
  intros Hc. pose proof (jitter_tenths_range key). unfold jittered.
  split; apply Z.div_le_mono; nia.
Qed.

Lemma allow_due seen key cooldown now :
  (allow seen key cooldown now).1 = due (seen !! key) key cooldown now.
Proof.
  unfold allow, due. cbn zeta. destruct (seen !! key) as [last|]; [|done].
  destruct (Z.ltb_spec (since now last) (jittered cooldown key)), (Z.leb_spec (jittered cooldown key) (since now last));
    done || lia.
Qed.

Lemma allow_size seen key cooldown now :
  (size seen <= MAX_ENTRIES)%nat -> (size (allow seen key cooldown now).2 <= MAX_ENTRIES)%nat.
Proof.
  intros Hs. unfold allow. cbn zeta. destruct (match seen !! key with Some _ => _ | None => _ end) eqn:E; [done|].
  clear E. cbn [snd]. rewrite map_size_insert.
  assert (0 < MAX_ENTRIES / 4 < MAX_ENTRIES)%nat as Hm by (vm_compute; lia).
  destruct (Nat.leb_spec MAX_ENTRIES (size seen)); [|case_match; unfold id; lia].
  set (m := filter _ seen). assert (size m <= size seen)%nat as Hf by apply map_size_filter.
  destruct (Nat.leb_spec MAX_ENTRIES (size m)); [|case_match; unfold id; lia].
  unfold compact. rewrite drop_least_size. assert (size m = MAX_ENTRIES) as -> by lia.
  case_match; unfold id; lia.
Qed.

(** While there is room, an offer touches only its own triple. *)
Lemma allow_lookup seen key cooldown now key' :
  (size seen < MAX_ENTRIES)%nat ->
  (allow seen key cooldown now).2 !! key'
  = if decide (key = key') then if due (seen !! key') key' cooldown now then Some now else seen !! key'
    else seen !! key'.
Proof.
  intros Hs. pose proof (allow_due seen key cooldown now) as Hd. unfold allow in *. cbn zeta in *.
  rewrite (proj2 (Nat.leb_gt _ _) Hs) in *.
  destruct (match seen !! key with Some _ => _ | None => _ end) eqn:E; cbn [fst snd] in *.
  - case_decide as Ek; [subst|done]. by rewrite <- Hd.
  - case_decide as Ek; [subst; rewrite <- Hd; apply lookup_insert_eq|by rewrite lookup_insert_ne].
Qed.

Lemma gate_run_lookup (S : gset OfferKey) offers seen :
  dom seen ⊆ S -> (∀ o, o ∈ offers -> o.1.1 ∈ S) -> (size S < MAX_ENTRIES)%nat ->
  ∀ key, gate_run offers seen !! key =
    fold_left (λ last o, if decide (o.1.1 = key)
                         then if due last key o.1.2 o.2 then Some o.2 else last
                         else last) offers (seen !! key).
Proof.
  revert seen. induction offers as [|o offers IH]; intros seen Hd Ho Hs key; [done|].
  cbn [gate_run fold_left]. assert (size seen < MAX_ENTRIES)%nat as Hsz.
  { rewrite <- size_dom. apply subseteq_size in Hd. lia. }
  fold (gate_run offers (allow seen o.1.1 o.1.2 o.2).2). rewrite IH; [| |intros o' Ho'; apply Ho; by right|done].
  - f_equal. by apply allow_lookup.
  - intros k Hk. apply elem_of_dom in Hk as [t Hk]. rewrite allow_lookup in Hk by done.
    revert Hk. case_decide as E; [intros _; subst; apply Ho; left|].
    intros Hk. apply Hd, elem_of_dom. by eexists.
Qed.

(** The gate never holds more than [MAX_ENTRIES] triples, and while it is offered
    fewer it is exact: an offer is let through exactly when the triple's last accepted
    offer is at least its window ago, whatever happens to other triples; and the
    window lies between 0.8 and 1.2 of the cooldown. *)
Theorem offers_are_spaced offers key cooldown now (Hc : 0 <= cooldown) :
  (size (gate_run offers ∅) <= MAX_ENTRIES)%nat ∧
  cooldown * 8 / 10 <= jittered cooldown key <= cooldown * 12 / 10 ∧
  ((size (list_to_set (map (λ o : Offer, o.1.1) offers) : gset OfferKey) < MAX_ENTRIES)%nat ->
   ((allow (gate_run offers ∅) key cooldown now).1 = true <->
    match last_accepted key offers with
    | None => True
    | Some last => jittered cooldown key <= since now last
    end)).
Proof.
  split_and!; [|apply jittered_range; done..|].
  - assert (∀ seen, (size seen <= MAX_ENTRIES)%nat -> (size (gate_run offers seen) <= MAX_ENTRIES)%nat) as H.
    { induction offers as [|o offers IH]; intros seen Hs; [done|]. by apply IH, allow_size. }
    apply H. rewrite map_size_empty. lia.
  - intros Hs. rewrite allow_due. unfold due, last_accepted.
    rewrite (gate_run_lookup (list_to_set (map (λ o : Offer, o.1.1) offers))); [|set_solver| |done].
    + rewrite lookup_empty. case_match; [apply Z.leb_le|done].
    + intros o Ho. apply elem_of_list_to_set. by apply (list_elem_of_fmap_2 (λ o : Offer, o.1.1)).
Qed.

(** When the gate is full of live offers it is said to forget the oldest quarter; it
    keeps a quarter. *)
Theorem full_gate_keeps_a_quarter seen key cooldown now
    (Hfull : size seen = MAX_ENTRIES) (Hnew : seen !! key = None)
    (Hlive : map_Forall (λ _ t, since now t < jittered cooldown key) seen) :
  size (allow seen key cooldown now).2 = (MAX_ENTRIES / 4 + 1)%nat.
Proof.
  unfold allow. cbn zeta. rewrite Hnew, Hfull, Nat.leb_refl. cbn [snd].
  assert (filter (λ e : OfferKey * Instant, since now e.2 < jittered cooldown key) seen = seen) as ->.
  { apply map_filter_id. intros k t Hk. by apply (Hlive k). }
  rewrite Hfull, Nat.leb_refl. rewrite map_size_insert_None.
  - unfold compact. rewrite drop_least_size, Hfull. vm_compute. done.
  - eapply lookup_weaken_None; [exact Hnew|apply drop_least_subseteq].
Qed.

End gate.

(** ** Jobs *)

Inductive ProbeJob : Type :=
| JobObserved (hostname : str) (addr : IpAddr) (port : Z) (cloudflare : bool) (generation : Z)
| JobCandidate (addr : IpAddr) (port : Z) (generation : Z)
| JobValidate (hostname : str) (addr : IpAddr) (port : Z) (generation : Z)
| JobBaseline (hostname : str) (addr : IpAddr) (port : Z) (generation : Z).

Definition job_addr (j : ProbeJob) : IpAddr :=
  match j with
  | JobObserved _ a _ _ _ | JobCandidate a _ _ | JobValidate _ a _ _ | JobBaseline _ a _ _ => a
  end.

Definition job_port (j : ProbeJob) : Z :=
  match j with
  | JobObserved _ _ p _ _ | JobCandidate _ p _ | JobValidate _ _ p _ | JobBaseline _ _ p _ => p
  end.

Definition job_hostname (j : ProbeJob) : option str :=
  match j with
  | JobObserved h _ _ _ _ | JobValidate h _ _ _ | JobBaseline h _ _ _ => Some h
  | JobCandidate _ _ _ => None
  end.

Definition job_generation (j : ProbeJob) : Z :=
  match j with
  | JobObserved _ _ _ _ g | JobCandidate _ _ g | JobValidate _ _ _ g | JobBaseline _ _ _ g => g
  end.

(** The channel, when there is one: its capacity and the jobs waiting in it, the next
    one to be taken first. *)
Record ProbeQueue : Type := mk_ProbeQueue {
  pq_channel : option (nat * list ProbeJob);
  pq_enabled : bool
}.

Definition queue_disabled : ProbeQueue := mk_ProbeQueue None false.
Definition queue_new (capacity : nat) (enabled : bool) : ProbeQueue :=
  mk_ProbeQueue (Some (capacity, [])) enabled.

Definition queue_is_enabled (q : ProbeQueue) : bool :=
  match pq_channel q with Some _ => pq_enabled q | None => false end.

Definition queue_set_enabled (q : ProbeQueue) (enabled : bool) : ProbeQueue :=
  mk_ProbeQueue (pq_channel q) enabled.

Definition offer (q : ProbeQueue) (job : ProbeJob) : bool * ProbeQueue :=
  if negb (pq_enabled q) then (false, q)
  else
    match pq_channel q with
    | None => (false, q)
    | Some (capacity, jobs) =>
        if (length jobs <? capacity)%nat
        then (true, mk_ProbeQueue (Some (capacity, jobs ++ [job])) (pq_enabled q))
        else (false, q)
    end.

Definition waiting (q : ProbeQueue) : list ProbeJob :=
  match pq_channel q with Some (_, jobs) => jobs | None => [] end.

Definition depth (q : ProbeQueue) : nat := length (waiting q).

(** [rx.recv()] in the engine. *)
Definition take_job (q : ProbeQueue) : option ProbeJob * ProbeQueue :=
  match pq_channel q with
  | Some (capacity, job :: jobs) => (Some job, mk_ProbeQueue (Some (capacity, jobs)) (pq_enabled q))
  | _ => (None, q)
  end.

(** ** Offering the addresses of an answer *)

Record ProbeState : Type := mk_ProbeState {
  ps_services : ServiceClassifier;
  ps_gate : OfferGate;
  ps_queue : ProbeQueue
}.

Section schedule.
Context {Name : Type} {NLib : NameLib Name} {HO : HashOrder OfferKey} {IPL : IpNetLib}.
Context (cfg : ProbeConfig) (snapshot : option PrefixSnapshot) (generation : Z).
Implicit Types (r : DnsRecord Name) (st : ProbeState).

Definition gate_window : Duration := Z.max (per_domain_cooldown cfg) (per_ip_cooldown cfg).

(** The loop over the answer section; [now] is the clock at each record. *)
Fixpoint offer_addresses (hostname : str) (scheduled : nat) (records : list (DnsRecord Name))
    (now : nat -> Instant) (gate : OfferGate) (queue : ProbeQueue) : OfferGate * ProbeQueue :=
  match records with
  | [] => (gate, queue)
  | r :: records =>
      if (max_candidates_per_rrset cfg <=? scheduled)%nat then (gate, queue)
      else
        let rest := offer_addresses hostname in
        match record_address r with
        | None => rest scheduled records (now ∘ S) gate queue
        | Some addr =>
            if bool_decide (is_Some (IpClass.classify addr))
            then rest scheduled records (now ∘ S) gate queue
            else
              let '(allowed, gate) := allow gate (addr, 443, hostname) gate_window (now 0%nat) in
              if negb allowed then rest scheduled records (now ∘ S) gate queue
              else
                let job := JobObserved hostname addr 443 (is_cloudflare snapshot addr) generation in
                rest (S scheduled) records (now ∘ S) gate (offer queue job).2
        end
  end.

Definition schedule_probes st (key : CacheKey) (entry : CacheEntry Name) (now : nat -> Instant) : ProbeState :=
  if negb (probe_enabled cfg) || negb (bool_decide (ent_kind entry = Positive)) then st
  else
    let services :=
      if is_service_binding (key_qtype key) && negb (bool_decide (answers (ent_message entry) = []))
      then note_https (ps_services st) (key_name key) else ps_services st in
    let st := mk_ProbeState services (ps_gate st) (ps_queue st) in
    if negb (rtype_eqb (key_qtype key) RT_A || rtype_eqb (key_qtype key) RT_AAAA) then st
    else if negb (is_web_service services (key_name key)) then st
    else
      let '(gate, queue) :=
        offer_addresses (key_name key) 0 (answers (ent_message entry)) now (ps_gate st) (ps_queue st) in
      mk_ProbeState services gate queue.

(** What an offered job says about the answer it came from. *)
Definition justified (hostname : str) (records : list (DnsRecord Name)) (j : ProbeJob) : Prop :=
  ∃ addr r, r ∈ records ∧ record_address r = Some addr ∧ IpClass.classify addr = None ∧
    j = JobObserved hostname addr 443 (is_cloudflare snapshot addr) generation.

Lemma offer_waiting q job :
  waiting (offer q job).2 = waiting q ∨
  (waiting (offer q job).2 = waiting q ++ [job] ∧ queue_is_enabled q = true).
Proof.
  unfold offer, waiting, queue_is_enabled. destruct (pq_enabled q) eqn:Ee; [|by left]. cbn [negb].
  destruct (pq_channel q) as [[cap jobs]|] eqn:Ec; [|left; cbn; by rewrite Ec].
  destruct (_ <? _)%nat; [by right|left; cbn; by rewrite Ec].
Qed.

Lemma offer_addresses_spec hostname scheduled records now gate queue :
  (scheduled <= max_candidates_per_rrset cfg)%nat ->
  ∃ jobs,
    waiting (offer_addresses hostname scheduled records now gate queue).2 = waiting queue ++ jobs ∧
    Forall (justified hostname records) jobs ∧
    (length jobs <= max_candidates_per_rrset cfg - scheduled)%nat ∧
    (jobs ≠ [] -> queue_is_enabled queue = true).
Proof.
  revert scheduled now gate queue. induction records as [|r records IH]; intros scheduled now gate queue Hs;
    cbn [offer_addresses].
  { exists []. rewrite app_nil_r. split_and!; try done. cbn. lia. }
  assert (∀ s g q, (s <= max_candidates_per_rrset cfg)%nat -> ∃ jobs,
    waiting (offer_addresses hostname s records (now ∘ S) g q).2 = waiting q ++ jobs ∧
    Forall (justified hostname (r :: records)) jobs ∧
    (length jobs <= max_candidates_per_rrset cfg - s)%nat ∧ (jobs ≠ [] -> queue_is_enabled q = true)) as Hrest.
  { intros s g q Hs'. destruct (IH s (now ∘ S) g q Hs') as (jobs & E & Hj & Hl & He).
    exists jobs. split_and!; try done. eapply Forall_impl; [exact Hj|].
    intros j (addr & r' & Hin & H). exists addr, r'. split; [by right|done]. }
  destruct (Nat.leb_spec (max_candidates_per_rrset cfg) scheduled) as [|Hlt].
  { exists []. rewrite app_nil_r. split_and!; try done. cbn. lia. }
  destruct (record_address r) as [addr|] eqn:Er; [|by apply Hrest].
  case_bool_decide as Hcl; [by apply Hrest|].
  destruct (allow gate (addr, 443, hostname) gate_window (now 0%nat)) as [[] g]; [|by apply Hrest].
  cbn [negb]. set (job := JobObserved _ _ _ _ _).
  destruct (Hrest (S scheduled) g (offer queue job).2 ltac:(lia)) as (jobs & E & Hj & Hl & He).
  assert (justified hostname (r :: records) job) as Hjob.
  { exists addr, r. split_and!; [left|done| |done]. by apply eq_None_not_Some. }
  destruct (offer_waiting queue job) as [Eo|[Eo Hen]]; rewrite Eo in E.
  - exists jobs. split_and!; [done|done|lia|]. intros Hne. specialize (He Hne).
    revert He. unfold offer, queue_is_enabled.
    destruct (pq_channel queue) eqn:Ec, (pq_enabled queue) eqn:Ee; cbn [negb snd]; rewrite ?Ec, ?Ee; done.
  - exists (job :: jobs). rewrite E, <- app_assoc. split_and!; [done|by constructor|cbn; lia|done].
Qed.

(** Nothing is probed without a reason: what a fresh answer adds to the queue are
    at most the configured number of jobs, each for a publicly routable address of
    that very answer and for port 443, and only when probing is on, the answer is a
    positive one for addresses, and the name has been seen to be an HTTPS service. *)
Theorem probes_need_a_reason st key (entry : CacheEntry Name) now :
  let st' := schedule_probes st key entry now in
  ∃ jobs,
    waiting (ps_queue st') = waiting (ps_queue st) ++ jobs ∧
    (length jobs <= max_candidates_per_rrset cfg)%nat ∧
    Forall (justified (key_name key) (answers (ent_message entry))) jobs ∧
    (jobs ≠ [] ->
     probe_enabled cfg = true ∧ queue_is_enabled (ps_queue st) = true ∧ ent_kind entry = Positive ∧
     (key_qtype key = RT_A ∨ key_qtype key = RT_AAAA) ∧
     is_web_service (ps_services st) (key_name key) = true) ∧
    (ps_services st' ≠ ps_services st ->
     is_service_binding (key_qtype key) = true ∧ answers (ent_message entry) ≠ [] ∧
     ps_services st' = note_https (ps_services st) (key_name key)).
Proof.
  intros st'. unfold st', schedule_probes. clear st'. destruct (negb (probe_enabled cfg)) eqn:Ep.
  { exists []. rewrite app_nil_r. cbn [orb]. split_and!; try done. cbn. lia. }
  apply negb_false_iff in Ep. rewrite Ep. cbn [orb].
  case_bool_decide as Hk; cbn [negb].
  2:{ exists []. rewrite app_nil_r. split_and!; try done. cbn. lia. }
  set (services := if _ && _ then _ else _). cbn [ps_gate ps_queue].
  assert (services ≠ ps_services st -> is_service_binding (key_qtype key) = true ∧
    answers (ent_message entry) ≠ [] ∧ services = note_https (ps_services st) (key_name key)) as Hserv.
  { unfold services. destruct (is_service_binding (key_qtype key)); [|done]. cbn [andb].
    case_bool_decide; done. }
  unfold rtype_eqb. destruct (bool_decide (key_qtype key = RT_A) || bool_decide (key_qtype key = RT_AAAA)) eqn:Et;
    cbn [negb].
  2:{ exists []. rewrite app_nil_r. split_and!; try done. cbn. lia. }
  apply orb_true_iff in Et. rewrite !bool_decide_eq_true in Et.
  destruct (is_web_service services (key_name key)) eqn:Ew; cbn [negb].
  2:{ exists []. rewrite app_nil_r. split_and!; try done. cbn. lia. }
  destruct (offer_addresses_spec (key_name key) 0 (answers (ent_message entry)) now (ps_gate st) (ps_queue st)
    ltac:(lia)) as (jobs & E & Hj & Hl & He).
  destruct (offer_addresses _ _ _ _ _ _) as [g q]. cbn [ps_queue snd ps_services] in *.
  exists jobs. split_and!; [done|lia|done| |done]. intros Hne. split_and!; try done; [by apply He|].
  assert (services = ps_services st) as <-; [|done].
  unfold services. destruct Et as [-> | ->]; done.
Qed.

End schedule.

(** ** Concrete offers *)

Section witnesses.
#[local] Existing Instance text_names.
#[local] Existing Instance ipnet_reference.
#[local] Instance offer_order : HashOrder OfferKey := {
  hash_iter A m := map_to_list m; hash_iter_perm A m := Permutation_refl _ }.

Definition web_answer : CacheEntry str :=
  mk_CacheEntry
    (mk_Message (mk_Metadata 1 MtResponse OpQuery false false true true false false NoError)
       [mk_Query (lit "www.example.com.") RT_A IN]
       [mk_Record (lit "www.example.com.") IN 300 (RD_A (ipv4 93 184 216 34)) PInsecure] [] [] None)
    0 1000 300 Positive Insecure (mk_AnswerSource (lit "one") Udp) 7 None 512.

Definition web_key : CacheKey :=
  mk_CacheKey (lit "www.example.com.") RT_A IN (mk_PolicyView (lit "default") None) (mk_ReqMode false false).

Definition known_service : ServiceClassifier := note_https (classifier_new 8) (lit "www.example.com").

(** A queue of one place that is taken. *)
Definition busy : ProbeState :=
  mk_ProbeState known_service ∅ (offer (queue_new 1 true) (JobCandidate (V4 (ipv4 104 16 0 1)) 443 1)).2.

Definition offered_at (st : ProbeState) (secs : Z) : ProbeState :=
  schedule_probes default_ProbeConfig None 1 st web_key web_answer (λ _, from_secs secs).

Definition drained (st : ProbeState) : ProbeState :=
  mk_ProbeState (ps_services st) (ps_gate st) (take_job (ps_queue st)).2.

(** An offer that finds the queue full is dropped, but the gate has noted it: when the
    queue is empty again, the address is still refused for the rest of its cooldown,
    though it has never been probed. *)
Theorem dropped_offer_is_not_repeated :
  depth (ps_queue (offered_at busy 0)) = 1%nat ∧
  waiting (ps_queue (drained (offered_at busy 0))) = [] ∧
  waiting (ps_queue (offered_at (drained (offered_at busy 0)) 400)) = [] ∧
  map job_addr (waiting (ps_queue (offered_at (drained busy) 400))) = [V4 (ipv4 93 184 216 34)].
Proof. split_and!; vm_compute; reflexivity. Qed.

Definition web_offer : OfferKey := (V4 (ipv4 93 184 216 34), 443, lit "www.example.com.").

Lemma offers_are_spaced_witness :
  (allow (gate_run [(web_offer, from_secs 600, from_secs 10)] ∅) web_offer (from_secs 600)
     (from_secs 800)).1 = true.
Proof.
  refine (proj2 (proj2 (proj2 (offers_are_spaced [(web_offer, from_secs 600, from_secs 10)] web_offer
    (from_secs 600) (from_secs 800) _)) _) _).
  - vm_compute. discriminate.
  - vm_compute. lia.
  - vm_compute. discriminate.
Defined.

End witnesses.
