(* ===== verification/SingleFlight.v ===== *)
(** * Request coalescing

    [src/cache/singleflight.rs].  A registry maps a key to the broadcast channel
    of the flight in progress.  The handles a caller holds (a [Leader], a
    [Follower]) are part of the state, and [publish] is two steps, because the
    shard is unlocked between the removal of the key and the send: any other
    caller may act in between.  A channel carries one value, the one its leader
    sends. *)

From S2P Require Import Prelude.
From S2P Require Import Names.

Inductive FlightError : Type :=
| LeaderGone
| Failed (reason : str)
| Transient (reason : str).

Definition is_cacheable (e : FlightError) : bool :=
  match e with Failed _ => true | _ => false end.

Section singleflight.
Context {K : Type} `{Countable K} {V : Type} (hash_one : K -> N).

Definition Shared : Type := result FlightError V.

(** A leader's handle: its key until it publishes, then the value on its way. *)
Inductive LeaderState : Type := Working (key : K) | Publishing (value : Shared).

Record SingleFlight : Type := mk_SingleFlight {
  shards : list (gmap K nat);
  max_inflight_per_shard : nat;
  next_channel : nat;
  leaders : gmap nat LeaderState;
  followers : list nat;
  sent : gmap nat Shared
}.

Inductive Join : Type := JoinLeader (tx : nat) | JoinFollower (rx : nat) | Saturated.

(** [usize::next_power_of_two]. *)
Definition next_power_of_two (n : nat) : nat := Nat.pow 2 (Nat.log2_up n).

Definition flights_new (n max_inflight : nat) : SingleFlight := {|
  shards := repeat ∅ (next_power_of_two (Nat.max n 1));
  max_inflight_per_shard := Nat.max max_inflight 1;
  next_channel := 0;
  leaders := ∅;
  followers := [];
  sent := ∅
|}.

Definition shard_index (w : SingleFlight) (key : K) : nat :=
  N.to_nat (N.land (hash_one key) (N.of_nat (length (shards w) - 1))).

Definition shard_of (w : SingleFlight) (key : K) : gmap K nat :=
  default ∅ (shards w !! shard_index w key).

Definition join (w : SingleFlight) (key : K) : Join * SingleFlight :=
  let idx := shard_index w key in
  let shard := shard_of w key in
  match shard !! key with
  | Some tx =>
      (JoinFollower tx,
       mk_SingleFlight (shards w) (max_inflight_per_shard w) (next_channel w) (leaders w)
         (tx :: followers w) (sent w))
  | None =>
      if (max_inflight_per_shard w <=? size shard)%nat then (Saturated, w)
      else
        let tx := next_channel w in
        (JoinLeader tx,
         mk_SingleFlight (<[idx := <[key := tx]> shard]> (shards w)) (max_inflight_per_shard w)
           (S tx) (<[tx := Working key]> (leaders w)) (followers w) (sent w))
  end.

Definition remove (w : SingleFlight) (key : K) : list (gmap K nat) :=
  <[shard_index w key := delete key (shard_of w key)]> (shards w).

Definition inflight (w : SingleFlight) : nat := sum_list (map size (shards w)).

(** [publish] up to the unlock: nothing happens the second time. *)
Definition publish_remove (w : SingleFlight) (tx : nat) (value : Shared) : SingleFlight :=
  match leaders w !! tx with
  | Some (Working key) =>
      mk_SingleFlight (remove w key) (max_inflight_per_shard w) (next_channel w)
        (<[tx := Publishing value]> (leaders w)) (followers w) (sent w)
  | _ => w
  end.

(** The send. *)
Definition publish_send (w : SingleFlight) (tx : nat) : SingleFlight :=
  match leaders w !! tx with
  | Some (Publishing value) =>
      mk_SingleFlight (shards w) (max_inflight_per_shard w) (next_channel w)
        (delete tx (leaders w)) (followers w) (<[tx := value]> (sent w))
  | _ => w
  end.

Definition complete (w : SingleFlight) (tx : nat) (value : V) := publish_remove w tx (Ok value).
Definition fail (w : SingleFlight) (tx : nat) (reason : str) :=
  publish_remove w tx (Err (Failed reason)).
Definition fail_uncacheable (w : SingleFlight) (tx : nat) (reason : str) :=
  publish_remove w tx (Err (Transient reason)).
Definition drop_leader (w : SingleFlight) (tx : nat) := publish_remove w tx (Err LeaderGone).

(** What a follower receives, once it does. *)
Definition wait (w : SingleFlight) (rx : nat) : option Shared := sent w !! rx.

(** Any caller may act at any time. *)
Inductive flight_step : SingleFlight -> SingleFlight -> Prop :=
| fs_join w key : flight_step w (join w key).2
| fs_complete w tx v : flight_step w (complete w tx v)
| fs_fail w tx r : flight_step w (fail w tx r)
| fs_fail_uncacheable w tx r : flight_step w (fail_uncacheable w tx r)
| fs_drop w tx : flight_step w (drop_leader w tx)
| fs_send w tx : flight_step w (publish_send w tx).

Definition flights_reachable (w : SingleFlight) : Prop :=
  ∃ n m, rtc flight_step (flights_new n m) w.

Record flights_inv (w : SingleFlight) : Prop := {
  fi_shards : (0 < length (shards w))%nat;
  fi_registered : ∀ i sh k tx, shards w !! i = Some sh -> sh !! k = Some tx ->
    i = shard_index w k ∧ leaders w !! tx = Some (Working k);
  fi_working : ∀ tx k, leaders w !! tx = Some (Working k) -> shard_of w k !! k = Some tx;
  fi_bound : ∀ i sh, shards w !! i = Some sh -> (size sh <= max_inflight_per_shard w)%nat;
  fi_channels : ∀ tx, (tx < next_channel w)%nat <->
    is_Some (leaders w !! tx) ∨ is_Some (sent w !! tx);
  fi_disjoint : ∀ tx, is_Some (leaders w !! tx) -> sent w !! tx = None;
  fi_followers : ∀ rx, rx ∈ followers w -> (rx < next_channel w)%nat
}.

Lemma shard_index_lt w k : (0 < length (shards w))%nat -> (shard_index w k < length (shards w))%nat.
Proof.
  intros Hpos. unfold shard_index.
  pose proof (N.land_le_r (hash_one k) (N.of_nat (length (shards w) - 1))). lia.
Qed.

Lemma shard_of_lookup w k :
  (0 < length (shards w))%nat -> shards w !! shard_index w k = Some (shard_of w k).
Proof.
  intros Hpos%(shard_index_lt w k). unfold shard_of.
  by destruct (lookup_lt_is_Some_2 _ _ Hpos) as [sh ->].
Qed.

Lemma next_power_pos n : (0 < next_power_of_two n)%nat.
Proof. apply Nat.neq_0_lt_0, Nat.pow_nonzero. lia. Qed.

Lemma shards_insert_index w idx sh max nx ld fl st k :
  shard_index (mk_SingleFlight (<[idx := sh]> (shards w)) max nx ld fl st) k = shard_index w k.
Proof. unfold shard_index. cbn [shards]. by rewrite length_insert. Qed.

Lemma shards_insert_of w k0 sh max nx ld fl st k :
  (0 < length (shards w))%nat ->
  shard_of (mk_SingleFlight (<[shard_index w k0 := sh]> (shards w)) max nx ld fl st) k
  = if decide (shard_index w k = shard_index w k0) then sh else shard_of w k.
Proof.
  intros Hpos. unfold shard_of at 1. rewrite shards_insert_index. cbn [shards].
  pose proof (shard_index_lt w k0 Hpos).
  case_decide as E.
  - rewrite E, list_lookup_insert_eq by done. done.
  - by rewrite list_lookup_insert_ne by done.
Qed.

Lemma flights_inv_new n m : flights_inv (flights_new n m).
Proof.
  split; cbn [flights_new shards leaders followers sent next_channel max_inflight_per_shard].
  - rewrite repeat_length. apply next_power_pos.
  - intros i sh k tx Hi%list_elem_of_lookup_2%list_elem_of_In%repeat_spec. subst sh.
    by rewrite lookup_empty.
  - intros tx k. by rewrite lookup_empty.
  - intros i sh Hi%list_elem_of_lookup_2%list_elem_of_In%repeat_spec. subst sh.
    rewrite map_size_empty. lia.
  - intros tx. rewrite !lookup_empty. split; [lia|]. intros [[]|[]]; done.
  - done.
  - intros rx Hrx. by apply not_elem_of_nil in Hrx.
Qed.


Lemma flights_inv_join w k : flights_inv w -> flights_inv (join w k).2.
Proof.
  intros Hi. pose proof (fi_shards _ Hi) as Hpos.
  pose proof (shard_of_lookup w k Hpos) as Hsh. pose proof (shard_index_lt w k Hpos) as Hlt.
  unfold join. destruct (shard_of w k !! k) as [tx|] eqn:E; cbn [snd].
  { destruct Hi; split; cbn; try done.
    intros rx [->|?]%elem_of_cons; [|by eauto].
    pose proof (fi_registered0 _ _ _ _ Hsh E) as [_ Hl].
    apply fi_channels0. left. eauto. }
  destruct (Nat.leb_spec (max_inflight_per_shard w) (size (shard_of w k))); [done|]. cbn [snd].
  assert (leaders w !! next_channel w = None ∧ sent w !! next_channel w = None) as [Hnl Hns].
  { split; apply eq_None_not_Some; intros Hs; pose proof (fi_channels _ Hi (next_channel w));
      intuition lia. }
  split.
  - cbn. by rewrite length_insert.
  - intros i sh k' tx Hsh' Hk'. rewrite shards_insert_index. cbn [shards leaders] in *.
    apply list_lookup_insert_Some in Hsh' as [(<- & <- & _)|[Hne Hsh']].
    + apply lookup_insert_Some in Hk' as [[-> <-]|[Hkk Hk']].
      * split; [done|]. by rewrite lookup_insert_eq.
      * pose proof (fi_registered _ Hi _ _ _ _ Hsh Hk') as [Heq Hl]. split; [done|].
        rewrite lookup_insert_ne; [done|]. intros <-. congruence.
    + pose proof (fi_registered _ Hi _ _ _ _ Hsh' Hk') as [Heq Hl]. split; [done|].
      rewrite lookup_insert_ne; [done|]. intros <-. congruence.
  - intros tx k'. rewrite shards_insert_of by done. cbn [leaders].
    intros [[<- [= <-]]|[Hne Hl]]%lookup_insert_Some.
    + rewrite decide_True by done. by rewrite lookup_insert_eq.
    + apply (fi_working _ Hi) in Hl. case_decide as Ei; [|done].
      unfold shard_of in Hl. rewrite Ei in Hl. fold (shard_of w k) in Hl.
      rewrite lookup_insert_ne; [done|]. congruence.
  - intros i sh. cbn. intros [(<- & <- & _)|[_ Hs]]%list_lookup_insert_Some.
    + rewrite map_size_insert, E. lia.
    + by eapply fi_bound.
  - intros tx. cbn. pose proof (fi_channels _ Hi tx) as Hc.
    destruct (decide (tx = next_channel w)) as [->|Hne].
    + rewrite lookup_insert_eq. split; [by left; eauto|lia].
    + rewrite lookup_insert_ne by done. rewrite <- Hc. lia.
  - intros tx. cbn. destruct (decide (tx = next_channel w)) as [->|Hne]; [done|].
    rewrite lookup_insert_ne by done. by apply fi_disjoint.
  - intros rx Hrx. cbn in *. pose proof (fi_followers _ Hi rx Hrx). lia.
Qed.

Lemma flights_inv_remove w tx v : flights_inv w -> flights_inv (publish_remove w tx v).
Proof.
  intros Hi. pose proof (fi_shards _ Hi) as Hpos. unfold publish_remove.
  destruct (leaders w !! tx) as [[k|]|] eqn:E; [|done..]. unfold remove.
  pose proof (shard_of_lookup w k Hpos) as Hsh.
  split.
  - cbn. by rewrite length_insert.
  - intros i sh k' tx' Hsh' Hk'. rewrite shards_insert_index. cbn [shards leaders] in *.
    apply list_lookup_insert_Some in Hsh' as [(<- & <- & _)|[Hne Hsh']].
    + apply lookup_delete_Some in Hk' as [Hkk Hk'].
      pose proof (fi_registered _ Hi _ _ _ _ Hsh Hk') as [Heq Hl]. split; [done|].
      rewrite lookup_insert_ne; [done|]. intros <-. congruence.
    + pose proof (fi_registered _ Hi _ _ _ _ Hsh' Hk') as [Heq Hl]. split; [done|].
      rewrite lookup_insert_ne; [done|]. intros <-. congruence.
  - intros tx' k'. rewrite shards_insert_of by done. cbn [leaders].
    intros [[<- [=]]|[Hne Hl]]%lookup_insert_Some.
    pose proof (fi_working _ Hi _ _ Hl) as Hw. pose proof (fi_working _ Hi _ _ E) as Hw'.
    case_decide as Ei; [|done].
    unfold shard_of in Hw. rewrite Ei in Hw. fold (shard_of w k) in Hw.
    rewrite lookup_delete_ne; [done|]. congruence.
  - intros i sh. cbn. intros [(<- & <- & _)|[_ Hs]]%list_lookup_insert_Some.
    + pose proof (fi_bound _ Hi _ _ Hsh). rewrite map_size_delete. destruct (shard_of w k !! k); cbn in *; lia.
    + by eapply fi_bound.
  - intros tx'. cbn. pose proof (fi_channels _ Hi tx') as Hc. rewrite Hc.
    destruct (decide (tx' = tx)) as [->|Hne].
    + rewrite lookup_insert_eq, E. intuition eauto.
    + by rewrite lookup_insert_ne by done.
  - intros tx'. cbn. destruct (decide (tx' = tx)) as [->|Hne].
    + intros _. apply (fi_disjoint _ Hi). by rewrite E.
    + rewrite lookup_insert_ne by done. by apply fi_disjoint.
  - intros rx Hrx. by apply (fi_followers _ Hi).
Qed.

Lemma flights_inv_send w tx : flights_inv w -> flights_inv (publish_send w tx).
Proof.
  intros Hi. unfold publish_send. destruct (leaders w !! tx) as [[|v]|] eqn:E; [done| |done].
  split; cbn [shards leaders followers sent next_channel max_inflight_per_shard].
  - apply Hi.
  - intros i sh k tx' Hsh Hk. pose proof (fi_registered _ Hi _ _ _ _ Hsh Hk) as [Heq Hl].
    split; [done|]. rewrite lookup_delete_ne; [done|]. intros <-. congruence.
  - intros tx' k [_ Hl]%lookup_delete_Some. by apply (fi_working _ Hi).
  - apply Hi.
  - intros tx'. rewrite (fi_channels _ Hi tx').
    destruct (decide (tx' = tx)) as [->|Hne].
    + rewrite lookup_delete_eq, lookup_insert_eq, E. intuition eauto.
    + by rewrite lookup_delete_ne, lookup_insert_ne by done.
  - intros tx' [x [Hne Hl]%lookup_delete_Some]. rewrite lookup_insert_ne by done.
    apply (fi_disjoint _ Hi). eauto.
  - apply Hi.
Qed.

Lemma inv_step w w' : flights_inv w -> flight_step w w' -> flights_inv w'.
Proof.
  intros Hi Hs. destruct Hs; try by apply flights_inv_remove.
  - by apply flights_inv_join.
  - by apply flights_inv_send.
Qed.

Lemma flights_inv_reachable w : flights_reachable w -> flights_inv w.
Proof.
  intros (n & m & Hr). refine (rtc_ind_r flights_inv _ (flights_inv_new n m) _ w Hr).
  intros w1 w2 _ Hs Hi. by eapply inv_step.
Qed.

Lemma sent_stable w w' rx v :
  flights_inv w -> flight_step w w' -> wait w rx = Some v -> wait w' rx = Some v.
Proof.
  unfold wait. intros Hi Hs Hv. destruct Hs as [w k|w tx x|w tx r|w tx r|w tx|w tx].
  - unfold join. repeat case_match; done.
  - unfold complete, publish_remove. repeat case_match; done.
  - unfold fail, publish_remove. repeat case_match; done.
  - unfold fail_uncacheable, publish_remove. repeat case_match; done.
  - unfold drop_leader, publish_remove. repeat case_match; done.
  - unfold publish_send. destruct (leaders w !! tx) as [[|u]|] eqn:E; [done| |done]. cbn.
    rewrite lookup_insert_ne; [done|]. intros ->.
    rewrite (fi_disjoint _ Hi rx) in Hv by by rewrite E. done.
Qed.

(** The ways a leader's handle can go, and what each has to say. *)
Inductive Ending : Type :=
| Completes (value : V)
| Fails (reason : str)
| FailsUncacheable (reason : str)
| Dropped.

Definition ends (w : SingleFlight) (tx : nat) (e : Ending) : SingleFlight :=
  match e with
  | Completes value => complete w tx value
  | Fails reason => fail w tx reason
  | FailsUncacheable reason => fail_uncacheable w tx reason
  | Dropped => drop_leader w tx
  end.

Definition verdict (e : Ending) : Shared :=
  match e with
  | Completes value => Ok value
  | Fails reason => Err (Failed reason)
  | FailsUncacheable reason => Err (Transient reason)
  | Dropped => Err LeaderGone
  end.

(** The flight's value is settled: on its way, or there. *)
Definition settled (w : SingleFlight) (rx : nat) (v : Shared) : Prop :=
  leaders w !! rx = Some (Publishing v) ∨ wait w rx = Some v.

Lemma remove_settled w tx x rx v : settled w rx v -> settled (publish_remove w tx x) rx v.
Proof.
  unfold settled, wait, publish_remove. intros Hv. destruct (leaders w !! tx) as [[k|]|] eqn:E; [|done..].
  cbn [leaders sent]. destruct Hv as [Hv|Hv]; [left|by right].
  rewrite lookup_insert_ne; [done|]. intros ->. congruence.
Qed.

Lemma settled_step w w' rx v : flights_inv w -> flight_step w w' -> settled w rx v -> settled w' rx v.
Proof.
  intros Hi Hs Hv. destruct Hs as [w k| | | | |w tx]; try by apply remove_settled.
  - unfold join. repeat case_match; try done. destruct Hv as [Hv|Hv]; [left|by right]. cbn.
    rewrite lookup_insert_ne; [done|]. intros <-.
    assert (next_channel w < next_channel w)%nat by (apply (fi_channels _ Hi); left; eauto). lia.
  - unfold publish_send. destruct (leaders w !! tx) as [[|u]|] eqn:E; [done| |done]. unfold settled, wait in *. cbn.
    destruct (decide (tx = rx)) as [->|Hne].
    + right. rewrite lookup_insert_eq. destruct Hv as [Hv|Hv]; [congruence|].
      rewrite (fi_disjoint _ Hi rx) in Hv by by rewrite E. done.
    + by rewrite lookup_delete_ne, lookup_insert_ne by done.
Qed.

Lemma settled_stays w w' rx v :
  flights_inv w -> rtc flight_step w w' -> settled w rx v -> flights_inv w' ∧ settled w' rx v.
Proof.
  intros Hi Hr Hv. induction Hr as [w|w1 w2 w3 Hs _ IH]; [done|].
  apply IH; [by eapply inv_step|by eapply settled_step].
Qed.

Lemma settled_received w rx v :
  settled w rx v -> wait w rx = Some v ∨ wait (publish_send w rx) rx = Some v.
Proof.
  intros [Hv|Hv]; [right|by left]. unfold publish_send, wait. rewrite Hv. cbn. by rewrite lookup_insert_eq.
Qed.

Lemma ends_settled w rx k e :
  leaders w !! rx = Some (Working k) -> settled (ends w rx e) rx (verdict e).
Proof.
  intros Hl. left. destruct e; cbn; unfold complete, fail, fail_uncacheable, drop_leader, publish_remove;
    rewrite Hl; cbn; by rewrite lookup_insert_eq.
Qed.

Lemma ends_inv w rx e : flights_inv w -> flights_inv (ends w rx e).
Proof. intros Hi. by destruct e; apply flights_inv_remove. Qed.

(** C34. However callers interleave, a key has at most one working leader: whoever
    asks for the key meanwhile follows it, and no shard ever registers more flights
    than its ceiling. *)
Theorem one_flight_per_key w k tx :
  flights_reachable w -> leaders w !! tx = Some (Working k) ->
  (∀ tx', leaders w !! tx' = Some (Working k) -> tx' = tx)
  ∧ (join w k).1 = JoinFollower tx
  ∧ (∀ sh, sh ∈ shards w -> (size sh <= max_inflight_per_shard w)%nat).
Proof.
  intros Hi%flights_inv_reachable Hl. pose proof (fi_working _ Hi _ _ Hl) as Hw. split_and!.
  - intros tx' Hl'. pose proof (fi_working _ Hi _ _ Hl'). congruence.
  - unfold join. by rewrite Hw.
  - intros sh [i Hsh]%list_elem_of_lookup. by eapply fi_bound.
Qed.

(** C35. No follower waits for nothing.  Until a value has arrived its leader is alive or has its
    value on the way.  However a working leader then ends, whether it completes, fails, fails
    for a reason not to be remembered, or its handle is dropped, and whatever everybody does
    meanwhile, what it has to say is what the follower receives, at the latest with the send
    that ends the publication; the drop of a handle is received as a leader that is gone.
    A value that has arrived stays. *)
Theorem followers_always_released w rx :
  flights_reachable w -> rx ∈ followers w ->
  (wait w rx = None ->
     (∃ k, leaders w !! rx = Some (Working k) ∧
        ∀ e w', rtc flight_step (ends w rx e) w' ->
          wait w' rx = Some (verdict e) ∨ wait (publish_send w' rx) rx = Some (verdict e)) ∨
     (∃ u, leaders w !! rx = Some (Publishing u) ∧
        ∀ w', rtc flight_step w w' -> wait w' rx = Some u ∨ wait (publish_send w' rx) rx = Some u)) ∧
  (∀ w' u, rtc flight_step w w' -> wait w rx = Some u -> wait w' rx = Some u).
Proof.
  intros Hi%flights_inv_reachable Hf. split.
  - intros Hn. apply (fi_followers _ Hi), (fi_channels _ Hi) in Hf.
    destruct Hf as [[[k|u] Hl]|[u Hu]]; [left|right|unfold wait in Hn; congruence].
    + exists k. split; [done|]. intros e w' Hr. apply settled_received.
      eapply settled_stays; [by apply ends_inv|exact Hr|by eapply ends_settled].
    + exists u. split; [done|]. intros w' Hr. apply settled_received.
      eapply settled_stays; [done..|by left].
  - intros w' u Hr. clear Hf. induction Hr as [|w1 w2 w3 Hs _ IH]; [done|].
    intros Hv. apply IH; [by eapply inv_step|by eapply sent_stable].
Qed.

End singleflight.

(** ** A registry with one leader and one follower *)

Definition two_callers : SingleFlight (K := nat) (V := nat) :=
  (join (λ _, 0%N) (join (λ _, 0%N) (flights_new 4 2) 7%nat).2 7%nat).2.

Lemma two_callers_reachable : flights_reachable (λ _, 0%N) two_callers.
Proof.
  exists 4%nat, 2%nat. eapply rtc_l; [apply fs_join|]. apply rtc_once, fs_join.
Qed.

Lemma one_flight_per_key_witness : (join (λ _, 0%N) two_callers 7%nat).1 = JoinFollower 0.
Proof.
  apply (one_flight_per_key (λ _, 0%N) two_callers 7%nat 0%nat);
    [apply two_callers_reachable|vm_compute; reflexivity].
Defined.

Lemma followers_always_released_witness :
  wait two_callers 0 = None
  ∧ wait (publish_send (drop_leader (λ _, 0%N) two_callers 0) 0) 0 = Some (Err LeaderGone).
Proof.
  assert (wait two_callers 0 = None) as Hn by (vm_compute; reflexivity).
  split; [exact Hn|].
  destruct (followers_always_released (λ _, 0%N) two_callers 0 two_callers_reachable) as [Hw _].
  { vm_compute. constructor. }
  destruct (Hw Hn) as [(k & _ & Hv)|(u & Hu & _)].
  - destruct (Hv Dropped (drop_leader (λ _, 0%N) two_callers 0) (rtc_refl _ _)) as [Hr|Hr]; [|exact Hr].
    vm_compute in Hr. discriminate Hr.
  - vm_compute in Hu. discriminate Hu.
Defined.
