(* ===== verification/RateLimit.v ===== *)
(** * Inbound rate limiting

    [src/dns/ratelimit.rs]: a global limiter and a two-generation table of
    per-client ones.  The token buckets are the [governor] crate's and are a
    parameter.  A limiter is shared between the generations ([Arc]), so the tables
    hold identifiers and the bucket states live in one store. *)

From S2P Require Import Prelude.
From S2P Require Import Net.
From S2P Require Import Config.

(** The [governor] crate: a fresh bucket for a quota, and one check. *)
Class GovernorLib : Type := {
  bucket : Type;
  bucket_new : Z -> Z -> bucket;
  bucket_check : bucket -> Instant -> bool * bucket
}.

Inductive RateDecision : Set := Allow | ClientLimited | GlobalLimited.

(** [NonZeroU32::new]. *)
Definition non_zero (n : Z) : option Z := if n =? 0 then None else Some n.

Section ratelimit.
Context {GL : GovernorLib}.

Record ClientTable : Type := mk_ClientTable {
  quota_qps : Z;
  quota_burst : Z;
  capacity : nat;
  current : gmap IpAddr nat;
  previous : gmap IpAddr nat;
  buckets : gmap nat bucket;
  next_bucket : nat
}.

Record InboundLimiter : Type := mk_InboundLimiter {
  enabled : bool;
  global : option bucket;
  per_client : option ClientTable
}.

Definition quota_of (qps burst : Z) : option (Z * Z) :=
  (λ q, (q, default q (non_zero (Z.max burst qps)))) <$> non_zero qps.

Definition limiter_new (cfg : RateLimitConfig) : InboundLimiter :=
  if negb (rl_enabled cfg) then mk_InboundLimiter false None None
  else
    mk_InboundLimiter true
      ((λ q, bucket_new q.1 q.2) <$> quota_of (rl_global_qps cfg) (rl_global_burst cfg))
      ((λ q, mk_ClientTable q.1 q.2 (Nat.max (rl_client_table_size cfg) 1) ∅ ∅ ∅ 0)
         <$> quota_of (rl_per_client_qps cfg) (rl_per_client_burst cfg)).

Definition limiter_for (t : ClientTable) (client : IpAddr) : nat * ClientTable :=
  match current t !! client with
  | Some l => (l, t)
  | None =>
      match previous t !! client with
      | Some l =>
          (l, mk_ClientTable (quota_qps t) (quota_burst t) (capacity t)
                (<[client := l]> (current t)) (previous t) (buckets t) (next_bucket t))
      | None =>
          let rotate := (capacity t <=? size (current t))%nat in
          let cur := if rotate then ∅ else current t in
          let prev := if rotate then current t else previous t in
          let l := next_bucket t in
          (l, mk_ClientTable (quota_qps t) (quota_burst t) (capacity t)
                (<[client := l]> cur) prev
                (<[l := bucket_new (quota_qps t) (quota_burst t)]> (buckets t)) (S l))
      end
  end.

(** One check of the limiter [l] of the table. *)
Definition check_bucket (t : ClientTable) (l : nat) (now : Instant) : bool * ClientTable :=
  match buckets t !! l with
  | None => (true, t)
  | Some b =>
      let '(ok, b') := bucket_check b now in
      (ok, mk_ClientTable (quota_qps t) (quota_burst t) (capacity t) (current t) (previous t)
             (<[l := b']> (buckets t)) (next_bucket t))
  end.

Definition check_client (lim : InboundLimiter) (client : IpAddr) (now : Instant)
    : bool * InboundLimiter :=
  match per_client lim with
  | None => (true, lim)
  | Some table =>
      let '(l, table) := limiter_for table client in
      let '(ok, table) := check_bucket table l now in
      (ok, mk_InboundLimiter (enabled lim) (global lim) (Some table))
  end.

Definition check (lim : InboundLimiter) (client : IpAddr) (now : Instant)
    : RateDecision * InboundLimiter :=
  if negb (enabled lim) then (Allow, lim)
  else
    let '(ok, lim) := check_client lim client now in
    if negb ok then (ClientLimited, lim)
    else
      match global lim with
      | None => (Allow, lim)
      | Some g =>
          let '(ok, g) := bucket_check g now in
          (if ok then Allow else GlobalLimited,
           mk_InboundLimiter (enabled lim) (Some g) (per_client lim))
      end.

Definition tracked (t : ClientTable) : nat := size (current t) + size (previous t).

Definition tracked_clients (lim : InboundLimiter) : nat :=
  match per_client lim with Some t => tracked t | None => 0 end.

(** ** The table after a sequence of clients *)

Definition serve (t : ClientTable) (clients : list IpAddr) : ClientTable :=
  fold_left (λ t c, (limiter_for t c).2) clients t.

Lemma serve_app t l1 l2 : serve t (l1 ++ l2) = serve (serve t l1) l2.
Proof. apply fold_left_app. Qed.

Lemma limiter_for_capacity t a : capacity (limiter_for t a).2 = capacity t.
Proof. unfold limiter_for. repeat case_match; done. Qed.

Lemma serve_capacity t l : capacity (serve t l) = capacity t.
Proof.
  revert t. induction l as [|a l IH]; intros t; [done|].
  change (serve t (a :: l)) with (serve (limiter_for t a).2 l).
  by rewrite IH, limiter_for_capacity.
Qed.

(** A client of either generation ends up in the current one. *)
Lemma serve_known t l :
  (∀ a, a ∈ l -> a ∈ dom (previous t)) ->
  previous (serve t l) = previous t
  ∧ dom (current (serve t l)) = dom (current t) ∪ list_to_set l.
Proof.
  revert t. induction l as [|a l IH]; intros t Hl; [split; [done|cbn; set_solver]|].
  change (serve t (a :: l)) with (serve (limiter_for t a).2 l).
  assert (previous (limiter_for t a).2 = previous t
          ∧ dom (current (limiter_for t a).2) = dom (current t) ∪ {[a]}) as [Hp Hc].
  { assert (a ∈ dom (previous t)) as [v Hv]%elem_of_dom by (apply Hl; set_solver).
    unfold limiter_for. destruct (current t !! a) eqn:E; cbn.
    - split; [done|]. apply elem_of_dom_2 in E. set_solver.
    - rewrite Hv. cbn. split; [done|]. rewrite dom_insert_L. set_solver. }
  destruct (IH (limiter_for t a).2) as [IHp IHc]; [intros b Hb; rewrite Hp; set_solver|].
  rewrite IHp, IHc, Hp, Hc. split; [done|]. cbn. set_solver.
Qed.

(** A client of neither generation. *)
Lemma serve_unknown t a :
  a ∉ dom (current t) -> a ∉ dom (previous t) ->
  let t' := (limiter_for t a).2 in
  if (capacity t <=? size (current t))%nat
  then dom (current t') = {[a]} ∧ dom (previous t') = dom (current t)
  else dom (current t') = dom (current t) ∪ {[a]} ∧ previous t' = previous t.
Proof.
  intros Hc%not_elem_of_dom Hp%not_elem_of_dom. unfold limiter_for. rewrite Hc, Hp. cbn [snd].
  case_match; cbn [current previous]; rewrite dom_insert_L; [rewrite dom_empty_L|]; set_solver.
Qed.

(** The first [n] addresses of the IPv4 space. *)
Definition addrs (n : nat) : list IpAddr := (λ i, V4 (Z.of_nat i)) <$> seq 0 n.
Definition block (n : nat) : gset IpAddr := list_to_set (addrs n).

Lemma addrs_S n : addrs (S n) = addrs n ++ [V4 (Z.of_nat n)].
Proof. unfold addrs. by rewrite seq_S, fmap_app. Qed.

Lemma block_S n : block (S n) = block n ∪ {[V4 (Z.of_nat n)]}.
Proof. unfold block. rewrite addrs_S. rewrite list_to_set_app_L. cbn. set_solver. Qed.

Lemma block_fresh n m : (n <= m)%nat -> V4 (Z.of_nat m) ∉ block n.
Proof.
  intros Hle Hin. unfold block in Hin. apply elem_of_list_to_set, list_elem_of_fmap in Hin.
  destruct Hin as (i & [= Heq] & Hi%elem_of_seq). lia.
Qed.

Lemma size_block n : size (block n) = n.
Proof.
  induction n as [|n IH]; [done|]. rewrite block_S, size_union, size_singleton, IH; [lia|].
  pose proof (block_fresh n n). set_solver.
Qed.

Definition empty_table (qps burst : Z) (cap : nat) : ClientTable :=
  mk_ClientTable qps burst cap ∅ ∅ ∅ 0.

Lemma serve_fill qps burst cap n :
  (n <= cap)%nat ->
  dom (current (serve (empty_table qps burst cap) (addrs n))) = block n
  ∧ previous (serve (empty_table qps burst cap) (addrs n)) = ∅.
Proof.
  induction n as [|n IH]; intros Hn; [done|]. destruct IH as [Hc Hp]; [lia|].
  rewrite addrs_S, serve_app. set (t := serve _ (addrs n)) in *.
  change (serve t [V4 (Z.of_nat n)]) with (limiter_for t (V4 (Z.of_nat n))).2.
  pose proof (serve_unknown t (V4 (Z.of_nat n))) as Hu. cbn zeta in Hu.
  rewrite <- size_dom, Hc, size_block, Hp in Hu.
  replace (capacity t) with cap in Hu by (unfold t; by rewrite serve_capacity).
  rewrite (proj2 (Nat.leb_gt _ _)) in Hu by lia.
  destruct Hu as [Hc' Hp']; [by apply block_fresh|set_solver|]. by rewrite Hc', block_S, Hp'.
Qed.

(** The generations after [m] rotations that every client survived. *)
Definition packed (t : ClientTable) (m : nat) : Prop :=
  dom (previous t) = block m ∧ dom (current t) = {[V4 (Z.of_nat m)]} ∧ (capacity t <= m)%nat.

Lemma packed_rotate t m :
  dom (current t) = block m -> V4 (Z.of_nat m) ∉ dom (previous t) -> (capacity t <= m)%nat ->
  packed (limiter_for t (V4 (Z.of_nat m))).2 m.
Proof.
  intros Hc Hp Hcap. pose proof (serve_unknown t (V4 (Z.of_nat m))) as Hu. cbn zeta in Hu.
  rewrite <- size_dom, Hc, size_block in Hu. rewrite (proj2 (Nat.leb_le _ _)) in Hu by lia.
  destruct Hu as [Hc' Hp']; [by apply block_fresh|done|].
  split_and!; [done|done|by rewrite limiter_for_capacity].
Qed.

Lemma packed_step t m : packed t m -> packed (serve t (addrs m ++ [V4 (Z.of_nat (S m))])) (S m).
Proof.
  intros (Hp & Hc & Hcap). rewrite serve_app.
  destruct (serve_known t (addrs m)) as [Hp' Hc'].
  { intros a Ha. rewrite Hp. by apply elem_of_list_to_set. }
  assert (dom (current (serve t (addrs m))) = block (S m)) as Hcur.
  { rewrite Hc', Hc, block_S. fold (block m). set_solver. }
  apply packed_rotate; [done| |rewrite serve_capacity; lia].
  rewrite Hp', Hp. apply block_fresh. lia.
Qed.

Lemma packed_tracked t m : packed t m -> tracked t = S m.
Proof.
  intros (Hp & Hc & _). unfold tracked.
  rewrite <- (size_dom (current t)), <- (size_dom (previous t)), Hp, Hc, size_block, size_singleton.
  lia.
Qed.

Lemma packed_exists qps burst cap m :
  (cap <= m)%nat ->
  ∃ clients, packed (serve (empty_table qps burst cap) clients) m ∧ ∀ a, a ∈ clients -> a ∈ addrs (S m).
Proof.
  intros Hm. induction Hm as [|m Hm (clients & Hpk & Hin)].
  - exists (addrs cap ++ [V4 (Z.of_nat cap)]). rewrite <- addrs_S. split; [|done].
    rewrite addrs_S, serve_app. destruct (serve_fill qps burst cap cap) as [Hc Hp]; [done|].
    apply packed_rotate; [done|rewrite Hp; set_solver|by rewrite serve_capacity].
  - exists (clients ++ (addrs m ++ [V4 (Z.of_nat (S m))])). split.
    + rewrite serve_app. by apply packed_step.
    + intros a [Ha|[Ha|Ha]%elem_of_app]%elem_of_app.
      * rewrite addrs_S. apply elem_of_app. left. by apply Hin.
      * rewrite !addrs_S, !elem_of_app. by do 2 left.
      * rewrite (addrs_S (S m)), elem_of_app. by right.
Qed.

(** The client table is not bounded by twice its capacity: with any capacity,
    a sequence of queries from the first [m + 1] IPv4 addresses leaves all of them
    tracked, for every [m] from the capacity up to the whole address space. *)
Theorem client_table_outgrows_capacity qps burst cap m :
  (cap <= m)%nat -> Z.of_nat m < 2 ^ 32 ->
  ∃ clients,
    (∀ a, a ∈ clients -> ∃ i, a = V4 i ∧ 0 <= i < 2 ^ 32)
    ∧ tracked (serve (empty_table qps burst cap) clients) = S m.
Proof.
  intros Hm H32. destruct (packed_exists qps burst cap m Hm) as (clients & Hpk & Hin).
  exists clients. split; [|by apply packed_tracked].
  intros a (i & -> & Hi%elem_of_seq)%Hin%list_elem_of_fmap. exists (Z.of_nat i). split; [done|lia].
Qed.

(** A client's bucket survives a rotation: whichever other client is served in
    between, the next query of the client meets the same bucket, so a flood of new
    addresses does not at once refill it. *)
Theorem bucket_survives_rotation t a b :
  let '(l, t1) := limiter_for t a in
  let '(_, t2) := limiter_for t1 b in
  (limiter_for t2 a).1 = l.
Proof.
  destruct (limiter_for t a) as [l t1] eqn:E1. destruct (limiter_for t1 b) as [m t2] eqn:E2.
  assert (current t1 !! a = Some l) as Hc.
  { unfold limiter_for in E1. repeat case_match; simplify_eq; cbn; rewrite ?lookup_insert_eq; done. }
  unfold limiter_for in E2. destruct (current t1 !! b) as [x|] eqn:Eb; simplify_eq.
  { unfold limiter_for. by rewrite Hc. }
  assert (b ≠ a) as Hne by congruence.
  destruct (previous t1 !! b); simplify_eq; unfold limiter_for; cbn [current previous].
  { rewrite lookup_insert_ne by done. by rewrite Hc. }
  rewrite lookup_insert_ne by done.
  destruct (capacity t1 <=? size (current t1))%nat; [|by rewrite Hc].
  by rewrite lookup_empty, Hc.
Qed.

(** A client over its own budget is refused before the shared budget is
    touched, and a disabled limiter refuses nobody. *)
Theorem limited_client_spares_global lim client now lim' :
  (check lim client now = (ClientLimited, lim') -> global lim' = global lim)
  ∧ (enabled lim = false -> check lim client now = (Allow, lim)).
Proof.
  split; [|unfold check; by intros ->]. unfold check. destruct (enabled lim); [cbn|done].
  assert (global (check_client lim client now).2 = global lim) as Hg.
  { unfold check_client. destruct (per_client lim); [|done].
    destruct (limiter_for _ _). by destruct (check_bucket _ _ _). }
  destruct (check_client lim client now) as [ok lim1]. cbn in Hg. destruct ok; cbn [negb].
  - destruct (global lim1) as [g|]; [|done]. by destruct (bucket_check g now) as [[]].
  - by intros [= <-].
Qed.

End ratelimit.

(** A table of one entry that tracks eleven. *)
#[local] Instance open_governor : GovernorLib := {
  bucket := unit; bucket_new _ _ := tt; bucket_check b _ := (true, b)
}.

Lemma client_table_outgrows_capacity_witness :
  ∃ clients, tracked (serve (empty_table 1 1 1) clients) = 11%nat.
Proof.
  destruct (client_table_outgrows_capacity 1 1 1 10) as (clients & _ & Ht); [lia|lia|].
  exists clients. exact Ht.
Defined.

