(* ===== verification/ProbeGuard.v ===== *)
(** * Probe safety

    [src/probe/safety.rs]: which addresses and ports may be dialled, how often,
    and the cooldown tables behind it.  The limits and the state are the two
    locked halves of [ProbeGuard]; one call of [admit_probe] is one state transition.  The
    call reads the limits three times, for the address, the port and the rest; here they
    are the same, as they are unless a reload falls into the call. *)

From S2P Require Import Prelude.
From S2P Require Import Names.
From S2P Require Import Net.
From S2P Require Import Config.

Inductive Refusal : Set :=
| RefuseSpecialUse | PortNotAllowed | AddressCooldown | PrefixCooldown | DomainCooldown
| RateLimited | BandwidthBudget.

Definition is_cooldown (r : Refusal) : bool :=
  match r with AddressCooldown | PrefixCooldown | DomainCooldown => true | _ => false end.

Record GuardLimits : Type := mk_GuardLimits {
  allow_special : list IpNet;
  allowed_ports : list Z;
  per_ip : Duration;
  per_prefix : Duration;
  per_domain : Duration;
  connections_per_second : Z;
  daily_bandwidth : Z
}.

Definition limits_from_config (cfg : ProbeConfig) : GuardLimits := {|
  allow_special := allow_special_use_targets cfg;
  allowed_ports := dedup (stable_sort Z.leb (extra_ports cfg));
  per_ip := per_ip_cooldown cfg;
  per_prefix := per_prefix_cooldown cfg;
  per_domain := per_domain_cooldown cfg;
  connections_per_second := global_connections_per_second cfg;
  daily_bandwidth := daily_bandwidth_budget_bytes cfg
|}.

Record GuardState : Type := mk_GuardState {
  ip_seen : gmap IpAddr Instant;
  prefix_seen : gmap (IpAddr * Z) Instant;
  domain_seen : gmap (str * IpAddr) Instant;
  window_start : option Instant;
  window_count : Z;
  bandwidth_day : option Instant;
  bandwidth_used : Z;
  last_prune : option Instant
}.

Definition guard_new : GuardState := mk_GuardState ∅ ∅ ∅ None 0 None 0 None.

Definition never_probeable (c : IpClass.SpecialUse) : bool :=
  match c with
  | IpClass.LinkLocal | IpClass.CloudMetadata | IpClass.Loopback | IpClass.Multicast
  | IpClass.Unspecified => true
  | _ => false
  end.

(** The prefix of a cooldown: the leading 24 or 48 bits. *)
Definition covering_prefix (addr : IpAddr) : IpAddr * Z :=
  match addr with
  | V4 v4 => (V4 (Z.land v4 0xffffff00), 24)
  | V6 v6 => (V6 (Z.land v6 (Z.lnot (2 ^ 80 - 1) mod 2 ^ 128)), 48)
  end.

Definition MAX_ENTRIES : Z := 50000.
Definition SWEEP_INTERVAL : Duration := from_secs 30.

(** [sort_unstable] on instants; equal instants are the same value. *)
Definition truncate_oldest {K} `{Countable K} (m : gmap K Instant) (limit : Z) : gmap K Instant :=
  if Z.of_nat (size m) <=? limit then m
  else
    let times := stable_sort Z.leb (map snd (map_to_list m)) in
    let cutoff := default 0 (times !! Z.to_nat (Z.of_nat (size m) - limit)) in
    filter (λ kt, cutoff <= kt.2) m.

Definition retain_recent {K} `{Countable K} (m : gmap K Instant) (now : Instant)
    (horizon : Duration) : gmap K Instant :=
  filter (λ kt, since now kt.2 < horizon) m.

Definition prune (s : GuardState) (now : Instant) (horizon : Duration) : GuardState :=
  let due := match last_prune s with
             | None => true
             | Some last => SWEEP_INTERVAL <=? since now last
             end in
  let over := (MAX_ENTRIES <? Z.of_nat (size (ip_seen s)))
              || (MAX_ENTRIES <? Z.of_nat (size (prefix_seen s)))
              || (MAX_ENTRIES <? Z.of_nat (size (domain_seen s))) in
  if negb due && negb over then s
  else
    mk_GuardState
      (truncate_oldest (retain_recent (ip_seen s) now horizon) MAX_ENTRIES)
      (truncate_oldest (retain_recent (prefix_seen s) now horizon) MAX_ENTRIES)
      (truncate_oldest (retain_recent (domain_seen s) now horizon) MAX_ENTRIES)
      (window_start s) (window_count s) (bandwidth_day s) (bandwidth_used s) (Some now).

Definition elapsed_at_least (start : option Instant) (now : Instant) (d : Duration) : bool :=
  match start with None => true | Some start => d <=? since now start end.

Definition cooling {K} `{Countable K} (m : gmap K Instant) (k : K) (now : Instant)
    (d : Duration) : bool :=
  match m !! k with Some last => since now last <? d | None => false end.

Record ProbeRequest : Type := mk_ProbeRequest {
  pr_addr : IpAddr;
  pr_port : Z;
  pr_declared : bool;
  pr_hostname : option str
}.

Definition with_bandwidth (s : GuardState) (day : option Instant) (used : Z) : GuardState :=
  mk_GuardState (ip_seen s) (prefix_seen s) (domain_seen s) (window_start s) (window_count s)
    day used (last_prune s).

Definition with_window (s : GuardState) (start : option Instant) (count : Z) : GuardState :=
  mk_GuardState (ip_seen s) (prefix_seen s) (domain_seen s) start count (bandwidth_day s)
    (bandwidth_used s) (last_prune s).

Section guard.
Context {NL : IpNetLib}.

Definition address_allowed (l : GuardLimits) (addr : IpAddr) : bool :=
  match IpClass.classify addr with
  | None => true
  | Some class =>
      if never_probeable class then false
      else existsb (λ n, ipnet_contains n addr) (allow_special l)
  end.

Definition port_allowed (l : GuardLimits) (port : Z) (declared : bool) : bool :=
  negb (port =? 0) && (declared || existsb (Z.eqb port) (allowed_ports l)).

(** The bandwidth gate: [None] when the budget is spent. *)
Definition bandwidth_gate (l : GuardLimits) (s : GuardState) (now : Instant) : option GuardState :=
  if daily_bandwidth l <=? bandwidth_used s then
    if elapsed_at_least (bandwidth_day s) now (from_secs 86400)
    then Some (with_bandwidth s (Some now) 0) else None
  else Some s.

Definition open_window (s : GuardState) (now : Instant) : GuardState :=
  if elapsed_at_least (window_start s) now (from_secs 1) then with_window s (Some now) 0 else s.

(** The bookkeeping of an admitted probe. *)
Definition note_probe (l : GuardLimits) (s : GuardState) (r : ProbeRequest) (now : Instant)
    : GuardState :=
  prune
    (mk_GuardState (<[pr_addr r := now]> (ip_seen s))
       (<[covering_prefix (pr_addr r) := now]> (prefix_seen s))
       (match pr_hostname r with
        | Some host => <[(host, pr_addr r) := now]> (domain_seen s)
        | None => domain_seen s
        end)
       (window_start s) (window_count s + 1) (bandwidth_day s) (bandwidth_used s) (last_prune s))
    now (Z.max (per_ip l) (per_domain l)).

Definition domain_cooling (l : GuardLimits) (s : GuardState) (r : ProbeRequest) (now : Instant)
    : bool :=
  match pr_hostname r with
  | Some host => cooling (domain_seen s) (host, pr_addr r) now (per_domain l)
  | None => false
  end.

Definition admit_probe (l : GuardLimits) (s : GuardState) (r : ProbeRequest) (now : Instant)
    : result Refusal () * GuardState :=
  if negb (address_allowed l (pr_addr r)) then (Err RefuseSpecialUse, s)
  else if negb (port_allowed l (pr_port r) (pr_declared r)) then (Err PortNotAllowed, s)
  else
    match bandwidth_gate l s now with
    | None => (Err BandwidthBudget, s)
    | Some s =>
        let s := open_window s now in
        if connections_per_second l <=? window_count s then (Err RateLimited, s)
        else if cooling (ip_seen s) (pr_addr r) now (per_ip l) then (Err AddressCooldown, s)
        else if cooling (prefix_seen s) (covering_prefix (pr_addr r)) now (per_prefix l)
        then (Err PrefixCooldown, s)
        else if domain_cooling l s r now then (Err DomainCooldown, s)
        else (Ok tt, note_probe l s r now)
    end.

End guard.

Definition consume_bandwidth (l : GuardLimits) (s : GuardState) (bytes : Z) (now : Instant)
    : Z * GuardState :=
  let s := if elapsed_at_least (bandwidth_day s) now (from_secs 86400)
           then with_bandwidth s (Some now) 0 else s in
  let used := sat_add u64_max (bandwidth_used s) bytes in
  (daily_bandwidth l ⊖ used, with_bandwidth s (bandwidth_day s) used).

Definition tracked (s : GuardState) : nat :=
  size (ip_seen s) + size (prefix_seen s) + size (domain_seen s).

(** ** Proofs *)

Section guard_proofs.
Context {NL : IpNetLib}.
Implicit Types (l : GuardLimits) (s : GuardState).

Lemma admit_ok l s r now s' :
  admit_probe l s r now = (Ok tt, s') ->
  address_allowed l (pr_addr r) = true
  ∧ port_allowed l (pr_port r) (pr_declared r) = true
  ∧ ∃ s0, bandwidth_gate l s now = Some s0
    ∧ window_count (open_window s0 now) < connections_per_second l
    ∧ cooling (ip_seen s0) (pr_addr r) now (per_ip l) = false
    ∧ cooling (prefix_seen s0) (covering_prefix (pr_addr r)) now (per_prefix l) = false
    ∧ s' = note_probe l (open_window s0 now) r now.
Proof.
  unfold admit_probe. destruct (address_allowed _ _); [|done]. destruct (port_allowed _ _ _); [|done].
  cbn [negb]. destruct (bandwidth_gate l s now) as [s0|]; [|done].
  assert (ip_seen (open_window s0 now) = ip_seen s0
          ∧ prefix_seen (open_window s0 now) = prefix_seen s0) as [-> ->]
    by (unfold open_window; by case_match).
  intros H. split_and!; [done..|]. exists s0. repeat case_match; simplify_eq.
  by bool_to_prop.
Qed.

(** What an attempt leaves in the address table, admitted or not. *)
Lemma gate_tables l s now s0 : bandwidth_gate l s now = Some s0 ->
  ip_seen s0 = ip_seen s ∧ window_start s0 = window_start s ∧ window_count s0 = window_count s.
Proof. unfold bandwidth_gate. intros. repeat case_match; by simplify_eq. Qed.

Lemma admit_ip_seen l s r now :
  ip_seen (admit_probe l s r now).2 = ip_seen s
  ∨ ∃ s1, ip_seen s1 = <[pr_addr r := now]> (ip_seen s)
    ∧ (admit_probe l s r now).2 = prune s1 now (Z.max (per_ip l) (per_domain l)).
Proof.
  unfold admit_probe. destruct (address_allowed _ _); [|by left]. destruct (port_allowed _ _ _); [|by left].
  cbn [negb]. destruct (bandwidth_gate l s now) as [s0|] eqn:Eg; [|by left].
  apply gate_tables in Eg as (<- & _).
  assert (ip_seen (open_window s0 now) = ip_seen s0) as <- by (unfold open_window; by case_match).
  repeat case_match; try by left. right. unfold note_probe. eexists. by split; [|reflexivity].
Qed.

Lemma prune_keeps s now horizon a t :
  Z.of_nat (size (ip_seen s)) <= MAX_ENTRIES ->
  ip_seen s !! a = Some t -> since now t < horizon -> ip_seen (prune s now horizon) !! a = Some t.
Proof.
  intros Hsz Ha Ht. unfold prune. case_match; [done|]. cbn [ip_seen].
  assert (retain_recent (ip_seen s) now horizon !! a = Some t) as Hr.
  { apply map_lookup_filter_Some. done. }
  unfold truncate_oldest. rewrite (proj2 (Z.leb_le _ _)); [done|].
  enough (size (retain_recent (ip_seen s) now horizon) <= size (ip_seen s))%nat by lia.
  apply map_subseteq_size, map_filter_subseteq.
Qed.

(** Calls between two instants, with the address table below its ceiling. *)
Inductive guard_step l (t0 t1 : Instant) : GuardState -> GuardState -> Prop :=
| gs_admit s r now : t0 <= now <= t1 -> Z.of_nat (size (ip_seen s)) < MAX_ENTRIES ->
    guard_step l t0 t1 s (admit_probe l s r now).2
| gs_bandwidth s bytes now : guard_step l t0 t1 s (consume_bandwidth l s bytes now).2.

Definition seen_since s (a : IpAddr) (t0 : Instant) : Prop :=
  ∃ t, t0 <= t ∧ ip_seen s !! a = Some t.

Lemma seen_since_prune s now horizon a t0 :
  Z.of_nat (size (ip_seen s)) <= MAX_ENTRIES -> 0 <= now - t0 < horizon ->
  seen_since s a t0 -> seen_since (prune s now horizon) a t0.
Proof.
  intros Hsz Hh (t & Ht & Ha). exists t. split; [done|].
  apply prune_keeps; [done..|]. unfold since, sat_sub. lia.
Qed.

Lemma seen_since_step l t0 t1 a s s' :
  t1 - t0 < per_ip l -> guard_step l t0 t1 s s' -> seen_since s a t0 -> seen_since s' a t0.
Proof.
  intros Hp Hs Ha. destruct Hs as [s r now Hnow Hsz|s bytes now].
  - destruct (admit_ip_seen l s r now) as [He|(s1 & Hs1 & ->)].
    { destruct Ha as (t & ? & Ha). exists t. by rewrite He. }
    apply seen_since_prune; [|lia|].
    + rewrite Hs1, map_size_insert. destruct (ip_seen s !! pr_addr r); cbn; lia.
    + destruct Ha as (t & Ht & Ha). unfold seen_since. rewrite Hs1.
      destruct (decide (pr_addr r = a)) as [->|Hne].
      * exists now. rewrite lookup_insert_eq. split; [lia|done].
      * exists t. by rewrite lookup_insert_ne.
  - destruct Ha as (t & ? & Ha). exists t. split; [done|]. unfold consume_bandwidth.
    by case_match.
Qed.

(** Only a safe target is dialled: an admitted probe goes to an address
    outside every special-use range, or to one in a range an operator has listed
    that is not loopback, link-local, cloud metadata, multicast or unspecified; and
    to a non-zero port the service declared or the operator configured. *)
Theorem admitted_probe_is_permitted cfg s r now s' :
  admit_probe (limits_from_config cfg) s r now = (Ok tt, s') ->
  (IpClass.classify (pr_addr r) = None
   ∨ ∃ c n, IpClass.classify (pr_addr r) = Some c ∧ never_probeable c = false
     ∧ n ∈ allow_special_use_targets cfg ∧ ipnet_contains n (pr_addr r) = true)
  ∧ pr_port r ≠ 0 ∧ (pr_declared r = true ∨ pr_port r ∈ extra_ports cfg).
Proof.
  intros (Ha & Hp & _)%admit_ok. unfold address_allowed in Ha. unfold port_allowed in Hp.
  apply andb_true_iff in Hp as [Hz%negb_true_iff%Z.eqb_neq Hd]. split_and!; [|done|].
  - destruct (IpClass.classify (pr_addr r)) as [c|]; [right|by left].
    destruct (never_probeable c) eqn:En; [done|].
    apply existsb_elem in Ha as (n & Hn & Hc). by exists c, n.
  - apply orb_true_iff in Hd as [Hd|Hd]; [by left|right].
    apply existsb_elem in Hd as (x & Hx & ->%Z.eqb_eq).
    by apply dedup_elem_of, stable_sort_elem_of in Hx.
Qed.

(** The per-address cooldown holds across everything that happens in
    between: after an admission at [t0], no call admits the address again before
    [t0] plus the cooldown, as long as the address table stays below its
    ceiling. *)
Theorem address_cooldown_enforced l s0 r0 t0 s1 s2 r t :
  admit_probe l s0 r0 t0 = (Ok tt, s1) -> Z.of_nat (size (ip_seen s0)) < MAX_ENTRIES ->
  rtc (guard_step l t0 t) s1 s2 -> t0 <= t < t0 + per_ip l -> pr_addr r = pr_addr r0 ->
  (admit_probe l s2 r t).1 ≠ Ok tt.
Proof.
  intros H0 Hsz Hrun Ht Hr Hok.
  assert (seen_since s1 (pr_addr r) t0) as Hseen.
  { pose proof (admit_ip_seen l s0 r0 t0) as Hd. apply admit_ok in H0 as Ho.
    rewrite H0 in Hd. cbn in Hd. destruct Ho as (_ & _ & sg & Hg & _ & _ & _ & Hs1).
    rewrite Hs1. unfold note_probe. apply seen_since_prune; [|lia|].
    - apply gate_tables in Hg as (Hip & _). cbn [ip_seen].
      replace (ip_seen (open_window sg t0)) with (ip_seen s0)
        by (rewrite <- Hip; unfold open_window; by case_match).
      rewrite map_size_insert. destruct (ip_seen s0 !! pr_addr r0); cbn; lia.
    - exists t0. cbn [ip_seen]. rewrite Hr, lookup_insert_eq. done. }
  assert (seen_since s2 (pr_addr r) t0) as (u & Hu & Hl).
  { clear H0 Hok. induction Hrun as [|s1 s1' s2 Hs _ IH]; [done|]. apply IH.
    eapply seen_since_step; [|exact Hs|done]. lia. }
  destruct (admit_probe l s2 r t) as [o s3] eqn:E. cbn in Hok. subst o.
  apply admit_ok in E as (_ & _ & sg & Hg & _ & Hcool & _).
  apply gate_tables in Hg as (Hip & _). unfold cooling in Hcool.
  rewrite Hip, Hl in Hcool. unfold since, sat_sub in Hcool. bool_to_prop. lia.
Qed.

(** The requests of a list that are admitted. *)
Fixpoint admitted l s (rs : list (ProbeRequest * Instant)) : Z :=
  match rs with
  | [] => 0
  | (r, now) :: rs =>
      let '(o, s') := admit_probe l s r now in
      (match o with Ok _ => 1 | Err _ => 0 end) + admitted l s' rs
  end.

Lemma admit_window l s r now st :
  window_start s = Some st -> since now st < from_secs 1 ->
  window_start (admit_probe l s r now).2 = Some st
  ∧ match (admit_probe l s r now).1 with
    | Ok _ => window_count s < connections_per_second l
              ∧ window_count (admit_probe l s r now).2 = window_count s + 1
    | Err _ => window_count (admit_probe l s r now).2 = window_count s
    end.
Proof.
  intros Hst Hn.
  assert (∀ s0, window_start s0 = Some st -> open_window s0 now = s0) as Hopen.
  { intros s0 Hs0. unfold open_window, elapsed_at_least. rewrite Hs0.
    by rewrite (proj2 (Z.leb_gt _ _)). }
  unfold admit_probe. destruct (address_allowed _ _); [|done]. destruct (port_allowed _ _ _); [|done].
  cbn [negb]. destruct (bandwidth_gate l s now) as [s0|] eqn:Eg; [|done].
  apply gate_tables in Eg as (_ & Hw & Hc). rewrite Hst in Hw. rewrite (Hopen s0 Hw), <- Hc.
  destruct (Z.leb_spec (connections_per_second l) (window_count s0)); [done|].
  repeat (destruct (cooling _ _ _ _); [done|]). destruct (domain_cooling _ _ _ _); [done|].
  cbn [fst snd]. unfold note_probe, prune. case_match; cbn; done.
Qed.

(** Within a one-second window at most [connections_per_second] probes are
    admitted, however many are requested and whatever else they are refused for. *)
Theorem probe_rate_bounded l s st rs :
  window_start s = Some st -> 0 <= window_count s <= connections_per_second l ->
  Forall (λ r, since r.2 st < from_secs 1) rs ->
  admitted l s rs <= connections_per_second l - window_count s.
Proof.
  intros Hst Hc Hrs. revert s Hst Hc.
  induction Hrs as [|[r now] rs Hr _ IH]; intros s Hst Hc; cbn [admitted]; [lia|].
  pose proof (admit_window l s r now st Hst Hr) as [Hst' Ho].
  destruct (admit_probe l s r now) as [[e|u] s']; cbn [fst snd] in *.
  - specialize (IH s' Hst'). lia.
  - specialize (IH s' Hst'). lia.
Qed.

End guard_proofs.

(** ** Concrete guards *)

Definition probe_of (a : Z) : ProbeRequest := mk_ProbeRequest (V4 a) 443 true None.

Definition sample_limits : GuardLimits := limits_from_config default_ProbeConfig.

(** A prefix cooldown longer than the other two. *)
Definition long_prefix : GuardLimits :=
  mk_GuardLimits [] [443] (from_secs 10) (from_secs 60) (from_secs 10) 64 1000000.

Section samples.
#[local] Existing Instance ipnet_reference.

(** The prefix cooldown is not always enforced: the sweep after an admission
    drops every entry older than the larger of the address and domain cooldowns,
    so with a longer prefix cooldown a neighbour in the same /24 is admitted 31
    seconds after the first probe although the prefix is to rest for 60. *)
Theorem sweep_drops_live_prefix_cooldown :
  let s1 := (admit_probe long_prefix guard_new (probe_of (ipv4 9 9 9 1)) 0).2 in
  let s2 := (admit_probe long_prefix s1 (probe_of (ipv4 8 8 8 8)) (from_secs 30)).2 in
  covering_prefix (V4 (ipv4 9 9 9 2)) = covering_prefix (V4 (ipv4 9 9 9 1))
  ∧ (admit_probe long_prefix s1 (probe_of (ipv4 9 9 9 2)) (from_secs 31)).1 = Err PrefixCooldown
  ∧ (admit_probe long_prefix s2 (probe_of (ipv4 9 9 9 2)) (from_secs 31)).1 = Ok tt.
Proof. vm_compute. done. Qed.

Lemma admitted_probe_is_permitted_witness :
  IpClass.classify (V4 (ipv4 9 9 9 9)) = None
  ∧ (admit_probe sample_limits guard_new (probe_of (ipv4 9 9 9 9)) 0).1 = Ok tt.
Proof.
  assert (admit_probe (limits_from_config default_ProbeConfig) guard_new (probe_of (ipv4 9 9 9 9)) 0
    = (Ok tt, (admit_probe sample_limits guard_new (probe_of (ipv4 9 9 9 9)) 0).2)) as Ha
    by (vm_compute; reflexivity).
  pose proof (admitted_probe_is_permitted default_ProbeConfig guard_new _ 0 _ Ha)
    as [[Hc|(c & n & _ & _ & Hn & _)] _].
  - split; [exact Hc|vm_compute; reflexivity].
  - exfalso. exact (not_elem_of_nil _ Hn).
Defined.

Definition after_first : GuardState := (admit_probe sample_limits guard_new (probe_of (ipv4 9 9 9 9)) 0).2.
Definition after_second : GuardState :=
  (admit_probe sample_limits after_first (probe_of (ipv4 8 8 8 8)) (from_secs 60)).2.

Lemma address_cooldown_enforced_witness :
  (admit_probe sample_limits after_second (probe_of (ipv4 9 9 9 9)) (from_secs 299)).1 ≠ Ok tt.
Proof.
  refine (address_cooldown_enforced sample_limits guard_new (probe_of (ipv4 9 9 9 9)) 0 after_first
    after_second (probe_of (ipv4 9 9 9 9)) (from_secs 299) _ _ _ _ eq_refl).
  - vm_compute. reflexivity.
  - vm_compute. reflexivity.
  - apply rtc_once. unfold after_second.
    refine (gs_admit sample_limits 0 (from_secs 299) after_first _ (from_secs 60) _ _);
      [vm_compute; split; congruence|vm_compute; reflexivity].
  - vm_compute. split; congruence.
Defined.

Lemma probe_rate_bounded_witness :
  admitted sample_limits after_first [(probe_of (ipv4 8 8 8 8), 5); (probe_of (ipv4 8 8 4 4), 6)]
  <= connections_per_second sample_limits - window_count after_first.
Proof.
  refine (probe_rate_bounded sample_limits after_first 0
    [(probe_of (ipv4 8 8 8 8), 5); (probe_of (ipv4 8 8 4 4), 6)] _ _ _).
  - vm_compute. reflexivity.
  - vm_compute. split; congruence.
  - apply Forall_cons_2; [vm_compute; reflexivity|].
    apply Forall_cons_2; [vm_compute; reflexivity|apply Forall_nil_2].
Defined.

End samples.
