(* ===== verification/Health.v ===== *)
(** * Route health and circuit breaking

    [src/upstream/health.rs]: the decayed counters and latency ring of one route
    (a server, a transport and a remote address), its circuit breaker, and the
    score and hedge delay the scheduler reads.  A sequence of calls is a list of
    [HealthEvent]s; the reservations handed out by [begin_attempt] and not yet
    released are counted beside the state. *)

From S2P Require Import Prelude.
From S2P Require Import Floats.
From S2P Require Import Config.
From S2P Require Import Util.

Definition WINDOW : nat := 32.
Definition HALF_LIFE : Duration := from_secs 120.

Inductive CircuitState : Set := Closed | Suspect | Open | HalfOpen.

#[global] Instance CircuitState_eq_dec : EqDecision CircuitState.
Proof. solve_decision. Defined.

Inductive AttemptOutcome : Set :=
| Success | Timeout_ | ServerFailure | Malformed | TransportError.

Definition is_failure (o : AttemptOutcome) : bool :=
  match o with Success => false | _ => true end.

Record RouteHealth : Type := mk_RouteHealth {
  h_success : f64;
  h_timeout : f64;
  h_server_failure : f64;
  h_malformed : f64;
  h_transport_error : f64;
  h_ewma_ms : f64;
  h_jitter_ms : f64;
  h_window : list f32;
  h_window_len : nat;
  h_window_pos : nat;
  h_connect_cost_ms : f64;
  h_consecutive_failures : Z;
  h_samples : Z;
  h_last_update : option Instant;
  h_last_success : option Instant;
  h_circuit : CircuitState;
  h_circuit_changed_at : option Instant;
  h_half_open_successes : Z;
  h_half_open_inflight : Z
}.

Definition health_new : RouteHealth := {|
  h_success := f64_zero;
  h_timeout := f64_zero;
  h_server_failure := f64_zero;
  h_malformed := f64_zero;
  h_transport_error := f64_zero;
  h_ewma_ms := f64_zero;
  h_jitter_ms := f64_zero;
  h_window := repeat f64_zero WINDOW;
  h_window_len := 0;
  h_window_pos := 0;
  h_connect_cost_ms := f64_zero;
  h_consecutive_failures := 0;
  h_samples := 0;
  h_last_update := None;
  h_last_success := None;
  h_circuit := Closed;
  h_circuit_changed_at := None;
  h_half_open_successes := 0;
  h_half_open_inflight := 0
|}.

(** Field updates. *)
Definition set_counts (h : RouteHealth) (s t sf m te : f64) : RouteHealth :=
  mk_RouteHealth s t sf m te (h_ewma_ms h) (h_jitter_ms h) (h_window h) (h_window_len h)
    (h_window_pos h) (h_connect_cost_ms h) (h_consecutive_failures h) (h_samples h)
    (h_last_update h) (h_last_success h) (h_circuit h) (h_circuit_changed_at h)
    (h_half_open_successes h) (h_half_open_inflight h).

Definition set_latency (h : RouteHealth) (ewma jitter : f64) window len pos : RouteHealth :=
  mk_RouteHealth (h_success h) (h_timeout h) (h_server_failure h) (h_malformed h)
    (h_transport_error h) ewma jitter window len pos (h_connect_cost_ms h)
    (h_consecutive_failures h) (h_samples h) (h_last_update h) (h_last_success h)
    (h_circuit h) (h_circuit_changed_at h) (h_half_open_successes h) (h_half_open_inflight h).

Definition set_connect_cost (h : RouteHealth) (cost : f64) : RouteHealth :=
  mk_RouteHealth (h_success h) (h_timeout h) (h_server_failure h) (h_malformed h)
    (h_transport_error h) (h_ewma_ms h) (h_jitter_ms h) (h_window h) (h_window_len h)
    (h_window_pos h) cost (h_consecutive_failures h) (h_samples h) (h_last_update h)
    (h_last_success h) (h_circuit h) (h_circuit_changed_at h) (h_half_open_successes h)
    (h_half_open_inflight h).

Definition set_progress (h : RouteHealth) (failures samples : Z) (update success : option Instant)
    : RouteHealth :=
  mk_RouteHealth (h_success h) (h_timeout h) (h_server_failure h) (h_malformed h)
    (h_transport_error h) (h_ewma_ms h) (h_jitter_ms h) (h_window h) (h_window_len h)
    (h_window_pos h) (h_connect_cost_ms h) failures samples update success
    (h_circuit h) (h_circuit_changed_at h) (h_half_open_successes h) (h_half_open_inflight h).

Definition set_circuit (h : RouteHealth) (c : CircuitState) (changed : option Instant)
    (successes inflight : Z) : RouteHealth :=
  mk_RouteHealth (h_success h) (h_timeout h) (h_server_failure h) (h_malformed h)
    (h_transport_error h) (h_ewma_ms h) (h_jitter_ms h) (h_window h) (h_window_len h)
    (h_window_pos h) (h_connect_cost_ms h) (h_consecutive_failures h) (h_samples h)
    (h_last_update h) (h_last_success h) c changed successes inflight.

Definition latency_ms (d : Duration) : f64 := f64_mul (as_secs_f64 d) (f64_of_Z 1000).

(** [a * x + b * y]. *)
Definition blend (a x b y : f64) : f64 := f64_add (f64_mul a x) (f64_mul b y).

Section health.
Context {FL : FloatLib}.

Definition decay (h : RouteHealth) (now : Instant) : RouteHealth :=
  match h_last_update h with
  | None => h
  | Some last =>
      let elapsed := as_secs_f64 (since now last) in
      if f64_leb elapsed f64_zero then h
      else
        let factor := powf (f64_lit 5 10) (f64_div elapsed (as_secs_f64 HALF_LIFE)) in
        set_counts h (f64_mul (h_success h) factor) (f64_mul (h_timeout h) factor)
          (f64_mul (h_server_failure h) factor) (f64_mul (h_malformed h) factor)
          (f64_mul (h_transport_error h) factor)
  end.

Definition record_connect (h : RouteHealth) (cost : Duration) : RouteHealth :=
  let ms := latency_ms cost in
  set_connect_cost h
    (if f64_eqb (h_connect_cost_ms h) f64_zero then ms
     else blend (f64_lit 7 10) (h_connect_cost_ms h) (f64_lit 3 10) ms).

(** The latency part of a success. *)
Definition record_latency (h : RouteHealth) (latency : option Duration) : RouteHealth :=
  match latency with
  | None => h
  | Some d =>
      let ms := latency_ms d in
      let first := (h_window_len h =? 0)%nat in
      set_latency h
        (if first then ms else blend (f64_lit 75 100) (h_ewma_ms h) (f64_lit 25 100) ms)
        (if first then h_jitter_ms h
         else blend (f64_lit 75 100) (h_jitter_ms h) (f64_lit 25 100)
                (f64_abs (f64_sub ms (h_ewma_ms h))))
        (<[h_window_pos h := f64_to_f32 ms]> (h_window h))
        (Nat.min (h_window_len h + 1) WINDOW)
        ((h_window_pos h + 1) mod WINDOW)%nat
  end.

(** The counter an outcome adds to. *)
Definition count_outcome (h : RouteHealth) (o : AttemptOutcome) : RouteHealth :=
  let bump (x : AttemptOutcome) (v : f64) :=
    match o, x with
    | Success, Success | Timeout_, Timeout_ | ServerFailure, ServerFailure
    | Malformed, Malformed | TransportError, TransportError => f64_add v f64_one
    | _, _ => v
    end in
  set_counts h (bump Success (h_success h)) (bump Timeout_ (h_timeout h))
    (bump ServerFailure (h_server_failure h)) (bump Malformed (h_malformed h))
    (bump TransportError (h_transport_error h)).

Definition update_circuit (h : RouteHealth) (outcome : AttemptOutcome) (now : Instant)
    (cfg : SchedulerConfig) : RouteHealth :=
  match h_circuit h with
  | Closed | Suspect =>
      if is_failure outcome then
        if circuit_failure_threshold cfg <=? h_consecutive_failures h
        then set_circuit h Open (Some now) 0 0
        else if 0 <? h_consecutive_failures h
        then set_circuit h Suspect (h_circuit_changed_at h) (h_half_open_successes h)
               (h_half_open_inflight h)
        else h
      else set_circuit h Closed (h_circuit_changed_at h) (h_half_open_successes h)
             (h_half_open_inflight h)
  | Open => h
  | HalfOpen =>
      if is_failure outcome then set_circuit h Open (Some now) 0 (h_half_open_inflight h)
      else
        let successes := sat_add u32_max (h_half_open_successes h) 1 in
        if circuit_half_open_successes cfg <=? successes
        then set_progress (set_circuit h Closed (Some now) successes (h_half_open_inflight h))
               0 (h_samples h) (h_last_update h) (h_last_success h)
        else set_circuit h HalfOpen (h_circuit_changed_at h) successes (h_half_open_inflight h)
  end.

Definition record (h : RouteHealth) (outcome : AttemptOutcome) (latency : option Duration)
    (now : Instant) (cfg : SchedulerConfig) : RouteHealth :=
  let h := decay h now in
  let h := count_outcome h outcome in
  let h := if is_failure outcome then h else record_latency h latency in
  let h :=
    set_progress h
      (if is_failure outcome then sat_add u32_max (h_consecutive_failures h) 1 else 0)
      (sat_add u64_max (h_samples h) 1) (Some now)
      (if is_failure outcome then h_last_success h else Some now) in
  update_circuit h outcome now cfg.

End health.

Definition open_wait (cfg : SchedulerConfig) (seed : Z) : Duration :=
  let jitter := f64_mul (unit_from_seed seed) (f64_lit 5 10) in
  Z.max (mul_f64 (circuit_open_duration cfg) (f64_add f64_one jitter)) (from_millis 100).

Definition tick (h : RouteHealth) (now : Instant) (cfg : SchedulerConfig) (seed : Z) : RouteHealth :=
  match h_circuit h with
  | Open =>
      match h_circuit_changed_at h with
      | None => set_circuit h Open (Some now) (h_half_open_successes h) (h_half_open_inflight h)
      | Some changed =>
          if open_wait cfg seed <=? since now changed
          then set_circuit h HalfOpen (Some now) 0 0 else h
      end
  | _ => h
  end.

Definition is_usable (h : RouteHealth) : bool :=
  match h_circuit h with
  | Closed | Suspect => true
  | HalfOpen => h_half_open_inflight h =? 0
  | Open => false
  end.

Definition set_inflight (h : RouteHealth) (n : Z) : RouteHealth :=
  set_circuit h (h_circuit h) (h_circuit_changed_at h) (h_half_open_successes h) n.

Definition begin_attempt (h : RouteHealth) : bool * RouteHealth :=
  if bool_decide (h_circuit h = HalfOpen)
  then (true, set_inflight h (sat_add u32_max (h_half_open_inflight h) 1))
  else (false, h).

Definition release_attempt (h : RouteHealth) : RouteHealth :=
  set_inflight h (h_half_open_inflight h ⊖ 1).

(** ** What the scheduler reads *)

Definition total (h : RouteHealth) : f64 :=
  f64_add (f64_add (f64_add (f64_add (h_success h) (h_timeout h)) (h_server_failure h))
             (h_malformed h)) (h_transport_error h).

Definition success_probability (h : RouteHealth) : f64 :=
  let n := total h in
  if f64_leb n f64_zero then f64_lit 5 10
  else f64_div (f64_add (h_success h) f64_one) (f64_add n (f64_of_Z 2)).

Definition share (h : RouteHealth) (count : f64) : f64 :=
  let n := total h in if f64_leb n f64_zero then f64_zero else f64_div count n.

Definition timeout_probability (h : RouteHealth) : f64 := share h (h_timeout h).
Definition server_failure_probability (h : RouteHealth) : f64 := share h (h_server_failure h).
Definition malformed_probability (h : RouteHealth) : f64 := share h (h_malformed h).

Definition uncertainty (h : RouteHealth) : f64 :=
  let n := f64_add (total h) (f64_of_Z 2) in
  let p := success_probability h in
  f64_sqrt (f64_div (f64_mul p (f64_sub f64_one p)) n).

Definition percentile (h : RouteHealth) (q : f64) : f64 :=
  if (h_window_len h =? 0)%nat then f64_zero
  else
    let v := stable_sort f32_total_leb (take (h_window_len h) (h_window h)) in
    let idx := clampZ 1 (Z.of_nat (length v))
                 (f64_ceil_as_usize (f64_mul q (f64_of_Z (Z.of_nat (length v))))) - 1 in
    f64_from_f32 (default f64_zero (v !! Z.to_nat idx)).

Definition p50_ms (h : RouteHealth) : f64 := percentile h (f64_lit 5 10).
Definition p95_ms (h : RouteHealth) : f64 := percentile h (f64_lit 95 100).
Definition p99_ms (h : RouteHealth) : f64 := percentile h (f64_lit 99 100).

Definition is_measured (h : RouteHealth) : bool := (0 <? h_window_len h)%nat.

Definition weight_bias (weight : Z) : f64 := f64_div (f64_of_Z 100) (f64_of_Z (Z.max weight 1)).

Section score.
Context {FL : FloatLib}.

Definition streak_cost (h : RouteHealth) : f64 :=
  if h_consecutive_failures h =? 0 then f64_zero
  else f64_mul (f64_of_Z 50)
         (powf (f64_of_Z (Z.min (h_consecutive_failures h) 8)) (f64_lit 16 10)).

Definition score (h : RouteHealth) (weight : Z) : f64 :=
  let base := if (h_window_len h =? 0)%nat then f64_of_Z 50 else h_ewma_ms h in
  let tail := f64_mul (f64_lit 3 10) (p95_ms h) in
  let jitter := f64_mul (f64_lit 2 10) (h_jitter_ms h) in
  let failure := f64_mul (f64_sub f64_one (success_probability h)) (f64_of_Z 600) in
  let streak := streak_cost h in
  let unc := f64_mul (uncertainty h) (f64_of_Z 40) in
  let connect :=
    if (h_window_len h =? 0)%nat then f64_mul (h_connect_cost_ms h) (f64_lit 5 10)
    else f64_zero in
  fold_left f64_add [tail; jitter; failure; streak; unc; connect; weight_bias weight] base.

End score.

Definition hedge_delay (h : RouteHealth) (cfg : SchedulerConfig) : Duration :=
  let lo := latency_ms (hedge_min_delay cfg) in
  let hi := latency_ms (hedge_max_delay cfg) in
  let target :=
    if (h_window_len h =? 0)%nat then lo else percentile h (hedge_percentile cfg) in
  let ms := f64_clamp lo hi target in
  from_millis (f64_as_u64 (f64_max (f64_round ms) f64_one)).

(** ** Sequences of calls *)

Section traces.
Context {FL : FloatLib}.

(** The state of a route beside the number of reservations its callers hold. *)
Inductive route_step : RouteHealth * nat -> RouteHealth * nat -> Prop :=
| rs_record h n o l now cfg : route_step (h, n) (record h o l now cfg, n)
| rs_connect h n cost : route_step (h, n) (record_connect h cost, n)
| rs_tick h n now cfg seed : route_step (h, n) (tick h now cfg seed, n)
| rs_begin h n b h' : begin_attempt h = (b, h') ->
    route_step (h, n) (h', if b then S n else n)
| rs_release h n : route_step (h, S n) (release_attempt h, n).

Definition route_reachable : RouteHealth * nat -> Prop := rtc route_step (health_new, 0%nat).

Definition record_all (h : RouteHealth) (cfg : SchedulerConfig)
    (l : list (AttemptOutcome * option Duration * Instant)) : RouteHealth :=
  fold_left (λ h o, record h o.1.1 o.1.2 o.2 cfg) l h.

Definition all_failures (l : list (AttemptOutcome * option Duration * Instant)) : Prop :=
  Forall (λ o, is_failure o.1.1 = true) l.

Definition all_successes (l : list (AttemptOutcome * option Duration * Instant)) : Prop :=
  Forall (λ o, is_failure o.1.1 = false) l.

(** What [decay] and the latency window leave alone. *)
Lemma decay_circuit h now :
  h_circuit (decay h now) = h_circuit h
  ∧ h_consecutive_failures (decay h now) = h_consecutive_failures h
  ∧ h_circuit_changed_at (decay h now) = h_circuit_changed_at h
  ∧ h_half_open_successes (decay h now) = h_half_open_successes h
  ∧ h_half_open_inflight (decay h now) = h_half_open_inflight h.
Proof. unfold decay. repeat case_match; done. Qed.

(** The record handed to [update_circuit]. *)
Lemma record_updates h o l now cfg : ∃ h0,
  record h o l now cfg = update_circuit h0 o now cfg
  ∧ h_circuit h0 = h_circuit h
  ∧ h_consecutive_failures h0
    = (if is_failure o then sat_add u32_max (h_consecutive_failures h) 1 else 0)
  ∧ h_half_open_successes h0 = h_half_open_successes h
  ∧ h_half_open_inflight h0 = h_half_open_inflight h.
Proof.
  unfold record. eexists. split; [reflexivity|].
  destruct (decay_circuit h now) as (Hc & Hf & _ & Hs & Hi).
  destruct (is_failure o), l; cbn; by rewrite ?Hc, ?Hf, ?Hs, ?Hi.
Qed.

Lemma record_inflight h o l now cfg :
  h_half_open_inflight (record h o l now cfg) = h_half_open_inflight h
  ∨ h_half_open_inflight (record h o l now cfg) = 0.
Proof.
  destruct (record_updates h o l now cfg) as (h0 & -> & Hc & Hf & Hs & <-).
  unfold update_circuit. repeat case_match; cbn; auto.
Qed.

Lemma record_failure_closed h o l now cfg :
  is_failure o = true -> h_circuit h = Closed ∨ h_circuit h = Suspect ->
  0 <= h_consecutive_failures h < u32_max ->
  h_consecutive_failures (record h o l now cfg) = h_consecutive_failures h + 1
  ∧ h_circuit (record h o l now cfg)
    = if circuit_failure_threshold cfg <=? h_consecutive_failures h + 1 then Open else Suspect.
Proof.
  intros Ho Hcl Hr. destruct (record_updates h o l now cfg) as (h0 & -> & Hc & Hf & Hs & Hi).
  rewrite Ho in Hf. unfold sat_add in Hf. rewrite Z.min_r in Hf by lia.
  unfold update_circuit. rewrite Ho, Hc, Hf.
  destruct (Z.ltb_spec 0 (h_consecutive_failures h + 1)); [|lia].
  destruct Hcl as [-> | ->]; case_match; done.
Qed.

Lemma record_open h o l now cfg :
  h_circuit h = Open -> h_circuit (record h o l now cfg) = Open.
Proof.
  intros Ho. destruct (record_updates h o l now cfg) as (h0 & -> & Hc & _).
  unfold update_circuit. rewrite Hc, Ho. congruence.
Qed.

Lemma record_all_open h cfg l : h_circuit h = Open -> h_circuit (record_all h cfg l) = Open.
Proof.
  revert h. induction l as [|o l IH]; intros h Ho; [done|]. by apply IH, record_open.
Qed.

Lemma failures_from h cfg l :
  h_circuit h = Closed ∨ h_circuit h = Suspect -> all_failures l ->
  0 <= h_consecutive_failures h < circuit_failure_threshold cfg ->
  circuit_failure_threshold cfg <= u32_max -> l ≠ [] ->
  h_circuit (record_all h cfg l)
  = if h_consecutive_failures h + Z.of_nat (length l) <? circuit_failure_threshold cfg
    then Suspect else Open.
Proof.
  intros Hc Hl. revert h Hc. induction Hl as [|o l Ho Hl IH]; intros h Hc Hr Ht Hne; [done|].
  destruct (record_failure_closed h o.1.1 o.1.2 o.2 cfg Ho Hc) as [Hf Hc']; [lia|].
  change (record_all h cfg (o :: l)) with (record_all (record h o.1.1 o.1.2 o.2 cfg) cfg l).
  cbn [length]. rewrite Nat2Z.inj_succ.
  destruct (Z.leb_spec (circuit_failure_threshold cfg) (h_consecutive_failures h + 1)).
  - rewrite record_all_open by done. by rewrite (proj2 (Z.ltb_ge _ _)) by lia.
  - destruct l as [|o' l].
    + cbn. rewrite Hc'. by rewrite (proj2 (Z.ltb_lt _ _)) by lia.
    + rewrite IH; [|by right|lia|lia|done]. rewrite Hf. f_equal.
      by replace (h_consecutive_failures h + 1 + Z.of_nat (length (o' :: l)))
        with (h_consecutive_failures h + Z.succ (Z.of_nat (length (o' :: l)))) by lia.
Qed.

Lemma record_success_half_open h l now cfg o :
  is_failure o = false -> h_circuit h = HalfOpen -> 0 <= h_half_open_successes h < u32_max ->
  let h' := record h o l now cfg in
  h_half_open_successes h' = h_half_open_successes h + 1
  ∧ (if circuit_half_open_successes cfg <=? h_half_open_successes h + 1
     then h_circuit h' = Closed ∧ h_consecutive_failures h' = 0 else h_circuit h' = HalfOpen).
Proof.
  intros Ho Hh Hr h'. unfold h'.
  destruct (record_updates h o l now cfg) as (h0 & -> & Hc & Hf & Hs & Hi).
  unfold update_circuit. rewrite Ho, Hc, Hh, Hs. unfold sat_add. rewrite Z.min_r by lia.
  destruct (_ <=? _); done.
Qed.

Lemma record_success_closed h l now cfg o :
  is_failure o = false -> h_circuit h = Closed -> h_circuit (record h o l now cfg) = Closed.
Proof.
  intros Ho Hh. destruct (record_updates h o l now cfg) as (h0 & -> & Hc & _).
  unfold update_circuit. by rewrite Ho, Hc, Hh.
Qed.

Lemma record_all_closed h cfg l :
  all_successes l -> h_circuit h = Closed -> h_circuit (record_all h cfg l) = Closed.
Proof.
  intros Hl. revert h. induction Hl as [|o l Ho Hl IH]; intros h Hh; [done|].
  by apply IH, record_success_closed.
Qed.

Lemma successes_from h cfg l :
  h_circuit h = HalfOpen -> all_successes l ->
  0 <= h_half_open_successes h < circuit_half_open_successes cfg ->
  circuit_half_open_successes cfg <= u32_max ->
  h_circuit (record_all h cfg l)
  = if h_half_open_successes h + Z.of_nat (length l) <? circuit_half_open_successes cfg
    then HalfOpen else Closed.
Proof.
  intros Hh Hl. revert h Hh. induction Hl as [|o l Ho Hl IH]; intros h Hh Hr Ht.
  { cbn. by rewrite Hh, (proj2 (Z.ltb_lt _ _)) by lia. }
  destruct (record_success_half_open h o.1.2 o.2 cfg o.1.1 Ho Hh) as [Hs Hc]; [lia|].
  change (record_all h cfg (o :: l)) with (record_all (record h o.1.1 o.1.2 o.2 cfg) cfg l).
  cbn [length]. rewrite Nat2Z.inj_succ.
  destruct (Z.leb_spec (circuit_half_open_successes cfg) (h_half_open_successes h + 1)).
  - rewrite record_all_closed by naive_solver. by rewrite (proj2 (Z.ltb_ge _ _)) by lia.
  - rewrite IH; [|done|lia|lia]. rewrite Hs. f_equal.
    by replace (h_half_open_successes h + 1 + Z.of_nat (length l))
      with (h_half_open_successes h + Z.succ (Z.of_nat (length l))) by lia.
Qed.

Lemma inflight_step s s' :
  route_step s s' -> 0 <= h_half_open_inflight s.1 <= Z.of_nat s.2 ->
  0 <= h_half_open_inflight s'.1 <= Z.of_nat s'.2.
Proof.
  intros Hs. destruct Hs as [h n o l now cfg|h n cost|h n now cfg seed|h n b h' Hb|h n]; cbn.
  - destruct (record_inflight h o l now cfg) as [-> | ->]; lia.
  - done.
  - unfold tick. repeat case_match; cbn; lia.
  - unfold begin_attempt in Hb. case_bool_decide; simplify_eq; [|done].
    cbn. unfold sat_add, u32_max. lia.
  - unfold sat_sub. lia.
Qed.

(** The breaker counts consecutive failures exactly: after [n] of them a
    working route is Suspect and still usable while [n] is below the configured
    threshold, and withdrawn from there on, whatever else is recorded before the
    open period elapses. *)
Theorem breaker_opens_at_threshold h cfg fails later :
  h_circuit h = Closed -> h_consecutive_failures h = 0 ->
  0 < circuit_failure_threshold cfg <= u32_max -> all_failures fails -> fails ≠ [] ->
  let h' := record_all h cfg fails in
  (Z.of_nat (length fails) < circuit_failure_threshold cfg ->
     h_circuit h' = Suspect ∧ is_usable h' = true)
  ∧ (circuit_failure_threshold cfg <= Z.of_nat (length fails) ->
     is_usable (record_all h' cfg later) = false).
Proof.
  intros Hc Hf Ht Hfail Hne h'.
  pose proof (failures_from h cfg fails (or_introl Hc) Hfail ltac:(lia) ltac:(lia) Hne) as Hcirc.
  rewrite Hf in Hcirc. fold h' in Hcirc. unfold is_usable. split; intros Hlen.
  - rewrite (proj2 (Z.ltb_lt _ _)) in Hcirc by lia. by rewrite Hcirc.
  - rewrite (proj2 (Z.ltb_ge _ _)) in Hcirc by lia. by rewrite record_all_open.
Qed.

(** C39. A withdrawn route comes back: once the jittered open period has elapsed
    the next tick makes it usable for a probe, it stays half open through fewer
    successes than configured and closes at that number; a failed probe withdraws
    it again, and a tick before the period changes nothing. *)
Theorem breaker_recovers h cfg seed changed now oks o l t :
  h_circuit h = Open -> h_circuit_changed_at h = Some changed ->
  0 < circuit_half_open_successes cfg <= u32_max -> all_successes oks -> is_failure o = true ->
  (since now changed < open_wait cfg seed -> tick h now cfg seed = h)
  ∧ (open_wait cfg seed <= since now changed ->
     is_usable (tick h now cfg seed) = true
     ∧ h_circuit (record_all (tick h now cfg seed) cfg oks)
       = (if Z.of_nat (length oks) <? circuit_half_open_successes cfg then HalfOpen else Closed)
     ∧ is_usable (record (tick h now cfg seed) o l t cfg) = false).
Proof.
  intros Ho Hch Hn Hoks Hfail. unfold tick. rewrite Ho, Hch. split; intros Hw.
  { by rewrite (proj2 (Z.leb_gt _ _)) by lia. }
  rewrite (proj2 (Z.leb_le _ _)) by lia. split_and!; [done| |].
  - rewrite successes_from; [done|done|done|cbn; lia|lia].
  - destruct (record_updates (set_circuit h HalfOpen (Some now) 0 0) o l t cfg)
      as (h0 & -> & Hc & _).
    unfold update_circuit. by rewrite Hfail, Hc.
Qed.

(** No half-open reservation leaks: in every reachable state the slots taken
    are at most the reservations callers still hold, so a route none of whose
    attempts is in flight is usable unless its circuit is open. *)
Theorem probe_slots_never_leak h n :
  route_reachable (h, n) ->
  0 <= h_half_open_inflight h <= Z.of_nat n
  ∧ (n = 0%nat -> h_circuit h ≠ Open -> is_usable h = true).
Proof.
  intros Hr.
  assert (0 <= h_half_open_inflight h <= Z.of_nat n) as Hi.
  { change (0 <= h_half_open_inflight (h, n).1 <= Z.of_nat (h, n).2).
    refine (rtc_ind_r (λ s, 0 <= h_half_open_inflight s.1 <= Z.of_nat s.2)
      (health_new, 0%nat) _ _ (h, n) Hr); [cbn; lia|].
    intros s s' _ Hs Hi. by eapply inflight_step. }
  split; [done|]. intros -> Hne. unfold is_usable.
  destruct (h_circuit h); try done. apply Z.eqb_eq. cbn in Hi. lia.
Qed.

End traces.

(** ** Concrete routes *)

#[local] Instance health_floats : FloatLib := { powf _ _ := f64_one; powi _ _ := f64_one }.

Definition timeouts (n : nat) : list (AttemptOutcome * option Duration * Instant) :=
  repeat (Timeout_, None, from_secs 1) n.

Lemma breaker_opens_at_threshold_witness :
  is_usable (record_all health_new default_SchedulerConfig (timeouts 4)) = true
  ∧ is_usable (record_all (record_all health_new default_SchedulerConfig (timeouts 5))
                 default_SchedulerConfig [(Success, Some (from_millis 20), from_secs 2)]) = false.
Proof.
  assert (0 < circuit_failure_threshold default_SchedulerConfig <= u32_max) as Ht
    by (vm_compute; split; congruence).
  assert (∀ n, all_failures (timeouts n)) as Hf by (intros n; induction n; by constructor).
  pose proof (breaker_opens_at_threshold health_new default_SchedulerConfig (timeouts 4) []
    eq_refl eq_refl Ht (Hf 4%nat) ltac:(discriminate)) as [Hlow _].
  pose proof (breaker_opens_at_threshold health_new default_SchedulerConfig (timeouts 5)
    [(Success, Some (from_millis 20), from_secs 2)]
    eq_refl eq_refl Ht (Hf 5%nat) ltac:(discriminate)) as [_ Hhigh].
  split; [exact (proj2 (Hlow eq_refl))|exact (Hhigh ltac:(vm_compute; discriminate))].
Defined.

Definition opened : RouteHealth := set_circuit health_new Open (Some 0) 0 0.

Lemma breaker_recovers_witness :
  h_circuit (record_all (tick opened (from_secs 31) default_SchedulerConfig 1)
    default_SchedulerConfig
    [(Success, None, from_secs 32); (Success, None, from_secs 33)]) = Closed.
Proof.
  assert (0 < circuit_half_open_successes default_SchedulerConfig <= u32_max) as Ht
    by (vm_compute; split; congruence).
  pose proof (breaker_recovers opened default_SchedulerConfig 1 0 (from_secs 31)
    [(Success, None, from_secs 32); (Success, None, from_secs 33)] Timeout_ None 0
    eq_refl eq_refl Ht ltac:(repeat constructor) eq_refl) as [_ Hafter].
  exact (proj1 (proj2 (Hafter ltac:(vm_compute; discriminate)))).
Defined.

(** A route that fails once, is probed while half open, and whose probe is
    cancelled. *)
Definition one_strike : SchedulerConfig :=
  mk_SchedulerConfig true (f64_lit 95 100) (from_millis 20) (from_millis 400) (f64_lit 15 100)
    (from_millis 1500) (f64_lit 2 100) 1 (from_secs 20) 2 true 3.

Definition probed : RouteHealth :=
  tick (record health_new Timeout_ None 0 one_strike) (from_secs 31) one_strike 1.

Lemma probe_slots_never_leak_witness :
  is_usable (begin_attempt probed).2 = false
  ∧ is_usable (release_attempt (begin_attempt probed).2) = true.
Proof.
  split; [vm_compute; reflexivity|].
  assert (route_reachable (release_attempt (begin_attempt probed).2, 0%nat)) as Hr.
  { eapply rtc_l; [exact (rs_record health_new 0 Timeout_ None 0 one_strike)|].
    eapply rtc_l; [exact (rs_tick _ _ (from_secs 31) one_strike 1)|].
    eapply rtc_l; [exact (rs_begin probed 0 true (begin_attempt probed).2 ltac:(vm_compute; reflexivity))|].
    apply rtc_once, rs_release. }
  exact (proj2 (probe_slots_never_leak _ _ Hr) eq_refl ltac:(vm_compute; discriminate)).
Defined.
