(* ===== verification/Scheduler.v ===== *)
(** * The upstream scheduler

    [src/upstream/scheduler.rs] with the route types of [src/upstream/pool.rs]:
    the ranking of a group's routes, one
    attempt, and the resolution loop over a primary, a hedge and an emergency
    fan-out.

    What the code awaits is an input here: the readings of the clock against the
    deadline, whether a permit was granted, what the transport returned, and which
    pending attempt finishes next.  The loop is a step function on
    [ResolveState] and a run is any sequence of such inputs.  Routes are identified
    by their position in the group, as [Arc::ptr_eq] identifies them. *)

From Stdlib Require Import Ascii String.
From S2P Require Import Prelude.
From S2P Require Import Floats.
From S2P Require Import Names.
From S2P Require Import Net.
From S2P Require Import Config.
From S2P Require Import Dns.
From S2P Require Import Util.
From S2P Require Import Proxy.
From S2P Require Import Network.
From S2P Require Import Message.
From S2P Require Import EdnsOptions.
From S2P Require Import Errors.
From S2P Require Import Health.

(** ** Hedge budget *)

Record HedgeBudget : Type := mk_HedgeBudget { hb_queries : Z; hb_hedges : Z }.

Definition record_query (b : HedgeBudget) : HedgeBudget :=
  mk_HedgeBudget (as_u64 (hb_queries b + 1)) (hb_hedges b).

Definition record_hedge (b : HedgeBudget) : HedgeBudget :=
  mk_HedgeBudget (hb_queries b) (as_u64 (hb_hedges b + 1)).

Definition hedge_rate (b : HedgeBudget) : f64 :=
  f64_div (f64_of_Z (hb_hedges b)) (f64_of_Z (Z.max (hb_queries b) 1)).

Definition budget_allows (b : HedgeBudget) (fraction : f64) : bool :=
  if f64_leb fraction f64_zero then false
  else if f64_leb f64_one fraction then true
  else f64_ltb (hedge_rate b) fraction.

(** ** Routes *)

Record RouteKey : Type := mk_RouteKey {
  rk_server : str;
  rk_transport : TransportKind;
  rk_addr : IpAddr;
  rk_path : str;
  rk_role : ResolverRole;
  rk_authority : str
}.

Record CookieState : Type := mk_CookieState { ck_client : str; ck_server : option str }.

(** The connection settings of the DNS library, as far as they are chosen here. *)
Inductive ProtocolConfig : Type :=
| PcUdp
| PcTcp
| PcTls (server_name : str)
| PcHttps (server_name path : str)
| PcQuic (server_name : str)
| PcH3 (server_name path : str).

Record ConnectionConfig : Type := mk_ConnectionConfig {
  cc_protocol : ProtocolConfig;
  cc_port : Z;
  cc_bind_addr : option SocketAddr
}.

Record Route : Type := mk_Route {
  rt_key : RouteKey;
  rt_weight : Z;
  rt_ecs : option EcsScope;
  rt_cookies_enabled : bool;
  rt_trust_ad : bool;
  rt_egress : EgressPath;
  rt_stream_companion : bool;
  rt_connection : ConnectionConfig;
  rt_health : RouteHealth;
  rt_cookie : CookieState
}.

Definition with_health (r : Route) (f : RouteHealth -> RouteHealth) : Route :=
  mk_Route (rt_key r) (rt_weight r) (rt_ecs r) (rt_cookies_enabled r) (rt_trust_ad r) (rt_egress r)
    (rt_stream_companion r) (rt_connection r) (f (rt_health r)) (rt_cookie r).

Definition set_server_cookie (r : Route) (server : option str) : Route :=
  mk_Route (rt_key r) (rt_weight r) (rt_ecs r) (rt_cookies_enabled r) (rt_trust_ad r) (rt_egress r)
    (rt_stream_companion r) (rt_connection r) (rt_health r) (mk_CookieState (ck_client (rt_cookie r)) server).

Record UpstreamGroup : Type := mk_UpstreamGroup {
  gr_name : str;
  gr_routes : list Route;
  gr_scheduler : SchedulerConfig
}.

(** ** Ranking *)

Definition PROXY_PATH_PENALTY_MS : f64 := f64_of_Z 120.
Definition RELEARN_EXPLORE_MULTIPLIER : f64 := f64_of_Z 5.
Definition MAX_EXPLORE_RATE : f64 := f64_lit 20 100.

Definition proxy_penalty (r : Route) : f64 :=
  match rt_egress r with Direct => f64_zero | ThroughProxy _ => PROXY_PATH_PENALTY_MS end.

Inductive Bucket : Set := Ready | Degraded | FamilyExcluded.

#[global] Instance Bucket_eq_dec : EqDecision Bucket.
Proof. solve_decision. Defined.

Record Candidate : Type := mk_Candidate {
  cd_score : f64;
  cd_idx : nat;
  cd_weight : Z;
  cd_measured : bool;
  cd_bucket : Bucket
}.

Definition family_ok (net : NetworkSnapshot) (addr : IpAddr) : bool :=
  match addr with
  | V4 _ => negb (bool_decide (net_v4 net = FamilyUnusable))
  | V6 _ => negb (bool_decide (net_v6 net = FamilyUnusable))
  end.

(** By score, then by position. *)
Definition cand_leb (a b : Candidate) : bool :=
  (f64_key (cd_score a) <? f64_key (cd_score b))
  || ((f64_key (cd_score a) =? f64_key (cd_score b)) && (cd_idx a <=? cd_idx b)%nat).

Definition in_bucket (b : Bucket) (cs : list Candidate) : list Candidate :=
  List.filter (λ c, bool_decide (cd_bucket c = b)) cs.

Definition swap_first_two {A} (l : list A) : list A :=
  match l with a :: b :: l => b :: a :: l | _ => l end.

Section ranking.
Context {FL : FloatLib}.

Definition ticked (g : UpstreamGroup) (now : Instant) (seed : Z) (idx : nat) (r : Route) : Route :=
  with_health r (λ h, tick h now (gr_scheduler g) (Z.lxor seed (Z.of_nat idx))).

Definition eligible (include_companions : bool) (r : Route) : bool :=
  negb (rt_stream_companion r) || include_companions.

Definition bucket_of (net : NetworkSnapshot) (r : Route) : Bucket :=
  if negb (family_ok net (rk_addr (rt_key r))) then FamilyExcluded
  else if is_usable (rt_health r) then Ready else Degraded.

(** The candidate of a ticked route. *)
Definition candidate_of (net : NetworkSnapshot) (idx : nat) (r : Route) : Candidate :=
  mk_Candidate (f64_add (score (rt_health r) (rt_weight r)) (proxy_penalty r)) idx (rt_weight r)
    (is_measured (rt_health r)) (bucket_of net r).

(** The routes after the ranking pass: the eligible ones have been ticked. *)
Definition tick_all (g : UpstreamGroup) (now : Instant) (seed : Z) (include_companions : bool)
    : list Route :=
  imap (λ idx r, if eligible include_companions r then ticked g now seed idx r else r)
    (gr_routes g).

Definition candidates (net : NetworkSnapshot) (include_companions : bool) (routes : list Route)
    : list Candidate :=
  omap id (imap (λ idx r, if eligible include_companions r
                          then Some (candidate_of net idx r) else None) routes).

(** A route nobody has measured is priced at the median of the measured ones. *)
Definition reprice (cs : list Candidate) : list Candidate :=
  let measured := stable_sort f64_total_leb (cd_score <$> List.filter cd_measured cs) in
  match measured !! (length measured / 2)%nat with
  | None => cs
  | Some median =>
      (λ c, if cd_measured c then c
            else mk_Candidate (f64_add median (weight_bias (cd_weight c))) (cd_idx c)
                   (cd_weight c) (cd_measured c) (cd_bucket c)) <$> cs
  end.

(** The bucket that is offered: the ready routes, else the degraded, else the
    excluded ones. *)
Definition offered (cs : list Candidate) : list Candidate :=
  match in_bucket Ready cs, in_bucket Degraded cs with
  | [], [] => in_bucket FamilyExcluded cs
  | [], degraded => degraded
  | ready, _ => ready
  end.

Definition effective_explore_rate (cfg : SchedulerConfig) (relearn : bool) : f64 :=
  if relearn then f64_min (f64_mul (explore_rate cfg) RELEARN_EXPLORE_MULTIPLIER) MAX_EXPLORE_RATE
  else explore_rate cfg.

Definition rank_inner (net : NetworkSnapshot) (relearn : bool) (now : Instant)
    (g : UpstreamGroup) (seed : Z) (include_companions : bool) : list nat * list Route :=
  let routes := tick_all g now seed include_companions in
  let cs := reprice (candidates net include_companions routes) in
  let ranked := cd_idx <$> stable_sort cand_leb (offered cs) in
  let rate := effective_explore_rate (gr_scheduler g) relearn in
  let explore := (1 <? length ranked)%nat && f64_ltb f64_zero rate
                 && f64_ltb (unit_from_seed seed) rate in
  (if explore then swap_first_two ranked else ranked, routes).

End ranking.

Definition in_relearn_window (window : Duration) (net : NetworkSnapshot) (now_unix : Z) : bool :=
  if window =? 0 then false else net_in_relearn_window net now_unix (as_secs window).

(** ** One attempt *)

Inductive PermitPolicy : Set := Queue | Shed.

(** Why an attempt failed. *)
Inductive Detail : Type :=
| NoDetail
| NoAttemptCompleted
| ShedAtCeiling
| TransportDetail (text : str)
| QuestionMismatch
| NotAReply
| OpcodeMismatch
| CookieMismatch
| UpstreamReturned (code : ResponseCode).

Definition CANCELLED_EXCHANGE_GRACE : Duration := from_millis 100.

(** [ExchangeGuard::drop]: how long a slot is kept after the guard goes. *)
Definition held_after_drop (completed : bool) (terminal now : Instant) : Duration :=
  if completed then 0 else Z.min (since terminal now) CANCELLED_EXCHANGE_GRACE.

Section attempts.
Context {Name : Type} {NLib : NameLib Name} {OL : OptLib}.

Record AttemptResult : Type := mk_AttemptResult {
  ar_outcome : option AttemptOutcome;
  ar_latency : option Duration;
  ar_message : option (Message Name);
  ar_detail : Detail
}.

Definition shed_result : AttemptResult := mk_AttemptResult None None None ShedAtCeiling.

Definition response_code_ok (c : ResponseCode) : bool :=
  match c with NoError | NXDomain => true | _ => false end.

Definition cookie_ok (response : Message Name) (route : Route) (client_cookie : str) : bool :=
  match edns response with
  | Some e =>
      if rt_cookies_enabled route then
        match opt_get (e_options e) COOKIE_OPTION_CODE with
        | Some _ =>
            match extract_server_cookie response client_cookie with Some _ => true | None => false end
        | None => true
        end
      else true
  | None => true
  end.

Definition validate_response (request response : Message Name) (route : Route)
    (client_cookie : str) : result (AttemptOutcome * Detail) () :=
  if negb (question_matches request response) then Err (Malformed, QuestionMismatch)
  else if negb (bool_decide (m_message_type (metadata response) = MtResponse))
  then Err (Malformed, NotAReply)
  else if negb (bool_decide (m_op_code (metadata response) = m_op_code (metadata request)))
  then Err (Malformed, OpcodeMismatch)
  else if negb (cookie_ok response route client_cookie) then Err (Malformed, CookieMismatch)
  else if response_code_ok (m_response_code (metadata response)) then Ok tt
  else Err (ServerFailure, UpstreamReturned (m_response_code (metadata response))).

(** What an attempt observes: the time left at its three readings, whether a
    permit is granted within a wait, and what the transport returns within a
    timeout. *)
Record AttemptEnv : Type := mk_AttemptEnv {
  ae_left_before_delay : Duration;
  ae_left_before_permit : Duration;
  ae_permit : PermitPolicy -> Duration -> bool;
  ae_left_before_send : Duration;
  ae_send : Message Name -> Duration -> result (AttemptOutcome * str) (Message Name * Duration)
}.

(** The request with the route's cookie in its OPT record. *)
Definition outgoing (route : Route) (message : Message Name) : Message Name :=
  if rt_cookies_enabled route then
    insert_option message
      (match ck_server (rt_cookie route) with
       | Some ((_ :: _) as server) => encode_full_cookie (ck_client (rt_cookie route)) server
       | _ => encode_client_cookie (ck_client (rt_cookie route))
       end)
  else message.

(** The half-open slot is reserved before the send and released at the end. *)
Definition reserve_and_release (h : RouteHealth) : RouteHealth :=
  let '(taken, h) := begin_attempt h in if taken then release_attempt h else h.

Definition learn_cookie (route : Route) (msg : Message Name) : Route :=
  if rt_cookies_enabled route then
    match extract_server_cookie msg (ck_client (rt_cookie route)) with
    | Some server => set_server_cookie route (Some server)
    | None => route
    end
  else route.

(** The result, the route afterwards, and whether a hedge was charged. *)
Definition attempt (env : AttemptEnv) (route : Route) (message : Message Name)
    (attempt_cap delay : Duration) (is_hedge : bool) (policy : PermitPolicy)
    : AttemptResult * Route * bool :=
  if negb (delay =? 0) && (ae_left_before_delay env <=? delay) then (shed_result, route, false)
  else
    let wait_budget := Z.min attempt_cap (ae_left_before_permit env) in
    if wait_budget =? 0 then (shed_result, route, false)
    else if negb (ae_permit env policy wait_budget) then (shed_result, route, false)
    else
      let send_timeout := Z.min attempt_cap (ae_left_before_send env) in
      if send_timeout =? 0 then (shed_result, route, false)
      else
        let sent := outgoing route message in
        let done_route := with_health route reserve_and_release in
        match ae_send env sent send_timeout with
        | Err (outcome, detail) =>
            (mk_AttemptResult (Some outcome) None None (TransportDetail detail), done_route, is_hedge)
        | Ok (msg, latency) =>
            match validate_response sent msg route (ck_client (rt_cookie route)) with
            | Ok _ =>
                (mk_AttemptResult (Some Success) (Some latency) (Some msg) NoDetail,
                 learn_cookie done_route msg, is_hedge)
            | Err (outcome, detail) =>
                (mk_AttemptResult (Some outcome) (Some latency) None detail, done_route, is_hedge)
            end
        end.

End attempts.
Arguments AttemptResult Name : clear implicits.
Arguments AttemptEnv Name : clear implicits.

(** ** The resolution loop *)

Section resolve.
Context {Name : Type} {NLib : NameLib Name} {OL : OptLib} {FL : FloatLib}.

Record UpstreamAnswer : Type := mk_UpstreamAnswer {
  ua_message : Message Name;
  ua_route : RouteKey;
  ua_latency : Duration;
  ua_stream_retry : bool;
  ua_trust_ad : bool
}.

(** An attempt that has been started: its place in the ranking, its delay, whether
    it charges the hedge budget, and how it waits for a permit. *)
Record Started : Type := mk_Started {
  sa_pos : nat;
  sa_delay : Duration;
  sa_hedge : bool;
  sa_policy : PermitPolicy
}.

Record ResolveState : Type := mk_ResolveState {
  rs_pending : list nat;
  rs_attempted : list bool;
  rs_fanned_out : bool;
  rs_any_exchange : bool;
  rs_last_detail : Detail;
  rs_routes : list Route;
  rs_started : list Started
}.

(** What one resolution is given: the ranking, the routes, the configuration, the
    ceiling and the text of a detail. *)
Record ResolveCtx : Type := mk_ResolveCtx {
  rc_ranked : list nat;
  rc_cfg : SchedulerConfig;
  rc_capacity : Z;
  rc_detail_text : Detail -> str
}.

Definition route_at (ctx : ResolveCtx) (routes : list Route) (pos : nat) : option Route :=
  rc_ranked ctx !! pos ≫= λ i, routes !! i.

Definition authority_at (ctx : ResolveCtx) (routes : list Route) (pos : nat) : option str :=
  (λ r, rk_authority (rt_key r)) <$> route_at ctx routes pos.

(** The best-ranked route of another authority, else plain second place. *)
Definition hedge_index (ctx : ResolveCtx) (routes : list Route) : nat :=
  let primary := authority_at ctx routes 0 in
  default 1%nat (position (λ p, negb (bool_decide (authority_at ctx routes p = primary)))
                   (seq 0 (length (rc_ranked ctx)))).

Definition start (st : ResolveState) (a : Started) : ResolveState :=
  mk_ResolveState (rs_pending st ++ [sa_pos a]) (<[sa_pos a := true]> (rs_attempted st))
    (rs_fanned_out st) (rs_any_exchange st) (rs_last_detail st) (rs_routes st)
    (rs_started st ++ [a]).

(** The primary and, when it is admitted, the hedge. *)
Definition initial_state (ctx : ResolveCtx) (routes : list Route) (hedge_budget : HedgeBudget)
    (budget : Duration) : ResolveState :=
  let cfg := rc_cfg ctx in
  let st := mk_ResolveState [] (repeat false (length (rc_ranked ctx))) false false
              NoAttemptCompleted routes [] in
  let st := start st (mk_Started 0 0 false Queue) in
  if hedge_enabled cfg && (1 <? length (rc_ranked ctx))%nat
     && budget_allows hedge_budget (hedge_max_fraction cfg)
  then
    let delay := match route_at ctx routes 0 with
                 | Some r => hedge_delay (rt_health r) cfg
                 | None => 0
                 end in
    if delay <? budget then start st (mk_Started (hedge_index ctx routes) delay true Shed) else st
  else st.

(** The routes never started, in rank order, up to [emergency_fanout_max]. *)
Definition fan_out_positions (ctx : ResolveCtx) (st : ResolveState) : list nat :=
  take (emergency_fanout_max (rc_cfg ctx))
    (List.filter (λ p, match rs_attempted st !! p with Some a => negb a | None => false end)
       (seq 0 (length (rc_ranked ctx)))).

Definition set_fanned_out (st : ResolveState) : ResolveState :=
  mk_ResolveState (rs_pending st) (rs_attempted st) true (rs_any_exchange st)
    (rs_last_detail st) (rs_routes st) (rs_started st).

Definition fan_out (ctx : ResolveCtx) (st : ResolveState) : ResolveState :=
  fold_left (λ st p, start st (mk_Started p 0 false Shed)) (fan_out_positions ctx st)
    (set_fanned_out st).

(** [health.record] of the route at a position. *)
Definition record_outcome (ctx : ResolveCtx) (routes : list Route) (pos : nat)
    (outcome : AttemptOutcome) (latency : option Duration) (now : Instant) : list Route :=
  match rc_ranked ctx !! pos with
  | Some i => alter (λ r, with_health r (λ h, record h outcome latency now (rc_cfg ctx))) i routes
  | None => routes
  end.

(** What the loop awaits next. *)
Inductive Next : Type :=
| DeadlinePassed (elapsed_ms : Z)
| NothingPending
| Finished (pos : nat) (r : AttemptResult Name) (now : Instant)
    (expired : option Z) (retry : option UpstreamAnswer).

Inductive LoopStep : Type :=
| Continue (st : ResolveState)
| Return (r : result ResolveError UpstreamAnswer).

Definition answer_of (route : Route) (r : AttemptResult Name) (msg : Message Name) : UpstreamAnswer :=
  mk_UpstreamAnswer msg (rt_key route) (default 0 (ar_latency r)) false (rt_trust_ad route).

Definition finish_pending (st : ResolveState) (pos : nat) (any : bool) (detail : Detail)
    (routes : list Route) : ResolveState :=
  mk_ResolveState (List.filter (λ p, negb (p =? pos)%nat) (rs_pending st)) (rs_attempted st)
    (rs_fanned_out st) any detail routes (rs_started st).

(** One attempt has finished.  [expired] is the reading of the deadline after a
    primary was shed, [retry] what the stream retry of a truncated answer gave. *)
Definition on_finished (ctx : ResolveCtx) (st : ResolveState) (pos : nat) (r : AttemptResult Name)
    (now : Instant) (expired : option Z) (retry : option UpstreamAnswer) : LoopStep :=
  match ar_outcome r with
  | None =>
      if (pos =? 0)%nat then
        Return (Err (match expired with
                     | Some ms => Timeout ms
                     | None => Overloaded (rc_capacity ctx)
                     end))
      else Continue (finish_pending st pos (rs_any_exchange st) (ar_detail r) (rs_routes st))
  | Some outcome =>
      let routes := record_outcome ctx (rs_routes st) pos outcome (ar_latency r) now in
      let go_on := Continue (finish_pending st pos true (ar_detail r) routes) in
      match outcome, ar_message r, route_at ctx (rs_routes st) pos with
      | Success, Some msg, Some route =>
          if m_truncation (metadata msg) && negb (is_stream (rk_transport (rt_key route)))
          then Return (match retry with
                       | Some answer => Ok answer
                       | None => Err (InvalidResponse (lit "truncated UDP answer could not be retried over a stream transport"))
                       end)
          else Return (Ok (answer_of route r msg))
      | _, _, _ => go_on
      end
  end.

Definition on_nothing_pending (ctx : ResolveCtx) (st : ResolveState) : LoopStep :=
  let surrender :=
    Return (Err (if rs_any_exchange st then AllFailed (rc_detail_text ctx (rs_last_detail st))
                 else Overloaded (rc_capacity ctx))) in
  if emergency_fanout (rc_cfg ctx) && negb (rs_fanned_out st) then
    match fan_out_positions ctx st with
    | [] => surrender
    | _ => Continue (fan_out ctx st)
    end
  else surrender.

Definition loop_step (ctx : ResolveCtx) (st : ResolveState) (next : Next) : LoopStep :=
  match next with
  | DeadlinePassed ms => Return (Err (Timeout ms))
  | NothingPending => on_nothing_pending ctx st
  | Finished pos r now expired retry => on_finished ctx st pos r now expired retry
  end.

(** Which inputs are possible in a state. *)
Definition possible (st : ResolveState) (next : Next) : Prop :=
  match next with
  | DeadlinePassed _ => True
  | NothingPending => rs_pending st = []
  | Finished pos _ _ _ _ => pos ∈ rs_pending st
  end.

(** A run of the loop. *)
Inductive run (ctx : ResolveCtx) : ResolveState -> list Next -> LoopStep -> Prop :=
| run_nil st : run ctx st [] (Continue st)
| run_return st next r : possible st next -> loop_step ctx st next = Return r ->
    run ctx st [next] (Return r)
| run_continue st next st' rest out : possible st next -> loop_step ctx st next = Continue st' ->
    run ctx st' rest out -> run ctx st (next :: rest) out.

(** The whole call up to the loop: count the query, rank, start. *)
Definition resolve_begin (net : NetworkSnapshot) (relearn : bool) (now : Instant)
    (g : UpstreamGroup) (hb : HedgeBudget) (budget : Duration) (seed capacity : Z)
    (detail_text : Detail -> str)
    : result ResolveError (ResolveCtx * ResolveState) * HedgeBudget :=
  let hb := record_query hb in
  let '(ranked, routes) := rank_inner net relearn now g seed false in
  match ranked with
  | [] => (Err (NoRoute (gr_name g)), hb)
  | _ =>
      let ctx := mk_ResolveCtx ranked (gr_scheduler g) capacity detail_text in
      (Ok (ctx, initial_state ctx routes hb budget), hb)
  end.

(** ** Single attempts

    [record] on the route at an index, for an attempt that reached it. *)
Definition note_attempt (cfg : SchedulerConfig) (routes : list Route) (i : nat)
    (r : AttemptResult Name) (now : Instant) : list Route :=
  match ar_outcome r with
  | Some outcome => alter (λ rt, with_health rt (λ h, record h outcome (ar_latency r) now cfg)) i routes
  | None => routes
  end.

(** Truncation retry: at most two stream routes, each charged against the same
    deadline.  The inputs are, for each candidate, whether the deadline has
    passed, the result and when it was recorded. *)
Fixpoint stream_retry (cfg : SchedulerConfig) (routes : list Route)
    (tries : list (bool * AttemptResult Name * Instant)) (candidates : list nat)
    : option UpstreamAnswer * list Route :=
  match candidates, tries with
  | i :: candidates, (expired, r, now) :: tries =>
      if expired then (None, routes)
      else
        let routes := note_attempt cfg routes i r now in
        match ar_outcome r, ar_message r, routes !! i with
        | Some Success, Some msg, Some route =>
            (Some (mk_UpstreamAnswer msg (rt_key route) (default 0 (ar_latency r)) true
                     (rt_trust_ad route)), routes)
        | _, _, _ => stream_retry cfg routes tries candidates
        end
  | _, _ => (None, routes)
  end.

Definition stream_candidates (routes : list Route) (ranked : list nat) : list nat :=
  take 2 (List.filter (λ i, match routes !! i with
                            | Some r => is_stream (rk_transport (rt_key r))
                            | None => false
                            end) ranked).

(** A second opinion: a route of another authority whose role is independent. *)
Definition independent_of (routes : list Route) (exclude : str) (i : nat) : bool :=
  match routes !! i with
  | Some r => negb (str_eqb (rk_authority (rt_key r)) exclude) && is_independent (rk_role (rt_key r))
  | None => false
  end.

Definition pair_routes (routes : list Route) (ranked : list nat) : option (nat * nat) :=
  first ← head ranked;
  r ← routes !! first;
  second ← find_first (independent_of routes (rk_authority (rt_key r))) ranked;
  Some (first, second).

(** What one attempt without a retry contributes. *)
Definition sole_answer (routes : list Route) (i : nat) (r : AttemptResult Name)
    : option UpstreamAnswer :=
  match ar_outcome r, ar_message r, routes !! i with
  | Some Success, Some msg, Some route => Some (answer_of route r msg)
  | _, _, _ => None
  end.

Definition resolve_pair (cfg : SchedulerConfig) (routes : list Route) (ranked : list nat)
    (budget : Duration) (results : nat -> AttemptResult Name * Instant)
    : option (UpstreamAnswer * UpstreamAnswer) * list Route :=
  if budget =? 0 then (None, routes)
  else
    match pair_routes routes ranked with
    | None => (None, routes)
    | Some (i, j) =>
        let routes := note_attempt cfg routes i (results i).1 (results i).2 in
        let routes := note_attempt cfg routes j (results j).1 (results j).2 in
        (match sole_answer routes i (results i).1, sole_answer routes j (results j).1 with
         | Some a, Some b => Some (a, b)
         | _, _ => None
         end, routes)
    end.

Definition corroborate (cfg : SchedulerConfig) (routes : list Route) (ranked : list nat)
    (exclude : str) (budget : Duration) (results : nat -> AttemptResult Name * Instant)
    : option UpstreamAnswer * list Route :=
  if budget =? 0 then (None, routes)
  else
    match find_first (independent_of routes exclude) ranked with
    | None => (None, routes)
    | Some i =>
        let routes := note_attempt cfg routes i (results i).1 (results i).2 in
        (sole_answer routes i (results i).1, routes)
    end.

End resolve.
Arguments UpstreamAnswer Name : clear implicits.
Arguments Next Name : clear implicits.
Arguments LoopStep Name : clear implicits.

(** ** Ranking, proved *)

Section ranking_proofs.
Context {FL : FloatLib}.

Definition bucket_rank (b : Bucket) : nat :=
  match b with Ready => 0 | Degraded => 1 | FamilyExcluded => 2 end.

Lemma candidates_elem net incl routes c :
  c ∈ candidates net incl routes <->
  ∃ i r, routes !! i = Some r ∧ eligible incl r = true ∧ c = candidate_of net i r.
Proof.
  unfold candidates. rewrite list_elem_of_omap. split.
  - intros (o & Ho & Hc). cbn in Hc. subst o. apply elem_of_lookup_imap in Ho as (i & r & Heq & Hr).
    exists i, r. case_match; simplify_eq. done.
  - intros (i & r & Hr & He & ->). exists (Some (candidate_of net i r)). split; [|done].
    apply elem_of_lookup_imap. exists i, r. by rewrite He.
Qed.

Lemma candidates_from_NoDup net incl routes k :
  NoDup (cd_idx <$> omap id (imap (λ idx r, if eligible incl r
    then Some (candidate_of net (k + idx) r) else None) routes))
  ∧ ∀ c, c ∈ omap id (imap (λ idx r, if eligible incl r
    then Some (candidate_of net (k + idx) r) else None) routes) -> (k <= cd_idx c)%nat.
Proof.
  revert k. induction routes as [|r routes IH]; intros k; cbn; [split; [constructor|set_solver]|].
  destruct (IH (S k)) as [Hnd Hge].
  assert (imap ((λ idx r, if eligible incl r then Some (candidate_of net (k + idx) r) else None) ∘ S) routes
    = imap (λ idx r, if eligible incl r then Some (candidate_of net (S k + idx) r) else None) routes) as ->.
  { apply imap_ext. intros i x _. cbn. by rewrite Nat.add_succ_r. }
  destruct (eligible incl r); cbn.
  - split.
    + apply NoDup_cons. split; [|done]. intros (c & Heq & Hc)%list_elem_of_fmap.
      apply Hge in Hc. cbn in Heq. lia.
    + intros c [->|Hc]%elem_of_cons; [cbn; lia|]. apply Hge in Hc. lia.
  - split; [done|]. intros c Hc%Hge. lia.
Qed.

Lemma candidates_NoDup net incl routes : NoDup (cd_idx <$> candidates net incl routes).
Proof. apply (candidates_from_NoDup net incl routes 0). Qed.

(** Repricing changes scores only. *)
Lemma reprice_keys cs :
  (λ c, (cd_idx c, cd_bucket c)) <$> reprice cs = (λ c, (cd_idx c, cd_bucket c)) <$> cs.
Proof.
  unfold reprice. case_match; [|done]. rewrite <- list_fmap_compose. apply list_fmap_ext.
  intros i c _. cbn. by destruct (cd_measured c).
Qed.

Lemma in_bucket_keys b cs :
  cd_idx <$> in_bucket b cs
  = fst <$> List.filter (λ k, bool_decide (k.2 = b)) ((λ c, (cd_idx c, cd_bucket c)) <$> cs).
Proof.
  induction cs as [|c cs IH]; cbn; [done|]. unfold in_bucket in *. cbn.
  case_bool_decide; cbn; by rewrite IH.
Qed.

Lemma offered_keys cs cs' :
  (λ c, (cd_idx c, cd_bucket c)) <$> cs = (λ c, (cd_idx c, cd_bucket c)) <$> cs' ->
  cd_idx <$> offered cs = cd_idx <$> offered cs'.
Proof.
  intros Heq.
  assert (∀ b, cd_idx <$> in_bucket b cs = cd_idx <$> in_bucket b cs') as Hb
    by (intros b; by rewrite !in_bucket_keys, Heq).
  unfold offered. pose proof (Hb Ready) as H1. pose proof (Hb Degraded) as H2.
  destruct (in_bucket Ready cs), (in_bucket Ready cs'); try done.
  destruct (in_bucket Degraded cs), (in_bucket Degraded cs'); try done.
Qed.

Lemma in_bucket_elem b cs c : c ∈ in_bucket b cs <-> c ∈ cs ∧ cd_bucket c = b.
Proof.
  unfold in_bucket. rewrite list_elem_of_In, filter_In, <- list_elem_of_In.
  by rewrite bool_decide_eq_true.
Qed.

Lemma in_bucket_nil b cs c : in_bucket b cs = [] -> c ∈ cs -> cd_bucket c ≠ b.
Proof.
  intros Hnil Hc Hb. assert (c ∈ in_bucket b cs) as Hin by by apply in_bucket_elem.
  rewrite Hnil in Hin. by apply not_elem_of_nil in Hin.
Qed.

Lemma in_bucket_cons b cs x xs : in_bucket b cs = x :: xs -> x ∈ cs ∧ cd_bucket x = b.
Proof. intros Heq. apply in_bucket_elem. rewrite Heq. set_solver. Qed.

Lemma offered_elem cs c :
  c ∈ offered cs <->
  c ∈ cs ∧ ∀ c', c' ∈ cs -> (bucket_rank (cd_bucket c) <= bucket_rank (cd_bucket c'))%nat.
Proof.
  unfold offered.
  destruct (in_bucket Ready cs) as [|r rs] eqn:E1;
    [destruct (in_bucket Degraded cs) as [|d ds] eqn:E2|].
  - pose proof (λ x Hx, in_bucket_nil _ _ x E1 Hx) as N1.
    pose proof (λ x Hx, in_bucket_nil _ _ x E2 Hx) as N2. rewrite in_bucket_elem. split.
    + intros [Hc Hb]. split; [done|]. intros c' Hc'. rewrite Hb.
      specialize (N1 c' Hc'). specialize (N2 c' Hc'). by destruct (cd_bucket c').
    + intros [Hc _]. split; [done|]. specialize (N1 c Hc). specialize (N2 c Hc).
      by destruct (cd_bucket c).
  - pose proof (λ x Hx, in_bucket_nil _ _ x E1 Hx) as N1.
    destruct (in_bucket_cons _ _ _ _ E2) as [Hd Hdb]. rewrite <- E2, in_bucket_elem. split.
    + intros [Hc Hb]. split; [done|]. intros c' Hc'. rewrite Hb. specialize (N1 c' Hc').
      destruct (cd_bucket c'); cbn; [done|lia..].
    + intros [Hc Hmin]. split; [done|]. specialize (Hmin d Hd). rewrite Hdb in Hmin.
      specialize (N1 c Hc). destruct (cd_bucket c); cbn in Hmin; [done|done|lia].
  - destruct (in_bucket_cons _ _ _ _ E1) as [Hr Hrb]. rewrite <- E1, in_bucket_elem. split.
    + intros [Hc Hb]. split; [done|]. intros c' Hc'. rewrite Hb. cbn. lia.
    + intros [Hc Hmin]. split; [done|]. specialize (Hmin r Hr). rewrite Hrb in Hmin.
      destruct (cd_bucket c); cbn in Hmin; [done|lia..].
Qed.

Lemma swap_first_two_perm {A} (l : list A) : swap_first_two l ≡ₚ l.
Proof. destruct l as [|a [|b l]]; [done..|]. constructor. Qed.

Lemma rank_inner_perm net relearn now g seed incl :
  (rank_inner net relearn now g seed incl).1
  ≡ₚ cd_idx <$> offered (candidates net incl (tick_all g now seed incl)).
Proof.
  unfold rank_inner. cbn [fst].
  rewrite <- (offered_keys (reprice (candidates net incl (tick_all g now seed incl)))
    (candidates net incl (tick_all g now seed incl))) by apply reprice_keys.
  case_match; [rewrite swap_first_two_perm|]; apply fmap_Permutation, stable_sort_perm.
Qed.

Lemma offered_nonempty cs : cs ≠ [] -> offered cs ≠ [].
Proof.
  intros Hne. destruct cs as [|c cs]; [done|].
  unfold offered. destruct (in_bucket Ready (c :: cs)) eqn:E1; [|done].
  destruct (in_bucket Degraded (c :: cs)) eqn:E2; [|done]. intros E3.
  assert (c ∈ c :: cs) as Hc by set_solver.
  pose proof (in_bucket_nil _ _ c E1 Hc). pose proof (in_bucket_nil _ _ c E2 Hc).
  pose proof (in_bucket_nil _ _ c E3 Hc). by destruct (cd_bucket c).
Qed.

Lemma offered_NoDup cs : NoDup (cd_idx <$> cs) -> NoDup (cd_idx <$> offered cs).
Proof.
  intros Hnd.
  assert (∀ b, NoDup (cd_idx <$> in_bucket b cs)) as Hb.
  { intros b. unfold in_bucket. clear -Hnd. induction cs as [|c cs IH]; [constructor|].
    cbn in *. apply NoDup_cons in Hnd as [Hc Hnd]. destruct (bool_decide _); [|by apply IH].
    cbn. apply NoDup_cons. split; [|by apply IH]. intros (x & Hx & Hin)%list_elem_of_fmap.
    apply Hc. rewrite Hx. apply list_elem_of_fmap_2.
    by apply list_elem_of_In, filter_In in Hin as [?%list_elem_of_In _]. }
  unfold offered. pose proof (Hb Ready) as H1. pose proof (Hb Degraded) as H2.
  destruct (in_bucket Ready cs); [|done]. destruct (in_bucket Degraded cs); done.
Qed.

(** Availability outranks the breaker: a group with an eligible route always
    ranks one.  What is ranked, each route once, is exactly the best bucket that
    has any: the usable routes of a working family; when there is none, those whose
    circuit is open; and only then those of a family that reads as down. *)
Theorem ranking_offers_best_bucket net relearn now g seed incl ranked routes :
  rank_inner net relearn now g seed incl = (ranked, routes) ->
  NoDup ranked
  ∧ (∀ i, i ∈ ranked <->
      ∃ r, routes !! i = Some r ∧ eligible incl r = true
        ∧ ∀ j r', routes !! j = Some r' -> eligible incl r' = true ->
          (bucket_rank (bucket_of net r) <= bucket_rank (bucket_of net r'))%nat)
  ∧ ((∃ i r, routes !! i = Some r ∧ eligible incl r = true) -> ranked ≠ []).
Proof.
  intros Hrank. pose proof (rank_inner_perm net relearn now g seed incl) as Hp.
  rewrite Hrank in Hp. cbn [fst] in Hp.
  assert (routes = tick_all g now seed incl) as Hr by (unfold rank_inner in Hrank; congruence).
  rewrite <- Hr in Hp. clear Hrank Hr. split_and!.
  - rewrite Hp. apply offered_NoDup, candidates_NoDup.
  - intros i. rewrite Hp, list_elem_of_fmap. split.
    + intros (c & -> & [Hc Hmin]%offered_elem). apply candidates_elem in Hc as (k & r & Hk & He & ->).
      exists r. split_and!; [done..|]. intros j r' Hj He'.
      apply (Hmin (candidate_of net j r')). apply candidates_elem. eauto 10.
    + intros (r & Hi & He & Hmin). exists (candidate_of net i r). split; [done|].
      apply offered_elem. split; [apply candidates_elem; eauto 10|].
      intros c' (j & r' & Hj & He' & ->)%candidates_elem. by apply (Hmin j).
  - intros (i & r & Hi & He) Hnil. rewrite Hnil in Hp. symmetry in Hp.
    apply Permutation_nil_r, fmap_nil_inv in Hp. apply (offered_nonempty (candidates net incl routes)); [|done].
    assert (candidate_of net i r ∈ candidates net incl routes) as Hin by (apply candidates_elem; eauto 10).
    intros Hnil'. rewrite Hnil' in Hin. by apply not_elem_of_nil in Hin.
Qed.

End ranking_proofs.

(** ** Attempts, proved *)

Section attempt_proofs.
Context {Name : Type} {NLib : NameLib Name} {OL : OptLib}.

(** A response that may be used for a request. *)
Definition acceptable (request msg : Message Name) : Prop :=
  question_matches request msg = true
  ∧ m_message_type (metadata msg) = MtResponse
  ∧ m_op_code (metadata msg) = m_op_code (metadata request)
  ∧ (m_response_code (metadata msg) = NoError ∨ m_response_code (metadata msg) = NXDomain).

Lemma outgoing_same route (message : Message Name) :
  queries (outgoing route message) = queries message
  ∧ metadata (outgoing route message) = metadata message.
Proof. unfold outgoing, insert_option. repeat case_match; done. Qed.

Lemma validate_response_ok request msg route ck :
  validate_response request msg route ck = Ok tt ->
  acceptable request msg ∧ cookie_ok msg route ck = true.
Proof.
  unfold validate_response. intros H. repeat case_match; simplify_eq. bool_to_prop.
  unfold acceptable, response_code_ok in *. repeat case_match; naive_solver.
Qed.

Lemma acceptable_outgoing route request msg :
  acceptable (outgoing route request) msg -> acceptable request msg.
Proof.
  unfold acceptable, question_matches. destruct (outgoing_same route request) as [-> ->]. done.
Qed.

Lemma attempt_message env route request cap delay hedge policy r route' b msg :
  attempt env route request cap delay hedge policy = (r, route', b) -> ar_message r = Some msg ->
  ar_outcome r = Some Success ∧ acceptable request msg
  ∧ cookie_ok msg route (ck_client (rt_cookie route)) = true.
Proof.
  unfold attempt. intros H Hm. repeat case_match; simplify_eq/=.
  match goal with H : validate_response _ _ _ _ = Ok ?u |- _ =>
    destruct u; destruct (validate_response_ok _ _ _ _ H) as [Ha Hc] end.
  split_and!; [done| |done]. by eapply acceptable_outgoing.
Qed.

(** An attempt hands on a message only when the exchange succeeded and the
    response answers the question that was sent, is a reply with our opcode, says
    NOERROR or NXDOMAIN and, where a cookie came back, echoes ours; an attempt shed
    before sending leaves the route and the hedge budget untouched. *)
Theorem attempt_result_sound env route request cap delay hedge policy r route' b :
  attempt env route request cap delay hedge policy = (r, route', b) ->
  (∀ msg, ar_message r = Some msg ->
     ar_outcome r = Some Success ∧ acceptable request msg
     ∧ cookie_ok msg route (ck_client (rt_cookie route)) = true)
  ∧ (ar_outcome r = None -> route' = route ∧ b = false).
Proof.
  intros H. split; [intros msg; by eapply attempt_message|].
  unfold attempt in H. intros Hn. repeat case_match; by simplify_eq/=.
Qed.

End attempt_proofs.

(** ** The loop, proved *)

Section loop_proofs.
Context {Name : Type} {NLib : NameLib Name} {OL : OptLib} {FL : FloatLib}.
Implicit Types st : ResolveState.

Definition positions st : list nat := sa_pos <$> rs_started st.

Record loop_inv (ctx : ResolveCtx) st : Prop := {
  li_distinct : NoDup (positions st);
  li_attempted : ∀ p, p ∈ positions st <-> rs_attempted st !! p = Some true;
  li_length : length (rs_attempted st) = length (rc_ranked ctx);
  li_started : (1 <= length (rs_started st)
                <= 2 + if rs_fanned_out st then emergency_fanout_max (rc_cfg ctx) else 0)%nat;
  li_exhausted : rs_fanned_out st = true ->
    (∀ p, (p < length (rc_ranked ctx))%nat -> p ∈ positions st)
    ∨ (emergency_fanout_max (rc_cfg ctx) < length (rs_started st))%nat
}.

(** Starting an attempt at a fresh position. *)
Definition fresh_at st (p : nat) : Prop := rs_attempted st !! p = Some false.

Lemma start_positions st a : positions (start st a) = positions st ++ [sa_pos a].
Proof. unfold positions, start. cbn. by rewrite fmap_app. Qed.

Lemma start_attempted st a p :
  fresh_at st (sa_pos a) ->
  rs_attempted (start st a) !! p = Some true <-> p = sa_pos a ∨ rs_attempted st !! p = Some true.
Proof.
  intros Hf. unfold start. cbn. destruct (decide (p = sa_pos a)) as [->|Hne].
  - rewrite list_lookup_insert_eq; [naive_solver|]. eapply lookup_lt_Some, Hf.
  - rewrite list_lookup_insert_ne by done. naive_solver.
Qed.

(** The part of the invariant that one start preserves. *)
Definition tracked_ok (n : nat) st : Prop :=
  NoDup (positions st) ∧ (∀ p, p ∈ positions st <-> rs_attempted st !! p = Some true)
  ∧ length (rs_attempted st) = n.

Lemma tracked_start n st a : tracked_ok n st -> fresh_at st (sa_pos a) -> tracked_ok n (start st a).
Proof.
  intros (Hnd & Ha & Hl) Hf. split_and!.
  - rewrite start_positions. apply NoDup_app. split_and!; [done| |apply NoDup_singleton].
    intros p Hp ->%list_elem_of_singleton. apply Ha in Hp. unfold fresh_at in Hf. congruence.
  - intros p. rewrite start_positions, elem_of_app, list_elem_of_singleton, start_attempted by done.
    rewrite Ha. tauto.
  - unfold start. cbn. by rewrite length_insert.
Qed.

Lemma start_all n ps st :
  tracked_ok n st -> NoDup ps -> (∀ p, p ∈ ps -> fresh_at st p) ->
  let st' := fold_left (λ st p, start st (mk_Started p 0 false Shed)) ps st in
  tracked_ok n st' ∧ positions st' = positions st ++ ps
  ∧ length (rs_started st') = (length (rs_started st) + length ps)%nat
  ∧ rs_fanned_out st' = rs_fanned_out st ∧ rs_pending st' = rs_pending st ++ ps.
Proof.
  intros Ht Hnd. revert st Ht.
  induction Hnd as [|p ps Hp Hnd IH]; intros st Ht Hf; cbn.
  { rewrite !app_nil_r. split_and!; [apply Ht..|done|lia|done|done]. }
  destruct (IH (start st (mk_Started p 0 false Shed))) as (A & B & C & D & E).
  - apply tracked_start; [done|]. apply Hf. set_solver.
  - intros q Hq. unfold fresh_at, start. cbn. rewrite list_lookup_insert_ne; [apply Hf; set_solver|].
    intros ->. done.
  - split; [exact A|]. split_and!.
    + rewrite B, start_positions, <- app_assoc. done.
    + rewrite C. cbn. rewrite length_app. cbn. lia.
    + done.
    + rewrite E. cbn. by rewrite <- app_assoc.
Qed.

Lemma fan_out_positions_fresh ctx st p : p ∈ fan_out_positions ctx st -> fresh_at st p.
Proof.
  unfold fan_out_positions. intros Hp.
  assert (p ∈ List.filter (λ p, match rs_attempted st !! p with Some a => negb a | None => false end)
    (seq 0 (length (rc_ranked ctx)))) as Hin.
  { eapply elem_of_submseteq; [exact Hp|]. apply sublist_submseteq, sublist_take. }
  apply list_elem_of_In, filter_In in Hin as [_ Hin]. unfold fresh_at.
  destruct (rs_attempted st !! p) as [[]|]; done.
Qed.

Lemma fan_out_positions_NoDup ctx st : NoDup (fan_out_positions ctx st).
Proof.
  eapply sublist_NoDup; [|apply sublist_take].
  apply NoDup_ListNoDup, List.NoDup_filter, NoDup_ListNoDup, NoDup_seq.
Qed.

(** Fewer than the maximum means every route has been started. *)
Lemma fan_out_positions_short ctx st :
  length (rs_attempted st) = length (rc_ranked ctx) ->
  (length (fan_out_positions ctx st) < emergency_fanout_max (rc_cfg ctx))%nat ->
  ∀ p, (p < length (rc_ranked ctx))%nat -> p ∈ fan_out_positions ctx st ∨ rs_attempted st !! p = Some true.
Proof.
  intros Hl Hs p Hp. destruct (lookup_lt_is_Some_2 (rs_attempted st) p) as [[] Ha]; [lia|by right|left].
  unfold fan_out_positions in *. rewrite length_take in Hs. rewrite take_ge by lia.
  apply list_elem_of_In, filter_In. split; [apply in_seq; lia|]. by rewrite Ha.
Qed.

Lemma fan_out_positions_le ctx st :
  (length (fan_out_positions ctx st) <= emergency_fanout_max (rc_cfg ctx))%nat
  ∧ (length (fan_out_positions ctx st) <= length (rc_ranked ctx))%nat.
Proof.
  unfold fan_out_positions. rewrite length_take. split; [lia|].
  etransitivity; [apply Nat.le_min_r|]. etransitivity; [apply filter_length_le|].
  by rewrite length_seq.
Qed.

Lemma hedge_index_ok ctx routes :
  (1 < length (rc_ranked ctx))%nat ->
  hedge_index ctx routes ≠ 0%nat ∧ (hedge_index ctx routes < length (rc_ranked ctx))%nat.
Proof.
  intros Hl. unfold hedge_index.
  destruct (position _ _) as [i|] eqn:E; cbn; [|lia].
  apply position_Some in E as (p & Hp & Hq).
  apply lookup_seq in Hp as [Hp Hlt]. cbn in Hp. subst p. split; [|done].
  intros ->. rewrite bool_decide_eq_true_2 in Hq; done.
Qed.

Lemma initial_inv ctx routes hb budget :
  rc_ranked ctx ≠ [] ->
  loop_inv ctx (initial_state ctx routes hb budget)
  ∧ rs_fanned_out (initial_state ctx routes hb budget) = false
  ∧ (length (rs_pending (initial_state ctx routes hb budget)) <= 2)%nat.
Proof.
  intros Hne. unfold initial_state.
  set (s0 := mk_ResolveState [] _ _ _ _ _ _). set (s1 := start s0 _).
  assert (0 < length (rc_ranked ctx))%nat by (destruct (rc_ranked ctx); cbn; [done|lia]).
  assert (∀ p, (p < length (rc_ranked ctx))%nat -> fresh_at s0 p) as Hfresh.
  { intros p Hp. unfold fresh_at, s0. cbn.
    destruct (lookup_lt_is_Some_2 (repeat false (length (rc_ranked ctx))) p) as [b Hb];
      [by rewrite repeat_length|].
    rewrite Hb. apply list_elem_of_lookup_2, list_elem_of_In, repeat_spec in Hb. by subst. }
  assert (tracked_ok (length (rc_ranked ctx)) s0) as H0.
  { split_and!; [constructor| |unfold s0; cbn; apply repeat_length].
    intros p. unfold positions, s0. cbn. split; [by intros ?%not_elem_of_nil|].
    intros Hp%list_elem_of_lookup_2%list_elem_of_In%repeat_spec. done. }
  assert (tracked_ok (length (rc_ranked ctx)) s1) as H1 by (apply tracked_start; [done|by apply Hfresh]).
  assert (∀ st, tracked_ok (length (rc_ranked ctx)) st -> rs_fanned_out st = false ->
    (1 <= length (rs_started st) <= 2)%nat -> loop_inv ctx st) as Hmk.
  { intros st (A & B & C) Hf Hlen. split; [done|done|done|rewrite Hf; lia|by rewrite Hf]. }
  assert (loop_inv ctx s1 ∧ rs_fanned_out s1 = false ∧ (length (rs_pending s1) <= 2)%nat) as Hs1
    by (split_and!; [apply Hmk; [done|done|cbn; lia]|done|cbn; lia]).
  destruct (hedge_enabled _); cbn [andb]; [|done].
  destruct (Nat.ltb_spec 1 (length (rc_ranked ctx))); cbn [andb]; [|done].
  destruct (budget_allows _ _); [|done]. case_match; [|done].
  destruct (hedge_index_ok ctx routes) as [Hn0 Hlt]; [done|].
  split_and!; [|done|cbn; lia]. apply Hmk; [|done|cbn; lia].
  apply tracked_start; [done|]. unfold fresh_at, s1, start. cbn.
  rewrite list_lookup_insert_ne by done. by apply Hfresh.
Qed.

Definition loop_measure (ctx : ResolveCtx) st : nat :=
  length (rs_pending st) + if rs_fanned_out st then 0 else length (rc_ranked ctx) + 1.

Lemma finish_pending_step ctx st pos any d routes :
  loop_inv ctx st -> pos ∈ rs_pending st ->
  loop_inv ctx (finish_pending st pos any d routes)
  ∧ (loop_measure ctx (finish_pending st pos any d routes) < loop_measure ctx st)%nat.
Proof.
  intros [A B C D E] Hp. split; [by split|]. unfold loop_measure, finish_pending. cbn.
  apply Nat.add_lt_mono_r. apply list_elem_of_In, in_split in Hp as (l1 & l2 & ->).
  rewrite List.filter_app, !length_app. cbn. rewrite Nat.eqb_refl. cbn.
  pose proof (filter_length_le (λ p, negb (p =? pos)%nat) l1).
  pose proof (filter_length_le (λ p, negb (p =? pos)%nat) l2). lia.
Qed.

Lemma fan_out_step ctx st :
  loop_inv ctx st -> rs_fanned_out st = false -> rs_pending st = [] ->
  loop_inv ctx (fan_out ctx st) ∧ (loop_measure ctx (fan_out ctx st) < loop_measure ctx st)%nat.
Proof.
  intros [A B C D _] Hf Hp. rewrite Hf in D. unfold fan_out.
  destruct (start_all (length (rc_ranked ctx)) (fan_out_positions ctx st) (set_fanned_out st))
    as ((A' & B' & C') & Hpos & Hlen & Hf' & Hp');
    [by split_and!|apply fan_out_positions_NoDup|by intros p ?%fan_out_positions_fresh|].
  destruct (fan_out_positions_le ctx st) as [Hmax Hn]. cbn zeta in *. split.
  - split; [done|done|done| |].
    + rewrite Hlen, Hf'. cbn. lia.
    + intros _. rewrite Hlen, Hpos.
      destruct (decide (length (fan_out_positions ctx st) < emergency_fanout_max (rc_cfg ctx))%nat)
        as [Hs|Hs]; [left|right; cbn; lia].
      intros p Hlt. apply elem_of_app.
      destruct (fan_out_positions_short ctx st C Hs p Hlt) as [?|?]; [by right|left].
      by apply B.
  - unfold loop_measure. rewrite Hf', Hp', Hf. cbn. rewrite Hp. cbn. lia.
Qed.

Lemma loop_inv_step ctx st next st' :
  loop_inv ctx st -> possible st next -> loop_step ctx st next = Continue (Name := Name) st' ->
  loop_inv ctx st' ∧ (loop_measure ctx st' < loop_measure ctx st)%nat.
Proof.
  intros Hi Hp Hs. destruct next as [ms| |pos r now ex retry]; cbn in Hs, Hp.
  - done.
  - unfold on_nothing_pending in Hs. destruct (emergency_fanout _); [|done].
    destruct (rs_fanned_out st) eqn:Hf; [done|]. cbn in Hs.
    destruct (fan_out_positions ctx st); simplify_eq. by apply fan_out_step.
  - unfold on_finished in Hs. repeat case_match; simplify_eq; by apply finish_pending_step.
Qed.

Lemma run_inv ctx st evs (out : LoopStep Name) :
  loop_inv ctx st -> run ctx st evs out ->
  (length evs <= loop_measure ctx st + 1)%nat
  ∧ (∀ st', out = Continue st' -> loop_inv ctx st').
Proof.
  intros Hi Hr. induction Hr as [st|st next r Hp Hs|st next st1 rest out Hp Hs Hr IH].
  - split; [cbn; lia|]. by intros st' [= <-].
  - split; [cbn; lia|done].
  - destruct (loop_inv_step _ _ _ _ Hi Hp Hs) as [Hi' Hm]. destruct (IH Hi') as [IH1 IH2].
    split; [cbn; lia|done].
Qed.

(** C27. A resolution ends and is bounded: whatever finishes when, the loop returns
    within four steps more than there are ranked routes, no route is tried twice,
    and at most the primary, one hedge and [emergency_fanout_max] others are ever
    started. *)
Theorem resolution_bounded ctx routes hb budget evs (out : LoopStep Name) :
  rc_ranked ctx ≠ [] -> run ctx (initial_state ctx routes hb budget) evs out ->
  (length evs <= length (rc_ranked ctx) + 4)%nat
  ∧ (∀ st, out = Continue st ->
      NoDup (positions st) ∧ (length (rs_started st) <= 2 + emergency_fanout_max (rc_cfg ctx))%nat).
Proof.
  intros Hne Hr. destruct (initial_inv ctx routes hb budget Hne) as (Hi & Hf & Hp).
  destruct (run_inv ctx _ _ _ Hi Hr) as [Hlen Hinv]. unfold loop_measure in Hlen. rewrite Hf in Hlen.
  split; [lia|]. intros st Hst. destruct (Hinv st Hst) as [Hd _ _ Hs _].
  split; [done|]. case_match; lia.
Qed.

(** C28. A resolution gives up on its own only when nothing is left to try: with the
    emergency fan-out enabled, an error other than a timeout while nothing is
    pending means that every ranked route has been started or the fan-out allowance
    is spent; and when no attempt reached an upstream the error is overload, never a
    claim that the upstreams failed. *)
Theorem gives_up_only_when_exhausted ctx routes hb budget evs st e :
  rc_ranked ctx ≠ [] ->
  run (Name := Name) ctx (initial_state ctx routes hb budget) evs (Continue st) ->
  emergency_fanout (rc_cfg ctx) = true ->
  loop_step (Name := Name) ctx st NothingPending = Return (Err e) ->
  ((∀ p, (p < length (rc_ranked ctx))%nat -> p ∈ positions st)
   ∨ (emergency_fanout_max (rc_cfg ctx) < length (rs_started st))%nat)
  ∧ (rs_any_exchange st = false -> e = Overloaded (rc_capacity ctx)).
Proof.
  intros Hne Hr He Hs. destruct (initial_inv ctx routes hb budget Hne) as (Hi & _).
  destruct (run_inv ctx _ _ _ Hi Hr) as [_ Hinv]. destruct (Hinv st eq_refl) as [A B C D E].
  cbn in Hs. unfold on_nothing_pending in Hs. rewrite He in Hs. cbn [andb] in Hs. split.
  - destruct (rs_fanned_out st) eqn:Hf; [by apply E|]. cbn [negb] in Hs.
    destruct (fan_out_positions ctx st) as [|p ps] eqn:Ep; [|done].
    destruct (emergency_fanout_max (rc_cfg ctx)) as [|m] eqn:Em; [right; lia|left].
    intros p Hp. destruct (fan_out_positions_short ctx st C) with (p := p) as [Hin|Ha];
      [rewrite Ep, Em; cbn; lia|done|by rewrite Ep in Hin; apply not_elem_of_nil in Hin|by apply B].
  - intros Hx. rewrite Hx in Hs. repeat case_match; by simplify_eq.
Qed.

(** ** What is returned *)

(** A result that an attempt at the request produced. *)
Definition genuine_result (request : Message Name) (r : AttemptResult Name) : Prop :=
  ∃ env route cap delay hedge policy route' b,
    attempt env route request cap delay hedge policy = (r, route', b).

Definition genuine (ctx : ResolveCtx) (request : Message Name) (next : Next Name) : Prop :=
  match next with
  | Finished _ r _ _ retry =>
      genuine_result request r
      ∧ ∀ a, retry = Some a -> ∃ routes tries ranked,
          Forall (λ t, genuine_result request t.1.2) tries
          ∧ (stream_retry (rc_cfg ctx) routes tries (stream_candidates routes ranked)).1 = Some a
  | _ => True
  end.

Lemma genuine_acceptable request r msg :
  genuine_result request r -> ar_message r = Some msg -> acceptable request msg.
Proof. intros (env & rt & cap & d & h & p & rt' & b & Ha) Hm. by eapply attempt_message. Qed.

Lemma note_attempt_keys cfg routes i (r : AttemptResult Name) now :
  rt_key <$> note_attempt cfg routes i r now = rt_key <$> routes.
Proof.
  unfold note_attempt. destruct (ar_outcome r); [|done].
  apply list_eq. intros j. rewrite !list_lookup_fmap.
  destruct (decide (i = j)) as [->|Hne].
  - rewrite list_lookup_alter_eq. by destruct (routes !! j).
  - by rewrite list_lookup_alter_ne.
Qed.

Lemma stream_retry_sound cfg request routes tries cands a :
  Forall (λ t, genuine_result request t.1.2) tries ->
  (∀ i k, i ∈ cands -> (rt_key <$> routes) !! i = Some k -> is_stream (rk_transport k) = true) ->
  (stream_retry cfg routes tries cands).1 = Some a ->
  acceptable request (ua_message a) ∧ is_stream (rk_transport (ua_route a)) = true.
Proof.
  revert routes tries. induction cands as [|i cands IH]; intros routes tries Hg Hst; [by destruct tries|].
  destruct tries as [|[[expired r] now] tries]; [done|]. cbn [stream_retry].
  apply Forall_cons in Hg as [Hr Hg]. destruct expired; [done|].
  set (routes' := note_attempt cfg routes i r now).
  assert (rt_key <$> routes' = rt_key <$> routes) as Hkeys by apply note_attempt_keys.
  assert ((stream_retry cfg routes' tries cands).1 = Some a ->
    acceptable request (ua_message a) ∧ is_stream (rk_transport (ua_route a)) = true) as Hrec.
  { apply IH; [done|]. intros j k Hj. rewrite Hkeys. apply Hst. set_solver. }
  destruct (ar_outcome r) as [[]|]; try exact Hrec. destruct (ar_message r) as [msg|] eqn:Em; [|exact Hrec].
  destruct (routes' !! i) as [route|] eqn:Er; [|exact Hrec]. cbn [fst]. intros [= <-]. cbn. split.
  - by eapply genuine_acceptable.
  - apply (Hst i); [set_solver|]. by rewrite <- Hkeys, list_lookup_fmap, Er.
Qed.

Lemma stream_candidates_stream routes ranked i k :
  i ∈ stream_candidates routes ranked -> (rt_key <$> routes) !! i = Some k ->
  is_stream (rk_transport k) = true.
Proof.
  intros Hi Hk. unfold stream_candidates in Hi.
  assert (i ∈ List.filter (λ i, match routes !! i with
    | Some r => is_stream (rk_transport (rt_key r)) | None => false end) ranked) as Hin.
  { eapply elem_of_submseteq; [exact Hi|]. apply sublist_submseteq, sublist_take. }
  apply list_elem_of_In, filter_In in Hin as [_ Hin]. rewrite list_lookup_fmap in Hk.
  destruct (routes !! i); [|done]. cbn in Hk. by simplify_eq.
Qed.

Lemma run_return_step ctx st evs r :
  run (Name := Name) ctx st evs (Return r) ->
  ∃ st' next, next ∈ evs ∧ loop_step ctx st' next = Return r.
Proof.
  intros Hr. remember (Return r) as out eqn:Ho.
  induction Hr as [|st next r' Hp Hs|st next st1 rest out Hp Hs Hr IH]; [done| |].
  - exists st, next. split; [set_solver|]. congruence.
  - destruct (IH Ho) as (st' & n & Hin & Hn). exists st', n. split; [set_solver|done].
Qed.

(** C29. What a resolution returns answers the question that was asked and is
    complete: the message is a reply to the request that passed validation, and it
    is not a truncated datagram: a truncated UDP answer is either replaced by a
    stream route's or reported as a failure. *)
Theorem resolved_answer_is_complete ctx routes hb budget request evs a :
  run ctx (initial_state ctx routes hb budget) evs (Return (Ok a)) ->
  (∀ next, next ∈ evs -> genuine ctx request next) ->
  acceptable request (ua_message a)
  ∧ (m_truncation (metadata (ua_message a)) = false
     ∨ is_stream (rk_transport (ua_route a)) = true).
Proof.
  intros (st & next & Hin & Hs)%run_return_step Hg. specialize (Hg next Hin).
  destruct next as [ms| |pos r now ex retry]; cbn in Hs, Hg; [done| |].
  { unfold on_nothing_pending in Hs. repeat case_match; by simplify_eq. }
  destruct Hg as [Hr Hretry]. unfold on_finished in Hs. repeat case_match; simplify_eq.
  - destruct (Hretry a eq_refl) as (rts & tries & ranked & Ht & Ha).
    destruct (stream_retry_sound _ request _ _ _ _ Ht (stream_candidates_stream rts ranked) Ha).
    split; [done|by right].
  - cbn. split; [by eapply genuine_acceptable|].
    match goal with H : _ && negb _ = false |- _ =>
      apply andb_false_iff in H as [?|?%negb_false_iff]; [by left|by right] end.
Qed.

(** A second opinion is somebody else's: both answers of a pair come from
    different authorities and the second from an independent one, and a
    corroborating answer comes from an independent authority other than the
    excluded one. *)
Theorem second_opinion_is_independent cfg routes ranked exclude budget
    (results : nat -> AttemptResult Name * Instant) :
  (∀ a b rts, resolve_pair cfg routes ranked budget results = (Some (a, b), rts) ->
     rk_authority (ua_route a) ≠ rk_authority (ua_route b)
     ∧ is_independent (rk_role (ua_route b)) = true)
  ∧ (∀ a rts, corroborate cfg routes ranked exclude budget results = (Some a, rts) ->
     rk_authority (ua_route a) ≠ exclude ∧ is_independent (rk_role (ua_route a)) = true).
Proof.
  assert (∀ rts i r (x : UpstreamAnswer Name), sole_answer rts i r = Some x ->
    (rt_key <$> rts) !! i = Some (ua_route x)) as Hsole.
  { intros rts i r x. unfold sole_answer. rewrite list_lookup_fmap.
    destruct (ar_outcome r) as [[]|]; try done. destruct (ar_message r); [|done].
    destruct (rts !! i); [|done]. by intros [= <-]. }
  assert (∀ ex i k, independent_of routes ex i = true -> (rt_key <$> routes) !! i = Some k ->
    rk_authority k ≠ ex ∧ is_independent (rk_role k) = true) as Hind.
  { intros ex i k Hi Hk. unfold independent_of in Hi. rewrite list_lookup_fmap in Hk.
    destruct (routes !! i); [|done]. cbn in Hk. simplify_eq. bool_to_prop. split; [|done].
    intros <-. by rewrite str_eqb_refl in *. }
  split.
  - intros a b rts. unfold resolve_pair. destruct (budget =? 0); [done|].
    destruct (pair_routes routes ranked) as [[i j]|] eqn:Ep; [|done].
    destruct (sole_answer _ i _) as [a'|] eqn:Ea; [|done].
    destruct (sole_answer _ j _) as [b'|] eqn:Eb; [|done]. intros [= <- <- <-].
    apply Hsole in Ea, Eb. rewrite !note_attempt_keys in Ea, Eb.
    unfold pair_routes in Ep. destruct (head ranked) as [f|]; [|done]. cbn in Ep.
    destruct (routes !! f) as [rf|] eqn:Ef; [|done]. cbn in Ep.
    destruct (find_first _ ranked) as [g|] eqn:Eg; [|done]. cbn in Ep. simplify_eq.
    apply find_first_Some in Eg as [_ Hj]. destruct (Hind _ _ _ Hj Eb) as [Hne Hi]. split; [|done].
    rewrite list_lookup_fmap, Ef in Ea. cbn in Ea. simplify_eq. congruence.
  - intros a rts. unfold corroborate. destruct (budget =? 0); [done|].
    destruct (find_first _ ranked) as [i|] eqn:Ei; [|done]. intros [= Ha <-].
    apply Hsole in Ha. rewrite note_attempt_keys in Ha. apply find_first_Some in Ei as [_ Hi].
    by eapply Hind.
Qed.

End loop_proofs.

(** ** Concrete groups *)

Section samples.
#[local] Existing Instance text_names.
#[local] Instance sched_floats : FloatLib := { powf _ _ := f64_one; powi _ _ := f64_one }.
#[local] Instance sched_opts : OptLib := {
  opt_get l c := snd <$> find_first (λ o, o.1 =? c) l;
  opt_get_all l c := snd <$> List.filter (λ o, o.1 =? c) l;
  opt_insert l o := l ++ [o];
  opt_remove l c := List.filter (λ o, negb (o.1 =? c)) l
}.

Definition route_to (authority : str) (role : ResolverRole) (egress : EgressPath) (h : RouteHealth)
    : Route :=
  mk_Route (mk_RouteKey authority Udp (V4 (ipv4 9 9 9 9)) (lit "direct") role authority) 100 None false
    false egress false (mk_ConnectionConfig PcUdp 53 None) h (mk_CookieState (lit "01234567") None).

Definition steady : SchedulerConfig :=
  mk_SchedulerConfig false (f64_lit 95 100) (from_millis 20) (from_millis 400) (f64_lit 15 100)
    (from_millis 1500) f64_zero 5 (from_secs 20) 2 true 3.

Definition all_families : NetworkSnapshot := mk_NetworkSnapshot 1 FamilyUsable FamilyUsable no_network 0.

Definition tripped : RouteHealth := set_circuit health_new Open (Some 0) 0 0.

Definition tripped_group : UpstreamGroup :=
  mk_UpstreamGroup (lit "default") [route_to (lit "one") Authority Direct tripped] steady.

Lemma ranking_offers_best_bucket_witness :
  (rank_inner all_families false 0 tripped_group 1 false).1 ≠ [].
Proof.
  refine (proj2 (proj2 (ranking_offers_best_bucket all_families false 0 tripped_group 1 false
    (rank_inner all_families false 0 tripped_group 1 false).1
    (rank_inner all_families false 0 tripped_group 1 false).2 (surjective_pairing _))) _).
  exists 0%nat, (route_to (lit "one") Authority Direct tripped).
  split; [vm_compute; reflexivity|reflexivity].
Defined.

(** One route has been measured; the proxied route and the direct one to the same
    server have not. *)
Definition measured_health : RouteHealth :=
  record health_new Success (Some (from_millis 30)) 0 steady.

Definition proxied_group : UpstreamGroup :=
  mk_UpstreamGroup (lit "default")
    [ route_to (lit "two") Authority (ThroughProxy office_proxy) health_new;
      route_to (lit "two") Authority Direct health_new;
      route_to (lit "one") Authority Direct measured_health ] steady.

(** Once any route has been measured, an unmeasured proxied route no longer
    ranks behind the direct route to the same server: repricing replaces the score
    that carried the proxy penalty, so the two tie and the order of configuration
    decides. *)
Theorem repricing_forgets_proxy_penalty :
  (rank_inner all_families false 0 proxied_group 1 false).1 = [2; 0; 1]%nat.
Proof. vm_compute. reflexivity. Qed.

Definition forwarder_routes : list Route :=
  [ route_to (lit "gateway") LocalForwarder Direct health_new;
    route_to (lit "one") Authority Direct health_new ].

(** Of the two opinions only the second has to be independent: a pair can be
    the local forwarder's answer and one authority's, although agreement with a
    forwarder is said to corroborate nothing. *)
Theorem pair_may_lead_with_forwarder :
  pair_routes forwarder_routes [0; 1]%nat = Some (0, 1)%nat
  ∧ (rk_role ∘ rt_key <$> forwarder_routes !! 0%nat) = Some LocalForwarder.
Proof. vm_compute. done. Qed.

(** A query, its answer, and a transport that delivers it. *)
Definition the_query : Message str :=
  mk_Message (mk_Metadata 7 MtQuery OpQuery false false true false false false NoError)
    [mk_Query (lit "example.com.") RT_A IN] [] [] [] None.

Definition the_reply : Message str :=
  mk_Message (mk_Metadata 7 MtResponse OpQuery false false true true false false NoError)
    [mk_Query (lit "example.com.") RT_A IN] [] [] [] None.

Definition prompt_env : AttemptEnv str :=
  mk_AttemptEnv (from_secs 2) (from_secs 2) (λ _ _, true) (from_secs 2)
    (λ _ _, Ok (the_reply, from_millis 20)).

Definition plain_route : Route := route_to (lit "one") Authority Direct health_new.

Definition good_result : AttemptResult str :=
  (attempt prompt_env plain_route the_query (from_millis 1500) 0 false Queue).1.1.

Lemma attempt_result_sound_witness : acceptable the_query the_reply.
Proof.
  refine (proj1 (proj2 (proj1 (attempt_result_sound prompt_env plain_route the_query
    (from_millis 1500) 0 false Queue good_result
    (attempt prompt_env plain_route the_query (from_millis 1500) 0 false Queue).1.2 false _)
    the_reply _))); vm_compute; reflexivity.
Defined.

Definition one_route_ctx : ResolveCtx := mk_ResolveCtx [0%nat] steady 64 (λ _, []).

Definition started : ResolveState :=
  initial_state one_route_ctx [plain_route] (mk_HedgeBudget 1 0) (from_secs 2).

Definition lost_result : AttemptResult str :=
  mk_AttemptResult (Some Timeout_) None None (TransportDetail (lit "upstream timeout")).

Definition after_loss : ResolveState :=
  finish_pending started 0 true (ar_detail lost_result)
    (record_outcome one_route_ctx [plain_route] 0 Timeout_ None 0).

Lemma lost_run :
  run one_route_ctx started [Finished 0 lost_result 0 None None] (Continue after_loss).
Proof.
  eapply run_continue; [|reflexivity|apply run_nil]. cbn. constructor.
Qed.

Lemma resolution_bounded_witness : NoDup (positions after_loss).
Proof.
  refine (proj1 (proj2 (resolution_bounded one_route_ctx [plain_route] (mk_HedgeBudget 1 0)
    (from_secs 2) _ _ _ lost_run) after_loss eq_refl)). discriminate.
Defined.

Lemma gives_up_only_when_exhausted_witness :
  (∀ p, (p < 1)%nat -> p ∈ positions after_loss) ∨ (3 < length (rs_started after_loss))%nat.
Proof.
  refine (proj1 (gives_up_only_when_exhausted one_route_ctx [plain_route] (mk_HedgeBudget 1 0)
    (from_secs 2) _ after_loss (AllFailed []) _ lost_run _ _));
    [discriminate|reflexivity|vm_compute; reflexivity].
Defined.

Lemma resolved_answer_is_complete_witness : acceptable the_query the_reply.
Proof.
  refine (proj1 (resolved_answer_is_complete one_route_ctx [plain_route] (mk_HedgeBudget 1 0)
    (from_secs 2) the_query [Finished 0 good_result 0 None None]
    (mk_UpstreamAnswer the_reply (rt_key plain_route) (from_millis 20) false false) _ _)).
  - apply run_return; [cbn; constructor|vm_compute; reflexivity].
  - intros next ->%list_elem_of_singleton. split; [|discriminate].
    exists prompt_env, plain_route, (from_millis 1500), 0, false, Queue. do 2 eexists.
    vm_compute. reflexivity.
Defined.

End samples.
