(* ===== verification/Resolver.v ===== *)
(** * The foreground resolver

    [src/dns/resolver.rs]: the validation of a request, the cache dispatch, the
    bookkeeping of a failed resolution, what a fetched answer becomes in the cache,
    the corroboration of negative answers, the verdicts of the background
    validation, and the assembly of a client response.

    What the resolver awaits (an upstream answer, the validator, a coalesced
    flight, the clock) is an input of the definition that uses it.  The DNS
    library's response header and DNSSEC record filter are parameters. *)

From Stdlib Require Import Ascii String.
From S2P Require Import Prelude.
From S2P Require Import Floats.
From S2P Require Import Names.
From S2P Require Import Net.
From S2P Require Import Config.
From S2P Require Import Dns.
From S2P Require Import Errors.
From S2P Require Import Util.
From S2P Require Import Message.
From S2P Require Import EdnsOptions.
From S2P Require Import TtlPolicy.
From S2P Require Import DnssecPolicy.
From S2P Require Import CorroboratePolicy.
From S2P Require Import Prefixes.
From S2P Require Import CloudflarePolicy.
From S2P Require Import SpecialUse.
From S2P Require Import Quality.
From S2P Require Import Ranking.
From S2P Require Import AnswerPolicy.
From S2P Require Import Cache.
From S2P Require Import SingleFlight.
From S2P Require Import Health.
From S2P Require Import Scheduler.

Inductive ClientTransport : Set := ClientUdp | ClientTcp.

Inductive AnswerOrigin : Set :=
| OriginLocal | CacheHit | NegativeHit | FailureHit | OriginStale | OriginUpstream | Coalesced
| Rejected.

(** The sections of the configuration the resolver reads. *)
Record ResolverConfig : Type := mk_ResolverConfig {
  cf_foreground_budget : Duration;
  cf_any_policy : AnyPolicy;
  cf_udp : UdpConfig;
  cf_tcp : TcpConfig;
  cf_cache : CacheConfig;
  cf_ttl : TtlConfig;
  cf_serve_stale : ServeStaleConfig;
  cf_dnssec : DnssecConfig
}.

(** ** Failures *)

Record FailureReport : Type := mk_FailureReport {
  fr_detail : str;
  fr_remember : bool;
  fr_ede : ExtendedError
}.

Definition from_error (text : ResolveError -> str) (e : ResolveError) : FailureReport :=
  mk_FailureReport (text e) (negb (is_transient e))
    (match e with
     | Errors.DnssecBogus => EdnsOptions.DnssecBogus
     | _ => NoReachableAuthority
     end).

Definition upstream_failure (detail : str) : FailureReport :=
  mk_FailureReport detail true NoReachableAuthority.

(** ** Negative answers *)

Inductive NegativeEvidence : Set := NotNegative | Proven | Corroborated | SingleSource.

#[global] Instance NegativeEvidence_eq_dec : EqDecision NegativeEvidence.
Proof. solve_decision. Defined.

Definition PROVISIONAL_NEGATIVE_TTL : Z := 5.
Definition MIN_REVALIDATION_BUDGET : Duration := from_millis 150.

(** ** Stale refresh throttle *)

Definition MAX_TRACKED : Z := 8192.

Definition stale_refresh_allowed (table : gmap CacheKey Instant) (key : CacheKey)
    (interval : Duration) (now : Instant) : bool * gmap CacheKey Instant :=
  if interval =? 0 then (true, table)
  else
    let recent := match table !! key with
                  | Some last => since now last <? interval
                  | None => false
                  end in
    if recent then (false, table)
    else
      if MAX_TRACKED <=? Z.of_nat (size table) then
        let table := filter (λ kt : CacheKey * Instant, since now kt.2 < interval) table in
        if MAX_TRACKED <=? Z.of_nat (size table) then (true, table)
        else (true, <[key := now]> table)
      else (true, <[key := now]> table).

Section resolver.
Context {Name : Type} {NLib : NameLib Name} {ML : MokaLib CacheKey} {OL : OptLib}.
Context {IPL : IpNetLib} {FL : FloatLib} {WC : WireCodes (Name := Name)}.
(** [Metadata::response_from_request], [RecordType::is_dnssec] and
    [Message::maybe_strip_dnssec_records(false)] of the DNS library. *)
Context (response_from_request : Metadata -> Metadata).
Context (is_dnssec : RecordType -> bool).
Context (strip_dnssec : Message Name -> Message Name).
(** The length of an encoded message. *)
Context (wire_len : Message Name -> option Z).
Implicit Types msg request response : Message Name.

Record Answer : Type := mk_Answer {
  an_message : Message Name;
  an_origin : AnswerOrigin;
  an_max_size : Z
}.

Definition max_response_size (cfg : ResolverConfig) request (t : ClientTransport) : Z :=
  match t with
  | ClientTcp => tcp_max_message_bytes (cf_tcp cfg)
  | ClientUdp =>
      match edns request with
      | None => udp_non_edns_max_payload (cf_udp cfg)
      | Some e => clampZ 512 (udp_max_payload (cf_udp cfg)) (e_max_payload e)
      end
  end.

(** The response OPT record mirrors the client's; without one there is none. *)
Definition attach_response_edns (cfg : ResolverConfig) request msg : Message Name :=
  match edns request with
  | None => with_edns msg None
  | Some req =>
      let options := match edns msg with Some e => e_options e | None => [] end in
      with_edns msg
        (Some (mk_Edns 0 (udp_max_payload (cf_udp cfg)) (e_dnssec_ok req)
                 (opt_remove options SUBNET_OPTION_CODE)))
  end.

(** ** Request validation *)

Definition reject (cfg : ResolverConfig) request (code : ResponseCode) (max_size : Z) : Answer :=
  mk_Answer (attach_response_edns cfg request (error_response response_from_request request code true))
    Rejected max_size.

(** RFC 8482. *)
Definition any_answer (cfg : ResolverConfig) request (max_size : Z) : option Answer :=
  match cf_any_policy cfg with
  | AnyRefuse => Some (reject cfg request Refused max_size)
  | AnyMinimal =>
      Some (mk_Answer (attach_response_edns cfg request
              (minimal_any_response response_from_request request (cap_default (cf_ttl cfg))))
              OriginLocal max_size)
  | AnyForward => None
  end.

(** The answers that need no data: [None] when the request goes on. *)
Definition precheck (cfg : ResolverConfig) request (max_size : Z) : option Answer :=
  let bad_version := match edns request with Some e => 0 <? e_version e | None => false end in
  if negb (bool_decide (m_op_code (metadata request) = OpQuery))
  then Some (reject cfg request NotImp max_size)
  else
    match queries request with
    | [q] =>
        if bad_version
        then Some (mk_Answer (error_response response_from_request request BADVERS true)
                     Rejected max_size)
        else if negb (supported_class q) then Some (reject cfg request Refused max_size)
        else if rtype_eqb (q_type q) RT_ANY then any_answer cfg request max_size
        else None
    | _ => Some (reject cfg request FormErr max_size)
    end.

(** ** Special-use names *)

Definition with_aa msg : Message Name :=
  let m := metadata msg in
  mk_Message
    (mk_Metadata (m_id m) (m_message_type m) (m_op_code m) true (m_truncation m)
       (m_recursion_desired m) (m_recursion_available m) (m_authentic_data m)
       (m_checking_disabled m) (m_response_code m))
    (queries msg) (answers msg) (authorities msg) (additionals msg) (edns msg).

(** A skeleton with at most one synthesised record. *)
Definition local_record request (q : Query Name) (ttl : Z) (data : option (RData Name))
    : Message Name :=
  let msg := response_skeleton response_from_request request true in
  match data with
  | Some d => with_answers msg (answers msg ++ [mk_Record (q_name q) IN ttl d PIndeterminate])
  | None => msg
  end.

(** [routed] is whether a suffix rule of the operator covers the name. *)
Definition special_use_answer (cfg : ResolverConfig) request (q : Query Name) (routed : bool)
    (local_ttl max_size : Z) : option Answer :=
  match SpecialUse.classify (name_text (q_name q)) with
  | None => None
  | Some (_, disposition) =>
      if routed then None
      else
        let finish msg :=
          Some (mk_Answer (attach_response_edns cfg request (with_aa msg)) OriginLocal max_size) in
        match disposition with
        | Forward => None
        | NxDomain => finish (error_response response_from_request request NXDomain true)
        | LoopMarker => finish (local_record request q 0 (loop_marker_rdata (q_type q)))
        | Loopback => finish (local_record request q local_ttl (loopback_rdata (q_type q)))
        end
  end.

(** The cache key of a query. *)
Definition request_key (cfg : ResolverConfig) request (q : Query Name) (group : str)
    (ecs_identity : option str) : CacheKey :=
  let client_do := match edns request with Some e => e_dnssec_ok e | None => false end in
  cache_key (name_text (q_name q)) (q_type q) (q_class q) (mk_PolicyView group ecs_identity)
    (mk_ReqMode (wants_dnssec_records (dnssec_mode (cf_dnssec cfg)) || client_do)
                (m_checking_disabled (metadata request))).

(** ** Building a response *)

(** What the answer policy is given from outside the entry. *)
Record PolicyEnv : Type := mk_PolicyEnv {
  pe_cloudflare_enabled : bool;
  pe_configured_mode : CloudflareMode;
  pe_mode_state : ModeOverride.ModeState;
  pe_snapshot : option PrefixSnapshot;
  pe_allow_domains : list str;
  pe_deny_domains : list str;
  pe_baseline : bool;
  pe_verified : list VerifiedCandidate;
  pe_is_web : bool;
  pe_snapshot_for : list IpAddr -> gmap IpAddr QualityStats;
  pe_ranking : RankingConfig;
  pe_augment : AugmentConfig;
  pe_recent_change : bool;
  pe_now_unix : Z;
  pe_seed : Z
}.

Definition collect_addresses msg (qtype : RecordType) : list IpAddr :=
  omap (λ r, match r_data r, qtype with
             | RD_A a, RT_A => Some (V4 a)
             | RD_AAAA a, RT_AAAA => Some (V6 a)
             | _, _ => None
             end) (answers msg).

(** [q] is the request's only question and [msg] the aged message. *)
Definition answer_context (cfg : ResolverConfig) (env : PolicyEnv) (q : Query Name) msg
    (entry : CacheEntry Name) (remaining : Z) (stale : bool) (now : Instant) : AnswerContext :=
  let qtype := q_type q in
  let qname := name_text (q_name q) in
  let mode := ModeOverride.effective_mode (pe_mode_state env) (pe_configured_mode env) in
  {| cx_qtype := qtype;
     cx_dnssec := ent_dnssec entry;
     cx_cloudflare_enabled := pe_cloudflare_enabled env;
     cx_cloudflare_mode := mode;
     cx_snapshot := pe_snapshot env;
     cx_domain_excluded := is_excluded qname (pe_allow_domains env) (pe_deny_domains env);
     cx_baseline_validated := pe_baseline env;
     cx_verified :=
       if pe_cloudflare_enabled env && bool_decide (mode = CfVerifiedAugment)
       then pe_verified env else [];
     cx_can_validate_ech := false;
     cx_quality := if pe_is_web env then pe_snapshot_for env (collect_addresses msg qtype) else ∅;
     cx_ranking := pe_ranking env;
     cx_augment := pe_augment env;
     cx_ttl := cf_ttl cfg;
     cx_remaining_authoritative := remaining;
     cx_remaining_signature := remaining_signature_secs entry (pe_now_unix env);
     cx_is_stale := stale;
     cx_recent_network_change := pe_recent_change env;
     cx_now := now;
     cx_explore_seed := pe_seed env |}.

Definition set_aa (m : Metadata) (aa : bool) : Metadata :=
  mk_Metadata (m_id m) (m_message_type m) (m_op_code m) aa (m_truncation m)
    (m_recursion_desired m) (m_recursion_available m) (m_authentic_data m)
    (m_checking_disabled m) (m_response_code m).

Definition set_ad (m : Metadata) (ad : bool) : Metadata :=
  mk_Metadata (m_id m) (m_message_type m) (m_op_code m) (m_authoritative m) (m_truncation m)
    (m_recursion_desired m) (m_recursion_available m) ad (m_checking_disabled m)
    (m_response_code m).

Definition with_metadata msg (m : Metadata) : Message Name :=
  mk_Message m (queries msg) (answers msg) (authorities msg) (additionals msg) (edns msg).

(** The entry's message under the request's header and question. *)
Definition rehead request (entry : CacheEntry Name) : Message Name :=
  let m := ent_message entry in
  let md := response_from_request (metadata request) in
  mk_Message
    (set_aa (set_ra (set_rcode md (m_response_code (metadata m))) true) false)
    (queries request) (answers m) (authorities m) (additionals m) None.

Definition build_response (cfg : ResolverConfig) (env : PolicyEnv) request (q : Query Name)
    (entry : CacheEntry Name) (remaining : Z) (stale client_do : bool) (now : Instant)
    : Message Name :=
  let msg := age_ttls (rehead request entry) (age_secs entry now) in
  let '(msg, outcome) :=
    apply_answer_policy msg (answer_context cfg env q msg entry remaining stale now) in
  let msg := if client_do then msg else strip_dnssec msg in
  let client_asked_ad := client_do || m_authentic_data (metadata request) in
  let msg :=
    with_metadata msg
      (set_ad (metadata msg) (may_set_ad (ent_dnssec entry) client_asked_ad (oc_modified outcome))) in
  attach_response_edns cfg request msg.

(** ** Cache dispatch *)

Inductive Dispatch : Type :=
| Answered (a : Answer)
| NeedStale (entry : CacheEntry Name)
| NeedMiss.

Definition lookup_cache (cfg : ResolverConfig) (env : PolicyEnv) (c : DnsCache Name) request
    (q : Query Name) (key : CacheKey) (client_do : bool) (max_size : Z) (now : Instant)
    : Dispatch * DnsCache Name :=
  match failure c key now with
  | (Some f, c) =>
      let msg := error_response response_from_request request (fail_rcode f) true in
      let msg := if extended_errors (cf_dnssec cfg) then attach_ede msg NetworkError (fail_reason f)
                 else msg in
      (Answered (mk_Answer msg FailureHit max_size), c)
  | (None, c) =>
      match cache_get c key now with
      | Fresh entry remaining =>
          let origin := if bool_decide (ent_kind entry = Positive) then CacheHit else NegativeHit in
          (Answered (mk_Answer (build_response cfg env request q entry remaining false client_do now)
             origin max_size), c)
      | Stale entry _ => (NeedStale entry, c)
      | Miss => (NeedMiss, c)
      end
  end.

(** Serve-stale: [refreshed] is the live refresh when it came in time. *)
Definition serve_stale (cfg : ResolverConfig) (env : PolicyEnv) request (q : Query Name)
    (entry : CacheEntry Name)
    (refreshed : option (CacheEntry Name)) (client_do : bool) (max_size : Z) (now : Instant)
    : Answer :=
  match refreshed with
  | Some fresh =>
      mk_Answer (build_response cfg env request q fresh (remaining_ttl fresh now) false client_do now)
        OriginUpstream max_size
  | None =>
      let msg := build_response cfg env request q entry 0 true client_do now in
      let msg :=
        if include_ede (cf_serve_stale cfg) && extended_errors (cf_dnssec cfg)
        then attach_ede msg
               (if bool_decide (ent_kind entry = NxDomainKind) then StaleNxdomain else StaleAnswer)
               (lit "serving expired data")
        else msg in
      mk_Answer msg OriginStale max_size
  end.

(** ** What an answer is *)

(** Positive, NODATA or NXDOMAIN. *)
Definition classify msg : EntryKind :=
  match m_response_code (metadata msg) with
  | NXDomain => NxDomainKind
  | _ =>
      if existsb (λ r, negb (rtype_eqb (record_type r) RT_OPT) && negb (is_dnssec (record_type r)))
           (answers msg)
      then Positive else NoData
  end.

(** RFC 2308: the first SOA of the authority section. *)
Fixpoint soa_ttl (rs : list (DnsRecord Name)) : option Z :=
  match rs with
  | [] => None
  | r :: rs' => match r_data r with
                | RD_SOA minimum => Some (Z.min (r_ttl r) minimum)
                | _ => soa_ttl rs'
                end
  end.

Definition negative_ttl msg : option Z := soa_ttl (authorities msg).

(** ** A miss *)

(** How the flight for a key ended for this caller. *)
Inductive FlightOutcome : Type :=
| FoLeader (r : result ResolveError (CacheEntry Name))
| FoFollower (r : result FlightError (CacheEntry Name))
| FoFollowerTimeout
| FoSaturated.

Definition flight_detail (e : FlightError) : str :=
  match e with
  | LeaderGone => lit "the leading query was cancelled"
  | Failed d | Transient d => d
  end.

Definition flight_result (text : ResolveError -> str) (o : FlightOutcome)
    : result FailureReport (CacheEntry Name) :=
  match o with
  | FoLeader (Ok e) => Ok e
  | FoLeader (Err e) => Err (from_error text e)
  | FoFollower (Ok e) => Ok e
  | FoFollower (Err e) => Err (mk_FailureReport (flight_detail e) (is_cacheable e) NoReachableAuthority)
  | FoFollowerTimeout => Err (upstream_failure (lit "coalesced request timed out"))
  | FoSaturated => Err (upstream_failure (lit "too many distinct queries in flight"))
  end.

(** [base.saturating_mul(1 << min(streak, 6)).min(max)]. *)
Definition failure_ttl (cfg : CacheConfig) (streak : Z) : Duration :=
  Z.min (cache_failure_min_ttl cfg * 2 ^ Z.min streak 6) (cache_failure_max_ttl cfg).

Definition note_failure (cfg : ResolverConfig) (c : DnsCache Name) (key : CacheKey)
    (report : FailureReport) (now : Instant) : DnsCache Name :=
  if fr_remember report then
    let streak := sat_add u32_max (failure_streak c key) 1 in
    record_failure c key
      (mk_FailureEntry now (failure_ttl (cf_cache cfg) streak) ServFail
         (lit "upstream resolution failed") streak)
  else c.

Definition resolve_miss (cfg : ResolverConfig) (env : PolicyEnv) (text : ResolveError -> str)
    (c : DnsCache Name) request (q : Query Name) (key : CacheKey) (o : FlightOutcome) (client_do : bool)
    (max_size : Z) (now : Instant) : Answer * DnsCache Name :=
  match flight_result text o with
  | Ok entry =>
      (mk_Answer (build_response cfg env request q entry (remaining_ttl entry now) false client_do now)
         OriginUpstream max_size, c)
  | Err report =>
      let msg := error_response response_from_request request ServFail true in
      let msg := if extended_errors (cf_dnssec cfg)
                 then attach_ede msg (fr_ede report) (fr_detail report) else msg in
      (mk_Answer msg Rejected max_size, note_failure cfg c key report now)
  end.

(** What a leader publishes: a client's miss and a refresh. *)
Definition publish_miss (text : ResolveError -> str) (r : result ResolveError (CacheEntry Name))
    : result FlightError (CacheEntry Name) :=
  match r with
  | Ok e => Ok e
  | Err e => Err (if is_transient e then Transient (text e) else Failed (text e))
  end.

Definition publish_refresh (text : ResolveError -> str) (r : result ResolveError (CacheEntry Name))
    : result FlightError (CacheEntry Name) :=
  match r with
  | Ok e => Ok e
  | Err e => Err (Failed (text e))
  end.

(** ** Validation in front of the client *)

(** What one call of the validator came to; an error carries its text. *)
Inductive ValidatorResult : Type :=
| VrTimeout
| VrMessage (m : Message Name)
| VrError (text : str)
| VrNothing.

Definition contains_text (needle hay : str) : bool :=
  existsb (λ i, starts_with (drop i hay) needle) (seq 0 (S (length hay))).

Definition judge (cfg : DnssecConfig) (r : ValidatorResult) (observed : ProofFailure)
    : option (Message Name) * ValidationOutcome :=
  match r with
  | VrTimeout => (None, VTimeout)
  | VrMessage m => (Some m, DnssecPolicy.classify m cfg false observed)
  | VrError text =>
      (None,
       if negb (bool_decide (observed = PF_None)) then VIncompleteProof
       else if contains_text (lit "Bogus") text || contains_text (lit "bogus") text then VBogus
       else VTransportFailure)
  | VrNothing => (None, VTransportFailure)
  end.

(** One retry at most.  [time_left] is the budget left after the first call;
    the second call is only made when the loop reaches it. *)
Definition validation_loop (cfg : DnssecConfig) (first second : ValidatorResult * ProofFailure)
    (time_left : Duration) : option (Message Name) * ValidationOutcome :=
  let '(m, outcome) := judge cfg first.1 first.2 in
  if is_retryable outcome && (MIN_REVALIDATION_BUDGET <? time_left)
  then judge cfg second.1 second.2
  else (m, outcome).

(** [pair] is what [resolve_pair] returns inside [slice]. *)
Definition unproved_fallback (slice : Duration)
    (pair : option (UpstreamAnswer Name * UpstreamAnswer Name))
    : option (Message Name) :=
  if slice <? MIN_REVALIDATION_BUDGET then None
  else
    match pair with
    | None => None
    | Some (first, second) =>
        let m := ua_message first in
        if negb (bool_decide (m_response_code (metadata m) = NoError))
           || (length (answers m) =? 0)%nat
        then None
        else if answers_are_compatible m (ua_message second) then Some m else None
    end.

Definition validated_answer (outcome : ValidationOutcome) (response fallback : option (Message Name))
    : result ResolveError (Message Name) :=
  match outcome with
  | VBogus => Err Errors.DnssecBogus
  | VSecure | VProvenInsecure =>
      match response with
      | Some m => Ok m
      | None => Err (AllFailed (lit "validator reported success without an answer"))
      end
  | VIncompleteProof | VTransportFailure | VTimeout | VIndeterminate =>
      match response with
      | Some m => Ok m
      | None => match fallback with
                | Some m => Ok m
                | None => Err (ProofIncomplete (outcome_label outcome))
                end
      end
  end.

(** ** Negative answers *)

(** [second slice authority] is what the scheduler's second opinion, from
    an authority other than [authority], returns within [slice]. *)
Definition corroborate_negative (cfg : ResolverConfig) response (status : DnssecStatus)
    (route : option RouteKey) (remaining : Duration)
    (second : Duration -> str -> option (UpstreamAnswer Name))
    : Message Name * option RouteKey * NegativeEvidence :=
  let original := (response, route, SingleSource) in
  if negb (bool_decide (m_response_code (metadata response) = NXDomain))
  then (response, route, NotNegative)
  else if bool_decide (status = Secure) then (response, route, Proven)
  else if negb (corroborate_negative_cfg (cf_dnssec cfg)) then original
  else
    match route with
    | None => original
    | Some first =>
        let slice := mul_f64 remaining (f64_lit 1 2) in
        if slice =? 0 then original
        else
          match second slice (rk_authority first) with
          | None => original
          | Some s =>
              let code := m_response_code (metadata (ua_message s)) in
              if bool_decide (code = NXDomain) then (response, route, Corroborated)
              else if bool_decide (code = NoError) && negb (length (answers (ua_message s)) =? 0)%nat
              then (ua_message s, Some (ua_route s), NotNegative)
              else original
          end
    end.

(** ** Storing an answer *)

Definition stored_ttl (cfg : ResolverConfig) (c : DnsCache Name) response
    (evidence : NegativeEvidence) : Z :=
  let kind := classify response in
  let raw_ttl := match kind with
                 | Positive => default 0 (min_ttl response)
                 | _ => default 0 (negative_ttl response)
                 end in
  let cap := match kind with
             | Positive => c_internal_max_ttl c
             | _ => cache_negative_max_ttl (cf_cache cfg)
             end in
  let ttl := Z.min raw_ttl cap in
  if bool_decide (evidence = SingleSource) then Z.min ttl PROVISIONAL_NEGATIVE_TTL else ttl.

Definition source_of (route : option RouteKey) : AnswerSource :=
  match route with
  | Some r => mk_AnswerSource (rk_server r) (rk_transport r)
  | None => mk_AnswerSource (lit "validator") Udp
  end.

Definition new_entry (cfg : ResolverConfig) (c : DnsCache Name) response (status : DnssecStatus)
    (route : option RouteKey) (evidence : NegativeEvidence) (now : Instant) (now_unix : Z)
    : CacheEntry Name :=
  mk_CacheEntry response now now_unix (stored_ttl cfg c response evidence) (classify response)
    status (source_of route) (answer_fingerprint response) (earliest_rrsig_expiry response)
    (estimate_bytes wire_len response).

(** The variant, the failure record and the answer itself. *)
Definition store (c : DnsCache Name) (key : CacheKey) (entry : CacheEntry Name) (now : Instant)
    : DnsCache Name :=
  let c :=
    if bool_decide (ent_kind entry = Positive) then
      (record_variant c key
         (mk_VariantRecord (ent_fingerprint entry) (ent_message entry) (ent_source entry) now
            (ent_ttl entry) (ent_dnssec entry)) now).2
    else c in
  cache_insert (clear_failure c key) key entry.

(** [fetch] from the upstream answer on: [fetched] is the message, the route
    that produced it when there is one, and whether its AD bit is trusted. *)
Definition fetch_finish (cfg : ResolverConfig) (c : DnsCache Name) (key : CacheKey)
    (fetched : result ResolveError (Message Name * option RouteKey * bool))
    (remaining : Duration)
    (second : Duration -> str -> option (UpstreamAnswer Name))
    (now : Instant) (now_unix : Z) : result ResolveError (CacheEntry Name) * DnsCache Name :=
  match fetched with
  | Err e => (Err e, c)
  | Ok (response, route, trust_ad) =>
      let status := dnssec_status response (cf_dnssec cfg) trust_ad in
      if bool_decide (status = Bogus) then (Err Errors.DnssecBogus, c)
      else
        let '(response, route, evidence) :=
          corroborate_negative cfg response status route remaining second in
        let entry := new_entry cfg c response status route evidence now now_unix in
        (Ok entry, store c key entry now)
  end.

(** The query sent upstream.  [ecs] is the encoded client subnet of the
    configured egress prefix, when the mode asks for one. *)
Definition upstream_query (cfg : ResolverConfig) (key : CacheKey) (id : Z) (name : Name)
    (ecs : option str) : Message Name :=
  let options := match ecs with
                 | Some o => opt_insert [] (SUBNET_OPTION_CODE, o)
                 | None => []
                 end in
  mk_Message
    (mk_Metadata id MtQuery OpQuery false false true false false
       (mode_checking_disabled (key_mode key)) NoError)
    [mk_Query name (key_qtype key) (key_qclass key)] [] [] []
    (Some (mk_Edns 0 (udp_max_payload (cf_udp cfg))
             (wants_dnssec_records (dnssec_mode (cf_dnssec cfg)) || mode_dnssec_ok (key_mode key))
             options)).

(** What a fetch meets: whether the group, a validator and a validation permit
    are there, the parsed name, the validator's answers, what the scheduler
    returns for a query, and the clock. *)
Record FetchWorld : Type := mk_FetchWorld {
  fw_group : bool;
  fw_parse : str -> option Name;
  fw_id : Z;
  fw_ecs : option str;
  fw_validator : bool;
  fw_permit : bool;
  fw_capacity : Z;
  fw_first : ValidatorResult * ProofFailure;
  fw_second : ValidatorResult * ProofFailure;
  fw_time_left : Duration;
  fw_fallback_slice : Duration;
  fw_resolve_pair : Message Name -> Duration -> option (UpstreamAnswer Name * UpstreamAnswer Name);
  fw_resolve : Message Name -> result ResolveError (UpstreamAnswer Name);
  fw_remaining : Duration;
  fw_corroborate : Message Name -> Duration -> str -> option (UpstreamAnswer Name);
  fw_now : Instant;
  fw_now_unix : Z
}.

(** The message, its route and the trust in its AD bit. *)
Definition obtain (cfg : ResolverConfig) (key : CacheKey) (w : FetchWorld) (query : Message Name)
    : result ResolveError (Message Name * option RouteKey * bool) :=
  if blocks_the_client (dnssec_mode (cf_dnssec cfg)) && negb (mode_checking_disabled (key_mode key))
  then
    if negb (fw_validator w) then Err (NoRoute (view_group (key_view key)))
    else if negb (fw_permit w) then Err (Overloaded (fw_capacity w))
    else
      let '(response, outcome) :=
        validation_loop (cf_dnssec cfg) (fw_first w) (fw_second w) (fw_time_left w) in
      let fallback :=
        unproved_fallback (fw_fallback_slice w) (fw_resolve_pair w query (fw_fallback_slice w)) in
      match validated_answer outcome response fallback with
      | Ok m => Ok (m, None, false)
      | Err e => Err e
      end
  else
    match fw_resolve w query with
    | Ok a => Ok (ua_message a, Some (ua_route a), ua_trust_ad a)
    | Err e => Err e
    end.

Definition fetch (cfg : ResolverConfig) (c : DnsCache Name) (key : CacheKey) (w : FetchWorld)
    : result ResolveError (CacheEntry Name) * DnsCache Name :=
  if negb (fw_group w) then (Err (NoRoute (view_group (key_view key))), c)
  else
    match fw_parse w (key_name key) with
    | None => (Err (InvalidResponse (lit "query name could not be encoded")), c)
    | Some name =>
        let query := upstream_query cfg key (fw_id w) name (fw_ecs w) in
        fetch_finish cfg c key (obtain cfg key w query) (fw_remaining w) (fw_corroborate w query)
          (fw_now w) (fw_now_unix w)
    end.

(** ** Background validation *)

Definition carries_failed_signatures (r : ValidatorResult) : bool :=
  match r with
  | VrMessage m =>
      existsb (λ rr, rtype_eqb (record_type rr) RT_RRSIG && bool_decide (r_proof rr = PBogus))
        (answers m)
  | _ => false
  end.

Definition validated_fingerprint (r : ValidatorResult) : Z :=
  match r with VrMessage m => answer_fingerprint m | _ => 0 end.

Definition background_outcome (cfg : DnssecConfig) (r : ValidatorResult) (observed : ProofFailure)
    : ValidationOutcome :=
  match r with
  | VrTimeout => VTimeout
  | VrMessage m => DnssecPolicy.classify m cfg false observed
  | VrError _ => VIncompleteProof
  | VrNothing => VTransportFailure
  end.

Definition background_verdict (cfg : DnssecConfig) (c : DnsCache Name) (key : CacheKey)
    (r : ValidatorResult) (observed : ProofFailure) : DnsCache Name :=
  match background_outcome cfg r observed with
  | VBogus =>
      if carries_failed_signatures r then (evict_variant c key (validated_fingerprint r)).2 else c
  | VSecure => (promote c key (validated_fingerprint r) Secure).2
  | VProvenInsecure => (promote c key (validated_fingerprint r) Insecure).2
  | VIncompleteProof | VTimeout | VTransportFailure | VIndeterminate => c
  end.

End resolver.
