(* ===== verification/ResolverResponse.v ===== *)
(** * What clients are sent

    Theorems about [Resolver]: the checks before a lookup, the assembly of a
    response from a cache entry, serve-stale and its refresh throttle, and the
    record of failures. *)

From Stdlib Require Import Ascii String.
From S2P Require Import Prelude.
From S2P Require Import Floats.
From S2P Require Import Names.
From S2P Require Import Net.
From S2P Require Import Config.
From S2P Require Import Dns.
From S2P Require Import Errors.
From S2P Require Import Util.
From S2P Require Import Message.
From S2P Require Import EdnsOptions.
From S2P Require Import TtlPolicy.
From S2P Require Import DnssecPolicy.
From S2P Require Import CorroboratePolicy.
From S2P Require Import Prefixes.
From S2P Require Import CloudflarePolicy.
From S2P Require Import SpecialUse.
From S2P Require Import Quality.
From S2P Require Import Ranking.
From S2P Require Import AnswerPolicy.
From S2P Require Import Cache.
From S2P Require Import SingleFlight.
From S2P Require Import Health.
From S2P Require Import Scheduler.
From S2P Require Import Resolver.

(** ** The throttle of stale refreshes *)

Section throttle.
Implicit Types table : gmap CacheKey Instant.

Lemma stale_refresh_keeps table k interval now k' last :
  table !! k' = Some last -> since now last < interval ->
  ∃ last', (stale_refresh_allowed table k interval now).2 !! k' = Some last' ∧
    (last' = last ∨ k' = k ∧ last' = now).
Proof.
  intros Hk Hlive. unfold stale_refresh_allowed.
  assert (filter (λ kt : CacheKey * Instant, since now kt.2 < interval) table !! k' = Some last)
    as Hf by (by apply map_lookup_filter_Some).
  repeat case_match; cbn [snd]; eauto.
  all: destruct (decide (k' = k)) as [->|]; [rewrite lookup_insert_eq|rewrite lookup_insert_ne by done];
    eauto.
Qed.

(** Between two allowed refreshes of one key lies the retry interval: a key
    whose attempt is on record is refused for the whole interval, whatever other
    keys are asked about in between at whatever later times, an allowed attempt is
    put on record whenever fewer than [MAX_TRACKED] attempts are live, and the
    table never exceeds [MAX_TRACKED] entries. *)
Theorem stale_refresh_throttled table k interval now (Hint : interval ≠ 0)
    (Hsize : Z.of_nat (size table) <= MAX_TRACKED) :
  Z.of_nat (size (stale_refresh_allowed table k interval now).2) <= MAX_TRACKED
  ∧ (∀ last, table !! k = Some last -> since now last < interval ->
     stale_refresh_allowed table k interval now = (false, table))
  ∧ (∀ k' last, table !! k' = Some last -> since now last < interval -> k' ≠ k ->
     (stale_refresh_allowed table k interval now).2 !! k' = Some last)
  ∧ ((stale_refresh_allowed table k interval now).1 = true ->
     Z.of_nat (size (filter (λ kt : CacheKey * Instant, since now kt.2 < interval) table))
       < MAX_TRACKED ->
     (stale_refresh_allowed table k interval now).2 !! k = Some now).
Proof.
  assert (∀ t : gmap CacheKey Instant, Z.of_nat (size t) < MAX_TRACKED ->
    Z.of_nat (size (<[k:=now]> t)) <= MAX_TRACKED) as Hins.
  { intros t Ht. rewrite map_size_insert. case_match; unfold id; lia. }
  split_and!.
  - unfold stale_refresh_allowed. rewrite (proj2 (Z.eqb_neq _ _)) by done.
    repeat case_match; cbn [snd]; try lia;
      repeat match goal with
             | H : (MAX_TRACKED <=? _) = false |- _ => apply Z.leb_gt in H
             end; try by apply Hins.
    all: pose proof (map_size_filter (λ kt : CacheKey * Instant, since now kt.2 < interval) table); lia.
  - intros last Hk Hl. unfold stale_refresh_allowed. rewrite (proj2 (Z.eqb_neq _ _)) by done.
    by rewrite Hk, (proj2 (Z.ltb_lt _ _)).
  - intros k' last Hk Hl Hne.
    destruct (stale_refresh_keeps table k interval now k' last Hk Hl) as (? & -> & [->|[? _]]); done.
  - unfold stale_refresh_allowed. rewrite (proj2 (Z.eqb_neq _ _)) by done.
    intros Ha Hs. repeat case_match; cbn [fst snd] in *; try done; try by rewrite lookup_insert_eq.
    all: match goal with H : (MAX_TRACKED <=? Z.of_nat (size (filter _ _))) = true |- _ =>
      apply Z.leb_le in H end; lia.
Qed.

End throttle.

(** ** The DNS library *)

(** [Metadata::response_from_request] keeps the id, marks a response and claims
    no authority;
    stripping the DNSSEC records removes records and nothing else. *)
Class ResponseLaws {Name} (response_from_request : Metadata -> Metadata)
    (strip_dnssec : Message Name -> Message Name) : Prop := {
  rfr_id m : m_id (response_from_request m) = m_id m;
  rfr_response m : m_message_type (response_from_request m) = MtResponse;
  rfr_authority m : m_authoritative (response_from_request m) = false;
  strip_shell msg : metadata (strip_dnssec msg) = metadata msg ∧
    queries (strip_dnssec msg) = queries msg ∧ edns (strip_dnssec msg) = edns msg;
  strip_answers msg : sublist (answers (strip_dnssec msg)) (answers msg);
  strip_authorities msg : sublist (authorities (strip_dnssec msg)) (authorities msg);
  strip_additionals msg : sublist (additionals (strip_dnssec msg)) (additionals msg)
}.

Section responses.
Context {Name : Type} {NLib : NameLib Name} {ML : MokaLib CacheKey} {OL : OptLib}.
Context {IPL : IpNetLib} {FL : FloatLib}.
Context (rfr : Metadata -> Metadata) (strip : Message Name -> Message Name).
Implicit Types msg request : Message Name.

(** The records of a message, section by section. *)
Definition all_records msg : list (DnsRecord Name) :=
  answers msg ++ authorities msg ++ additionals msg.

(** Records as they are served [d] seconds later with at most [ttl] to live. *)
Definition aged (d ttl : Z) (rs : list (DnsRecord Name)) : list (DnsRecord Name) :=
  map (λ r, with_ttl r (Z.min (r_ttl r ⊖ d) ttl)) rs.

Lemma capped_section (d ttl : Z) (rs : list (DnsRecord Name)) :
  map (capped_at ttl) (map (λ r, with_ttl r (r_ttl r ⊖ d)) rs) = aged d ttl rs.
Proof. unfold aged. rewrite map_map. apply map_ext. by intros []. Qed.

(** Two records that differ at most in their TTL, which went down by at least [d]. *)
Definition aged_from (d : Z) (r0 r : DnsRecord Name) : Prop :=
  r = with_ttl r0 (r_ttl r) ∧ r_ttl r <= r_ttl r0 ⊖ d.

Lemma capped_aged (d ttl : Z) (rs : list (DnsRecord Name)) r :
  r ∈ map (capped_at ttl) (map (λ r0, with_ttl r0 (r_ttl r0 ⊖ d)) rs) ->
  ∃ r0, r0 ∈ rs ∧ aged_from d r0 r.
Proof.
  rewrite map_map. intros (r0 & -> & Hr0)%list_elem_of_fmap. exists r0. split; [done|].
  split; [by destruct r0|]. cbn. lia.
Qed.

Context {RL : ResponseLaws rfr strip}.

Lemma maybe_strip_sections (b : bool) msg :
  let msg' := if b then msg else strip msg in
  answers msg' ⊆+ answers msg ∧ authorities msg' ⊆+ authorities msg ∧ additionals msg' ⊆+ additionals msg.
Proof.
  destruct b; cbn zeta; [done|].
  split_and!; apply sublist_submseteq; [apply strip_answers|apply strip_authorities|apply strip_additionals].
Qed.

Lemma maybe_strip (b : bool) msg :
  let msg' := if b then msg else strip msg in
  metadata msg' = metadata msg ∧ queries msg' = queries msg ∧ edns msg' = edns msg ∧
  (∀ r, r ∈ answers msg' -> r ∈ answers msg) ∧
  (∀ r, r ∈ authorities msg' -> r ∈ authorities msg) ∧
  (∀ r, r ∈ additionals msg' -> r ∈ additionals msg).
Proof.
  destruct (maybe_strip_sections b msg) as (Sa & Su & Sd).
  destruct (strip_shell msg) as (? & ? & ?).
  destruct b; cbn zeta in *; split_and!; try done; intros r Hr; by eapply elem_of_submseteq.
Qed.

Lemma attach_response_edns_shell cfg request msg :
  let out := attach_response_edns cfg request msg in
  metadata out = metadata msg ∧ queries out = queries msg ∧ answers out = answers msg ∧
  authorities out = authorities msg ∧ additionals out = additionals msg.
Proof. unfold attach_response_edns. by case_match. Qed.

Section one_response.
Context (cfg : ResolverConfig) (env : PolicyEnv) (request : Message Name) (q : Query Name).
Context (entry : CacheEntry Name) (remaining : Z) (stale client_do : bool) (now : Instant).

Local Abbreviation response :=
  (build_response rfr strip cfg env request q entry remaining stale client_do now).

(** The pieces a response is put together from. *)
Lemma build_response_parts :
  ∃ pre out o,
    apply_answer_policy (age_ttls (rehead rfr request entry) (age_secs entry now))
      (answer_context cfg env q (age_ttls (rehead rfr request entry) (age_secs entry now))
         entry remaining stale now) = (out, o) ∧
    pre = (if client_do then out else strip out) ∧
    response = attach_response_edns cfg request
      (with_metadata pre (set_ad (metadata pre)
         (may_set_ad (ent_dnssec entry) (client_do || m_authentic_data (metadata request))
            (oc_modified o)))).
Proof.
  unfold build_response. destruct (apply_answer_policy _ _) as [out o] eqn:E.
  exists (if client_do then out else strip out), out, o. done.
Qed.

Lemma response_metadata :
  metadata response = set_ad (metadata (rehead rfr request entry))
    (bool_decide (ent_dnssec entry = Secure)
     && (client_do || m_authentic_data (metadata request))) ∧
  queries response = queries request.
Proof.
  destruct build_response_parts as (pre & out & o & Hp & -> & ->).
  destruct (attach_response_edns_shell cfg request (with_metadata (if client_do then out else strip out)
    (set_ad (metadata (if client_do then out else strip out))
       (may_set_ad (ent_dnssec entry) (client_do || m_authentic_data (metadata request))
          (oc_modified o))))) as (-> & -> & _).
  destruct (maybe_strip client_do out) as (Hm & Hq & _).
  destruct (policy_shell _ _ _ _ Hp) as (Hm' & Hq' & _).
  cbn [metadata queries with_metadata]. rewrite Hm, Hq, Hm', Hq'. split; [|done].
  cbn [metadata age_ttls map_ttls]. f_equal. unfold may_set_ad, is_authentic.
  destruct (ent_dnssec entry) eqn:Es; cbn [andb negb bool_decide]; try by rewrite andb_false_r.
  assert (ent_dnssec entry ≠ Insecure) as Hn by congruence.
  rewrite (proj1 (policy_unmodified _ _ _ _ Hp Hn)). rewrite !andb_true_r. by case_bool_decide.
Qed.

(** C1. A response built from a cached answer is a reply to this request: it has
    the request's id and question and the entry's response code, offers recursion
    and claims no authority.  Its AD bit is set exactly when the entry was proved
    secure and the client asked, by DO or AD.  It carries an OPT record exactly
    when the request did, of version 0, with the request's DO bit and without a
    client subnet. *)
Theorem response_is_faithful {OLaws : OptLaws} :
  m_id (metadata response) = m_id (metadata request) ∧
  m_message_type (metadata response) = MtResponse ∧
  queries response = queries request ∧
  m_response_code (metadata response) = m_response_code (metadata (ent_message entry)) ∧
  m_recursion_available (metadata response) = true ∧
  m_authoritative (metadata response) = false ∧
  (m_authentic_data (metadata response) = true <->
   ent_dnssec entry = Secure ∧ (client_do = true ∨ m_authentic_data (metadata request) = true)) ∧
  match edns request with
  | None => edns response = None
  | Some e => ∃ e', edns response = Some e' ∧ e_version e' = 0 ∧
      e_dnssec_ok e' = e_dnssec_ok e ∧ opt_get (e_options e') SUBNET_OPTION_CODE = None
  end.
Proof.
  destruct response_metadata as [Hm Hq]. rewrite Hm, Hq. cbn.
  rewrite rfr_id, rfr_response. split_and!; try done.
  - rewrite andb_true_iff, orb_true_iff, bool_decide_eq_true. done.
  - destruct build_response_parts as (pre & out & o & _ & _ & ->). unfold attach_response_edns.
    destruct (edns request); [|done]. eexists. split; [done|]. cbn. by rewrite opt_get_remove_eq.
Qed.

(** The sections of a response, before the header and the OPT record. *)
Lemma response_sections :
  ∃ out o,
    apply_answer_policy (age_ttls (rehead rfr request entry) (age_secs entry now))
      (answer_context cfg env q (age_ttls (rehead rfr request entry) (age_secs entry now))
         entry remaining stale now) = (out, o) ∧
    answers response = answers (if client_do then out else strip out) ∧
    authorities response = authorities (if client_do then out else strip out) ∧
    additionals response = additionals (if client_do then out else strip out).
Proof.
  destruct build_response_parts as (pre & out & o & Hp & -> & ->). exists out, o.
  unfold attach_response_edns. split_and!; try done; by case_match.
Qed.

Lemma response_ttls r : r ∈ all_records response -> r_ttl r <= remaining.
Proof.
  destruct response_sections as (out & o & Hp & Ha & Hu & Hd). unfold all_records.
  rewrite Ha, Hu, Hd. destruct (maybe_strip client_do out) as (_ & _ & _ & Sa & Su & Sd).
  destruct (policy_ttls _ _ _ _ Hp) as (Httl & Hrem & _). specialize (Httl r).
  cbn [cx_remaining_authoritative answer_context] in Hrem. rewrite !elem_of_app in *.
  intros [Hr%Sa|[Hr%Su|Hr%Sd]]; (transitivity (oc_client_ttl o); [apply Httl; tauto|done]).
Qed.

(** C2. What a response serves is what is cached: no record outlives the
    remaining time given to it, and unless the entry is proved insecure (the only
    case in which addresses may be added) each section holds records of the same
    section of the entry, none of them more often than there, with a TTL lowered by
    at least the entry's age; a client that asked for DNSSEC gets every record of
    every section. *)
Theorem response_serves_the_entry :
  (∀ r, r ∈ all_records response -> r_ttl r <= remaining) ∧
  (ent_dnssec entry ≠ Insecure ->
   ∃ ttl, ttl <= remaining ∧
     let served := aged (age_secs entry now) ttl in
     answers response ⊆+ served (answers (ent_message entry)) ∧
     authorities response ⊆+ served (authorities (ent_message entry)) ∧
     additionals response ⊆+ served (additionals (ent_message entry)) ∧
     (client_do = true ->
      answers response ≡ₚ served (answers (ent_message entry)) ∧
      authorities response = served (authorities (ent_message entry)) ∧
      additionals response = served (additionals (ent_message entry)))).
Proof.
  split; [exact response_ttls|]. intros Hn.
  destruct response_sections as (out & o & Hp & -> & -> & ->).
  destruct (maybe_strip_sections client_do out) as (Sa & Su & Sd).
  destruct (policy_unmodified _ _ _ _ Hp Hn) as (_ & Ea & Eu & Ed).
  destruct (policy_ttls _ _ _ _ Hp) as (_ & Hrem & _).
  cbn [answers authorities additionals age_ttls map_ttls rehead] in Ea, Eu, Ed.
  rewrite capped_section in Ea, Eu, Ed. exists (oc_client_ttl o). split; [exact Hrem|]. cbn zeta.
  rewrite <- Ea, <- Eu, <- Ed. split_and!; try done. by intros ->.
Qed.
End one_response.

Lemma attach_ede_sections msg err text :
  all_records (attach_ede msg err text) = all_records msg ∧
  metadata (attach_ede msg err text) = metadata msg ∧
  queries (attach_ede msg err text) = queries msg ∧
  (edns (attach_ede msg err text) = None <-> edns msg = None).
Proof. unfold attach_ede, insert_option. destruct (edns msg) eqn:E; cbn; by rewrite ?E. Qed.

(** An answer served past its expiry tells the client to forget it at once:
    every record has TTL 0 or less, whatever [ttl.cap_serve_stale] says, and an
    OPT record is still present only for a client that sent one. *)
Theorem stale_answers_expire_at_once cfg env request q (entry : CacheEntry Name)
    (client_do : bool) max_size now :
  let a := serve_stale rfr strip cfg env request q entry None client_do max_size now in
  an_origin a = OriginStale ∧
  (∀ r, r ∈ all_records (an_message a) -> r_ttl r <= 0) ∧
  queries (an_message a) = queries request ∧
  (edns request = None -> edns (an_message a) = None).
Proof.
  set (m := build_response rfr strip cfg env request q entry 0 true client_do now).
  assert ((∀ r, r ∈ all_records m -> r_ttl r <= 0) ∧ queries m = queries request ∧
    (edns request = None -> edns m = None)) as (Ht & Hq & He).
  { split_and!.
    - apply response_ttls.
    - apply response_metadata.
    - intros Hn. destruct (build_response_parts cfg env request q entry 0 true client_do now)
        as (pre & out & o & _ & _ & Hm). subst m. rewrite Hm. unfold attach_response_edns.
      by rewrite Hn. }
  unfold serve_stale. fold m. cbn zeta. case_match; cbn [an_message an_origin]; [|done].
  destruct (attach_ede_sections m
    (if bool_decide (ent_kind entry = NxDomainKind) then StaleNxdomain else StaleAnswer)
    (lit "serving expired data")) as (-> & _ & -> & E). split_and!; try done.
  intros ?. by apply E, He.
Qed.

End responses.

(** ** Failures *)

Section failures.
Context {Name : Type} {NLib : NameLib Name} {ML : MokaLib CacheKey} {OL : OptLib}.
Context {IPL : IpNetLib} {FL : FloatLib}.
Context (rfr : Metadata -> Metadata) (strip : Message Name -> Message Name).
Implicit Types request : Message Name.

Lemma lookup_cache_miss cfg env (c : DnsCache Name) request q key client_do max_size now d c' :
  lookup_cache rfr strip cfg env c request q key client_do max_size now = (d, c') ->
  match d with Answered _ => True | _ => failure c key now = (None, c') end.
Proof.
  unfold lookup_cache. destruct (failure c key now) as [[f|] c1]; [by intros [= <- <-]|].
  case_match; by intros [= <- <-].
Qed.

Context {MLaws : MokaLaws CacheKey}.

(** When one query is handled after the other, the back-off of RFC 9520 never
    grows: a query that reaches resolution finds no failure on record any more, so
    its own failure is stored as the first of a streak, for twice the minimum
    (within the maximum), however often the name has failed before. *)
Theorem failures_never_back_off cfg env text (c c' : DnsCache Name) request q key client_do
    max_size now now' o report
    (Hmiss : lookup_cache rfr strip cfg env c request q key client_do max_size now = (NeedMiss, c'))
    (Hfail : flight_result text o = Err report) (Hrem : fr_remember report = true) :
  (resolve_miss rfr strip cfg env text c' request q key o client_do max_size now').2
  = record_failure c' key
      (mk_FailureEntry now'
         (Z.min (2 * cache_failure_min_ttl (cf_cache cfg)) (cache_failure_max_ttl (cf_cache cfg)))
         ServFail (lit "upstream resolution failed") 1).
Proof.
  apply lookup_cache_miss in Hmiss. apply failure_none_streak in Hmiss.
  unfold resolve_miss, note_failure. rewrite Hfail, Hrem, Hmiss. cbn [snd].
  unfold failure_ttl. change (sat_add u32_max 0 1) with 1. change (2 ^ Z.min 1 6) with 2.
  by rewrite Z.mul_comm.
Qed.

(** The callers of one failed flight record it one after the other. *)
Definition note_burst (cfg : ResolverConfig) (key : CacheKey) (report : FailureReport)
    (times : list Instant) (c : DnsCache Name) : DnsCache Name :=
  fold_left (λ c now, note_failure cfg c key report now) times c.

(** The streak counts callers, not failures: when several clients wait on one
    flight and it fails, each of them records it, so the failure of a single
    upstream attempt is remembered as a streak as long as the number of clients,
    with the back-off of such a streak. *)
Theorem one_failure_counts_per_caller cfg key report (times : list Instant) (c : DnsCache Name)
    (Hkeep : ∀ (m : moka FailureEntry) v, m_get (m_insert m key v) key = Some v)
    (Hrem : fr_remember report = true) (Hnew : failure_streak c key = 0)
    (Hne : times ≠ []) (Hlen : Z.of_nat (length times) <= u32_max) :
  failure_streak (note_burst cfg key report times c) key = Z.of_nat (length times) ∧
  fail_ttl <$> m_get (c_failures (note_burst cfg key report times c)) key
  = Some (failure_ttl (cf_cache cfg) (Z.of_nat (length times))).
Proof.
  assert (∀ ts c0 s, failure_streak c0 key = s -> 0 <= s -> ts ≠ [] ->
    s + Z.of_nat (length ts) <= u32_max ->
    failure_streak (note_burst cfg key report ts c0) key = s + Z.of_nat (length ts) ∧
    fail_ttl <$> m_get (c_failures (note_burst cfg key report ts c0)) key
    = Some (failure_ttl (cf_cache cfg) (s + Z.of_nat (length ts)))) as Hgen.
  2:{ by apply (Hgen times c 0). }
  clear dependent c times. induction ts as [|t ts IH]; intros c s Hs H0 Hne Hmax; [done|].
  cbn [length] in *. rewrite Nat2Z.inj_succ in *.
  assert (∃ f, m_get (c_failures (note_failure cfg c key report t)) key = Some f ∧
    fail_consecutive f = s + 1 ∧ fail_ttl f = failure_ttl (cf_cache cfg) (s + 1))
    as (f & Hf & Hc & Ht).
  { unfold note_failure, record_failure, with_stores. rewrite Hrem. cbn [c_failures].
    rewrite Hkeep. eexists. split; [done|]. cbn [fail_consecutive fail_ttl]. rewrite Hs.
    unfold sat_add. rewrite Z.min_r by lia. done. }
  cbn [note_burst fold_left]. fold (note_burst cfg key report ts (note_failure cfg c key report t)).
  destruct ts as [|t' ts'].
  - cbn [note_burst fold_left length]. unfold failure_streak. rewrite Hf. cbn.
    rewrite Hc, Ht. by replace (Z.succ 0) with 1 by done.
  - destruct (IH (note_failure cfg c key report t) (s + 1)) as [-> ->]; try lia; try done.
    { unfold failure_streak. by rewrite Hf. }
    by replace (s + Z.succ (Z.of_nat (length (t' :: ts')))) with
      (s + 1 + Z.of_nat (length (t' :: ts'))) by lia.
Qed.

End failures.

(** ** Requests that need no data *)

Section requests.
Context {Name : Type} {NLib : NameLib Name} {ML : MokaLib CacheKey} {OL : OptLib}.
Context (rfr : Metadata -> Metadata).
Implicit Types request : Message Name.

(** A request the resolver goes on with. *)
Definition serviceable (cfg : ResolverConfig) request (q : Query Name) : Prop :=
  m_op_code (metadata request) = OpQuery ∧ queries request = [q] ∧
  (∀ e, edns request = Some e -> e_version e <= 0) ∧ supported_class q = true ∧
  (q_type q = RT_ANY -> cf_any_policy cfg = AnyForward).

(** The response code of the first check a request fails. *)
Definition precheck_code (cfg : ResolverConfig) request : option ResponseCode :=
  if negb (bool_decide (m_op_code (metadata request) = OpQuery)) then Some NotImp
  else match queries request with
       | [q] =>
           if match edns request with Some e => 0 <? e_version e | None => false end
           then Some BADVERS
           else if negb (supported_class q) then Some Refused
           else if bool_decide (q_type q = RT_ANY) then
             match cf_any_policy cfg with
             | AnyRefuse => Some Refused
             | AnyMinimal => Some (m_response_code (rfr (metadata request)))
             | AnyForward => None
             end
           else None
       | _ => Some FormErr
       end.

Local Ltac precheck_refuses :=
  cbn; split_and!; [|done|done|lia|done];
  intros q0 (Hop' & Hq' & Hv' & Hc' & Ha'); simplify_eq;
  first [congruence | specialize (Hv' _ eq_refl); lia | specialize (Ha' ltac:(done)); congruence].

Local Ltac precheck_passes :=
  match goal with _ : queries _ = [?q] |- _ => exists q end;
  split_and!; try done; intros; congruence.

(** The checks before any lookup are exhaustive and ordered: a request goes on
    exactly when it is a query with one question of a served class, no EDNS version
    above 0 and no ANY the policy answers itself; any other gets the code of the
    first check it fails, its own question back, no record but the HINFO of a
    minimal ANY answer, and an OPT record only if it sent one. *)
Theorem precheck_is_exact cfg request max_size :
  match precheck rfr cfg request max_size with
  | None => ∃ q, serviceable cfg request q
  | Some a =>
      (∀ q, ~ serviceable cfg request q) ∧
      Some (m_response_code (metadata (an_message a))) = precheck_code cfg request ∧
      queries (an_message a) = queries request ∧
      (length (answers (an_message a)) <= 1)%nat ∧
      (edns (an_message a) = None <-> edns request = None)
  end.
Proof.
  unfold precheck, precheck_code, any_answer, serviceable, reject, error_response,
    minimal_any_response, response_skeleton, attach_response_edns.
  change (rtype_eqb ?a ?b) with (bool_decide (a = b)).
  case_bool_decide as Hop; cbn [negb]; [|destruct (edns request); precheck_refuses].
  destruct (queries request) as [|q [|q' l]] eqn:Eq.
  1,3: destruct (edns request); precheck_refuses.
  assert (∀ b, match edns request with Some e => 0 <? e_version e | None => false end = b ->
    if b then ∃ e, edns request = Some e ∧ 0 < e_version e
    else ∀ e, edns request = Some e -> e_version e <= 0) as Hv.
  { intros b <-. destruct (edns request) as [e|]; [|done].
    destruct (Z.ltb_spec 0 (e_version e)); [by exists e|by intros ? [= <-]]. }
  destruct (match edns request with Some e => 0 <? e_version e | None => false end);
    specialize (Hv _ eq_refl); cbn in Hv.
  { destruct Hv as (e & He & Hver). rewrite He. precheck_refuses. }
  destruct (supported_class q) eqn:Es; cbn [negb]; [|destruct (edns request); precheck_refuses].
  case_bool_decide as Ht; [|precheck_passes].
  destruct (cf_any_policy cfg) eqn:Ea; [|precheck_passes|].
  all: destruct (edns request); cbn; rewrite ?Eq; precheck_refuses.
Qed.

End requests.

(** ** Concrete requests *)

Section witnesses.
#[local] Existing Instance text_names.
#[local] Existing Instance ipnet_reference.
#[local] Existing Instance moka_assoc.
#[local] Existing Instance moka_assoc_laws.
#[local] Existing Instance opt_list.
#[local] Existing Instance opt_list_laws.
#[local] Instance response_floats : FloatLib := { powf _ _ := f64_one; powi _ _ := f64_one }.

Definition reply_header (m : Metadata) : Metadata :=
  mk_Metadata (m_id m) MtResponse (m_op_code m) false false (m_recursion_desired m) false false
    (m_checking_disabled m) NoError.

Definition unsigned (rs : list (DnsRecord str)) : list (DnsRecord str) :=
  List.filter (λ r, negb (rtype_eqb (record_type r) RT_RRSIG)) rs.

Definition drop_signatures (msg : Message str) : Message str :=
  mk_Message (metadata msg) (queries msg) (unsigned (answers msg)) (unsigned (authorities msg))
    (unsigned (additionals msg)) (edns msg).

Lemma unsigned_sublist rs : sublist (unsigned rs) rs.
Proof.
  induction rs as [|r rs IH]; [constructor|]. cbn. destruct (negb _); by constructor.
Qed.

#[local] Instance reference_response : ResponseLaws reply_header drop_signatures.
Proof. split; try done; intros msg; apply unsigned_sublist. Qed.

Definition plain_config : ResolverConfig :=
  mk_ResolverConfig (from_secs 4) AnyMinimal default_UdpConfig default_TcpConfig
    default_CacheConfig default_TtlConfig default_ServeStaleConfig default_DnssecConfig.

Definition quiet_env : PolicyEnv := {|
  pe_cloudflare_enabled := false; pe_configured_mode := CfOff;
  pe_mode_state := ModeOverride.mode_new false CfOff; pe_snapshot := None;
  pe_allow_domains := []; pe_deny_domains := []; pe_baseline := false; pe_verified := [];
  pe_is_web := false; pe_snapshot_for := λ _, ∅; pe_ranking := no_exploration;
  pe_augment := default_AugmentConfig; pe_recent_change := false; pe_now_unix := 2000;
  pe_seed := 1 |}.

Definition asked : Query str := mk_Query (lit "www.example.com.") RT_A IN.

(** A query with an OPT record that asks for DNSSEC. *)
Definition signed_request : Message str :=
  mk_Message (mk_Metadata 99 MtQuery OpQuery false false true false false false NoError)
    [asked] [] [] [] (Some (mk_Edns 0 1232 true [])).

Definition secure_entry : CacheEntry str :=
  mk_CacheEntry
    (mk_Message (mk_Metadata 1 MtResponse OpQuery false false true true false false NoError)
       [asked] [mk_Record (lit "www.example.com.") IN 300 (RD_A 1) PSecure;
                mk_Record (lit "www.example.com.") IN 300 (RD_RRSIG 9000) PSecure] [] [] None)
    0 1000 300 Positive Secure (mk_AnswerSource (lit "one") Udp) 7 (Some 9000) 512.

Lemma response_is_faithful_witness :
  m_authentic_data (metadata (build_response reply_header drop_signatures plain_config quiet_env
    signed_request asked secure_entry 290 false true (from_secs 10))) = true.
Proof.
  refine (proj2 (proj1 (proj2 (proj2 (proj2 (proj2 (proj2 (proj2
    (response_is_faithful reply_header drop_signatures plain_config quiet_env signed_request asked
       secure_entry 290 false true (from_secs 10))))))))) _).
  split; [reflexivity|by left].
Defined.

Lemma response_serves_the_entry_witness :
  length (answers (build_response reply_header drop_signatures plain_config quiet_env
    signed_request asked secure_entry 290 false true (from_secs 10))) = 2%nat.
Proof.
  destruct (proj2 (response_serves_the_entry reply_header drop_signatures
    plain_config quiet_env signed_request asked secure_entry 290 false true (from_secs 10)))
    as (ttl & _ & _ & _ & _ & Hall); [discriminate|].
  rewrite (Permutation_length (proj1 (Hall eq_refl))). reflexivity.
Defined.

Lemma stale_answers_expire_at_once_witness :
  an_origin (serve_stale reply_header drop_signatures plain_config quiet_env signed_request asked
    secure_entry None true 1232 (from_secs 400)) = OriginStale.
Proof.
  exact (proj1 (stale_answers_expire_at_once reply_header drop_signatures plain_config quiet_env
    signed_request asked secure_entry true 1232 (from_secs 400))).
Defined.

Definition throttled : gmap CacheKey Instant := {[ sample_key := from_secs 1 ]}.

Lemma stale_refresh_throttled_witness :
  (stale_refresh_allowed throttled sample_key (from_secs 30) (from_secs 5)).1 = false.
Proof.
  rewrite (proj1 (proj2 (stale_refresh_throttled throttled sample_key (from_secs 30) (from_secs 5)
    ltac:(done) ltac:(unfold throttled; rewrite map_size_singleton; unfold MAX_TRACKED; lia)))
    (from_secs 1)); [reflexivity|apply lookup_singleton_eq|reflexivity].
Defined.

(** The name failed three times in a row, and the last record has expired. *)
Definition failing_again : DnsCache str :=
  record_failure empty_cache sample_key
    (mk_FailureEntry 0 (from_secs 8) ServFail (lit "upstream resolution failed") 3).

Definition outage : FlightOutcome (Name := str) := FoLeader (Err (AllFailed (lit "down"))).

Lemma failures_never_back_off_witness :
  failure_streak failing_again sample_key = 3 ∧
  failure_streak (resolve_miss reply_header drop_signatures plain_config quiet_env (λ _, [])
    (failure failing_again sample_key (from_secs 9)).2 signed_request asked sample_key outage
    true 1232 (from_secs 10)).2 sample_key = 1.
Proof.
  split; [vm_compute; reflexivity|].
  rewrite (failures_never_back_off reply_header drop_signatures plain_config quiet_env (λ _, [])
    failing_again (failure failing_again sample_key (from_secs 9)).2 signed_request asked
    sample_key true 1232 (from_secs 9) (from_secs 10) outage
    (mk_FailureReport [] true NoReachableAuthority)); vm_compute; reflexivity.
Defined.

(** Seven clients on one failed flight: the longest back-off after one failure. *)
Lemma one_failure_counts_per_caller_witness :
  failure_streak (note_burst plain_config sample_key (upstream_failure (lit "down"))
    (repeat 0 7) empty_cache) sample_key = 7.
Proof.
  refine (proj1 (one_failure_counts_per_caller plain_config sample_key
    (upstream_failure (lit "down")) (repeat 0 7) empty_cache _ eq_refl eq_refl _ _)).
  - intros m v. cbn [m_get m_insert moka_assoc assoc_get]. by rewrite bool_decide_true.
  - done.
  - unfold u32_max. cbn. lia.
Defined.

End witnesses.
