(* ===== verification/ResolverFetch.v ===== *)
(** * What enters the cache

    Theorems about [Resolver]: the strict-mode validation loop, the second opinion
    on negative answers, the entry a fetch stores, and the verdicts of the
    background validation. *)

From Stdlib Require Import Ascii String.
From S2P Require Import Prelude.
From S2P Require Import Floats.
From S2P Require Import Names.
From S2P Require Import Net.
From S2P Require Import Config.
From S2P Require Import Dns.
From S2P Require Import Errors.
From S2P Require Import Util.
From S2P Require Import Message.
From S2P Require Import EdnsOptions.
From S2P Require Import TtlPolicy.
From S2P Require Import DnssecPolicy.
From S2P Require Import CorroboratePolicy.
From S2P Require Import Prefixes.
From S2P Require Import CloudflarePolicy.
From S2P Require Import SpecialUse.
From S2P Require Import Quality.
From S2P Require Import Ranking.
From S2P Require Import AnswerPolicy.
From S2P Require Import Cache.
From S2P Require Import SingleFlight.
From S2P Require Import Health.
From S2P Require Import Scheduler.
From S2P Require Import Resolver.

(** ** Fetching *)

Section fetching.
Context {Name : Type} {NLib : NameLib Name} {ML : MokaLib CacheKey} {OL : OptLib}.
Context {WC : WireCodes (Name := Name)}.
Context (is_dnssec : RecordType -> bool) (wire_len : Message Name -> option Z).
Implicit Types msg response : Message Name.

Abbreviation rcode msg := (m_response_code (metadata msg)).

(** What the second opinion can come to. *)
Inductive corroborated msg (status : DnssecStatus) (route : option RouteKey)
    (second : Duration -> str -> option (UpstreamAnswer Name))
    : Message Name -> option RouteKey -> NegativeEvidence -> Prop :=
| cor_positive : rcode msg ≠ NXDomain -> corroborated msg status route second msg route NotNegative
| cor_proven : rcode msg = NXDomain -> status = Secure ->
    corroborated msg status route second msg route Proven
| cor_single : rcode msg = NXDomain -> status ≠ Secure ->
    corroborated msg status route second msg route SingleSource
| cor_agreed first slice s : rcode msg = NXDomain -> route = Some first ->
    second slice (rk_authority first) = Some s -> rcode (ua_message s) = NXDomain ->
    corroborated msg status route second msg route Corroborated
| cor_contradicted first slice s : rcode msg = NXDomain -> status ≠ Secure -> route = Some first ->
    second slice (rk_authority first) = Some s -> rcode (ua_message s) = NoError ->
    answers (ua_message s) ≠ [] ->
    corroborated msg status route second (ua_message s) (Some (ua_route s)) NotNegative.

Lemma corroborate_negative_sound cfg msg status route remaining second m' route' ev :
  corroborate_negative cfg msg status route remaining second = (m', route', ev) ->
  corroborated msg status route second m' route' ev.
Proof.
  unfold corroborate_negative. case_bool_decide as Hn; cbn [negb].
  2:{ intros [= <- <- <-]. by constructor. }
  case_bool_decide as Hs; [intros [= <- <- <-]; by constructor|].
  destruct (corroborate_negative_cfg _); cbn [negb]; [|intros [= <- <- <-]; by constructor].
  destruct route as [first|]; [|intros [= <- <- <-]; by constructor].
  case_match; [intros [= <- <- <-]; by constructor|].
  destruct (second _ _) as [s|] eqn:E; [|intros [= <- <- <-]; by constructor].
  case_bool_decide; [intros [= <- <- <-]; by econstructor|].
  case_bool_decide; cbn [andb]; [|intros [= <- <- <-]; by constructor].
  destruct (answers (ua_message s)) eqn:Ea; cbn; intros [= <- <- <-];
    econstructor; try done; by rewrite Ea.
Qed.

(** A successful fetch, step by step. *)
Lemma fetch_ok cfg (c c' : DnsCache Name) key w e :
  fetch is_dnssec wire_len cfg c key w = (Ok e, c') ->
  ∃ name msg route ad m' route' ev,
    let query := upstream_query cfg key (fw_id w) name (fw_ecs w) in
    let status := dnssec_status msg (cf_dnssec cfg) ad in
    fw_parse w (key_name key) = Some name ∧ obtain cfg key w query = Ok (msg, route, ad) ∧
    status ≠ Bogus ∧ corroborated msg status route (fw_corroborate w query) m' route' ev ∧
    e = new_entry is_dnssec wire_len cfg c m' status route' ev (fw_now w) (fw_now_unix w) ∧
    c' = store c key e (fw_now w).
Proof.
  unfold fetch, fetch_finish. destruct (fw_group w); cbn [negb]; [|done].
  destruct (fw_parse w _) as [name|] eqn:En; [|done].
  destruct (obtain _ _ _ _) as [[[msg route] ad]|] eqn:Eo; try done.
  case_bool_decide as Hb; [done|].
  destruct (corroborate_negative _ _ _ _ _ _) as [[m' route'] ev] eqn:Ec. intros [= <- <-].
  exists name, msg, route, ad, m', route', ev. split_and!; try done.
  by eapply corroborate_negative_sound.
Qed.

Lemma fetch_err cfg (c c' : DnsCache Name) key w err :
  fetch is_dnssec wire_len cfg c key w = (Err err, c') -> c' = c.
Proof.
  unfold fetch, fetch_finish. repeat case_match; congruence.
Qed.

(** The time a message itself allows: the least TTL of its records for a positive
    answer; for a negative one the lesser of the TTL and the minimum of the first SOA of
    the authority section, and nothing without one. *)
Definition own_ttl (kind : EntryKind) (msg : Message Name) (t : Z) : Prop :=
  match kind with
  | Positive => (∃ r, r ∈ data_records msg ∧ r_ttl r = t) ∧ ∀ r, r ∈ data_records msg -> t <= r_ttl r
  | _ =>
      (∃ before r after minimum, authorities msg = before ++ r :: after ∧ r_data r = RD_SOA minimum ∧
         (∀ r' m, r' ∈ before -> r_data r' ≠ RD_SOA m) ∧ t = Z.min (r_ttl r) minimum) ∨
      ((∀ r m, r ∈ authorities msg -> r_data r ≠ RD_SOA m) ∧ t = 0)
  end.

Lemma soa_ttl_spec (rs : list (DnsRecord Name)) :
  match soa_ttl rs with
  | Some t => ∃ before r after minimum, rs = before ++ r :: after ∧ r_data r = RD_SOA minimum ∧
      (∀ r' m, r' ∈ before -> r_data r' ≠ RD_SOA m) ∧ t = Z.min (r_ttl r) minimum
  | None => ∀ r m, r ∈ rs -> r_data r ≠ RD_SOA m
  end.
Proof.
  induction rs as [|r rs IH]; cbn; [by intros r m ?%not_elem_of_nil|].
  destruct (r_data r) eqn:E.
  4: { exists [], r, rs, minimum. split_and!; try done. by intros r' m ?%not_elem_of_nil. }
  all: destruct (soa_ttl rs);
    [destruct IH as (before & r0 & after & m0 & -> & ? & Hb & ->); exists (r :: before), r0, after, m0;
     split_and!; try done; intros r' m [->|?]%elem_of_cons; [congruence|by apply Hb]
    |intros r' m [->|?]%elem_of_cons; [congruence|by apply IH]].
Qed.

Lemma raw_ttl_own msg :
  own_ttl (classify is_dnssec msg) msg
    (match classify is_dnssec msg with
     | Positive => default 0 (min_ttl msg) | _ => default 0 (negative_ttl msg) end).
Proof.
  assert (∀ k, k ≠ Positive -> own_ttl k msg (default 0 (negative_ttl msg))) as Hneg.
  { intros k Hk. pose proof (soa_ttl_spec (authorities msg)) as H. fold (negative_ttl msg) in H.
    destruct k; [done|..]; cbn; destruct (negative_ttl msg); auto. }
  destruct (classify is_dnssec msg) eqn:Ek; [|by apply Hneg..].
  assert (data_records msg ≠ []) as Hd.
  { unfold classify in Ek. destruct (m_response_code (metadata msg)); try done;
      destruct (existsb _ _) eqn:Ex; try done; apply existsb_exists in Ex as (r & Hr & [Hx _]%andb_true_iff);
      intros Hn; assert (In r (data_records msg)) as Hi
        by (apply filter_In; split; [apply in_app_iff; by left|done]);
      by rewrite Hn in Hi. }
  unfold min_ttl. destruct (min_list _) as [t|] eqn:Et.
  - apply min_list_spec in Et as [(r & -> & Hr)%list_elem_of_fmap Hm]. split; [by exists r|].
    intros r' Hr'. by apply Hm, list_elem_of_fmap_2.
  - apply min_list_None in Et. by apply map_eq_nil in Et.
Qed.


(** C4. One resolver's word never erases a name for long: a cached NXDOMAIN that
    outlives [PROVISIONAL_NEGATIVE_TTL] was either proved by DNSSEC or confirmed
    by a second opinion that excluded the first resolver's authority.  A second
    opinion never erases anything itself: an answer other than NXDOMAIN is cached
    as it came, and what replaces an NXDOMAIN is a non-empty NOERROR answer. *)
Theorem negatives_need_two_sources cfg (c c' : DnsCache Name) key w e
    (Hfetch : fetch is_dnssec wire_len cfg c key w = (Ok e, c')) :
  ∃ query msg route ad, obtain cfg key w query = Ok (msg, route, ad) ∧
    (ent_kind e = NxDomainKind -> PROVISIONAL_NEGATIVE_TTL < ent_ttl e ->
     ent_message e = msg ∧
     (ent_dnssec e = Secure ∨
      ∃ first slice s, route = Some first ∧
        fw_corroborate w query slice (rk_authority first) = Some s ∧
        rcode (ua_message s) = NXDomain)) ∧
    (rcode msg ≠ NXDomain -> ent_message e = msg) ∧
    (ent_message e ≠ msg -> rcode msg = NXDomain ∧ rcode (ent_message e) = NoError ∧
       answers (ent_message e) ≠ []).
Proof.
  apply fetch_ok in Hfetch as (name & msg & route & ad & m' & route' & ev & _ & Ho & Hb & Hc & -> & _).
  eexists _, msg, route, ad. split; [exact Ho|]. cbn [ent_message ent_kind ent_dnssec ent_ttl new_entry].
  destruct Hc as [Hn|Hn Hs|Hn Hs|first slice s Hn Hr H2 Hs|first slice s Hn Hs Hr H2 H3 H4];
    (split_and!; [|done|done]).
  - unfold classify. intros Hk. destruct (rcode msg); try done; by case_match.
  - by auto.
  - intros _ Ht. unfold stored_ttl in Ht. rewrite (bool_decide_true (SingleSource = _)) in Ht by done. lia.
  - split; [done|]. right. by exists first, slice, s.
  - unfold classify. rewrite H3. by case_match.
Qed.

Lemma judge_message cfg (x : ValidatorResult * ProofFailure) msg o :
  judge cfg x.1 x.2 = (Some msg, o) ->
  x = (VrMessage msg, x.2) ∧ DnssecPolicy.classify msg cfg false x.2 = o.
Proof. destruct x as [[] obs]; cbn; by intros [= -> <-]. Qed.

(** C5. In strict mode nothing reaches the client unchecked: the answer is a
    message of the validator, on the first or the second of at most two calls,
    that was not judged bogus, or the validator produced no message and two
    authorities agree on a non-empty NOERROR answer.  Its AD bit is never taken
    from upstream. *)
Theorem strict_mode_serves_checked_answers cfg key (w : FetchWorld) query msg route ad
    (Hmode : blocks_the_client (dnssec_mode (cf_dnssec cfg)) = true)
    (Hcd : mode_checking_disabled (key_mode key) = false)
    (Ho : obtain cfg key w query = Ok (msg, route, ad)) :
  route = None ∧ ad = false ∧
  ((∃ observed, (VrMessage msg, observed) ∈ [fw_first w; fw_second w] ∧
      DnssecPolicy.classify msg (cf_dnssec cfg) false observed ≠ VBogus) ∨
   (∃ a b slice, MIN_REVALIDATION_BUDGET <= slice ∧ fw_resolve_pair w query slice = Some (a, b) ∧
      msg = ua_message a ∧ rcode msg = NoError ∧ answers msg ≠ [] ∧
      answers_are_compatible msg (ua_message b) = true)).
Proof.
  unfold obtain in Ho. rewrite Hmode, Hcd in Ho. cbn [negb andb] in Ho.
  destruct (fw_validator w), (fw_permit w); cbn [negb] in Ho; try done.
  destruct (validation_loop _ _ _ _) as [resp outcome] eqn:El.
  destruct (validated_answer _ _ _) as [m|] eqn:Ev; try done.
  injection Ho as [= -> <- <-]. split_and!; [done..|].
  destruct resp as [m|].
  - left. assert (m = msg ∧ outcome ≠ VBogus) as [-> Hout].
    { revert Ev. unfold validated_answer. destruct outcome; by intros [= ->]. }
    unfold validation_loop in El. destruct (judge _ (fw_first w).1 _) as [m1 o1] eqn:E1.
    destruct (is_retryable o1 && _).
    + apply judge_message in El as [E <-]. eexists. rewrite <- E. split; [right; left|done].
    + injection El as -> ->. apply judge_message in E1 as [E <-]. eexists. rewrite <- E.
      split; [left|done].
  - right. revert Ev. unfold validated_answer, unproved_fallback.
    destruct outcome; try done; intros Ev; repeat case_match; simplify_eq.
    all: match goal with
         | H : negb _ || _ = false |- _ =>
             apply orb_false_iff in H as [Hc Hl];
             apply negb_false_iff, bool_decide_eq_true in Hc; apply Nat.eqb_neq in Hl
         end.
    all: eexists _, _, _; split_and!; [|done|done|done| |done]; [by apply Z.ltb_ge|].
    all: by intros Hnil; rewrite Hnil in Hl.
Qed.

(** In strict mode a proof that could not be finished is still answered as a
    forgery when the validator returned a message: the records it marks bogus are
    reclassified as our own failure, so the validation loop accepts the answer, and
    the status check behind it rejects the same records as bogus.  The error is not
    a transient one, so the failure cache remembers it. *)
Theorem unfinished_proof_reported_bogus cfg (c : DnsCache Name) key (w : FetchWorld) name msg observed
    (Hmode : blocks_the_client (dnssec_mode (cf_dnssec cfg)) = true)
    (Hcd : mode_checking_disabled (key_mode key) = false)
    (Hw : fw_group w = true ∧ fw_validator w = true ∧ fw_permit w = true)
    (Hname : fw_parse w (key_name key) = Some name)
    (Hfirst : fw_first w = (VrMessage msg, observed)) (Hsecond : fw_second w = fw_first w)
    (Hours : observed ≠ PF_None)
    (Hmarks : dnssec_status msg (cf_dnssec cfg) false = Bogus) :
  DnssecPolicy.classify msg (cf_dnssec cfg) false observed ≠ VBogus ∧
  obtain cfg key w (upstream_query cfg key (fw_id w) name (fw_ecs w)) = Ok (msg, None, false) ∧
  fetch is_dnssec wire_len cfg c key w = (Err Errors.DnssecBogus, c) ∧
  is_transient Errors.DnssecBogus = false.
Proof.
  destruct Hw as (Hg & Hv & Hp).
  assert (DnssecPolicy.classify msg (cf_dnssec cfg) false observed ≠ VBogus) as Hcl
    by (by intros [_ ?]%classify_bogus).
  assert (obtain cfg key w (upstream_query cfg key (fw_id w) name (fw_ecs w))
          = Ok (msg, None, false)) as Ho.
  { unfold obtain. rewrite Hmode, Hcd, Hv, Hp. cbn [negb andb].
    assert (validation_loop (cf_dnssec cfg) (fw_first w) (fw_second w) (fw_time_left w)
      = (Some msg, DnssecPolicy.classify msg (cf_dnssec cfg) false observed)) as ->.
    { unfold validation_loop. rewrite Hsecond, Hfirst. cbn. by case_match. }
    unfold validated_answer. by destruct (DnssecPolicy.classify _ _ _ _). }
  split_and!; try done. unfold fetch. rewrite Hg, Hname. cbn [negb].
  unfold fetch_finish. rewrite Ho. by rewrite bool_decide_true.
Qed.

(** What a completed validation says about the answer that is cached: its fingerprint
    is the validated one, and the weakest proof is bogus, with no failure of ours and a
    signature that was evaluated and failed, or the proof came out with a status. *)
Definition refutes (cfg : DnssecConfig) (r : ValidatorResult) (observed : ProofFailure) (e : CacheEntry Name)
    : Prop :=
  ∃ msg, r = VrMessage msg ∧ ent_fingerprint e = answer_fingerprint msg ∧
    dnssec_status msg cfg false = Bogus ∧ observed = PF_None ∧
    ∃ rr, rr ∈ answers msg ∧ record_type rr = RT_RRSIG ∧ r_proof rr = PBogus.

Definition settles (cfg : DnssecConfig) (r : ValidatorResult) (e : CacheEntry Name) (status : DnssecStatus)
    : Prop :=
  ∃ msg, r = VrMessage msg ∧ ent_fingerprint e = answer_fingerprint msg ∧
    dnssec_status msg cfg false = status ∧ (status = Secure ∨ status = Insecure).

Lemma failed_signatures_iff msg :
  carries_failed_signatures (VrMessage msg) = true <->
  ∃ rr, rr ∈ answers msg ∧ record_type rr = RT_RRSIG ∧ r_proof rr = PBogus.
Proof.
  cbn. rewrite existsb_exists. split.
  - intros (rr & Hin & [Ht Hp]%andb_true_iff). exists rr.
    split_and!; [by apply list_elem_of_In|by apply bool_decide_eq_true in Ht|by apply bool_decide_eq_true in Hp].
  - intros (rr & Hin & Ht & Hp). exists rr. split; [by apply list_elem_of_In|].
    apply andb_true_iff. split; by apply bool_decide_eq_true.
Qed.

(** C3. A background verdict acts on the cached answer it is about and on nothing else.
    When a completed validation refutes that very answer it is removed; when it proves it
    secure or insecure, the entry is put back with that status and otherwise unchanged.
    A timeout, an error, an unfinished proof, a bogus verdict without a failed signature,
    a verdict about another answer or one that is known already leaves the cache exactly
    as it was. *)
Theorem background_verdict_is_local {MLaws : MokaLaws CacheKey} cfg (c : DnsCache Name) key r observed :
  let c' := background_verdict cfg c key r observed in
  c_failures c' = c_failures c ∧ c_variants c' = c_variants c ∧
  match m_get (c_answers c) key with
  | None => c' = c
  | Some e =>
      (refutes cfg r observed e ->
       c_answers c' = m_invalidate (c_answers c) key ∧ m_get (c_answers c') key = None) ∧
      (∀ status, settles cfg r e status -> ent_dnssec e ≠ status ->
       c_answers c' = m_insert (c_answers c) key
         (mk_CacheEntry (ent_message e) (ent_received_at e) (ent_received_unix e) (ent_ttl e) (ent_kind e)
            status (ent_source e) (ent_fingerprint e) (ent_rrsig_expiry_unix e) (ent_approx_bytes e))) ∧
      (~ refutes cfg r observed e -> (∀ status, settles cfg r e status -> ent_dnssec e = status) -> c' = c)
  end.
Proof.
  clear is_dnssec wire_len. cbn zeta. unfold background_verdict, refutes, settles.
  destruct r as [|msg|text|]; cbn [background_outcome];
    try (split; [done|]; split; [done|]; destruct (m_get _ key); [|done];
         split; [by intros (? & [=] & _)|]; split; [by intros ? (? & [=] & _)|done]).
  destruct (m_get (c_answers c) key) as [e|] eqn:Eg.
  2: { unfold promote, evict_variant. rewrite Eg. by repeat case_match. }
  unfold promote, evict_variant. rewrite Eg. cbn [validated_fingerprint].
  destruct (Z.eqb_spec (ent_fingerprint e) (answer_fingerprint msg)) as [Ef|Ef]; cbn [negb snd].
  2: { repeat case_match; (split; [done|]; split; [done|]; split; [naive_solver|]; split; [naive_solver|done]). }
  pose proof (failed_signatures_iff msg) as Hsig.
  unfold DnssecPolicy.classify. destruct (dnssec_status msg cfg false) eqn:Es.
  1,2: case_bool_decide as Hd; cbn; (split; [done|]); (split; [done|]);
    (split; [intros (? & [= <-] & _ & ? & _); congruence|]); (split;
      [intros status (? & [= <-] & _ & Hst & _) Hne; rewrite Es in Hst; subst status; done
      |intros _ Hall; first [done | destruct Hd; apply Hall; exists msg; auto]]).
  - split; [by repeat case_match|]. split; [by repeat case_match|].
    split; [|split; [intros status (? & [= <-] & _ & Hst & [-> | ->]); congruence|]].
    + intros (? & [= <-] & _ & _ & -> & Hrr%Hsig). rewrite Hrr. cbn. split; [done|].
      apply eq_None_not_Some. by intros [x [? _]%m_get_invalidate].
    + intros Hn _. destruct observed; try done. destruct (carries_failed_signatures _) eqn:Ec; [|done].
      destruct Hn. exists msg. split_and!; try done. by apply Hsig.
  - split; [done|]. split; [done|]. split; [intros (? & [= <-] & _ & ? & _); congruence|].
    split; [|done]. intros status (? & [= <-] & _ & Hst & [-> | ->]); congruence.
Qed.

End fetching.

(** ** Concrete fetches *)

Section witnesses.
#[local] Existing Instance text_names.
#[local] Existing Instance moka_assoc.
#[local] Existing Instance moka_assoc_laws.
#[local] Existing Instance opt_list.
#[local] Existing Instance plain_codes.

Definition config_in (mode : DnssecModeCfg) : ResolverConfig :=
  mk_ResolverConfig (from_secs 4) AnyMinimal default_UdpConfig default_TcpConfig
    default_CacheConfig default_TtlConfig default_ServeStaleConfig
    (mk_DnssecConfig mode false 256 10000 12 true true (from_secs 20)).

Definition signature_only (t : RecordType) : bool := rtype_eqb t RT_RRSIG.

(** A denial whose SOA allows 900 seconds. *)
Definition denial : Message str :=
  mk_Message (mk_Metadata 5 MtResponse OpQuery false false true true false false NXDomain)
    [mk_Query (lit "www.example.com.") RT_A IN] []
    [mk_Record (lit "example.com.") IN 900 (RD_SOA 900) PIndeterminate] [] None.

Definition marked_bogus : Message str :=
  mk_Message (mk_Metadata 5 MtResponse OpQuery false false true true false false NoError)
    [mk_Query (lit "www.example.com.") RT_A IN]
    [mk_Record (lit "www.example.com.") IN 300 (RD_A 1) PBogus] [] [] None.

Definition checked : Message str :=
  mk_Message (metadata marked_bogus) (queries marked_bogus)
    [mk_Record (lit "www.example.com.") IN 300 (RD_A 1) PSecure] [] [] None.

Definition route_of (authority : str) : RouteKey :=
  mk_RouteKey authority Udp (V4 1) (lit "direct") Authority authority.

Definition answer_by (authority : str) (m : Message str) : UpstreamAnswer str :=
  mk_UpstreamAnswer m (route_of authority) (from_millis 20) false false.

(** The first authority answers [m], every other one denies the name, and the
    validator returns [v]. *)
Definition world_with (m : Message str) (v : ValidatorResult (Name := str) * ProofFailure)
    : FetchWorld (Name := str) := {|
  fw_group := true; fw_parse := Some; fw_id := 5; fw_ecs := None; fw_validator := true;
  fw_permit := true; fw_capacity := 256; fw_first := v; fw_second := v;
  fw_time_left := from_secs 1; fw_fallback_slice := from_secs 1;
  fw_resolve_pair := λ _ _, None; fw_resolve := λ _, Ok (answer_by (lit "one") m);
  fw_remaining := from_secs 2;
  fw_corroborate := λ _ _ excluded,
    if str_eqb excluded (lit "two") then None else Some (answer_by (lit "two") denial);
  fw_now := from_secs 10; fw_now_unix := 2000 |}.

Definition denied : result ResolveError (CacheEntry str) * DnsCache str :=
  fetch signature_only (λ _, None) (config_in ModeBackground) empty_cache sample_key
    (world_with denial (VrNothing, PF_None)).

(** An answer whose signature failed, cached before the verdict on it came in. *)
Definition forged : Message str :=
  mk_Message (metadata marked_bogus) (queries marked_bogus)
    [mk_Record (lit "www.example.com.") IN 300 (RD_A 1) PBogus;
     mk_Record (lit "www.example.com.") IN 300 (RD_RRSIG 9000) PBogus] [] [] None.

Definition holding_forged : DnsCache str :=
  cache_insert empty_cache sample_key
    (mk_CacheEntry forged 0 1000 300 Positive Indeterminate (mk_AnswerSource (lit "one") Udp)
       (answer_fingerprint forged) None 512).

Lemma background_verdict_is_local_witness :
  m_get (c_answers (background_verdict (cf_dnssec (config_in ModeBackground)) holding_forged sample_key
    (VrMessage forged) PF_None)) sample_key = None.
Proof.
  pose proof (background_verdict_is_local (cf_dnssec (config_in ModeBackground)) holding_forged sample_key
    (VrMessage forged) PF_None) as H.
  destruct (m_get (c_answers holding_forged) sample_key) as [e|] eqn:E; [|vm_compute in E; discriminate E].
  apply (proj1 (proj2 (proj2 H))). exists forged. split; [reflexivity|].
  split; [vm_compute in E; injection E as <-; vm_compute; reflexivity|].
  split; [vm_compute; reflexivity|]. split; [reflexivity|].
  eexists. split; [apply list_elem_of_further, list_elem_of_here|]. split; reflexivity.
Defined.


(** The denial is confirmed by the other authority and kept for its 900 seconds. *)
Lemma negatives_need_two_sources_witness :
  match denied.1 with
  | Ok e => ent_ttl e = 900 ∧ ∃ query msg route ad,
      obtain (config_in ModeBackground) sample_key (world_with denial (VrNothing, PF_None)) query
        = Ok (msg, route, ad) ∧ ent_message e = msg
  | Err _ => False
  end.
Proof.
  destruct denied.1 as [e|err] eqn:E; [|vm_compute in E; discriminate E].
  assert (ent_ttl e = 900 ∧ ent_kind e = NxDomainKind) as [Httl Hkind].
  { vm_compute in E. injection E as [= <-]. split; reflexivity. }
  split; [exact Httl|].
  destruct (negatives_need_two_sources signature_only (λ _, None) (config_in ModeBackground)
    empty_cache denied.2 sample_key (world_with denial (VrNothing, PF_None)) e)
    as (query & msg & route & ad & Ho & Hneg & _).
  { transitivity (denied.1, denied.2); [apply surjective_pairing|rewrite E; reflexivity]. }
  exists query, msg, route, ad. split; [exact Ho|]. apply (Hneg Hkind). rewrite Httl. reflexivity.
Defined.

Lemma strict_mode_serves_checked_answers_witness :
  obtain (config_in ModeStrict) sample_key (world_with denial (VrMessage checked, PF_None)) denial
    = Ok (checked, None, false) ∧
  DnssecPolicy.classify checked (cf_dnssec (config_in ModeStrict)) false PF_None ≠ VBogus.
Proof.
  assert (obtain (config_in ModeStrict) sample_key (world_with denial (VrMessage checked, PF_None))
    denial = Ok (checked, None, false)) as Ho by (vm_compute; reflexivity).
  split; [exact Ho|].
  destruct (strict_mode_serves_checked_answers (config_in ModeStrict) sample_key
    (world_with denial (VrMessage checked, PF_None)) denial checked None false eq_refl eq_refl Ho)
    as (_ & _ & [(observed & Hin & Hcl)|(a & b & slice & _ & Hpair & _)]); [|discriminate Hpair].
  apply list_elem_of_In in Hin. destruct Hin as [[= <-]|[[= <-]|[]]]; exact Hcl.
Defined.

Lemma unfinished_proof_reported_bogus_witness :
  fetch signature_only (λ _, None) (config_in ModeStrict) empty_cache sample_key
    (world_with denial (VrMessage marked_bogus, PF_Deadline))
  = (Err Errors.DnssecBogus, empty_cache).
Proof.
  refine (proj1 (proj2 (proj2 (unfinished_proof_reported_bogus signature_only (λ _, None)
    (config_in ModeStrict) empty_cache sample_key
    (world_with denial (VrMessage marked_bogus, PF_Deadline)) (key_name sample_key) marked_bogus
    PF_Deadline eq_refl eq_refl _ eq_refl eq_refl eq_refl _ _)))); done.
Defined.

End witnesses.
