(* ===== verification/Handler.v ===== *)
(** * One client query, end to end

    [Resolver::handle] of [src/dns/resolver.rs] and what it is made of beyond
    [Resolver]: the answers from static local data, the identity of the advertised
    client subnet, the shared flight of a miss and of a refresh, and the address
    lookups of background jobs.

    A request meets the checks, the local data, the special-use registry and the
    cache in this order, and only then an upstream.  What the task awaits (its role
    in the flight of a key, the world its fetch meets, whether a refresh comes in
    time) is given by [HandleWorld]. *)

From Stdlib Require Import Ascii String.
From S2P Require Import Prelude.
From S2P Require Import Hashing.
From S2P Require Import Floats.
From S2P Require Import Names.
From S2P Require Import Net.
From S2P Require Import Config.
From S2P Require Import Dns.
From S2P Require Import Errors.
From S2P Require Import Util.
From S2P Require Import Message.
From S2P Require Import EdnsOptions.
From S2P Require Import TtlPolicy.
From S2P Require Import DnssecPolicy.
From S2P Require Import Prefixes.
From S2P Require Import CloudflarePolicy.
From S2P Require Import SpecialUse.
From S2P Require Import Quality.
From S2P Require Import Ranking.
From S2P Require Import AnswerPolicy.
From S2P Require Import Cache.
From S2P Require Import Datasets.
From S2P Require Import HotSet.
From S2P Require Import SingleFlight.
From S2P Require Import Network.
From S2P Require Import Scheduler.
From S2P Require Import Resolver.
From S2P Require Import ResolverResponse.
From S2P Require Import ResolverFetch.

(** ** The client subnet *)

(** [show4] and [show6] are the text forms of a network. *)
Definition ecs_identity (show4 : Ipv4Net -> str) (show6 : Ipv6Net -> str) (cfg : EcsConfig)
    : option str :=
  match ecs_mode cfg with
  | EcsDisabled => None
  | EcsFixedEgress =>
      let v4 := default [] (show4 <$> scope_ipv4 (ecs_egress cfg)) in
      let v6 := default [] (show6 <$> scope_ipv6 (ecs_egress cfg)) in
      Some (v4 ++ lit "|" ++ v6)
  end.

Section handler.
Context {Name : Type} {NLib : NameLib Name} {ML : MokaLib CacheKey} {OL : OptLib}.
Context {IPL : IpNetLib} {FL : FloatLib} {WC : WireCodes (Name := Name)}.
Context {IO : HashOrder CacheKey} {F32 : Float32Lib}.
Context (rfr : Metadata -> Metadata) (strip : Message Name -> Message Name).
Context (is_dnssec : RecordType -> bool) (wire_len : Message Name -> option Z).
Implicit Types msg request : Message Name.

(** The rest of the configuration [handle] reads. *)
Record HandlerConfig : Type := mk_HandlerConfig {
  hc_resolver : ResolverConfig;
  hc_special_use : SpecialUsePolicy;
  hc_local_ttl : Z;
  hc_default_group : str;
  hc_ecs_identity : option str
}.

(** The state of the resolver a request can change. *)
Record ResolverState : Type := mk_ResolverState {
  rs_cache : DnsCache Name;
  rs_hotset : HotSet;
  rs_stale_refresh : gmap CacheKey Instant
}.

Definition with_cache (s : ResolverState) (c : DnsCache Name) : ResolverState :=
  mk_ResolverState c (rs_hotset s) (rs_stale_refresh s).

(** ** Static local data *)

Definition local_message (hc : HandlerConfig) request (rs : list (DnsRecord Name)) : Message Name :=
  let msg := response_skeleton rfr request true in
  attach_response_edns (hc_resolver hc) request (with_aa (with_answers msg (answers msg ++ rs))).

Definition address_rdata (a : IpAddr) : RData Name :=
  match a with V4 v4 => RD_A v4 | V6 v6 => RD_AAAA v6 end.

Definition host_records (q : Query Name) (ttl : Z) (addrs : list IpAddr) : list (DnsRecord Name) :=
  map (λ a, mk_Record (q_name q) IN ttl (address_rdata a) PIndeterminate) addrs.

(** The hosts table; [None] when it does not speak for the name and type. *)
Definition hosts_answer (hc : HandlerConfig) (hosts : gmap (list ascii) (list IpAddr)) request
    (q : Query Name) (max_size : Z) : option (Answer (Name := Name)) :=
  let qname := name_text (q_name q) in
  let qtype := q_type q in
  if rtype_eqb qtype RT_A || rtype_eqb qtype RT_AAAA then
    let addrs := Hosts.get_family hosts qname (rtype_eqb qtype RT_A) in
    if negb (length addrs =? 0)%nat then
      Some (mk_Answer (local_message hc request (host_records q (hc_local_ttl hc) addrs))
              OriginLocal max_size)
    else
      match Hosts.get hosts qname with
      | Some _ => Some (mk_Answer (local_message hc request []) OriginLocal max_size)
      | None => None
      end
  else None.

Definition local_answer (hc : HandlerConfig) (ds : Snapshot.DatasetSnapshot Name) request
    (q : Query Name) (max_size : Z) : option (Answer (Name := Name)) :=
  match hosts_answer hc (Snapshot.ds_hosts ds) request q max_size with
  | Some a => Some a
  | None =>
      match Zones.lookup (Snapshot.ds_zones ds) (name_text (q_name q)) (q_type q) with
      | Zones.Records rs => Some (mk_Answer (local_message hc request rs) OriginLocal max_size)
      | Zones.NoData => Some (mk_Answer (local_message hc request []) OriginLocal max_size)
      | Zones.NxDomain =>
          Some (mk_Answer (with_aa (error_response rfr request NXDomain true)) OriginLocal max_size)
      | Zones.NotInZone => None
      end
  end.

(** ** The flight of a key *)

Inductive JoinRole : Type :=
| JLeader (w : FetchWorld (Name := Name))
| JFollower (r : option (result FlightError (CacheEntry Name)))
| JSaturated.

(** The flight of a client's miss; a follower that is not answered in time has
    [None]. *)
Definition run_flight (cfg : ResolverConfig) (c : DnsCache Name) (key : CacheKey) (j : JoinRole)
    : FlightOutcome (Name := Name) * DnsCache Name :=
  match j with
  | JLeader w => let '(r, c) := fetch is_dnssec wire_len cfg c key w in (FoLeader r, c)
  | JFollower (Some r) => (FoFollower r, c)
  | JFollower None => (FoFollowerTimeout, c)
  | JSaturated => (FoSaturated, c)
  end.

Definition refresh (cfg : ResolverConfig) (c : DnsCache Name) (key : CacheKey) (j : JoinRole)
    : result ResolveError (CacheEntry Name) * DnsCache Name :=
  match j with
  | JLeader w => fetch is_dnssec wire_len cfg c key w
  | JFollower (Some (Ok e)) => (Ok e, c)
  | JFollower _ => (Err (AllFailed (lit "coalesced refresh failed")), c)
  | JSaturated => (Err (AllFailed (lit "singleflight saturated")), c)
  end.

(** ** A request *)

Record HandleWorld : Type := mk_HandleWorld {
  hw_env : PolicyEnv;
  hw_join : CacheKey -> JoinRole;
  (** The refresh of a stale answer comes within [client_timeout]. *)
  hw_in_time : bool;
  hw_error_text : ResolveError -> str;
  (** The lookup, and the end of what it waits for. *)
  hw_now : Instant;
  hw_later : Instant
}.

Definition client_do request : bool :=
  match edns request with Some e => e_dnssec_ok e | None => false end.

(** The refresh of a stale answer that is not in time goes on by itself. *)
Definition answer_stale (hc : HandlerConfig) (w : HandleWorld) (s : ResolverState) request
    (q : Query Name) (key : CacheKey) (entry : CacheEntry Name) (max_size : Z)
    : Answer (Name := Name) * ResolverState :=
  let cfg := hc_resolver hc in
  let '(allowed, table) :=
    stale_refresh_allowed (rs_stale_refresh s) key (retry_interval (cf_serve_stale cfg)) (hw_now w) in
  let '(refreshed, c) :=
    if allowed && hw_in_time w then
      match refresh cfg (rs_cache s) key (hw_join w key) with
      | (Ok fresh, c) => (Some fresh, c)
      | (Err _, c) => (None, c)
      end
    else (None, rs_cache s) in
  (serve_stale rfr strip cfg (hw_env w) request q entry refreshed (client_do request) max_size
     (hw_later w),
   mk_ResolverState c (rs_hotset s) table).

Definition answer_miss (hc : HandlerConfig) (w : HandleWorld) (s : ResolverState) request
    (q : Query Name) (key : CacheKey) (max_size : Z) : Answer (Name := Name) * ResolverState :=
  let cfg := hc_resolver hc in
  let '(o, c) := run_flight cfg (rs_cache s) key (hw_join w key) in
  let '(a, c) := resolve_miss rfr strip cfg (hw_env w) (hw_error_text w) c request q key o
                   (client_do request) max_size (hw_later w) in
  (a, with_cache s c).

(** The key a query is cached under. *)
Definition key_of (hc : HandlerConfig) (ds : Snapshot.DatasetSnapshot Name) request
    (q : Query Name) : CacheKey :=
  let group := default (hc_default_group hc)
                 (Snapshot.group_for (Snapshot.ds_suffix_rules ds) (name_text (q_name q))) in
  request_key (hc_resolver hc) request q group (hc_ecs_identity hc).

(** The lookup in the caches and what follows from it. *)
Definition answer_cached (hc : HandlerConfig) (w : HandleWorld) (s : ResolverState) request
    (q : Query Name) (key : CacheKey) (max_size : Z) : Answer (Name := Name) * ResolverState :=
  let s := mk_ResolverState (rs_cache s) (observe (rs_hotset s) key None (hw_now w))
             (rs_stale_refresh s) in
  match lookup_cache rfr strip (hc_resolver hc) (hw_env w) (rs_cache s) request q key
          (client_do request) max_size (hw_now w) with
  | (Answered a, c) => (a, with_cache s c)
  | (NeedStale entry, c) => answer_stale hc w (with_cache s c) request q key entry max_size
  | (NeedMiss, c) => answer_miss hc w (with_cache s c) request q key max_size
  end.

Definition handle (hc : HandlerConfig) (ds : Snapshot.DatasetSnapshot Name) (w : HandleWorld)
    (s : ResolverState) request (t : ClientTransport) : Answer (Name := Name) * ResolverState :=
  let cfg := hc_resolver hc in
  let max_size := max_response_size cfg request t in
  match precheck rfr cfg request max_size, queries request with
  | Some a, _ => (a, s)
  | None, [] => (reject rfr cfg request FormErr max_size, s)
  | None, q :: _ =>
      match local_answer hc ds request q max_size with
      | Some a => (a, s)
      | None =>
          let routed := bool_decide (is_Some
            (Snapshot.group_for (Snapshot.ds_suffix_rules ds) (name_text (q_name q)))) in
          match (match hc_special_use hc with
                 | SpecialUseLocal =>
                     special_use_answer rfr cfg request q routed (hc_local_ttl hc) max_size
                 | SpecialUseForward => None
                 end) with
          | Some a => (a, s)
          | None => answer_cached hc w s request q (key_of hc ds request q) max_size
          end
      end
  end.

(** ** Lookups of background jobs *)

Definition lookup_one (cfg : ResolverConfig) (c : DnsCache Name) (key : CacheKey) (j : JoinRole)
    (now : Instant) : option (CacheEntry Name) * DnsCache Name :=
  match cache_get c key now with
  | Fresh entry _ => (Some entry, c)
  | _ => match refresh cfg c key j with (Ok e, c) => (Some e, c) | (Err _, c) => (None, c) end
  end.

Definition entry_addresses (e : CacheEntry Name) : list IpAddr :=
  omap (λ r, match r_data r with
             | RD_A a => Some (V4 a)
             | RD_AAAA a => Some (V6 a)
             | _ => None
             end) (answers (ent_message e)).

Fixpoint lookup_families (cfg : ResolverConfig) (c : DnsCache Name)
    (key_for : RecordType -> CacheKey) (join : CacheKey -> JoinRole) (now : Instant)
    (families : list RecordType) : list IpAddr * DnsCache Name :=
  match families with
  | [] => ([], c)
  | t :: rest =>
      let '(e, c) := lookup_one cfg c (key_for t) (join (key_for t)) now in
      let '(out, c) := lookup_families cfg c key_for join now rest in
      (match e with Some e => entry_addresses e ++ out | None => out end, c)
  end.

Definition usable_families (net : NetworkSnapshot) : list RecordType :=
  (if bool_decide (net_v4 net = FamilyUnusable) then [] else [RT_A]) ++
  (if bool_decide (net_v6 net = FamilyUsable) then [RT_AAAA] else []).

Definition lookup_addresses (hc : HandlerConfig) (ds : Snapshot.DatasetSnapshot Name)
    (net : NetworkSnapshot) (c : DnsCache Name) (join : CacheKey -> JoinRole) (now : Instant)
    (host : str) : list IpAddr * DnsCache Name :=
  let cfg := hc_resolver hc in
  let group := default (hc_default_group hc) (Snapshot.group_for (Snapshot.ds_suffix_rules ds) host) in
  let key_for t := cache_key host t IN (mk_PolicyView group (hc_ecs_identity hc))
                     (mk_ReqMode (wants_dnssec_records (dnssec_mode (cf_dnssec cfg))) false) in
  let '(out, c) := lookup_families cfg c key_for join now (usable_families net) in
  (dedup (List.filter (λ a, bool_decide (IpClass.classify a = None)) out), c).

(** ** Theorems *)

Context {RL : ResponseLaws rfr strip}.

(** [msg] is a reply to [request]. *)
Definition replies request msg : Prop :=
  m_id (metadata msg) = m_id (metadata request) ∧
  m_message_type (metadata msg) = MtResponse ∧
  m_recursion_available (metadata msg) = true ∧
  queries msg = queries request ∧
  (edns msg = None <-> edns request = None).

(** A reply that claims authority only where local data speaks. *)
Definition proper_answer request (max_size : Z) (a : Answer (Name := Name)) : Prop :=
  replies request (an_message a) ∧ an_max_size a = max_size ∧
  (m_authoritative (metadata (an_message a)) = true -> an_origin a = OriginLocal).

Lemma error_response_replies request code :
  replies request (error_response rfr request code true) ∧
  m_authoritative (metadata (error_response rfr request code true)) = false.
Proof.
  unfold replies, error_response. cbn. rewrite rfr_id, rfr_response, rfr_authority.
  by destruct (edns request).
Qed.

Lemma attach_response_replies cfg request msg :
  m_id (metadata msg) = m_id (metadata request) ->
  m_message_type (metadata msg) = MtResponse ->
  m_recursion_available (metadata msg) = true -> queries msg = queries request ->
  replies request (attach_response_edns cfg request msg).
Proof.
  intros. destruct (attach_response_edns_shell cfg request msg) as (Hm & Hq & _).
  unfold replies. rewrite Hm, Hq. split_and!; try done.
  unfold attach_response_edns. by destruct (edns request).
Qed.

Lemma local_message_replies hc request rs : replies request (local_message hc request rs).
Proof. apply attach_response_replies; cbn; by rewrite ?rfr_id, ?rfr_response. Qed.

Lemma attach_ede_replies request msg err text :
  replies request msg -> replies request (attach_ede msg err text).
Proof.
  unfold replies. destruct (attach_ede_sections msg err text) as (_ & -> & -> & ->). done.
Qed.

Lemma build_response_replies cfg env request q entry remaining stale client_do now :
  let msg := build_response rfr strip cfg env request q entry remaining stale client_do now in
  replies request msg ∧ m_authoritative (metadata msg) = false.
Proof.
  cbn zeta. destruct (response_metadata rfr strip cfg env request q entry remaining stale client_do now)
    as [Hm Hq].
  split; [|by rewrite Hm].
  unfold replies. rewrite Hm, Hq. cbn. rewrite rfr_id, rfr_response. split_and!; try done.
  destruct (build_response_parts rfr strip cfg env request q entry remaining stale client_do now)
    as (pre & out & o & _ & _ & ->). unfold attach_response_edns. by destruct (edns request).
Qed.

Lemma error_answer_proper request code (b : bool) err text origin max_size :
  proper_answer request max_size
    (mk_Answer (if b then attach_ede (error_response rfr request code true) err text
                else error_response rfr request code true) origin max_size).
Proof.
  destruct (error_response_replies request code) as [Hr Ha]. unfold proper_answer. cbn.
  destruct b; split_and!; try done; [by apply attach_ede_replies| |by rewrite Ha].
  destruct (attach_ede_sections (error_response rfr request code true) err text) as (_ & -> & _).
  by rewrite Ha.
Qed.

Lemma build_response_proper cfg env request q entry remaining stale client_do now origin max_size :
  proper_answer request max_size
    (mk_Answer (build_response rfr strip cfg env request q entry remaining stale client_do now)
       origin max_size).
Proof.
  destruct (build_response_replies cfg env request q entry remaining stale client_do now) as [? Ha].
  split_and!; [done|done|]. cbn [an_message]. by rewrite Ha.
Qed.

Lemma serve_stale_proper cfg env request q entry refreshed client_do max_size now :
  proper_answer request max_size
    (serve_stale rfr strip cfg env request q entry refreshed client_do max_size now).
Proof.
  unfold serve_stale. destruct refreshed as [fresh|]; [apply build_response_proper|].
  cbn zeta. case_match; [|apply build_response_proper].
  destruct (build_response_replies cfg env request q entry 0 true client_do now) as [? Ha].
  split_and!; cbn [an_message]; [by apply attach_ede_replies|done|].
  match goal with |- context [attach_ede ?m ?e ?t] =>
    destruct (attach_ede_sections m e t) as (_ & -> & _) end. by rewrite Ha.
Qed.

Lemma resolve_miss_proper cfg env text c request q key o client_do max_size now :
  proper_answer request max_size
    (resolve_miss rfr strip cfg env text c request q key o client_do max_size now).1.
Proof.
  unfold resolve_miss. destruct (flight_result text o);
    [apply build_response_proper|apply error_answer_proper].
Qed.

Lemma answer_cached_proper hc w s request q key max_size :
  proper_answer request max_size (answer_cached hc w s request q key max_size).1.
Proof.
  unfold answer_cached, lookup_cache. cbn zeta.
  destruct (failure _ _ _) as [[f|] c]; [apply error_answer_proper|].
  destruct (cache_get _ _ _) as [e r|e r|]; [apply build_response_proper| |].
  - unfold answer_stale. repeat case_match; cbn [fst]; apply serve_stale_proper.
  - unfold answer_miss. destruct (run_flight _ _ _ _) as [o c'].
    destruct (resolve_miss _ _ _ _ _ _ _ _ _ _ _ _ _) as [a c''] eqn:E. cbn [fst].
    change a with (a, c'').1. rewrite <- E. apply resolve_miss_proper.
Qed.

Lemma local_answer_proper hc ds request q max_size a :
  local_answer hc ds request q max_size = Some a ->
  proper_answer request max_size a ∧ an_origin a = OriginLocal.
Proof.
  pose proof (local_message_replies hc request) as Hl.
  unfold local_answer, hosts_answer. cbn zeta.
  assert (∀ msg, replies request msg ->
    proper_answer request max_size (mk_Answer msg OriginLocal max_size) ∧
    OriginLocal = OriginLocal) as Hp by (intros msg Hmsg; by repeat split; try apply Hmsg).
  repeat case_match; intros; simplify_eq; apply Hp; try apply Hl.
  all: apply (error_response_replies request NXDomain).
Qed.

Lemma special_use_proper cfg request q routed ttl max_size a :
  special_use_answer rfr cfg request q routed ttl max_size = Some a ->
  proper_answer request max_size a ∧ an_origin a = OriginLocal.
Proof.
  unfold special_use_answer. destruct (SpecialUse.classify _) as [[r d]|]; [|done].
  destruct routed; [done|].
  intros Ha. assert (∃ msg, a = mk_Answer (attach_response_edns cfg request (with_aa msg)) OriginLocal
    max_size ∧ m_id (metadata msg) = m_id (metadata request) ∧
    m_message_type (metadata msg) = MtResponse ∧ m_recursion_available (metadata msg) = true ∧
    queries msg = queries request) as (msg & -> & ? & ? & ? & ?).
  { destruct d; try discriminate Ha; injection Ha as <-; eexists; (split; [done|]);
      unfold local_record; try case_match; cbn; by rewrite rfr_id, rfr_response. }
  split; [|done]. split_and!; [by apply attach_response_replies|done|done].
Qed.

Lemma reject_proper cfg request code max_size :
  proper_answer request max_size (reject rfr cfg request code max_size).
Proof.
  destruct (error_response_replies request code) as [(? & ? & ? & ? & _) Ha].
  split_and!; [by apply attach_response_replies|done|]. cbn [reject an_message].
  destruct (attach_response_edns_shell cfg request (error_response rfr request code true))
    as (-> & _). by rewrite Ha.
Qed.

Lemma precheck_proper cfg request max_size a :
  precheck rfr cfg request max_size = Some a -> proper_answer request max_size a.
Proof.
  unfold precheck, any_answer. cbn zeta.
  repeat case_match; intros; simplify_eq; try apply reject_proper.
  all: try (destruct (error_response_replies request BADVERS) as [? Ha]; split_and!; try done;
            cbn [an_message]; by rewrite Ha).
  all: split_and!; cbn [an_message an_origin]; try done; apply attach_response_replies;
    unfold minimal_any_response; case_match; cbn; by rewrite ?rfr_id, ?rfr_response.
Qed.

Lemma handle_proper hc ds w s request t :
  let r := handle hc ds w s request t in
  proper_answer request (max_response_size (hc_resolver hc) request t) r.1 ∧
  (an_origin r.1 = OriginLocal -> r.2 = s).
Proof.
  cbn zeta. unfold handle. cbn zeta. set (size := max_response_size _ _ _).
  destruct (precheck rfr _ request size) as [a|] eqn:Ep; [split; [by eapply precheck_proper|done]|].
  destruct (queries request) as [|q l]; [split; [apply reject_proper|done]|].
  destruct (local_answer hc ds request q size) as [a|] eqn:El;
    [apply local_answer_proper in El as [??]; by split|].
  match goal with |- context [match ?x with Some _ => _ | None => _ end] =>
    destruct x as [a|] eqn:Es end.
  - destruct (hc_special_use hc); [|done]. apply special_use_proper in Es as [??]. by split.
  - split; [apply answer_cached_proper|]. intros Ho. exfalso. revert Ho.
    unfold answer_cached, lookup_cache, answer_stale, answer_miss, serve_stale, resolve_miss.
    cbn zeta. repeat case_match; cbn [fst an_origin]; simplify_eq; done.
Qed.

(** C7. Whatever a request asks, whatever the resolver holds and whatever the
    network does, the client gets a reply to its own request: the same id and
    question, the response and recursion-available bits, an OPT record exactly when
    it sent one, the size limit of its transport, and the authoritative bit only on
    an answer from local data.  Answering from local data leaves the caches, the
    hot set and the refresh table as they were. *)
Theorem every_answer_replies hc ds w s request t :
  let r := handle hc ds w s request t in
  proper_answer request (max_response_size (hc_resolver hc) request t) r.1 ∧
  (an_origin r.1 = OriginLocal -> r.2 = s).
Proof. apply handle_proper. Qed.

(** ** Local data *)

(** An entry of the hosts table decides the answer to an address query for its
    name: the client gets exactly the addresses of the family it asked for, in
    their order, under the name it asked with and with the local TTL, or an empty
    answer when there are none; no cache and no upstream is consulted, and nothing
    is stored. *)
Theorem hosts_entry_decides hc ds w s request t q addrs
    (Hpre : precheck rfr (hc_resolver hc) request
              (max_response_size (hc_resolver hc) request t) = None)
    (Hq : queries request = [q]) (Htype : q_type q = RT_A ∨ q_type q = RT_AAAA)
    (Hhost : Hosts.get (Snapshot.ds_hosts ds) (name_text (q_name q)) = Some addrs) :
  let r := handle hc ds w s request t in
  let wanted := List.filter (λ a, Bool.eqb (Hosts.is_v4 a) (rtype_eqb (q_type q) RT_A)) addrs in
  r.2 = s ∧ an_origin r.1 = OriginLocal ∧
  m_authoritative (metadata (an_message r.1)) = true ∧
  answers (an_message r.1) = host_records q (hc_local_ttl hc) wanted ∧
  authorities (an_message r.1) = [] ∧ additionals (an_message r.1) = [].
Proof.
  intros r wanted. unfold r, handle. cbn zeta. rewrite Hpre, Hq. unfold local_answer, hosts_answer.
  cbn zeta. unfold Hosts.get_family. rewrite Hhost. fold wanted.
  replace (rtype_eqb (q_type q) RT_A || rtype_eqb (q_type q) RT_AAAA) with true
    by (by destruct Htype as [-> | ->]).
  assert (∀ rs, metadata (local_message hc request rs) =
      set_aa (set_ra (rfr (metadata request)) true) true ∧
      answers (local_message hc request rs) = rs ∧
      authorities (local_message hc request rs) = [] ∧
      additionals (local_message hc request rs) = []) as Hl.
  { intros rs. unfold local_message. cbn zeta.
    match goal with |- context [attach_response_edns _ _ ?m] =>
      destruct (attach_response_edns_shell (hc_resolver hc) request m) as (-> & _ & -> & -> & ->) end.
    done. }
  destruct wanted as [|x l]; cbn [length Nat.eqb negb fst snd an_origin an_message];
    destruct (Hl []) as (Hm & Ha & Hu & Hd);
    [by rewrite Hm, Ha, Hu, Hd|].
  destruct (Hl (host_records q (hc_local_ttl hc) (x :: l))) as (-> & -> & -> & ->). done.
Qed.

(** ** What one request leaves for the next *)

Context {MLaws : MokaLaws CacheKey}.

(** The request passes every stage before the caches. *)
Definition reaches_cache (hc : HandlerConfig) (ds : Snapshot.DatasetSnapshot Name) request
    (t : ClientTransport) (q : Query Name) : Prop :=
  let cfg := hc_resolver hc in
  let size := max_response_size cfg request t in
  queries request = [q] ∧ precheck rfr cfg request size = None ∧
  local_answer hc ds request q size = None ∧
  (hc_special_use hc = SpecialUseLocal ->
   special_use_answer rfr cfg request q
     (bool_decide (is_Some (Snapshot.group_for (Snapshot.ds_suffix_rules ds) (name_text (q_name q)))))
     (hc_local_ttl hc) size = None).

Lemma handle_cached hc ds w s request t q :
  reaches_cache hc ds request t q ->
  handle hc ds w s request t
  = answer_cached hc w s request q (key_of hc ds request q)
      (max_response_size (hc_resolver hc) request t).
Proof.
  intros (Hq & Hp & Hl & Hs). unfold handle. cbn zeta. rewrite Hp, Hq, Hl.
  destruct (hc_special_use hc); [|done]. by rewrite (Hs eq_refl).
Qed.

Lemma upstream_origin hc w s request q key max_size fw :
  hw_join w key = JLeader fw ->
  an_origin (answer_cached hc w s request q key max_size).1 = OriginUpstream ->
  ∃ c0 e, fetch is_dnssec wire_len (hc_resolver hc) c0 key fw
    = (Ok e, rs_cache (answer_cached hc w s request q key max_size).2).
Proof.
  intros Hj. unfold answer_cached, lookup_cache. cbn zeta.
  destruct (failure _ _ _) as [[f|] c]; [done|].
  destruct (cache_get _ _ _) as [e r|e r|]; [by case_bool_decide| |].
  - unfold answer_stale. rewrite Hj. cbn zeta. cbn [refresh rs_cache with_cache rs_stale_refresh].
    destruct (stale_refresh_allowed _ _ _ _) as [allowed table].
    destruct (allowed && hw_in_time w); [|done].
    destruct (fetch _ _ _ _ _ _) as [[e'|err] c'] eqn:Ef; [|done]. intros _. by exists c, e'.
  - unfold answer_miss. rewrite Hj. cbn [run_flight rs_cache with_cache].
    destruct (fetch _ _ _ _ _ _) as [[e'|err] c'] eqn:Ef; [|done]. intros _. by exists c, e'.
Qed.

Lemma fetch_stored cfg (c c' : DnsCache Name) key fw e :
  fetch is_dnssec wire_len cfg c key fw = (Ok e, c') ->
  ent_received_at e = fw_now fw ∧
  (∀ now, failure c' key now = (None, c')) ∧
  (∀ e', m_get (c_answers c') key = Some e' -> e' = e).
Proof.
  intros (name & msg & route & ad & m' & route' & ev & _ & _ & Hb & _ & He & ->)%fetch_ok.
  assert (ent_dnssec e ≠ Bogus) as Hne by (by subst e). split_and!; [by subst e| |].
  - intros now. unfold store, cache_insert, failure. rewrite bool_decide_false by done.
    cbn [c_failures with_stores clear_failure].
    destruct (m_get (m_invalidate _ _) _) as [f|] eqn:Ef; [|done].
    by apply m_get_invalidate in Ef as [? _].
  - intros e'. unfold store, cache_insert. rewrite bool_decide_false by done.
    cbn [c_answers with_stores]. intros [[_ ->]|[? _]]%m_get_insert; done.
Qed.

(** C8. What one client's miss fetched, the next client gets from the cache: as long
    as the store has not evicted the entry and its TTL has not run out, any later
    request for the same key, in whatever letter case, is answered from that very
    entry with the time it has left, without a failure on record, without an
    upstream and without a change to the cache. *)
Theorem fetched_answer_is_served hc ds w s request t q fw w' request' t' q' e'
    (Hfirst : reaches_cache hc ds request t q)
    (Hlead : hw_join w (key_of hc ds request q) = JLeader fw)
    (Hok : an_origin (handle hc ds w s request t).1 = OriginUpstream)
    (Hnext : reaches_cache hc ds request' t' q')
    (Hkey : key_of hc ds request' q' = key_of hc ds request q)
    (Hkept : m_get (c_answers (rs_cache (handle hc ds w s request t).2))
               (key_of hc ds request q) = Some e')
    (Hfresh : 0 < remaining_ttl e' (hw_now w')) :
  let s1 := (handle hc ds w s request t).2 in
  let r := handle hc ds w' s1 request' t' in
  ent_received_at e' = fw_now fw ∧
  r.1 = mk_Answer (build_response rfr strip (hc_resolver hc) (hw_env w') request' q' e'
                     (remaining_ttl e' (hw_now w')) false (client_do request') (hw_now w'))
          (if bool_decide (ent_kind e' = Positive) then CacheHit else NegativeHit)
          (max_response_size (hc_resolver hc) request' t') ∧
  rs_cache r.2 = rs_cache s1.
Proof.
  rewrite (handle_cached _ _ _ _ _ _ _ Hfirst) in *. cbn zeta.
  destruct (upstream_origin _ _ _ _ _ _ _ _ Hlead Hok) as (c0 & e & Hf).
  destruct (fetch_stored _ _ _ _ _ _ Hf) as (Hr & Hnone & Hsame).
  apply Hsame in Hkept as Heq. subst e'.
  rewrite (handle_cached _ _ _ _ _ _ _ Hnext), Hkey. unfold answer_cached at 1 3.
  unfold lookup_cache. cbn zeta. cbn [rs_cache]. rewrite Hnone. unfold cache_get.
  rewrite Hkept, (proj2 (Z.ltb_lt _ _) Hfresh). done.
Qed.

Lemma rejected_origin hc w s request q key max_size fw :
  hw_join w key = JLeader fw ->
  an_origin (answer_cached hc w s request q key max_size).1 = Rejected ->
  ∃ c0 err, m_get (c_failures c0) key = None ∧
    fetch is_dnssec wire_len (hc_resolver hc) c0 key fw = (Err err, c0) ∧
    rs_cache (answer_cached hc w s request q key max_size).2
    = note_failure (hc_resolver hc) c0 key (from_error (hw_error_text w) err) (hw_later w).
Proof.
  intros Hj. unfold answer_cached, lookup_cache. cbn zeta.
  destruct (failure _ _ _) as [[f|] c] eqn:Efail; [done|].
  destruct (cache_get _ _ _) as [e r|e r|]; [by case_bool_decide| |].
  - unfold answer_stale, serve_stale. cbn zeta. repeat case_match; done.
  - unfold answer_miss. rewrite Hj. cbn [run_flight rs_cache with_cache].
    destruct (fetch _ _ _ _ _ _) as [[e'|err] c'] eqn:Ef; [done|]. intros _.
    pose proof (fetch_err _ _ _ _ _ _ _ _ Ef) as ->. exists c, err.
    split_and!; [by eapply failure_none_get|done|done].
Qed.

Lemma failure_hit_iff hc w s request q key max_size :
  an_origin (answer_cached hc w s request q key max_size).1 = FailureHit <->
  ∃ f, m_get (c_failures (rs_cache s)) key = Some f ∧ is_active f (hw_now w) = true.
Proof.
  unfold answer_cached, lookup_cache, failure. cbn zeta. cbn [rs_cache].
  destruct (m_get (c_failures (rs_cache s)) key) as [f|] eqn:Ef.
  - destruct (is_active f (hw_now w)) eqn:Ea; [split; [by exists f|done]|].
    split; [|by intros (? & [= <-] & ?); congruence].
    unfold answer_stale, answer_miss, serve_stale, resolve_miss. cbn zeta.
    repeat case_match; cbn [fst an_origin]; simplify_eq; done.
  - split; [|by intros (? & ? & _)].
    unfold answer_stale, answer_miss, serve_stale, resolve_miss. cbn zeta.
    repeat case_match; cbn [fst an_origin]; simplify_eq; done.
Qed.

Lemma failure_hit_answer hc w s request q key max_size f :
  m_get (c_failures (rs_cache s)) key = Some f -> is_active f (hw_now w) = true ->
  let r := answer_cached hc w s request q key max_size in
  m_response_code (metadata (an_message r.1)) = fail_rcode f ∧ rs_cache r.2 = rs_cache s.
Proof.
  intros Hf Ha. cbn zeta. unfold answer_cached, lookup_cache, failure. cbn zeta. cbn [rs_cache].
  rewrite Hf, Ha. cbn [fst snd rs_cache with_cache an_message]. split; [|done].
  case_match; [|done]. match goal with |- context [attach_ede ?m ?e ?t] =>
    destruct (attach_ede_sections m e t) as (_ & -> & _) end. done.
Qed.


(** ** Background lookups *)

(** A background job never connects to an address that is not publicly routable,
    whatever the cache and the upstreams say its host resolves to. *)
Theorem background_lookups_are_public hc ds net (c : DnsCache Name) join now host a :
  a ∈ (lookup_addresses hc ds net c join now host).1 -> IpClass.classify a = None.
Proof.
  unfold lookup_addresses. cbn zeta. destruct (lookup_families _ _ _ _ _ _) as [out c'].
  cbn [fst]. intros [_ Ha]%dedup_elem_of%list_elem_of_In%filter_In.
  by apply bool_decide_eq_true in Ha.
Qed.

End handler.

(** ** Concrete requests *)

Section witnesses.
#[local] Existing Instance text_names.
#[local] Existing Instance ipnet_reference.
#[local] Existing Instance moka_assoc.
#[local] Existing Instance moka_assoc_laws.
#[local] Existing Instance opt_list.
#[local] Existing Instance opt_list_laws.
#[local] Existing Instance plain_codes.
#[local] Existing Instance response_floats.
#[local] Existing Instance reference_response.
#[local] Existing Instance some_order.
#[local] Existing Instance some_power.

Definition lan_config : HandlerConfig :=
  mk_HandlerConfig (config_in ModeBackground) SpecialUseLocal 60 (lit "default")
    None.

(** A host with one address of each family, and nothing else. *)
Definition lan_data : Snapshot.DatasetSnapshot str :=
  Snapshot.mk_DatasetSnapshot str (Hosts.insert ∅ (lit "Printer.LAN") [V4 7; V6 9]) [] [] ∅
    (Snapshot.mk_DatasetStats 1 0 0 0 0 0 0).

Definition request_for (name : str) (t : RecordType) : Message str :=
  mk_Message (mk_Metadata 99 MtQuery OpQuery false false true false false false NoError)
    [mk_Query name t IN] [] [] [] None.

Definition fresh_state : ResolverState :=
  mk_ResolverState empty_cache (hotset_new 8 f32_one 8 0) ∅.

(** The flight of any key is led by this task and meets the world [fw]. *)
Definition leading (fw : FetchWorld (Name := str)) (at_ : Instant) : HandleWorld :=
  mk_HandleWorld quiet_env (λ _, JLeader fw) true (λ _, lit "failed") at_ at_.

(** An upstream that answers, and one that does not. *)
Definition answering : FetchWorld := world_with checked (VrNothing, PF_None).

Definition failing : FetchWorld := {|
  fw_group := true; fw_parse := Some; fw_id := 5; fw_ecs := None; fw_validator := true;
  fw_permit := true; fw_capacity := 256; fw_first := (VrNothing, PF_None);
  fw_second := (VrNothing, PF_None);
  fw_time_left := from_secs 1; fw_fallback_slice := from_secs 1;
  fw_resolve_pair := λ _ _, None; fw_resolve := λ _, Err (AllFailed (lit "down"));
  fw_remaining := from_secs 2; fw_corroborate := λ _ _ _, None;
  fw_now := from_secs 10; fw_now_unix := 2000 |}.

(** A private address and a public one. *)
Definition mixed_entry : CacheEntry str :=
  mk_CacheEntry
    (mk_Message (metadata checked) (queries checked)
       [mk_Record (lit "one.example.") IN 300 (RD_A (ipv4 10 0 0 1)) PIndeterminate;
        mk_Record (lit "one.example.") IN 300 (RD_A (ipv4 9 9 9 9)) PIndeterminate] [] [] None)
    0 1000 300 Positive Indeterminate (mk_AnswerSource (lit "one") Udp) 7 None 512.

Local Abbreviation run :=
  (handle reply_header drop_signatures signature_only (λ _, None) lan_config lan_data) (only parsing).

Definition web_request : Message str := request_for (lit "www.example.com.") RT_A.
Definition web_request' : Message str := request_for (lit "WWW.Example.com.") RT_A.
Definition web_query : Query str := mk_Query (lit "www.example.com.") RT_A IN.
Definition web_query' : Query str := mk_Query (lit "WWW.Example.com.") RT_A IN.
Definition web_key : CacheKey := key_of lan_config lan_data web_request web_query.

Lemma web_reaches_cache :
  reaches_cache reply_header lan_config lan_data web_request ClientUdp web_query ∧
  reaches_cache reply_header lan_config lan_data web_request' ClientTcp web_query' ∧
  key_of lan_config lan_data web_request' web_query' = web_key.
Proof. by split_and!; vm_compute. Qed.

Lemma every_answer_replies_witness :
  m_id (metadata (an_message (run (leading answering (from_secs 10)) fresh_state web_request
    ClientUdp).1)) = 99.
Proof.
  exact (proj1 (proj1 (proj1 (every_answer_replies reply_header drop_signatures signature_only
    (λ _, None) lan_config lan_data (leading answering (from_secs 10)) fresh_state web_request
    ClientUdp)))).
Defined.

Lemma hosts_entry_decides_witness :
  answers (an_message (run (leading failing 0) fresh_state (request_for (lit "printer.lan.") RT_AAAA)
    ClientUdp).1) = [mk_Record (lit "printer.lan.") IN 60 (RD_AAAA 9) PIndeterminate].
Proof.
  refine (proj1 (proj2 (proj2 (proj2 (hosts_entry_decides reply_header drop_signatures
    signature_only (λ _, None) lan_config lan_data (leading failing 0) fresh_state
    (request_for (lit "printer.lan.") RT_AAAA) ClientUdp
    (mk_Query (lit "printer.lan.") RT_AAAA IN) [V4 7; V6 9] _ _ _ _))))).
  - vm_compute. reflexivity.
  - reflexivity.
  - right. reflexivity.
  - vm_compute. reflexivity.
Defined.

(** The popularity of a name plays no part in its answer. *)
Local Ltac run_handler H :=
  rewrite (handle_cached _ _ _ _ _ _ _ _ _ _ _ H); unfold answer_cached;
  generalize (observe (rs_hotset fresh_state) (key_of lan_config lan_data web_request web_query) None
    (from_secs 10)); intros h; vm_compute; reflexivity.

(** The second client writes the name in another letter case and uses TCP. *)
Lemma fetched_answer_is_served_witness :
  let s1 := (run (leading answering (from_secs 10)) fresh_state web_request ClientUdp).2 in
  rs_cache (run (leading failing (from_secs 20)) s1 web_request' ClientTcp).2 = rs_cache s1.
Proof.
  destruct web_reaches_cache as (H1 & H2 & H3).
  refine (proj2 (proj2 (fetched_answer_is_served reply_header drop_signatures signature_only
    (λ _, None) lan_config lan_data (leading answering (from_secs 10)) fresh_state web_request
    ClientUdp web_query answering (leading failing (from_secs 20)) web_request' ClientTcp web_query'
    (new_entry signature_only (λ _, None) (config_in ModeBackground) empty_cache checked
      Secure (Some (route_of (lit "one"))) NotNegative (from_secs 10) 2000)
    H1 eq_refl _ H2 H3 _ _))).
  - run_handler H1.
  - run_handler H1.
  - vm_compute. reflexivity.
Defined.


Lemma background_lookups_are_public_witness :
  (lookup_addresses signature_only (λ _, None) lan_config lan_data
    (mk_NetworkSnapshot 1 FamilyUsable FamilyUnusable no_network 0) empty_cache
    (λ _, JFollower (Some (Ok mixed_entry))) 0 (lit "one.example.")).1
  = [V4 (ipv4 9 9 9 9)] ∧ IpClass.classify (V4 (ipv4 9 9 9 9)) = None.
Proof.
  assert ((lookup_addresses signature_only (λ _, None) lan_config lan_data
    (mk_NetworkSnapshot 1 FamilyUsable FamilyUnusable no_network 0) empty_cache
    (λ _, JFollower (Some (Ok mixed_entry))) 0 (lit "one.example.")).1
    = [V4 (ipv4 9 9 9 9)]) as H by (vm_compute; reflexivity).
  split; [exact H|].
  refine (background_lookups_are_public signature_only (λ _, None) lan_config lan_data
    (mk_NetworkSnapshot 1 FamilyUsable FamilyUnusable no_network 0) empty_cache
    (λ _, JFollower (Some (Ok mixed_entry))) 0 (lit "one.example.") _ _).
  rewrite H. left.
Defined.

End witnesses.
