(* ===== verification/Validate.v ===== *)
(** * Validation of the configuration

    [src/config/validate.rs]: the checks a configuration tree passes before it is
    put in force, section by section and in their order; the first violation is
    reported.  A violation is the dotted path of the field with the positions of
    the list elements on the way, without the explanatory text.

    The theorems connect a validated tree with the components that run on it. *)

From Stdlib Require Import Ascii String Floats.SpecFloat.
From S2P Require Import Prelude.
From S2P Require Import Hashing.
From S2P Require Import Floats.
From S2P Require Import Names.
From S2P Require Import Net.
From S2P Require Import Text.
From S2P Require Import Config.
From S2P Require Import Util.
From S2P Require Import Proxy.
From S2P Require Import Dns.
From S2P Require Import Message.
From S2P Require Import EdnsOptions.
From S2P Require Import Cache.
From S2P Require Import Datasets.
From S2P Require Import HotSet.
From S2P Require Import Resolver.
From S2P Require Import ResolverResponse.
From S2P Require Import ResolverFetch.
From S2P Require Import Handler.

(** ** The tree *)

Record RequiredHeader : Type := mk_RequiredHeader { rh_name : str; rh_value : option str }.

Record ProbeProfile : Type := mk_ProbeProfile {
  pp_name : str;
  pp_domains : list str;
  pp_path : str;
  pp_method : str;
  pp_allowed_status : list Z;
  pp_required_header : option RequiredHeader;
  pp_body_sha256 : option str;
  pp_spki_sha256 : list str;
  pp_required_issuer_cn : option str;
  pp_alpn : list str
}.

Record Config : Type := mk_Config {
  upstreams : list str;
  local_forwarder : option IpAddr;
  proxies : list str;
  server : ServerConfig;
  cache : CacheConfig;
  ttl : TtlConfig;
  ranking : RankingConfig;
  serve_stale : ServeStaleConfig;
  prefetch : PrefetchConfig;
  tls : UpstreamTlsConfig;
  proxy : list ProxyEndpoint;
  upstream : UpstreamConfig;
  dnssec : DnssecConfig;
  trust_anchor_file : option str;
  ecs : EcsConfig;
  probe : ProbeConfig;
  profiles : list ProbeProfile;
  network : NetworkConfig;
  cloudflare : CloudflareConfig;
  datasets : DatasetsConfig;
  local : Snapshot.LocalConfig;
  storage : StorageConfig;
  metrics : MetricsConfig;
  logging : LoggingConfig;
  admin : AdminConfig;
  resources : ResourceConfig
}.

(** ** Violations *)

Record Violation : Type := mk_Violation { v_field : str; v_index : list nat }.

Definition refuse (bad : bool) (field : string) : option Violation :=
  if bad then Some (mk_Violation (lit field) []) else None.

Definition refuse_at (bad : bool) (field : string) (index : list nat) : option Violation :=
  if bad then Some (mk_Violation (lit field) index) else None.

Fixpoint first_violation (l : list (option Violation)) : option Violation :=
  match l with
  | [] => None
  | Some v :: _ => Some v
  | None :: rest => first_violation rest
  end.

(** The first violation among the elements of a list. *)
Definition each {A} (f : nat -> A -> option Violation) (l : list A) : option Violation :=
  first_violation (imap f l).

(** Whether the element at position [i] repeats an earlier one. *)
Definition repeats {A} `{EqDecision A} (l : list A) (i : nat) (x : A) : bool :=
  bool_decide (x ∈ take i l).

(** [Duration::as_millis]. *)
Definition as_millis (d : Duration) : Z := d / 1000000.

(** [Vec::is_empty]. *)
Definition no_items {A} (l : list A) : bool := match l with [] => true | _ :: _ => false end.

Definition blank (s : str) : bool := is_empty (trim s).

(** [(lo..=hi).contains(&x)], which no NaN satisfies. *)
Definition within (lo hi x : f64) : bool := f64_leb lo x && f64_leb x hi.

(** [Path::is_absolute] on Unix. *)
Definition is_absolute (path : str) : bool := starts_with path (lit "/").

Definition is_loopback (a : IpAddr) : bool :=
  match a with V4 v => v / 2 ^ 24 =? 127 | V6 v => v =? 1 end.

Definition is_multicast (a : IpAddr) : bool :=
  match a with V4 v => v / 2 ^ 28 =? 14 | V6 v => v / 2 ^ 120 =? 255 end.

Definition net_addr (n : IpNet) : IpAddr :=
  match n with Net4 n => V4 (net4_addr n) | Net6 n => V6 (net6_addr n) end.

Definition is_hex_digest (s : str) : bool :=
  (length s =? 64)%nat &&
  forallb (λ c, let x := code (lower_ascii c) in
                ((48 <=? x) && (x <=? 57)) || ((97 <=? x) && (x <=? 102))) s.

(** Whether a listener is reachable from outside this machine. *)
Definition exposed (s : ServerConfig) : bool :=
  existsb (λ a : SocketAddr, negb (is_loopback a.1)) (udp_listen s ++ tcp_listen s).

(** ** The sections *)

Section validate.
Context {IPL : IpNetLib}.

Definition validate_server (s : ServerConfig) : option Violation :=
  let udp := server_udp s in
  let tcp := server_tcp s in
  let rl := rate_limit s in
  first_violation [
    refuse (no_items (udp_listen s) && no_items (tcp_listen s)) "server.udp_listen";
    each (λ i a, refuse (repeats (udp_listen s) i a) "server.udp_listen") (udp_listen s);
    each (λ i a, refuse (repeats (tcp_listen s) i a) "server.tcp_listen") (tcp_listen s);
    refuse (udp_max_payload udp <? 512) "server.udp.max_payload";
    refuse (4096 <? udp_max_payload udp) "server.udp.max_payload";
    refuse (negb (udp_non_edns_max_payload udp =? 512)) "server.udp.non_edns_max_payload";
    refuse (udp_workers_per_socket udp =? 0) "server.udp.workers_per_socket";
    refuse ((1 <? udp_workers_per_socket udp) && negb (udp_reuse_port udp))
      "server.udp.workers_per_socket";
    refuse (tcp_max_connections tcp =? 0) "server.tcp.max_connections";
    refuse (tcp_max_connections_per_client tcp =? 0) "server.tcp.max_connections_per_client";
    refuse (tcp_max_connections tcp <? tcp_max_connections_per_client tcp)
      "server.tcp.max_connections_per_client";
    refuse ((tcp_max_message_bytes tcp <? 512) || (65535 <? tcp_max_message_bytes tcp))
      "server.tcp.max_message_bytes";
    refuse (tcp_max_pipelined_queries tcp =? 0) "server.tcp.max_pipelined_queries";
    refuse (as_millis (foreground_budget s) =? 0) "server.foreground_budget";
    refuse (30 <? as_secs (foreground_budget s)) "server.foreground_budget";
    (if rl_enabled rl then
       first_violation [
         refuse (rl_per_client_qps rl =? 0) "server.rate_limit.per_client_qps";
         refuse (rl_global_qps rl =? 0) "server.rate_limit.global_qps";
         refuse (rl_per_client_burst rl <? rl_per_client_qps rl)
           "server.rate_limit.per_client_burst";
         refuse (rl_global_burst rl <? rl_global_qps rl) "server.rate_limit.global_burst";
         refuse (rl_client_table_size rl =? 0)%nat "server.rate_limit.client_table_size" ]
     else None);
    refuse (match allow_from s with None => exposed s | Some _ => false end) "server.allow_from";
    each (λ _ n, refuse (is_multicast (net_addr n)) "server.allow_from")
      (default [] (allow_from s));
    refuse (match any_policy s with
            | AnyForward => exposed s && negb (rl_enabled rl)
            | _ => false
            end) "server.any_policy" ].

Definition validate_ttl (t : TtlConfig) : option Violation :=
  let cap value field :=
    first_violation [refuse (value =? 0) field; refuse (86400 <? value) field] in
  first_violation [
    cap (cap_default t) "ttl.cap_default"%string;
    cap (cap_optimized_multi t) "ttl.cap_optimized_multi"%string;
    cap (cap_cloudflare_preserve t) "ttl.cap_cloudflare_preserve"%string;
    cap (cap_cloudflare_augment t) "ttl.cap_cloudflare_augment"%string;
    cap (cap_network_change t) "ttl.cap_network_change"%string;
    cap (cap_serve_stale t) "ttl.cap_serve_stale"%string;
    refuse (60 <? cap_cloudflare_augment t) "ttl.cap_cloudflare_augment" ].

Definition validate_cache_and_ttl (cfg : Config) : option Violation :=
  let c := cache cfg in
  let ss := serve_stale cfg in
  let r := ranking cfg in
  let p := prefetch cfg in
  first_violation [
    refuse (cache_max_memory_bytes c <? 1024 * 1024) "cache.max_memory_bytes";
    refuse (cache_variant_max_memory_bytes c <? 1024 * 1024) "cache.variant_max_memory_bytes";
    refuse (cache_max_memory_bytes c <? cache_variant_max_memory_bytes c)
      "cache.variant_max_memory_bytes";
    refuse (cache_internal_max_ttl c =? 0) "cache.internal_max_ttl";
    refuse (604800 <? cache_internal_max_ttl c) "cache.internal_max_ttl";
    refuse (86400 <? cache_negative_max_ttl c) "cache.negative_max_ttl";
    refuse (as_secs (cache_failure_min_ttl c) <? 1) "cache.failure_min_ttl";
    refuse (FAILURE_MAX_TTL_CEILING <? cache_failure_max_ttl c) "cache.failure_max_ttl";
    refuse (cache_failure_max_ttl c <? cache_failure_min_ttl c) "cache.failure_max_ttl";
    validate_ttl (ttl cfg);
    (if stale_enabled ss then
       first_violation [
         refuse (as_secs (max_stale ss) =? 0) "serve_stale.max_stale";
         refuse (7 * 86400 <? as_secs (max_stale ss)) "serve_stale.max_stale";
         refuse (foreground_budget (server cfg) <=? client_timeout ss) "serve_stale.client_timeout";
         refuse (1800 <? as_millis (client_timeout ss)) "serve_stale.client_timeout" ]
     else None);
    refuse (negb (within f64_zero f64_one (hysteresis r))) "ranking.hysteresis";
    refuse (negb (within f64_zero (f64_lit 1 2) (exploration_rate r))) "ranking.exploration_rate";
    refuse (f64_leb (neutral_cost_ms r) f64_zero) "ranking.neutral_cost_ms";
    refuse (f64_ltb (consecutive_failure_base r) f64_one) "ranking.consecutive_failure_base";
    refuse (as_secs (evidence_half_life r) =? 0) "ranking.evidence_half_life";
    (if prefetch_enabled p then
       first_violation [
         refuse (negb (within (f64_lit 1 100) (f64_lit 9 10) (trigger_fraction p)))
           "prefetch.trigger_fraction";
         refuse (prefetch_global_qps p =? 0) "prefetch.global_qps";
         refuse (hot_set_size p =? 0)%nat "prefetch.hot_set_size";
         refuse (transition_prediction p && (transition_table_size p =? 0)%nat)
           "prefetch.transition_table_size" ]
     else None) ].

(** An address no upstream may have: special-use, other than a private, shared or
    loopback one. *)
Definition unusable_upstream (a : IpAddr) : bool :=
  match IpClass.classify a with
  | None | Some IpClass.Private | Some IpClass.SharedAddressSpace | Some IpClass.Loopback => false
  | Some _ => true
  end.

(** One server of a group; [servers] are all of the group's. *)
Definition validate_upstream_server (servers : list UpstreamServerConfig) (gi si : nat)
    (s : UpstreamServerConfig) : option Violation :=
  let at_ := refuse_at in
  let ix := [gi; si] in
  let encrypted := is_encrypted (us_transport s) in
  first_violation [
    at_ (blank (us_name s)) "upstream.groups.servers.name"%string ix;
    at_ (repeats (map us_name servers) si (us_name s)) "upstream.groups.servers.name"%string ix;
    at_ (no_items (us_addresses s) && bool_decide (us_server_name s = None))
      "upstream.groups.servers.addresses"%string ix;
    each (λ _ a, at_ (unusable_upstream a) "upstream.groups.servers.addresses"%string ix)
      (us_addresses s);
    at_ (encrypted && match us_server_name s with
                      | None => true
                      | Some name => blank name || bool_decide (is_Some (parse_ip name))
                      end) "upstream.groups.servers.server_name"%string ix;
    at_ (match us_transport s with
         | Doh2 | Doh3 => negb (starts_with (default (lit "/dns-query") (us_path s)) (lit "/"))
         | _ => bool_decide (is_Some (us_path s))
         end) "upstream.groups.servers.path"%string ix;
    at_ (us_trust_ad s && negb encrypted) "upstream.groups.servers.trust_ad"%string ix;
    at_ (bool_decide (us_enable_cookies s = Some true) && encrypted)
      "upstream.groups.servers.enable_cookies"%string ix;
    at_ (us_weight s =? 0) "upstream.groups.servers.weight"%string ix ].

Definition validate_scheduler (budget : Duration) (gi : nat) (sc : SchedulerConfig)
    : option Violation :=
  let at_ bad field := refuse_at bad field [gi] in
  first_violation [
    at_ (negb (within (f64_lit 1 2) (f64_lit 999 1000) (hedge_percentile sc)))
      "upstream.groups.scheduler.hedge_percentile"%string;
    at_ (hedge_max_delay sc <? hedge_min_delay sc)
      "upstream.groups.scheduler.hedge_min_delay"%string;
    at_ (negb (within f64_zero f64_one (hedge_max_fraction sc)))
      "upstream.groups.scheduler.hedge_max_fraction"%string;
    at_ (as_millis (query_timeout sc) =? 0) "upstream.groups.scheduler.query_timeout"%string;
    at_ (budget <? query_timeout sc) "upstream.groups.scheduler.query_timeout"%string;
    at_ (negb (within f64_zero (f64_lit 1 2) (explore_rate sc)))
      "upstream.groups.scheduler.explore_rate"%string;
    at_ (circuit_failure_threshold sc =? 0)
      "upstream.groups.scheduler.circuit_failure_threshold"%string;
    at_ (circuit_half_open_successes sc =? 0)
      "upstream.groups.scheduler.circuit_half_open_successes"%string;
    at_ (emergency_fanout sc && (emergency_fanout_max sc =? 0)%nat)
      "upstream.groups.scheduler.emergency_fanout_max"%string ].

Definition validate_group (all : list UpstreamGroupConfig) (budget : Duration) (gi : nat)
    (g : UpstreamGroupConfig) : option Violation :=
  first_violation [
    refuse_at (blank (ug_name g)) "upstream.groups.name" [gi];
    refuse_at (repeats (map ug_name all) gi (ug_name g)) "upstream.groups.name" [gi];
    refuse_at (negb (existsb us_enabled (ug_servers g))) "upstream.groups.servers" [gi];
    each (validate_upstream_server (ug_servers g) gi) (ug_servers g);
    validate_scheduler budget gi (ug_scheduler g) ].

Definition validate_upstream (cfg : Config) : option Violation :=
  let u := upstream cfg in
  first_violation [
    refuse (no_items (groups u)) "upstream.groups";
    each (validate_group (groups u) (foreground_budget (server cfg))) (groups u);
    refuse (negb (bool_decide (default_group u ∈ map ug_name (groups u)))) "upstream.default_group";
    each (λ i f, refuse_at (negb (is_absolute f)) "upstream.tls.extra_ca_files" [i])
      (extra_ca_files (upstream_tls u));
    refuse (quic_zero_rtt (upstream_tls u)) "upstream.tls.quic_zero_rtt" ].

Definition validate_dnssec (cfg : Config) : option Violation :=
  let d := dnssec cfg in
  first_violation [
    refuse (max_concurrent_validations d =? 0) "dnssec.max_concurrent_validations";
    refuse (trust_upstream_ad d && validates (dnssec_mode d)) "dnssec.trust_upstream_ad";
    refuse (trust_upstream_ad d &&
            negb (existsb us_trust_ad (concat (map ug_servers (groups (upstream cfg))))))
      "dnssec.trust_upstream_ad";
    refuse (match trust_anchor_file cfg with Some p => negb (is_absolute p) | None => false end)
      "dnssec.trust_anchor_file" ].

Definition special_v4 (n : Ipv4Net) : bool :=
  bool_decide (is_Some (IpClass.classify_v4 (net4_addr n))).
Definition special_v6 (n : Ipv6Net) : bool :=
  bool_decide (is_Some (IpClass.classify_v6 (net6_addr n))).

Definition validate_server_ecs (gi si : nat) (s : UpstreamServerConfig) : option Violation :=
  match us_ecs s with
  | None => None
  | Some scope =>
      first_violation [
        refuse_at (match scope_ipv4 scope with Some n => special_v4 n | None => false end)
          "upstream.groups.servers.ecs.ipv4" [gi; si];
        refuse_at (match scope_ipv6 scope with Some n => special_v6 n | None => false end)
          "upstream.groups.servers.ecs.ipv6" [gi; si] ]
  end.

Definition validate_ecs (cfg : Config) : option Violation :=
  let egress := ecs_egress (ecs cfg) in
  first_violation [
    (match ecs_mode (ecs cfg) with
     | EcsDisabled => None
     | EcsFixedEgress =>
         first_violation [
           refuse (bool_decide (scope_ipv4 egress = None) && bool_decide (scope_ipv6 egress = None))
             "ecs.egress";
           (match scope_ipv4 egress with
            | Some n => first_violation [refuse (special_v4 n) "ecs.egress.ipv4";
                                         refuse (24 <? net4_prefix_len n) "ecs.egress.ipv4"]
            | None => None
            end);
           (match scope_ipv6 egress with
            | Some n => first_violation [refuse (special_v6 n) "ecs.egress.ipv6";
                                         refuse (56 <? net6_prefix_len n) "ecs.egress.ipv6"]
            | None => None
            end) ]
     end);
    each (λ gi g, each (validate_server_ecs gi) (ug_servers g)) (groups (upstream cfg)) ].

Definition validate_profile (all : list ProbeProfile) (i : nat) (prof : ProbeProfile)
    : option Violation :=
  let method := to_ascii_uppercase (pp_method prof) in
  first_violation [
    refuse_at (blank (pp_name prof)) "probe.profiles.name" [i];
    refuse_at (no_items (pp_domains prof)) "probe.profiles.domains" [i];
    refuse_at (negb (starts_with (pp_path prof) (lit "/"))) "probe.profiles.path" [i];
    refuse_at (negb (str_eqb method (lit "HEAD")) && negb (str_eqb method (lit "GET")))
      "probe.profiles.method" [i];
    refuse_at (no_items (pp_allowed_status prof)) "probe.profiles.allowed_status" [i];
    each (λ _ c, refuse_at (negb ((100 <=? c) && (c <=? 599))) "probe.profiles.allowed_status" [i])
      (pp_allowed_status prof);
    refuse_at (match pp_body_sha256 prof with Some h => negb (is_hex_digest h) | None => false end)
      "probe.profiles.body_sha256" [i];
    each (λ j h, refuse_at (negb (is_hex_digest h)) "probe.profiles.spki_sha256" [i; j])
      (pp_spki_sha256 prof);
    each (λ j a, refuse_at (is_empty a || (32 <? length a)%nat) "probe.profiles.alpn" [i; j])
      (pp_alpn prof);
    refuse_at (repeats (map pp_name all) i (pp_name prof)) "probe.profiles.name" [i] ].

Definition validate_target (i : nat) (n : IpNet) : option Violation :=
  let class := IpClass.classify (net_addr n) in
  first_violation [
    refuse_at (bool_decide (class = None)) "probe.allow_special_use_targets" [i];
    refuse_at (bool_decide (class = Some IpClass.CloudMetadata)
               || bool_decide (class = Some IpClass.LinkLocal))
      "probe.allow_special_use_targets" [i] ].

Definition validate_probe (cfg : Config) : option Violation :=
  let p := probe cfg in
  if negb (probe_enabled p) then None
  else
    first_violation [
      refuse (probe_queue_size p =? 0)%nat "probe.queue_size";
      refuse (probe_concurrency p =? 0)%nat "probe.concurrency";
      refuse (max_candidates_per_rrset p =? 0)%nat "probe.max_candidates_per_rrset";
      refuse (256 <? probe_concurrency p)%nat "probe.concurrency";
      refuse ((global_connections_per_second p =? 0) || (10000 <? global_connections_per_second p))
        "probe.global_connections_per_second";
      refuse ((max_response_bytes p =? 0) || (1024 * 1024 <? max_response_bytes p))
        "probe.max_response_bytes";
      refuse (existsb (Z.eqb 0) (extra_ports p)) "probe.extra_ports";
      refuse (8 <? length (extra_ports p))%nat "probe.extra_ports";
      each validate_target (allow_special_use_targets p);
      each (validate_profile (profiles cfg)) (profiles cfg) ].

Definition https (url : str) : bool := starts_with url (lit "https://").

Definition validate_seeds (s : SeedConfig) : option Violation :=
  if negb (seeds_enabled s) then None
  else
    first_violation [
      refuse (negb (existsb se_enabled (seeds_endpoints s))) "cloudflare.seeds.endpoints";
      each (λ i e,
        first_violation [
          refuse_at (blank (se_name e)) "cloudflare.seeds.endpoints.name" [i];
          refuse_at (repeats (map se_name (seeds_endpoints s)) i (se_name e))
            "cloudflare.seeds.endpoints.name" [i];
          refuse_at (negb (https (se_url e))) "cloudflare.seeds.endpoints.url" [i] ])
        (seeds_endpoints s);
      refuse (as_secs (seeds_refresh_interval s) <? 60) "cloudflare.seeds.refresh_interval";
      refuse ((seeds_max_response_bytes s =? 0) || (4 * 1024 * 1024 <? seeds_max_response_bytes s))
        "cloudflare.seeds.max_response_bytes";
      refuse ((seeds_max_addresses s =? 0) || (65536 <? seeds_max_addresses s))
        "cloudflare.seeds.max_addresses_per_response" ].

Definition validate_sampling (s : SamplingConfig) : option Violation :=
  if negb (sampling_enabled s) then None
  else
    first_violation [
      refuse ((sampling_addresses_per_round s =? 0) || (4096 <? sampling_addresses_per_round s))
        "cloudflare.sampling.addresses_per_round";
      refuse (sampling_max_new_per_hour s =? 0) "cloudflare.sampling.max_new_candidates_per_hour";
      refuse ((sampling_buckets_per_prefix s =? 0) || (4096 <? sampling_buckets_per_prefix s))
        "cloudflare.sampling.buckets_per_prefix";
      refuse (negb (within f64_zero f64_one (sampling_exploit_fraction s)))
        "cloudflare.sampling.exploit_fraction";
      refuse (as_secs (sampling_round_interval s) <? 10) "cloudflare.sampling.round_interval" ].

Definition validate_cloudflare (cfg : Config) : option Violation :=
  let c := cloudflare cfg in
  let o := cf_official c in
  let a := cf_augment c in
  if negb (cf_enabled c) then None
  else
    first_violation [
      refuse (bool_decide (cf_mode c = CfVerifiedAugment) && negb (probe_enabled (probe cfg)))
        "cloudflare.mode";
      refuse (negb (https (of_api_url o))) "cloudflare.official.api_url";
      refuse (negb (https (of_ipv4_url o))) "cloudflare.official.ipv4_url";
      refuse (negb (https (of_ipv6_url o))) "cloudflare.official.ipv6_url";
      refuse (as_secs (of_refresh_interval o) <? 300) "cloudflare.official.refresh_interval";
      refuse ((of_max_response_bytes o =? 0) || (8 * 1024 * 1024 <? of_max_response_bytes o))
        "cloudflare.official.max_response_bytes";
      refuse (of_min_ipv4_prefixes o =? 0) "cloudflare.official.min_ipv4_prefixes";
      validate_seeds (cf_seeds c);
      validate_sampling (cf_sampling c);
      refuse ((max_added a =? 0)%nat || (2 <? max_added a)%nat) "cloudflare.augment.max_added";
      refuse (min_validations a =? 0) "cloudflare.augment.min_validations";
      refuse (negb (within f64_zero f64_one (min_advantage a))) "cloudflare.augment.min_advantage";
      refuse ((as_secs (validation_ttl a) =? 0) || (86400 <? as_secs (validation_ttl a)))
        "cloudflare.augment.validation_ttl";
      refuse ((cf_candidate_pool_max c =? 0) || (1000000 <? cf_candidate_pool_max c))
        "cloudflare.candidate_pool_max";
      refuse (no_items (cf_probe_hosts c)) "cloudflare.probe_hosts";
      each (λ i h, refuse_at (blank h || existsb (ascii_eqb "/"%char) h)
                     "cloudflare.probe_hosts" [i]) (cf_probe_hosts c);
      each (λ i a, refuse_at (bool_decide (is_Some (IpClass.classify a)))
                     "cloudflare.static_candidates" [i]) (cf_static_candidates c) ].

Definition validate_local (cfg : Config) : option Violation :=
  let l := local cfg in
  let o := datasets cfg in
  let group_names := map ug_name (groups (upstream cfg)) in
  first_violation [
    each (λ i r,
      first_violation [
        refuse_at (blank (Snapshot.sr_suffix r)) "local.suffix_rules.suffix" [i];
        refuse_at (negb (bool_decide (Snapshot.sr_group r ∈ group_names)))
          "local.suffix_rules.group" [i] ]) (Snapshot.lc_suffix_rules l);
    each (λ i h,
      first_violation [
        refuse_at (blank (Snapshot.he_name h)) "local.hosts.name" [i];
        refuse_at (no_items (Snapshot.he_addresses h)) "local.hosts.addresses" [i] ])
      (Snapshot.lc_hosts l);
    each (λ i z,
      first_violation [
        refuse_at (blank (Zones.lz_name z)) "local.zones.name" [i];
        each (λ j r, refuse_at (blank (Zones.lr_value r)) "local.zones.records.value" [i; j])
          (Zones.lz_records z) ]) (Snapshot.lc_zones l);
    refuse ((Snapshot.lc_local_ttl l =? 0) || (86400 <? Snapshot.lc_local_ttl l)) "local.local_ttl";
    refuse (max_file_bytes o =? 0) "datasets.max_file_bytes";
    refuse (max_records o =? 0) "datasets.max_records" ].

(** On Unix an admin endpoint is an absolute path. *)
Definition validate_observability (cfg : Config) : option Violation :=
  let m := metrics cfg in
  let a := admin cfg in
  let s := storage cfg in
  let r := resources cfg in
  first_violation [
    refuse (metrics_enabled m && negb (is_loopback (metrics_listen m).1)
            && negb (metrics_allow_non_loopback m)) "metrics.listen";
    refuse (negb (within f64_zero f64_one (query_log_sample (logging cfg)))) "logging.query_log_sample";
    (if admin_enabled a then
       first_violation [
         refuse (negb (is_absolute (admin_socket a))) "admin.socket";
         refuse (negb (Z.land (admin_socket_mode a) 7 =? 0)) "admin.socket_mode";
         refuse ((admin_max_request_bytes a =? 0) || (1024 * 1024 <? admin_max_request_bytes a))
           "admin.max_request_bytes" ]
     else None);
    (if storage_enabled s then
       first_violation [
         refuse (negb (is_absolute (storage_path s))) "storage.path";
         refuse (storage_queue_size s =? 0) "storage.queue_size" ]
     else None);
    refuse (match worker_threads r with Some w => (w =? 0) || (512 <? w) | None => false end)
      "resources.worker_threads";
    refuse (max_inflight_queries r =? 0) "resources.max_inflight_queries";
    refuse (max_inflight_upstream r =? 0) "resources.max_inflight_upstream";
    refuse ((max_blocking_threads r =? 0) || (128 <? max_blocking_threads r))
      "resources.max_blocking_threads" ].

Definition validate (cfg : Config) : option Violation :=
  first_violation [
    validate_server (server cfg);
    validate_cache_and_ttl cfg;
    validate_upstream cfg;
    validate_dnssec cfg;
    validate_ecs cfg;
    validate_probe cfg;
    validate_cloudflare cfg;
    validate_local cfg;
    validate_observability cfg ].

(** ** What the components are given *)

Definition loopback_networks : list IpNet :=
  [Net4 (mk_Ipv4Net (ipv4 127 0 0 0) 8); Net6 (mk_Ipv6Net 1 128)].

Definition effective_allow_from (cfg : Config) : list IpNet :=
  match allow_from (server cfg) with Some nets => nets | None => loopback_networks end.

Definition acl_of (cfg : Config) : Acl.Acl :=
  Acl.mk_Acl (effective_allow_from cfg) (deny_from (server cfg)).

(** The settings the resolver reads. *)
Definition resolver_config (cfg : Config) : ResolverConfig :=
  mk_ResolverConfig (foreground_budget (server cfg)) (any_policy (server cfg))
    (server_udp (server cfg)) (server_tcp (server cfg)) (cache cfg) (ttl cfg) (serve_stale cfg)
    (dnssec cfg).

Definition handler_config (cfg : Config) (ecs_identity : option str) : HandlerConfig :=
  mk_HandlerConfig (resolver_config cfg) (special_use (server cfg))
    (Snapshot.lc_local_ttl (local cfg)) (default_group (upstream cfg)) ecs_identity.

End validate.

(** ** Reading a successful validation *)

Lemma first_violation_none l : first_violation l = None <-> ∀ x, x ∈ l -> x = None.
Proof.
  induction l as [|[v|] l IH]; cbn.
  - split; [intros _ x Hx; by apply elem_of_nil in Hx|done].
  - split; [done|]. intros H. apply H. left.
  - rewrite IH. split; intros H x; [intros [->|Hx]%elem_of_cons; [done|by apply H]|].
    intros Hx. apply H. by right.
Qed.

(** The check at a position of a list passed. *)
Lemma check_passed l n x : first_violation l = None -> l !! n = Some x -> x = None.
Proof. rewrite first_violation_none. intros H Hx. apply H. by eapply list_elem_of_lookup_2. Qed.

Lemma each_none {A} (f : nat -> A -> option Violation) l i x :
  each f l = None -> l !! i = Some x -> f i x = None.
Proof.
  intros H Hx. apply (check_passed _ i _ H). by rewrite list_lookup_imap, Hx.
Qed.

Lemma refuse_none b field : refuse b field = None -> b = false.
Proof. by destruct b. Qed.

Lemma refuse_at_none b field ix : refuse_at b field ix = None -> b = false.
Proof. by destruct b. Qed.

(** [passed H n] proves that the [n]-th check of the validated list found nothing. *)
Ltac passed H n := first
  [ exact (refuse_none _ _ (check_passed _ n _ H eq_refl))
  | exact (refuse_at_none _ _ _ (check_passed _ n _ H eq_refl))
  | exact (check_passed _ n _ H eq_refl) ].

Section validated.
Context {IPL : IpNetLib}.

Lemma validated_sections cfg :
  validate cfg = None ->
  validate_server (server cfg) = None ∧ validate_cache_and_ttl cfg = None ∧
  validate_upstream cfg = None ∧ validate_dnssec cfg = None ∧ validate_ecs cfg = None ∧
  validate_probe cfg = None ∧ validate_cloudflare cfg = None ∧ validate_local cfg = None ∧
  validate_observability cfg = None.
Proof.
  intros H. unfold validate in H.
  split_and!; [passed H 0%nat|passed H 1%nat|passed H 2%nat|passed H 3%nat|passed H 4%nat|
    passed H 5%nat|passed H 6%nat|passed H 7%nat|passed H 8%nat].
Qed.

Lemma server_sizes s :
  validate_server s = None ->
  512 <= udp_max_payload (server_udp s) <= 4096 ∧
  udp_non_edns_max_payload (server_udp s) = 512 ∧
  512 <= tcp_max_message_bytes (server_tcp s) <= 65535.
Proof.
  intros H. unfold validate_server in H.
  assert ((udp_max_payload (server_udp s) <? 512) = false) as H1 by passed H 3%nat.
  assert ((4096 <? udp_max_payload (server_udp s)) = false) as H2 by passed H 4%nat.
  assert (negb (udp_non_edns_max_payload (server_udp s) =? 512) = false) as H3 by passed H 5%nat.
  assert ((tcp_max_message_bytes (server_tcp s) <? 512) || (65535 <? tcp_max_message_bytes (server_tcp s))
    = false) as H4 by passed H 11%nat.
  apply orb_false_iff in H4 as [H4 H5]. apply negb_false_iff, Z.eqb_eq in H3.
  rewrite Z.ltb_ge in *. lia.
Qed.

(** A validated configuration bounds every message sent: whatever the request and
    the state, the limit of an answer is between 512 and 65535 octets, exactly 512
    for a UDP client without EDNS, and for one with EDNS at most 4096 and at most
    what the client announced (or 512). *)
Theorem validated_answers_fit {Name} {NLib : NameLib Name} {ML : MokaLib CacheKey} {OL : OptLib}
    {FL : FloatLib} {WC : WireCodes (Name := Name)} {IO : HashOrder CacheKey} {F32 : Float32Lib}
    rfr strip {RL : ResponseLaws (Name := Name) rfr strip} is_dnssec wire_len
    cfg identity ds w s request t (Hvalid : validate cfg = None) :
  let a := (handle rfr strip is_dnssec wire_len (handler_config cfg identity) ds w s request t).1 in
  512 <= an_max_size a <= 65535 ∧
  (t = ClientUdp ->
   match edns request with
   | None => an_max_size a = 512
   | Some e => an_max_size a <= 4096 ∧ an_max_size a <= Z.max 512 (e_max_payload e)
   end).
Proof.
  destruct (validated_sections cfg Hvalid) as (Hs & _). apply server_sizes in Hs as (Hu & Hn & Ht).
  cbn zeta.
  destruct (handle_proper rfr strip is_dnssec wire_len (handler_config cfg identity) ds w s request t)
    as [(_ & -> & _) _].
  unfold max_response_size. cbn [hc_resolver handler_config cf_udp cf_tcp resolver_config].
  destruct t; [|split; [lia|done]].
  destruct (edns request) as [e|]; [|rewrite Hn; lia].
  unfold clampZ. repeat case_match; lia.
Qed.

Lemma failure_settings cfg :
  validate_cache_and_ttl cfg = None ->
  from_secs 1 <= cache_failure_min_ttl (cache cfg) <= cache_failure_max_ttl (cache cfg) ∧
  cache_failure_max_ttl (cache cfg) <= FAILURE_MAX_TTL_CEILING.
Proof.
  intros H. unfold validate_cache_and_ttl in H.
  assert ((as_secs (cache_failure_min_ttl (cache cfg)) <? 1) = false) as H1 by passed H 6%nat.
  assert ((FAILURE_MAX_TTL_CEILING <? cache_failure_max_ttl (cache cfg)) = false) as H2
    by passed H 7%nat.
  assert ((cache_failure_max_ttl (cache cfg) <? cache_failure_min_ttl (cache cfg)) = false) as H3
    by passed H 8%nat.
  rewrite Z.ltb_ge in *. split; [split|]; [|done|done].
  unfold as_secs, from_secs, nanos_per_sec in *. Z.to_euclidean_division_equations. lia.
Qed.

(** RFC 9520 holds for every validated configuration: a failed resolution is
    remembered for at least one second and at most five minutes, however often the
    name has failed, and the store that remembers it keeps it at least that long. *)
Theorem validated_failures_bounded cfg streak (Hvalid : validate cfg = None) (Hs : 0 <= streak) :
  from_secs 1 <= failure_ttl (cf_cache (resolver_config cfg)) streak <= from_secs 300 ∧
  failure_ttl (cf_cache (resolver_config cfg)) streak < FAILURE_MAX_TTL_CEILING + from_secs 1.
Proof.
  destruct (validated_sections cfg Hvalid) as (_ & Hc & _).
  apply failure_settings in Hc as ((H1 & H2) & H3). unfold failure_ttl. cbn [cf_cache resolver_config].
  assert (1 <= 2 ^ Z.min streak 6) by (apply (Z.pow_le_mono_r 2 0); lia).
  assert (cache_failure_min_ttl (cache cfg) <= cache_failure_min_ttl (cache cfg) * 2 ^ Z.min streak 6)
    by (unfold from_secs, nanos_per_sec in *; nia).
  change FAILURE_MAX_TTL_CEILING with (from_secs 300) in *.
  unfold from_secs, nanos_per_sec in *. lia.
Qed.

(** ** Routing *)

Lemma group_for_rule rules name g :
  Snapshot.group_for (Snapshot.build_suffix_rules rules) name = Some g ->
  ∃ r, r ∈ rules ∧ Snapshot.sr_group r = g.
Proof.
  unfold Snapshot.group_for, Snapshot.build_suffix_rules. cbn zeta.
  destruct (find_first _ _) as [e|] eqn:E; [|done]. intros [= <-].
  apply find_first_Some in E as [He _]. apply stable_sort_elem_of in He.
  apply list_elem_of_fmap in He as (r & -> & Hr). by exists r.
Qed.

(** A server of a validated tree passed the checks of a server. *)
Lemma validated_server cfg g sv :
  validate_upstream cfg = None -> g ∈ groups (upstream cfg) -> sv ∈ ug_servers g ->
  ∃ gi si, validate_upstream_server (ug_servers g) gi si sv = None.
Proof.
  intros Hu [gi Hg]%list_elem_of_lookup_1 [si Hsv]%list_elem_of_lookup_1. exists gi, si.
  unfold validate_upstream in Hu.
  assert (each (validate_group (groups (upstream cfg)) (foreground_budget (server cfg)))
    (groups (upstream cfg)) = None) as He by passed Hu 1%nat.
  pose proof (each_none _ _ _ _ He Hg) as Hv. unfold validate_group in Hv.
  assert (each (validate_upstream_server (ug_servers g) gi) (ug_servers g) = None) as Hs
    by passed Hv 3%nat.
  exact (each_none _ _ _ _ Hs Hsv).
Qed.

(** An encrypted server has a name to authenticate. *)
Lemma validated_identity servers gi si sv :
  validate_upstream_server servers gi si sv = None -> is_encrypted (us_transport sv) = true ->
  ∃ name, us_server_name sv = Some name ∧ blank name = false ∧ parse_ip name = None.
Proof.
  intros Hc He. unfold validate_upstream_server in Hc.
  assert (is_encrypted (us_transport sv) &&
    match us_server_name sv with
    | None => true
    | Some name => blank name || bool_decide (is_Some (parse_ip name))
    end = false) as Hn by passed Hc 4%nat.
  rewrite He in Hn. destruct (us_server_name sv) as [name|]; [|done]. exists name.
  apply orb_false_iff in Hn as [Hb Hp%bool_decide_eq_false]. split_and!; [done..|].
  by apply eq_None_not_Some.
Qed.

Lemma validated_group cfg g :
  validate_upstream cfg = None -> g ∈ groups (upstream cfg) ->
  ∃ sv, sv ∈ ug_servers g ∧ us_enabled sv = true ∧
    (us_addresses sv ≠ [] ∨ us_server_name sv ≠ None).
Proof.
  intros H [gi Hg]%list_elem_of_lookup_1. unfold validate_upstream in H.
  assert (each (validate_group (groups (upstream cfg)) (foreground_budget (server cfg)))
    (groups (upstream cfg)) = None) as He by passed H 1%nat.
  pose proof (each_none _ _ _ _ He Hg) as Hv. unfold validate_group in Hv.
  assert (negb (existsb us_enabled (ug_servers g)) = false) as Hen by passed Hv 2%nat.
  assert (each (validate_upstream_server (ug_servers g) gi) (ug_servers g) = None) as Hs
    by passed Hv 3%nat.
  apply negb_false_iff, existsb_exists in Hen as (sv & Hin & Hon).
  apply list_elem_of_In in Hin. exists sv. split_and!; [done..|].
  apply list_elem_of_lookup_1 in Hin as [si Hsi].
  pose proof (each_none _ _ _ _ Hs Hsi) as Hsv. unfold validate_upstream_server in Hsv.
  assert (no_items (us_addresses sv) && bool_decide (us_server_name sv = None) = false) as Ha
    by passed Hsv 2%nat.
  destruct (us_addresses sv); [right|by left]. cbn in Ha. by apply bool_decide_eq_false in Ha.
Qed.

Lemma default_group_exists cfg :
  validate_upstream cfg = None -> ∃ g, g ∈ groups (upstream cfg) ∧ ug_name g = default_group (upstream cfg).
Proof.
  intros H. unfold validate_upstream in H.
  assert (negb (bool_decide (default_group (upstream cfg) ∈ map ug_name (groups (upstream cfg)))) = false)
    as Hd by passed H 2%nat.
  apply negb_false_iff, bool_decide_eq_true, list_elem_of_fmap in Hd as (g & Hn & Hg). by exists g.
Qed.

Lemma suffix_group_exists cfg r :
  validate_local cfg = None -> r ∈ Snapshot.lc_suffix_rules (local cfg) ->
  ∃ g, g ∈ groups (upstream cfg) ∧ ug_name g = Snapshot.sr_group r.
Proof.
  intros H [i Hr]%list_elem_of_lookup_1. unfold validate_local in H.
  match type of H with first_violation (each ?f ?l :: _) = None =>
    assert (each f l = None) as He by passed H 0%nat end.
  pose proof (each_none _ _ _ _ He Hr) as Hv. cbn beta in Hv.
  assert (negb (bool_decide (Snapshot.sr_group r ∈ map ug_name (groups (upstream cfg)))) = false) as Hd
    by passed Hv 1%nat.
  apply negb_false_iff, bool_decide_eq_true, list_elem_of_fmap in Hd as (g & Hn & Hg). by exists g.
Qed.

(** With a validated configuration no query is sent to a group that does not
    exist: the group a request is keyed under, by the default or by a suffix rule,
    is one of the configured groups, and it has an enabled server with an address
    or a name to bootstrap from. *)
Theorem validated_routes_exist {Name} {NLib : NameLib Name} cfg identity
    (ds : Snapshot.DatasetSnapshot Name) request q (Hvalid : validate cfg = None)
    (Hrules : Snapshot.ds_suffix_rules ds
              = Snapshot.build_suffix_rules (Snapshot.lc_suffix_rules (local cfg))) :
  ∃ g sv, g ∈ groups (upstream cfg) ∧
    ug_name g = view_group (key_view (key_of (handler_config cfg identity) ds request q)) ∧
    sv ∈ ug_servers g ∧ us_enabled sv = true ∧
    (us_addresses sv ≠ [] ∨ us_server_name sv ≠ None).
Proof.
  destruct (validated_sections cfg Hvalid) as (_ & _ & Hu & _ & _ & _ & _ & Hl & _).
  assert (∃ g, g ∈ groups (upstream cfg) ∧
    ug_name g = view_group (key_view (key_of (handler_config cfg identity) ds request q)))
    as (g & Hg & Hname).
  { unfold key_of, request_key, cache_key. cbn [key_view view_group]. rewrite Hrules.
    destruct (Snapshot.group_for _ _) as [n|] eqn:Eg; cbn [default].
    - apply group_for_rule in Eg as (r & Hr & <-). by apply suffix_group_exists.
    - by apply default_group_exists. }
  destruct (validated_group cfg g Hu Hg) as (sv & Hsv & Hon & Haddr). by exists g, sv.
Qed.

(** ** Exposure *)

Context {NLaws : IpNetLaws}.

Lemma loopback_contains n a :
  n ∈ loopback_networks -> Acl.contains n a = true -> is_loopback a = true.
Proof.
  intros Hn Hc. unfold loopback_networks in Hn. rewrite !elem_of_cons in Hn.
  apply Acl.contains_covers in Hc.
  2:{ destruct Hn as [->|[->|Hn]]; cbn; [lia|lia|]. by apply elem_of_nil in Hn. }
  destruct Hn as [->|[->|Hn]]; [..|by apply elem_of_nil in Hn]; destruct a as [a|a]; try done; unfold Acl.covers, leading in Hc.
  - apply Z.eqb_eq. exact Hc.
  - apply Z.eqb_eq. change (a `div` 1 = 1) in Hc. by rewrite Z.div_1_r in Hc.
Qed.

(** C33. Leaving out the list of client networks never makes an open resolver: in a
    validated configuration without one every listener is on loopback, and a
    client the access list admits has a loopback address, also when it arrives
    mapped over a dual-stack socket. *)
Theorem validated_not_open cfg (Hvalid : validate cfg = None) (Hnone : allow_from (server cfg) = None) :
  (∀ a, a ∈ udp_listen (server cfg) ++ tcp_listen (server cfg) -> is_loopback a.1 = true) ∧
  (∀ client, Acl.permits (acl_of cfg) client = true -> is_loopback (Acl.normalise client) = true).
Proof.
  destruct (validated_sections cfg Hvalid) as (Hs & _). unfold validate_server in Hs. split.
  - assert (match allow_from (server cfg) with None => exposed (server cfg) | Some _ => false end
      = false) as He by passed Hs 16%nat.
    rewrite Hnone in He. intros a Ha. destruct (is_loopback a.1) eqn:E; [done|].
    enough (exposed (server cfg) = true) by congruence. apply existsb_exists. exists a. rewrite E.
    split; [by apply list_elem_of_In|done].
  - intros client Hp. apply Acl.permits_iff in Hp as ((n & Hn & Hc) & _).
    unfold acl_of, effective_allow_from in Hn. rewrite Hnone in Hn. by eapply loopback_contains.
Qed.

(** ** The AD bit of an upstream *)

(** An upstream's AD bit is believed only where it means something: in a validated
    configuration every server whose AD bit is trusted is reached over an
    authenticated transport under a TLS name that is not an address, and trust in
    upstream AD bits excludes validating here. *)
Theorem validated_ad_trust cfg (Hvalid : validate cfg = None) :
  (∀ g sv, g ∈ groups (upstream cfg) -> sv ∈ ug_servers g -> us_trust_ad sv = true ->
     is_encrypted (us_transport sv) = true ∧
     ∃ name, us_server_name sv = Some name ∧ blank name = false ∧ parse_ip name = None) ∧
  (trust_upstream_ad (dnssec cfg) = true -> dnssec_mode (dnssec cfg) = ModeOff).
Proof.
  destruct (validated_sections cfg Hvalid) as (_ & _ & Hu & Hd & _). split.
  - intros g sv Hg Hsv Htrust. destruct (validated_server _ _ _ Hu Hg Hsv) as (gi & si & Hc).
    pose proof (validated_identity _ _ _ _ Hc) as Hid. unfold validate_upstream_server in Hc.
    assert (us_trust_ad sv && negb (is_encrypted (us_transport sv)) = false) as Ht by passed Hc 6%nat.
    rewrite Htrust in Ht. apply negb_false_iff in Ht. split; [done|by apply Hid].
  - intros Htrust. unfold validate_dnssec in Hd.
    assert (trust_upstream_ad (dnssec cfg) && validates (dnssec_mode (dnssec cfg)) = false) as Hm
      by passed Hd 1%nat.
    rewrite Htrust in Hm. by destruct (dnssec_mode (dnssec cfg)).
Qed.

End validated.

(** ** Concrete configurations *)

Section witnesses.
#[local] Existing Instance ipnet_reference.
#[local] Existing Instance ipnet_reference_laws.
#[local] Existing Instance text_names.
#[local] Existing Instance moka_assoc.
#[local] Existing Instance opt_list.
#[local] Existing Instance plain_codes.
#[local] Existing Instance response_floats.
#[local] Existing Instance reference_response.
#[local] Existing Instance some_order.
#[local] Existing Instance some_power.

(** One encrypted resolver and one plain one. *)
Definition one_group : UpstreamConfig :=
  mk_UpstreamConfig (lit "default")
    [mk_UpstreamGroupConfig (lit "default")
       [mk_UpstreamServerConfig (lit "quad9") Authority Dot [V4 (ipv4 9 9 9 9)] None
          (Some (lit "dns.quad9.net")) None None 100 true None false None;
        mk_UpstreamServerConfig (lit "office") Authority Udp [V4 (ipv4 10 0 0 53)] None None None None
          100 true None false None] default_SchedulerConfig] default_UpstreamTlsConfig.

(** The defaults with [one_group], except for what is given. *)
Definition config_with (r : RankingConfig) (e : EcsConfig) (rules : list Snapshot.SuffixRule) : Config :=
  mk_Config [] None [] default_ServerConfig default_CacheConfig default_TtlConfig r
    default_ServeStaleConfig default_PrefetchConfig default_UpstreamTlsConfig [] one_group
    default_DnssecConfig None e default_ProbeConfig [] default_NetworkConfig default_CloudflareConfig
    default_DatasetsConfig (Snapshot.mk_LocalConfig [] [] rules 60) default_StorageConfig
    default_MetricsConfig default_LoggingConfig default_AdminConfig default_ResourceConfig.

Definition no_ecs : EcsConfig := mk_EcsConfig EcsDisabled (mk_EcsScope None None).

Definition plain : Config := config_with default_RankingConfig no_ecs [].

Lemma plain_valid : validate plain = None.
Proof. vm_compute. reflexivity. Qed.

(** Only the address of an egress prefix is classified, and a prefix may be
    shorter than the special-use block beside it: 11.0.0.0/7 is accepted and covers
    the private 10.0.0.0/8, although a private prefix must never be sent. *)
Definition wide_egress : EcsConfig :=
  mk_EcsConfig EcsFixedEgress (mk_EcsScope (Some (mk_Ipv4Net (ipv4 11 0 0 0) 7)) None).

Theorem egress_may_cover_private_space :
  validate (config_with default_RankingConfig wide_egress []) = None ∧
  net4_contains (mk_Ipv4Net (ipv4 11 0 0 0) 7) (ipv4 10 1 2 3) = true ∧
  IpClass.classify (V4 (ipv4 10 1 2 3)) = Some IpClass.Private.
Proof. split_and!; vm_compute; reflexivity. Qed.

(** A NaN cost and a NaN failure base pass the comparisons meant to refuse
    everything that is not positive, or at least 1. *)
Theorem nan_settings_accepted :
  let r := {| ranking_enabled := true; neutral_cost_ms := S754_nan;
              failure_penalty_ms := failure_penalty_ms default_RankingConfig;
              tail_weight := tail_weight default_RankingConfig;
              jitter_weight := jitter_weight default_RankingConfig;
              uncertainty_penalty_ms := uncertainty_penalty_ms default_RankingConfig;
              stale_sample_penalty_ms := stale_sample_penalty_ms default_RankingConfig;
              sample_max_age := sample_max_age default_RankingConfig;
              evidence_half_life := evidence_half_life default_RankingConfig;
              hysteresis := hysteresis default_RankingConfig;
              min_successes_to_lead := min_successes_to_lead default_RankingConfig;
              exploration_rate := exploration_rate default_RankingConfig;
              consecutive_failure_base := S754_nan |} in
  validate (config_with r no_ecs []) = None ∧ f64_ltb f64_zero (neutral_cost_ms r) = false.
Proof. split; vm_compute; reflexivity. Qed.

(** A rule for the root is accepted and routes nothing but the root itself. *)
Theorem root_suffix_rule_routes_nothing :
  let rules := [Snapshot.mk_SuffixRule (lit ".") (lit "default")] in
  validate (config_with default_RankingConfig no_ecs rules) = None ∧
  Snapshot.group_for (Snapshot.build_suffix_rules rules) (lit "www.example.com.") = None ∧
  Snapshot.group_for (Snapshot.build_suffix_rules rules) (lit ".") = Some (lit "default").
Proof. split_and!; vm_compute; reflexivity. Qed.

Lemma validated_failures_bounded_witness :
  from_secs 1 <= failure_ttl (cf_cache (resolver_config plain)) 4 <= from_secs 300.
Proof. exact (proj1 (validated_failures_bounded plain 4 plain_valid ltac:(lia))). Defined.

Lemma validated_not_open_witness :
  is_loopback (Acl.normalise (V6 (to_ipv6_mapped (ipv4 127 0 0 1)))) = true.
Proof.
  refine (proj2 (validated_not_open plain plain_valid eq_refl)
    (V6 (to_ipv6_mapped (ipv4 127 0 0 1))) _).
  vm_compute. reflexivity.
Defined.

Lemma validated_ad_trust_witness :
  trust_upstream_ad (dnssec plain) = true -> dnssec_mode (dnssec plain) = ModeOff.
Proof. exact (proj2 (validated_ad_trust plain plain_valid)). Defined.

Lemma validated_routes_exist_witness :
  ∃ g sv, g ∈ groups (upstream plain) ∧ ug_name g = lit "default" ∧ sv ∈ ug_servers g ∧
    us_enabled sv = true.
Proof.
  destruct (validated_routes_exist plain None Snapshot.empty web_request web_query plain_valid eq_refl)
    as (g & sv & Hg & Hn & Hsv & Hon & _).
  exists g, sv. split_and!; [exact Hg|exact Hn|exact Hsv|exact Hon].
Defined.

Lemma validated_answers_fit_witness :
  an_max_size (handle reply_header drop_signatures signature_only (λ _, None)
    (handler_config plain None) lan_data (leading answering (from_secs 10)) fresh_state web_request
    ClientUdp).1 = 512.
Proof.
  exact (proj2 (validated_answers_fit reply_header drop_signatures signature_only (λ _, None) plain None
    lan_data (leading answering (from_secs 10)) fresh_state web_request ClientUdp plain_valid) eq_refl).
Defined.

End witnesses.
