(* ===== verification/Endpoints.v ===== *)
(** * Where to ask

    [src/config/endpoint.rs]: an entry of [upstreams], an address or a URI, and the
    server definitions it stands for.  [src/config/auto.rs] and
    [src/config/autoprobe.rs]: what [auto] becomes on a host, and whether its gateway
    may be used.  [expand_auto] of [src/bin/egressdnsd.rs] puts the two together.

    URLs are parsed by [Urls]; what the probes of the gateway and of the region
    observed is an input. *)

From Stdlib Require Import Ascii String.
From S2P Require Import Prelude.
From S2P Require Import Floats.
From S2P Require Import Names.
From S2P Require Import Net.
From S2P Require Import Text.
From S2P Require Import Config.
From S2P Require Import Dns.
From S2P Require Import Util.
From S2P Require Import Message.
From S2P Require Import EdnsOptions.
From S2P Require Import SpecialUse.
From S2P Require Import Urls.
From S2P Require Import Proxy.
From S2P Require Import Catalog.
From S2P Require Import Datasets.
From S2P Require Import Resolver.
From S2P Require Import ResolverResponse.
From S2P Require Import Validate.

(** ** Entries *)

Inductive EndpointHost : Type := HostAddr (a : IpAddr) | HostName (name : str).

Record Endpoint : Type := mk_Endpoint {
  ep_transport : TransportKind;
  ep_host : EndpointHost;
  ep_port : Z;
  ep_path : option str;
  ep_hints : list IpAddr
}.

(** The messages carry the entry; the errors here say which check refused it. *)
Inductive EndpointError : Type :=
| EeEmpty
| EeNotAnEndpoint
| EeInvalidUri (reason : str)
| EeBadHint (value : str)
| EeBadParameter (key : str)
| EeNoHost
| EePlaintextHttp
| EeScheme (scheme : str)
| EeUnknownProfile
| EeNoIdentity
| EeNoUpstreams.

(** [port] of [std::net]: a colon and a decimal number. *)
Definition read_port : Parser Z := λ s,
  match read_given_char colon s with
  | Some (_, s) => read_number 10 (length s) true u16_max s
  | None => None
  end.

(** [s.parse::<SocketAddr>()].  A scope identifier is read and not kept. *)
Definition parse_socket (s : str) : option SocketAddr :=
  match whole (match read_ipv4_addr s with
               | Some (a, s) => match read_port s with Some (p, s) => Some ((V4 a, p), s) | None => None end
               | None => None
               end) with
  | Some a => Some a
  | None =>
      whole (match read_given_char "["%char s with
             | None => None
             | Some (_, s) =>
                 match read_ipv6_addr s with
                 | None => None
                 | Some (a, s) =>
                     let s := match read_given_char "%"%char s with
                              | None => Some s
                              | Some (_, s) => snd <$> read_number 10 (length s) true u32_max s
                              end in
                     match s ≫= read_given_char "]"%char with
                     | None => None
                     | Some (_, s) =>
                         match read_port s with Some (p, s) => Some ((V6 a, p), s) | None => None end
                     end
                 end
             end)
  end.

(** [s.contains("://")]. *)
Fixpoint contains_str (s pattern : str) : bool :=
  starts_with s pattern || match s with [] => false | _ :: s => contains_str s pattern end.

Definition has_scheme (entry : str) : bool := contains_str entry (lit "://").

(** [s.strip_prefix('[').and_then(|s| s.strip_suffix(']'))]. *)
Definition bracketed (s : str) : option str :=
  match Names.strip_prefix "["%char s with
  | None => None
  | Some s =>
      match Names.strip_prefix "]"%char (rev s) with Some s => Some (rev s) | None => None end
  end.

Definition plain_endpoint (a : IpAddr) (port : Z) : Endpoint :=
  mk_Endpoint Udp (HostAddr a) port None [].

Definition parse_bare (entry : str) : option Endpoint :=
  if has_scheme entry then None
  else
    match parse_ip entry with
    | Some addr => Some (plain_endpoint addr 53)
    | None =>
        match parse_socket entry with
        | Some sock => Some (plain_endpoint sock.1 sock.2)
        | None =>
            match bracketed entry with
            | Some inner =>
                match parse_ip inner with Some addr => Some (plain_endpoint addr 53) | None => None end
            | None => None
            end
        end
    end.

Definition doh_candidates (host : EndpointHost) (port : Z) (path : str) (hints : list IpAddr)
    : list Endpoint :=
  [mk_Endpoint Doh3 host port (Some path) hints; mk_Endpoint Doh2 host port (Some path) hints].

Definition canonical_name (host : str) : str := to_ascii_lowercase (trim_end_matches dot host).

Definition bootstrap_addresses (host : str) : option (list IpAddr) :=
  (λ p, omap parse_ip (pr_addresses p)) <$> provider host.

(** The path of a provider's DoH endpoint. *)
Definition doh_path (p : Provider) : str :=
  match pr_doh p with
  | None => lit "/dns-query"
  | Some url =>
      match split_once (ascii_eqb slash) (trim_start_str (length url) (lit "https://") url) with
      | Some (_, r) => lit "/" ++ r
      | None => lit "/dns-query"
      end
  end.

(** A name that is not a URI: a provider's alias. *)
Definition parse_alias (entry : str) : result EndpointError (list Endpoint) :=
  match provider entry with
  | None => Err EeNotAnEndpoint
  | Some p =>
      let host := default (pr_id p) (alias_endpoint_host entry TDoh) in
      Ok (doh_candidates (HostName host) 443 (doh_path p) [])
  end.

Fixpoint parse_hints (pairs : list (str * str)) : result EndpointError (list IpAddr) :=
  match pairs with
  | [] => Ok []
  | (key, value) :: pairs =>
      if str_eqb key (lit "addr") then
        match parse_ip value with
        | None => Err (EeBadHint value)
        | Some a => match parse_hints pairs with Ok l => Ok (a :: l) | Err e => Err e end
        end
      else Err (EeBadParameter key)
  end.

Definition endpoint_transport (scheme : str) : EndpointTransport :=
  if str_eqb scheme (lit "tls") then TDot
  else if str_eqb scheme (lit "quic") then TDoq
  else TDoh.

Definition endpoint_host (host_str scheme : str) : EndpointHost :=
  match parse_ip host_str with
  | Some addr => HostAddr addr
  | None =>
      if is_bare_alias host_str
      then HostName (default host_str (alias_endpoint_host host_str (endpoint_transport scheme)))
      else HostName (canonical_name host_str)
  end.

Section parse.
Context {UL : UrlLib}.

Definition parse_uri (entry : str) : result EndpointError (list Endpoint) :=
  match url_parse entry with
  | Err reason => Err (EeInvalidUri reason)
  | Ok url =>
      match parse_hints (u_query_pairs url) with
      | Err e => Err e
      | Ok hints =>
          match u_host url with
          | None => Err EeNoHost
          | Some host_str =>
              let scheme := u_scheme url in
              let host := endpoint_host (unbracket host_str) scheme in
              let one t port := Ok [mk_Endpoint t host (default port (u_port url)) None hints] in
              if str_eqb scheme (lit "https") then
                let path := if is_empty (u_path url) || str_eqb (u_path url) (lit "/")
                            then lit "/dns-query" else u_path url in
                Ok (doh_candidates host (default 443 (u_port url)) path hints)
              else if str_eqb scheme (lit "tls") then one Dot 853
              else if str_eqb scheme (lit "quic") then one Doq 853
              else if str_eqb scheme (lit "udp") || str_eqb scheme (lit "dns") then one Udp 53
              else if str_eqb scheme (lit "tcp") then one Tcp 53
              else if str_eqb scheme (lit "http") then Err EePlaintextHttp
              else Err (EeScheme scheme)
          end
      end
  end.

Definition parse_endpoint (entry : str) : result EndpointError (list Endpoint) :=
  let entry := trim entry in
  if is_empty entry then Err EeEmpty
  else
    match parse_bare entry with
    | Some endpoint => Ok [endpoint]
    | None => if has_scheme entry then parse_uri entry else parse_alias entry
    end.

End parse.

(** ** The gateway and [auto] *)

Inductive GatewayRejection : Set := NoGateway | NotAResolver | IsOurself | ForwardsToUs.

Inductive GatewayProbe : Type :=
| GatewayUsable (addr : IpAddr) (udp tcp : bool)
| GatewayRejected (why : GatewayRejection).

Definition gateway_address (g : GatewayProbe) : option IpAddr :=
  match g with GatewayUsable addr _ _ => Some addr | GatewayRejected _ => None end.

Definition rejection_reason (w : GatewayRejection) : str :=
  match w with
  | NoGateway => lit "no default route was detected"
  | NotAResolver => lit "the gateway did not answer DNS over UDP or TCP"
  | IsOurself => lit "the gateway address is one of this resolver's own listeners"
  | ForwardsToUs => lit "the gateway forwards DNS back to this resolver, which would loop"
  end.

(** [IpAddr::is_unspecified]. *)
Definition is_unspecified (a : IpAddr) : bool := match a with V4 v => v =? 0 | V6 v => v =? 0 end.

(** [local] are the addresses of the host's interfaces. *)
Definition is_local_address (local : list IpAddr) (addr : IpAddr) : bool :=
  if is_loopback addr then true else bool_decide (addr ∈ local).

Definition judge_gateway (local : list IpAddr) (gateway : option IpAddr) (listeners : list SocketAddr)
    (udp_answered tcp_answered loop_detected : bool) : GatewayProbe :=
  match gateway with
  | None => GatewayRejected NoGateway
  | Some addr =>
      if existsb (λ l, bool_decide (l.1 = addr) || (is_unspecified l.1 && is_local_address local addr))
           listeners
      then GatewayRejected IsOurself
      else if loop_detected then GatewayRejected ForwardsToUs
      else if negb udp_answered && negb tcp_answered then GatewayRejected NotAResolver
      else GatewayUsable addr udp_answered tcp_answered
  end.

(** [format!("{instance:016x}")]. *)
Definition hex16 (z : Z) : str :=
  map (λ i, hex_digit (Z.land (Z.shiftr z (4 * (15 - i))) 15)) (seqZ 0 16).

Definition loop_marker (instance : Z) : str := hex16 instance ++ lit "." ++ LOOP_MARKER_SUFFIX.

(** The next hop of a line of [ip route show default]. *)
Fixpoint via_field (fields : list str) : option IpAddr :=
  match fields with
  | f :: rest =>
      if str_eqb f (lit "via") then
        match rest with
        | [] => None
        | addr :: more =>
            match parse_ip (hd addr (split_on "%"%char addr)) with
            | Some ip => Some ip
            | None => via_field more
            end
        end
      else via_field rest
  | [] => None
  end.

Definition parse_gateway (text : str) : option IpAddr :=
  fold_right (λ line found, match via_field (split_whitespace line) with Some a => Some a | None => found end)
    None (lines text).

(** [v4] and [v6] are what the command printed, if it ran. *)
Definition default_gateway (v4 v6 : option str) : option IpAddr :=
  match v4 with
  | None => None
  | Some text =>
      match parse_gateway text with
      | Some a => Some a
      | None => match v6 with Some text => parse_gateway text | None => None end
      end
  end.

(** What asking the gateway gave: an answer over each transport, and the answer to the
    loop marker. *)
Definition probe_gateway {Name} (local : list IpAddr) (gateway : option IpAddr)
    (listeners : list SocketAddr) (udp tcp marker : option (Message Name)) : GatewayProbe :=
  match gateway with
  | None => judge_gateway local None listeners false false false
  | Some addr =>
      let looped := match marker with
                    | Some msg => negb (no_items (answers msg))
                                  && rcode_eqb (m_response_code (metadata msg)) NoError
                    | None => false
                    end in
      judge_gateway local (Some addr) listeners (bool_decide (is_Some udp)) (bool_decide (is_Some tcp))
        looped
  end.

Inductive Region : Set := China | Global.

(** The times of the two regional resolvers, where they answered. *)
Definition detect_region (cn gl : option Duration) : Region :=
  match cn, gl with
  | Some a, Some b => if a <? b then China else Global
  | Some _, None => China
  | _, _ => Global
  end.

Definition china_endpoints : list str :=
  [lit "223.5.5.5"; lit "223.6.6.6"; lit "119.29.29.29";
   lit "https://dns.alidns.com/dns-query?addr=223.5.5.5&addr=223.6.6.6";
   lit "https://doh.pub/dns-query?addr=1.12.12.21&addr=120.53.53.53";
   lit "https://cloudflare-dns.com/dns-query?addr=1.1.1.1&addr=1.0.0.1"].

Definition global_endpoints : list str :=
  [lit "1.1.1.1"; lit "8.8.8.8"; lit "9.9.9.10";
   lit "https://cloudflare-dns.com/dns-query?addr=1.1.1.1&addr=1.0.0.1";
   lit "https://dns.google/dns-query?addr=8.8.8.8&addr=8.8.4.4";
   lit "https://dns10.quad9.net/dns-query?addr=9.9.9.10&addr=149.112.112.10"].

Definition auto_expand (gateway : GatewayProbe) (region : Region) : list str :=
  match gateway_address gateway with Some addr => [print_ip addr] | None => [] end
  ++ match region with China => china_endpoints | Global => global_endpoints end.

Definition role_of (entry : str) (gateway : GatewayProbe) : ResolverRole :=
  match gateway_address gateway with
  | Some addr => if str_eqb entry (print_ip addr) then LocalForwarder else Authority
  | None => Authority
  end.

(** ** Server definitions *)

Definition transport_label (t : TransportKind) : str :=
  match t with
  | Udp => lit "udp" | Tcp => lit "tcp" | Dot => lit "dot"
  | Doh2 => lit "doh2" | Doh3 => lit "doh3" | Doq => lit "doq"
  end.

(** [strip_prefix("builtin:")]. *)
Definition builtin_profile (entry : str) : option str :=
  if starts_with entry (lit "builtin:") then Some (drop 8 entry) else None.

(** One entry after the expansion of [auto] and of profiles. *)
Definition expand_entry (entry : str) : result EndpointError (list str) :=
  if str_eqb (trim entry) (lit "auto") then Ok (auto_expand (GatewayRejected NoGateway) Global)
  else
    match builtin_profile (trim entry) with
    | Some profile =>
        match expand_profile profile with Some uris => Ok uris | None => Err EeUnknownProfile end
    | None => Ok [entry]
    end.

Fixpoint expand_entries (entries : list str) : result EndpointError (list str) :=
  match entries with
  | [] => Ok []
  | entry :: entries =>
      match expand_entry entry with
      | Err e => Err e
      | Ok l => match expand_entries entries with Ok more => Ok (l ++ more) | Err e => Err e end
      end
  end.

(** A position in the list, in decimal. *)
Definition show_index (i : nat) : str := digits_of (S i) (Z.of_nat i).

Definition server_name_of (index : nat) (t : TransportKind) : str :=
  lit "u" ++ show_index index ++ lit "-" ++ transport_label t.

Definition server_of (index : nat) (c : Endpoint) : result EndpointError UpstreamServerConfig :=
  let mk addresses name :=
    mk_UpstreamServerConfig (server_name_of index (ep_transport c)) Authority (ep_transport c) addresses
      (Some (ep_port c)) name (ep_path c) None 100 true None false None in
  match ep_host c with
  | HostAddr addr => if is_encrypted (ep_transport c) then Err EeNoIdentity else Ok (mk [addr] None)
  | HostName name =>
      let addresses := match ep_hints c with
                       | [] => default [] (bootstrap_addresses name)
                       | hints => hints
                       end in
      Ok (mk addresses (Some name))
  end.

Fixpoint servers_of (index : nat) (candidates : list Endpoint)
    : result EndpointError (list UpstreamServerConfig) :=
  match candidates with
  | [] => Ok []
  | c :: cs =>
      match server_of index c with
      | Err e => Err e
      | Ok sv => match servers_of index cs with Ok more => Ok (sv :: more) | Err e => Err e end
      end
  end.

Section desugar.
Context {UL : UrlLib}.

Fixpoint desugar_from (index : nat) (entries : list str)
    : result EndpointError (list UpstreamServerConfig) :=
  match entries with
  | [] => Ok []
  | entry :: entries =>
      match parse_endpoint entry with
      | Err e => Err e
      | Ok candidates =>
          match servers_of index candidates with
          | Err e => Err e
          | Ok servers =>
              match desugar_from (S index) entries with
              | Ok more => Ok (servers ++ more)
              | Err e => Err e
              end
          end
      end
  end.

Definition desugar (upstreams : list str) : result EndpointError (list UpstreamServerConfig) :=
  match expand_entries upstreams with
  | Err e => Err e
  | Ok expanded =>
      match desugar_from 0 expanded with
      | Err e => Err e
      | Ok [] => Err EeNoUpstreams
      | Ok servers => Ok servers
      end
  end.

Definition build_upstreams (upstreams : list str) : result EndpointError UpstreamConfig :=
  match desugar upstreams with
  | Err e => Err e
  | Ok servers =>
      Ok (mk_UpstreamConfig (lit "default")
            [mk_UpstreamGroupConfig (lit "default") servers default_SchedulerConfig] default_UpstreamTlsConfig)
  end.

(** ** [auto] on the host *)

Definition mark_forwarder (addr : IpAddr) (sv : UpstreamServerConfig) : UpstreamServerConfig :=
  if bool_decide (addr ∈ us_addresses sv)
  then mk_UpstreamServerConfig (us_name sv) LocalForwarder (us_transport sv) (us_addresses sv)
         (us_port sv) (us_server_name sv) (us_path sv) (us_bind_addr sv) (us_weight sv) (us_enabled sv)
         (us_enable_cookies sv) (us_trust_ad sv) (us_ecs sv)
  else sv.

Definition mark_group (addr : IpAddr) (g : UpstreamGroupConfig) : UpstreamGroupConfig :=
  mk_UpstreamGroupConfig (ug_name g) (map (mark_forwarder addr) (ug_servers g)) (ug_scheduler g).

(** The entries and the route tree of a configuration, and its local forwarder.
    [trust] is its [tls] section. *)
Definition expand_auto (upstreams : list str) (upstream : UpstreamConfig) (forwarder : option IpAddr)
    (trust : UpstreamTlsConfig) (gateway : GatewayProbe) (region : Region)
    : list str * UpstreamConfig * option IpAddr :=
  if negb (existsb (λ u, str_eqb (trim u) (lit "auto")) upstreams) then (upstreams, upstream, forwarder)
  else
    let expanded := auto_expand gateway region in
    let out := flat_map (λ u, if str_eqb (trim u) (lit "auto") then expanded else [u]) upstreams in
    match build_upstreams out with
    | Err _ => (out, upstream, gateway_address gateway)
    | Ok tree =>
        let marked := match gateway_address gateway with
                      | Some addr => map (mark_group addr) (groups tree)
                      | None => groups tree
                      end in
        (out, mk_UpstreamConfig (default_group tree) marked trust, gateway_address gateway)
    end.

End desugar.

(** ** The entries that parse *)

Definition is_doh (t : TransportKind) : bool := match t with Doh2 | Doh3 => true | _ => false end.

(** The path is there for DoH and only there, and is absolute. *)
Definition path_ok (t : TransportKind) (path : option str) : Prop :=
  match path with
  | Some p => is_doh t = true ∧ starts_with p (lit "/") = true
  | None => is_doh t = false
  end.

Lemma doh_candidates_ok host port path hints :
  starts_with path (lit "/") = true ->
  Forall (λ c, path_ok (ep_transport c) (ep_path c)) (doh_candidates host port path hints).
Proof. intros Hp. repeat constructor; done. Qed.

Lemma doh_path_absolute p : starts_with (doh_path p) (lit "/") = true.
Proof. unfold doh_path. by destruct (pr_doh p); [case_match; [case_match|]|]. Qed.

(** What an entry parses to: at most one candidate of a transport. *)
Definition candidates_ok (cs : list Endpoint) : Prop :=
  cs ≠ [] ∧ NoDup (map ep_transport cs) ∧ Forall (λ c, path_ok (ep_transport c) (ep_path c)) cs.

Lemma one_candidate_ok t host port hints :
  is_doh t = false -> candidates_ok [mk_Endpoint t host port None hints].
Proof. intros Ht. split_and!; [done|apply NoDup_singleton|by repeat constructor]. Qed.

Lemma two_candidates_ok host port path hints :
  starts_with path (lit "/") = true -> candidates_ok (doh_candidates host port path hints).
Proof.
  intros Hp. split_and!; [done| |by apply doh_candidates_ok].
  cbn. apply NoDup_cons_2; [|apply NoDup_singleton]. by rewrite list_elem_of_singleton.
Qed.

Section parsed.
Context {UL : UrlLib} {ULaws : UrlLaws}.

Lemma parse_uri_ok entry cs : parse_uri entry = Ok cs -> candidates_ok cs.
Proof.
  unfold parse_uri. destruct (url_parse entry) as [url|e] eqn:Hu; [|done].
  destruct (parse_hints _) as [hints|e]; [|done]. destruct (u_host url) as [host|]; [|done].
  cbn zeta. destruct (str_eqb (u_scheme url) (lit "https")) eqn:Hs.
  - intros [= <-]. apply two_candidates_ok. destruct (is_empty _ || _); [done|].
    apply (url_path_of_web entry); [done|]. apply str_eqb_eq in Hs as ->. by eexists.
  - repeat case_match; intros [= <-]; by apply one_candidate_ok.
Qed.

Lemma parse_endpoint_ok entry cs : parse_endpoint entry = Ok cs -> candidates_ok cs.
Proof.
  unfold parse_endpoint. cbn zeta. destruct (is_empty _); [done|].
  destruct (parse_bare _) as [c|] eqn:Hb.
  - intros [= <-]. unfold parse_bare in Hb. repeat case_match; simplify_eq; by apply one_candidate_ok.
  - destruct (has_scheme _); [apply parse_uri_ok|]. unfold parse_alias.
    destruct (provider _) as [p|]; [|done]. intros [= <-]. apply two_candidates_ok, doh_path_absolute.
Qed.
End parsed.

(** ** Generated names *)

Definition value_of (ds : str) : Z := fold_left (λ a c, a * 10 + (code c - 48)) ds 0.

Lemma digits_of_value fuel z : 0 <= z < 10 ^ Z.of_nat fuel -> value_of (digits_of fuel z) = z.
Proof.
  revert z. induction fuel as [|fuel IH]; intros z Hz; cbn [digits_of]; [cbn in *; lia|].
  pose proof (Z.mod_pos_bound z 10 ltac:(lia)). unfold value_of. rewrite fold_left_app. cbn [fold_left].
  rewrite code_chr by lia. destruct (Z.ltb_spec z 10).
  - cbn. rewrite Z.mod_small; lia.
  - rewrite Nat2Z.inj_succ, Z.pow_succ_r in Hz by lia.
    assert (value_of (digits_of fuel (z / 10)) = z / 10) as Hv.
    { apply IH. split; [apply Z.div_pos; lia|]. apply Z.div_lt_upper_bound; lia. }
    unfold value_of in Hv. rewrite Hv. pose proof (Z.div_mod z 10). lia.
Qed.

Lemma show_index_inj i j : show_index i = show_index j -> i = j.
Proof.
  intros H. apply (f_equal value_of) in H. unfold show_index in H.
  assert (∀ k, value_of (digits_of (S k) (Z.of_nat k)) = Z.of_nat k) as Hv.
  { intros k. apply digits_of_value. split; [lia|].
    transitivity (Z.of_nat (S k)); [lia|]. apply Z.pow_gt_lin_r; lia. }
  rewrite !Hv in H. lia.
Qed.

Lemma server_name_inj i j t u : server_name_of i t = server_name_of j u -> i = j ∧ t = u.
Proof.
  unfold server_name_of. intros H. apply (app_inv_head (lit "u")) in H.
  assert (∀ k t, split_once (ascii_eqb "-"%char) (show_index k ++ lit "-" ++ transport_label t)
    = Some (show_index k, transport_label t)) as Hs.
  { intros k t'. apply split_once_app; [|done]. intros c Hc. apply digits_of_chars in Hc.
    destruct (ascii_eqb _ c) eqn:E; [|done]. apply ascii_eqb_eq in E as <-.
    destruct Hc as [|[Hlo _]]; [done|]. by vm_compute in Hlo. }
  apply (f_equal (split_once (ascii_eqb "-"%char))) in H. rewrite !Hs in H.
  injection H as Hi Ht. apply show_index_inj in Hi. split; [done|]. by destruct t, u.
Qed.

(** ** The servers an operator's list stands for *)

(** What [desugar] decides of a server, whatever the entry was. *)
Record written (s : UpstreamServerConfig) : Prop := {
  written_role : us_role s = Authority;
  written_enabled : us_enabled s = true;
  written_weight : us_weight s = 100;
  written_trust : us_trust_ad s = false;
  written_cookies : us_enable_cookies s = None;
  written_ecs : us_ecs s = None;
  written_name : ∃ i, us_name s = server_name_of i (us_transport s);
  written_addressed : us_addresses s ≠ [] ∨ us_server_name s ≠ None;
  written_identity : is_encrypted (us_transport s) = true -> us_server_name s ≠ None;
  written_path : path_ok (us_transport s) (us_path s)
}.

Lemma server_of_written i c s :
  path_ok (ep_transport c) (ep_path c) -> server_of i c = Ok s ->
  written s ∧ us_name s = server_name_of i (ep_transport c).
Proof.
  unfold server_of. intros Hp. destruct (ep_host c) as [a|name].
  - destruct (is_encrypted (ep_transport c)) eqn:He; [done|]. intros [= <-].
    split; [|done]. split; cbn; try done; [by exists i|by left|congruence].
  - intros [= <-]. split; [|done]. split; cbn; try done; [by exists i|by right].
Qed.

Lemma servers_of_names i cs l :
  Forall (λ c, path_ok (ep_transport c) (ep_path c)) cs -> servers_of i cs = Ok l ->
  Forall written l ∧ map us_name l = map (server_name_of i) (map ep_transport cs).
Proof.
  intros Hcs. revert l. induction Hcs as [|c cs Hc _ IH]; intros l; cbn; [by intros [= <-]|].
  destruct (server_of i c) as [sv|] eqn:Hs; [|done].
  destruct (servers_of i cs) as [more|]; [|done]. intros [= <-].
  destruct (IH more eq_refl) as [Hw Hn]. destruct (server_of_written _ _ _ Hc Hs) as [Hsw Hsn].
  split; [by constructor|]. cbn. by rewrite Hsn, Hn.
Qed.

Section desugared.
Context {UL : UrlLib} {ULaws : UrlLaws}.

Lemma desugar_from_written i entries l :
  desugar_from i entries = Ok l ->
  Forall written l ∧ NoDup (map us_name l) ∧
  ∀ n, n ∈ map us_name l -> ∃ j t, (i <= j)%nat ∧ n = server_name_of j t.
Proof.
  revert i l. induction entries as [|e entries IH]; intros i l; cbn [desugar_from].
  - intros [= <-]. split_and!; [done|constructor|]. intros n Hn. by apply elem_of_nil in Hn.
  - destruct (parse_endpoint e) as [cs|] eqn:Hp; [|done].
    apply parse_endpoint_ok in Hp as (_ & Hnd & Hpath).
    destruct (servers_of i cs) as [sv|] eqn:Hs; [|done].
    destruct (desugar_from (S i) entries) as [more|] eqn:Hm; [|done]. intros [= <-].
    destruct (IH _ _ Hm) as (Hw & Hnm & Hmore).
    apply servers_of_names in Hs as [Hsw Hsn]; [|done].
    assert (∀ n, n ∈ map us_name sv -> ∃ t, n = server_name_of i t) as Hhere.
    { rewrite Hsn. intros n (t & -> & _)%list_elem_of_fmap. by exists t. }
    rewrite map_app. split_and!.
    + by apply Forall_app.
    + apply NoDup_app. split_and!; [|intros n Hn Hn'|done].
      * rewrite Hsn. apply NoDup_fmap_2_strong; [|done].
        intros t u _ _ Htu. by apply server_name_inj in Htu as [_ ?].
      * destruct (Hhere _ Hn) as [t ->]. destruct (Hmore _ Hn') as (j & u & Hj & Heq).
        apply server_name_inj in Heq. lia.
    + intros n [Hn|Hn]%elem_of_app.
      * destruct (Hhere _ Hn) as [t ->]. by exists i, t.
      * destruct (Hmore _ Hn) as (j & u & Hj & ->). exists j, u. split; [lia|done].
Qed.

Lemma desugar_written entries l :
  desugar entries = Ok l -> l ≠ [] ∧ Forall written l ∧ NoDup (map us_name l).
Proof.
  unfold desugar. destruct (expand_entries entries) as [es|]; [|done].
  destruct (desugar_from 0 es) as [[|s l']|] eqn:H; [done| |done]. intros [= <-].
  apply desugar_from_written in H as (Hw & Hn & _). by split_and!.
Qed.
End desugared.

(** ** Validation of a written list *)

Lemma each_all {A} (f : nat -> A -> option Violation) l :
  each f l = None <-> ∀ i x, l !! i = Some x -> f i x = None.
Proof.
  split; [intros H i x; by apply each_none|]. intros H. apply first_violation_none.
  intros v [i Hi]%list_elem_of_lookup_1. rewrite list_lookup_imap in Hi.
  destruct (l !! i) as [x|] eqn:Hx; simplify_eq/=. by apply H.
Qed.

Lemma NoDup_no_repeats {A} `{EqDecision A} (l : list A) i x :
  NoDup l -> l !! i = Some x -> repeats l i x = false.
Proof.
  intros Hn Hx. unfold repeats. apply bool_decide_eq_false. intros [j Hj]%list_elem_of_lookup_1.
  pose proof (lookup_lt_Some _ _ _ Hj) as Hlt. rewrite length_take in Hlt.
  rewrite lookup_take_lt in Hj by lia. pose proof (NoDup_lookup _ _ _ _ Hn Hx Hj). lia.
Qed.

Lemma skip_while_nil p s c : skip_while p s = [] -> c ∈ s -> p c = true.
Proof.
  induction s as [|x s IH]; cbn; [by intros _ ?%elem_of_nil|].
  destruct (p x) eqn:Hx; [|done]. intros H [->|Hc]%elem_of_cons; [done|by apply IH].
Qed.

Lemma blank_false s c : head s = Some c -> is_whitespace c = false -> blank s = false.
Proof.
  destruct s as [|x s]; [done|]. intros [= ->] Hc. unfold blank, trim.
  rewrite (skip_while_id is_whitespace (c :: s)) by by intros d [= <-].
  destruct (skip_while is_whitespace (rev (c :: s))) as [|y l] eqn:E.
  - apply (skip_while_nil _ _ c) in E; [congruence|]. apply list_elem_of_In, in_rev.
    rewrite rev_involutive. by left.
  - cbn. by destruct (rev l).
Qed.

Section admissible.
Context {IPL : IpNetLib}.

(** What the operator decides: an address or a name to look one up under, addresses that an
    upstream may have, and for an encrypted server a name to authenticate.  A server with
    a name only has no address yet, and may turn out to have none. *)
Definition admissible (s : UpstreamServerConfig) : Prop :=
  (us_addresses s = [] -> is_Some (us_server_name s)) ∧
  Forall (λ a, unusable_upstream a = false) (us_addresses s) ∧
  (is_encrypted (us_transport s) = true ->
   ∃ name, us_server_name s = Some name ∧ blank name = false ∧ parse_ip name = None).

Definition admissibleb (s : UpstreamServerConfig) : bool :=
  negb (no_items (us_addresses s) && bool_decide (us_server_name s = None))
  && forallb (λ a, negb (unusable_upstream a)) (us_addresses s)
  && (negb (is_encrypted (us_transport s))
      || match us_server_name s with
         | Some name => negb (blank name) && bool_decide (parse_ip name = None)
         | None => false
         end).

Lemma admissibleb_admissible s : admissibleb s = true -> admissible s.
Proof.
  unfold admissibleb. rewrite !andb_true_iff, forallb_elem. intros [[Hs Ha] Hn]. split_and!.
  - intros Hnil. rewrite Hnil in Hs. by destruct (us_server_name s).
  - apply Forall_forall. intros a Hin. by apply negb_true_iff, Ha.
  - intros He. rewrite He in Hn. cbn in Hn. destruct (us_server_name s) as [name|]; [|done].
    exists name. bool_to_prop. done.
Qed.

Lemma written_server_valid servers gi si s :
  NoDup (map us_name servers) -> servers !! si = Some s -> written s ->
  validate_upstream_server servers gi si s = None <-> admissible s.
Proof.
  intros Hnd Hs [_ _ Hweight Htrust Hcookies _ [i Hname] Haddr Hid Hpath].
  unfold validate_upstream_server, admissible. cbn zeta.
  rewrite (NoDup_no_repeats (map us_name servers) si) by (done || by rewrite list_lookup_fmap, Hs).
  rewrite (blank_false (us_name s) "u"%char) by (rewrite ?Hname; done).
  rewrite Hweight, Htrust, Hcookies.
  assert (no_items (us_addresses s) && bool_decide (us_server_name s = None) = false) as ->.
  { destruct (us_addresses s); [|done]. cbn. apply bool_decide_eq_false. by destruct Haddr. }
  assert ((match us_transport s with
           | Doh2 | Doh3 => negb (starts_with (default (lit "/dns-query") (us_path s)) (lit "/"))
           | _ => bool_decide (is_Some (us_path s))
           end) = false) as ->.
  { unfold path_ok in Hpath. destruct (us_path s) as [p|]; [destruct Hpath as [Hd Hp]|];
      destruct (us_transport s); cbn [default from_option id]; rewrite ?Hp; done || by apply bool_decide_eq_false. }
  split.
  - intros H. split_and!.
    + intros Hnil. rewrite Hnil in Haddr. destruct Haddr as [|Hn]; [done|]. by apply not_eq_None_Some.
    + apply Forall_forall. intros a [k Hk]%list_elem_of_lookup_1.
      pose proof (check_passed _ 3 _ H eq_refl) as Hall.
      by pose proof (refuse_at_none _ _ _ (each_none _ _ k a Hall Hk)).
    + intros He. rewrite He in H. pose proof (refuse_at_none _ _ _ (check_passed _ 4 _ H eq_refl)) as Hn.
      destruct (us_server_name s) as [name|]; [|done].
      exists name. cbn in Hn. apply orb_false_iff in Hn as [Hb Hip%bool_decide_eq_false].
      split_and!; [done..|]. by apply eq_None_not_Some.
  - intros (_ & Ha & He). apply first_violation_none, Forall_forall.
    repeat (apply Forall_cons_2; [try done|]); [| |constructor].
    + apply each_all. intros k a Hk. rewrite Forall_lookup in Ha. by rewrite (Ha k a Hk).
    + destruct (is_encrypted _) eqn:E; [|done]. destruct (He eq_refl) as (name & -> & Hb & Hip).
      by rewrite Hb, Hip.
Qed.
End admissible.

Section built.
Context {IPL : IpNetLib} {UL : UrlLib} {ULaws : UrlLaws}.

(** What validation asks of the [tls] section. *)
Definition tls_ok (t : UpstreamTlsConfig) : Prop :=
  Forall (λ f, is_absolute f = true) (extra_ca_files t) ∧ quic_zero_rtt t = false.

Lemma default_scheduler_valid budget gi :
  validate_scheduler budget gi default_SchedulerConfig = None <->
  query_timeout default_SchedulerConfig <= budget.
Proof.
  rewrite <- Z.ltb_ge. unfold validate_scheduler. cbn zeta.
  destruct (budget <? query_timeout default_SchedulerConfig); [|done]. split; [|done].
  intros H. by pose proof (check_passed _ 4 _ H eq_refl).
Qed.

(** The one group of a tree that was written, and its servers. *)
Lemma written_group_valid budget l :
  l ≠ [] -> Forall written l -> NoDup (map us_name l) ->
  let g := mk_UpstreamGroupConfig (lit "default") l default_SchedulerConfig in
  validate_group [g] budget 0 g = None <->
  query_timeout default_SchedulerConfig <= budget ∧ ∀ s, s ∈ l -> admissible s.
Proof.
  intros Hne Hw Hnd g. rewrite <- (default_scheduler_valid budget 0).
  assert (negb (existsb us_enabled l) = false) as Hen.
  { destruct Hw as [|s l Hs]; [done|]. cbn. by rewrite (written_enabled _ Hs). }
  assert (each (validate_upstream_server l 0) l = None <-> ∀ s, s ∈ l -> admissible s) as <-.
  { rewrite each_all. rewrite Forall_lookup in Hw. split.
    - intros H s [i Hi]%list_elem_of_lookup_1. eapply written_server_valid; [exact Hnd|exact Hi| |by apply H].
      by eapply Hw.
    - intros H i s Hi. apply written_server_valid; [done..|by eapply Hw|]. apply H.
      by eapply list_elem_of_lookup_2. }
  split.
  - intros H. split; [exact (check_passed _ 4 _ H eq_refl)|exact (check_passed _ 3 _ H eq_refl)].
  - intros [Hs Hl]. apply first_violation_none, Forall_forall. cbn [g ug_name ug_servers ug_scheduler].
    rewrite Hen. by repeat apply Forall_cons_2.
Qed.

Lemma tls_section_valid (t : UpstreamTlsConfig) :
  each (λ i f, refuse_at (negb (is_absolute f)) "upstream.tls.extra_ca_files" [i]) (extra_ca_files t) = None ∧
  refuse (quic_zero_rtt t) "upstream.tls.quic_zero_rtt" = None <-> tls_ok t.
Proof.
  rewrite each_all. unfold tls_ok. rewrite Forall_lookup. destruct (quic_zero_rtt t); [naive_solver|].
  split; intros [H _]; (split; [|done]); intros i f Hf; specialize (H i f Hf);
    by destruct (is_absolute f).
Qed.

(** C18. When a list of upstreams has been desugared, and the loader has put the tree it gives
    and the [tls] section into the configuration, validation of the upstreams accepts it
    exactly when the foreground budget is at least the default query timeout, the [tls]
    section is acceptable, and every server is admissible: it has an address or a name, no
    address that an upstream may not have and, when encrypted, a name to authenticate that
    is not itself an address.  Nothing else about a written entry can be refused later,
    the generated names, weights, paths and the scheduler's defaults included. *)
Theorem written_upstreams_validate (cfg : Config) entries tree
    (Hbuild : build_upstreams entries = Ok tree)
    (Hup : upstream cfg = mk_UpstreamConfig (default_group tree) (groups tree) (tls cfg)) :
  validate_upstream cfg = None <->
  query_timeout default_SchedulerConfig <= foreground_budget (server cfg) ∧ tls_ok (tls cfg) ∧
  ∀ g s, g ∈ groups tree -> s ∈ ug_servers g -> admissible s.
Proof.
  unfold build_upstreams in Hbuild. destruct (desugar entries) as [l|] eqn:Hd; [|done].
  injection Hbuild as <-. apply desugar_written in Hd as (Hne & Hw & Hnd).
  pose proof (written_group_valid (foreground_budget (server cfg)) l Hne Hw Hnd) as Hg. cbn zeta in Hg.
  unfold validate_upstream. rewrite Hup, <- tls_section_valid. cbn [groups default_group upstream_tls].
  split.
  - intros H. pose proof (each_none _ _ 0 _ (check_passed _ 1 _ H eq_refl) eq_refl) as Hv.
    apply Hg in Hv as [Hb Hs]. split_and!; [done|exact (check_passed _ 3 _ H eq_refl)|exact (check_passed _ 4 _ H eq_refl)|].
    intros g s ->%list_elem_of_singleton. apply Hs.
  - intros (Hb & [Hf Hz] & Hs). apply first_violation_none, Forall_forall.
    repeat apply Forall_cons_2; [reflexivity| |reflexivity|done..|constructor].
    apply each_all. intros [|i] g Hi; [|done]. injection Hi as <-. apply Hg. split; [done|].
    intros s. apply (Hs (mk_UpstreamGroupConfig (lit "default") l default_SchedulerConfig) s).
    by apply list_elem_of_singleton.
Qed.
End built.

(** ** The gateway *)

Lemma judge_usable local gw listeners udp tcp looped addr u t :
  judge_gateway local gw listeners udp tcp looped = GatewayUsable addr u t <->
  gw = Some addr ∧ u = udp ∧ t = tcp ∧ looped = false ∧ udp || tcp = true ∧
  ∀ l, l ∈ listeners -> l.1 ≠ addr ∧ (is_unspecified l.1 = true -> is_local_address local addr = false).
Proof.
  unfold judge_gateway. destruct gw as [a|]; [|split; [done|by intros [? _]]].
  destruct (existsb _ _) eqn:Hex.
  { split; [done|]. intros ([= ->] & _ & _ & _ & _ & Hl). apply existsb_elem in Hex as (l & Hin & Hb).
    destruct (Hl l Hin) as [Hne Hun]. apply orb_true_iff in Hb as [Hb|Hb]; [by apply bool_decide_eq_true in Hb|].
    apply andb_true_iff in Hb as [Hu Hloc]. by rewrite (Hun Hu) in Hloc. }
  assert (∀ l, l ∈ listeners ->
    l.1 ≠ a ∧ (is_unspecified l.1 = true -> is_local_address local a = false)) as Hl.
  { intros l Hin. rewrite <- not_true_iff_false, existsb_elem in Hex. split.
    - intros Heq. apply Hex. exists l. split; [done|]. by rewrite bool_decide_true.
    - intros Hu. apply not_true_is_false. intros Hloc. apply Hex. exists l. split; [done|].
      rewrite Hu, Hloc. by rewrite orb_true_r. }
  destruct looped; [split; [done|by intros (_ & _ & _ & ? & _)]|].
  destruct udp, tcp; cbn; (split; [intros [=]; subst; by split_and!|]);
    intros ([= <-] & -> & -> & _ & Hb & _); done.
Qed.

Lemma suffix_matches_ends name suffix : suffix_matches name suffix = true -> ends_with name suffix = true.
Proof.
  unfold suffix_matches. destruct (str_eqb name suffix) eqn:E.
  - intros _. apply str_eqb_eq in E as ->. apply ends_with_spec. by exists [].
  - repeat case_match; try done. by intros [? _]%andb_true_iff.
Qed.

(** The name of every probe is one this resolver answers itself. *)
Lemma classify_loop_marker instance :
  SpecialUse.classify (loop_marker instance ++ lit ".") = Some (RegInvalid, LoopMarker).
Proof.
  unfold loop_marker, SpecialUse.classify, to_ascii_lowercase. rewrite !map_app. cbn zeta.
  generalize (map lower_ascii (hex16 instance)) as h. intros h.
  rewrite <- !app_assoc.
  match goal with |- context [h ++ ?t] => set (tail := t) end.
  assert (∀ suffix, ends_with (h ++ tail) suffix = starts_with (rev tail ++ rev h) (rev suffix)) as He.
  { intros suffix. unfold ends_with. by rewrite rev_app_distr. }
  assert (ends_with (h ++ tail) [dot] = true) as -> by by rewrite He.
  destruct (suffix_matches (h ++ tail) (lit "localhost.")) eqn:E.
  { apply suffix_matches_ends in E. rewrite He in E. done. }
  assert (is_loop_marker (h ++ tail) = true) as Hm; [|by rewrite Hm].
  unfold is_loop_marker, trim_end_matches, to_ascii_lowercase, ends_with.
  rewrite rev_app_distr, map_rev, rev_involutive. done.
Qed.

(** ** What [auto] adopts *)

Section auto.
Context {UL : UrlLib}.

Lemma mark_forwarder_role addr s :
  us_role s = Authority ->
  us_role (mark_forwarder addr s) = LocalForwarder <-> addr ∈ us_addresses (mark_forwarder addr s).
Proof.
  intros Hr. unfold mark_forwarder. case_bool_decide; cbn; [done|]. rewrite Hr. by split.
Qed.

Context {ULaws : UrlLaws}.

Lemma built_roles entries tree g s :
  build_upstreams entries = Ok tree -> g ∈ groups tree -> s ∈ ug_servers g -> us_role s = Authority.
Proof.
  unfold build_upstreams. destruct (desugar entries) as [l|] eqn:Hd; [|done]. intros [= <-].
  intros ->%list_elem_of_singleton Hs. apply desugar_written in Hd as (_ & Hw & _).
  rewrite Forall_forall in Hw. by apply written_role, Hw.
Qed.

Lemma probed_address {Name} local gw listeners (udp tcp marker : option (Message Name)) a :
  gateway_address (probe_gateway local gw listeners udp tcp marker) = Some a ->
  gw = Some a ∧ (is_Some udp ∨ is_Some tcp) ∧
  (∀ l, l ∈ listeners -> l.1 ≠ a) ∧
  ∀ msg, marker = Some msg -> answers msg ≠ [] -> m_response_code (metadata msg) ≠ NoError.
Proof.
  intros H. destruct (probe_gateway _ _ _ _ _ _) as [b u t|] eqn:Hp; [|done]. injection H as ->.
  unfold probe_gateway in Hp. destruct gw as [g|]; [|done]. cbn zeta in Hp.
  apply judge_usable in Hp as (Hg & _ & _ & Hloop & Hans & Hl). split_and!; [done| | |].
  - apply orb_true_iff in Hans as [H%bool_decide_eq_true|H%bool_decide_eq_true]; [by left|by right].
  - intros l Hin. by apply Hl.
  - intros msg -> Hne Hc. rewrite Hc in Hloop. by destruct (answers msg).
Qed.

(** When a configuration asks for [auto], the servers treated as the local forwarder are
    exactly those that reach the adopted gateway, so that it is never counted as an
    independent opinion, whichever entries name its address; and the gateway adopted is
    one that answered, that is not this resolver's own address, and that did not answer
    the loop marker. *)
Theorem gateway_is_no_second_opinion {Name} upstreams tree forwarder trust region
    local gw listeners (udp tcp marker : option (Message Name)) built out tree' forwarder'
    (Hauto : existsb (λ u, str_eqb (trim u) (lit "auto")) upstreams = true)
    (Hexpand : expand_auto upstreams tree forwarder trust
                 (probe_gateway local gw listeners udp tcp marker) region = (out, tree', forwarder'))
    (Hbuilt : build_upstreams out = Ok built) :
  (∀ g s, g ∈ groups tree' -> s ∈ ug_servers g ->
    us_role s = LocalForwarder <-> ∃ a, forwarder' = Some a ∧ a ∈ us_addresses s) ∧
  ∀ a, forwarder' = Some a ->
    gw = Some a ∧ (is_Some udp ∨ is_Some tcp) ∧
    (∀ l, l ∈ listeners -> l.1 ≠ a) ∧
    ∀ msg, marker = Some msg -> answers msg ≠ [] -> m_response_code (metadata msg) ≠ NoError.
Proof.
  unfold expand_auto in Hexpand. rewrite Hauto in Hexpand. cbn [negb] in Hexpand. cbn zeta in Hexpand.
  destruct (build_upstreams _) as [t|e] eqn:Hb in Hexpand;
    apply pair_equal_spec in Hexpand as [[<- <-]%pair_equal_spec <-]; rewrite Hbuilt in Hb; [|done].
  injection Hb as ->.
  split; [|by apply probed_address]. cbn [groups]. intros g s Hg Hs.
  destruct (gateway_address _) as [a|] eqn:Ha.
  - apply list_elem_of_fmap in Hg as (g0 & -> & Hg0). cbn in Hs.
    apply list_elem_of_fmap in Hs as (s0 & -> & Hs0).
    rewrite mark_forwarder_role by by eapply built_roles.
    split; [intros H; by exists a|]. by intros (b & [= ->] & H).
  - rewrite (built_roles _ _ _ _ Hbuilt Hg Hs). split; [done|]. by intros (a & ? & _).
Qed.
End auto.

Section loops.
Context {Name : Type} {NLib : NameLib Name}.
Context {IPL : IpNetLib} {OL : OptLib}.
Context (rfr : Metadata -> Metadata).

(** A gateway that forwards to this resolver is not adopted: whatever instance asks for
    its loop marker, the answer this resolver gives is one the probe takes for a loop. *)
Theorem forwarding_loop_is_detected cfg request q instance local_ttl max_size answer
    local gw listeners (udp tcp : option (Message Name))
    (Hrfr : ∀ m, m_response_code (rfr m) = NoError)
    (Hname : name_text (q_name q) = loop_marker instance ++ lit ".") (Hq : q_type q = RT_A)
    (Ha : special_use_answer rfr cfg request q false local_ttl max_size = Some answer) :
  gateway_address (probe_gateway local gw listeners udp tcp (Some (an_message answer))) = None.
Proof.
  unfold special_use_answer in Ha. rewrite Hname, classify_loop_marker in Ha. cbn in Ha.
  injection Ha as <-. cbn [an_message]. destruct (gateway_address _) as [a|] eqn:Hg; [|done].
  apply probed_address in Hg as (_ & _ & _ & Hm). specialize (Hm _ eq_refl). exfalso.
  destruct (attach_response_edns_shell cfg request
    (with_aa (local_record rfr request q 0 (loop_marker_rdata (q_type q))))) as (Hmd & _ & Hans & _).
  rewrite Hmd, Hans, Hq in Hm. apply Hm; cbn; [|apply Hrfr]. by destruct (answers _).
Qed.
End loops.

(** ** Concrete lists *)

Section witnesses.
#[local] Existing Instance ipnet_reference.
#[local] Existing Instance text_names.
#[local] Existing Instance opt_list.
#[local] Existing Instance plain_urls.
#[local] Existing Instance plain_urls_laws.

Definition some_upstreams : list str :=
  [lit "1.1.1.1"; lit "[2620:fe::fe]:5353"; lit "cloudflare"; lit "https://dns.example.net?addr=192.168.1.2";
   lit "tls://quad9"; lit "quic://dns.adguard-dns.com:8853"].

Definition tree_of (entries : list str) : UpstreamConfig :=
  match build_upstreams entries with Ok tree => tree | Err _ => mk_UpstreamConfig [] [] default_UpstreamTlsConfig end.

Definition config_of (tree : UpstreamConfig) : Config :=
  mk_Config [] None [] default_ServerConfig default_CacheConfig default_TtlConfig default_RankingConfig
    default_ServeStaleConfig default_PrefetchConfig default_UpstreamTlsConfig [] tree
    default_DnssecConfig None no_ecs default_ProbeConfig [] default_NetworkConfig
    default_CloudflareConfig default_DatasetsConfig (Snapshot.mk_LocalConfig [] [] [] 60)
    default_StorageConfig default_MetricsConfig default_LoggingConfig default_AdminConfig
    default_ResourceConfig.

(** Every form of entry, its generated name, transport, port and identity. *)
Example some_upstreams_servers :
  map (λ s, (us_name s, us_port s, us_server_name s)) (concat (map ug_servers (groups (tree_of some_upstreams))))
  = [(lit "u0-udp", Some 53, None); (lit "u1-udp", Some 5353, None);
     (lit "u2-doh3", Some 443, Some (lit "cloudflare-dns.com"));
     (lit "u2-doh2", Some 443, Some (lit "cloudflare-dns.com"));
     (lit "u3-doh3", Some 443, Some (lit "dns.example.net"));
     (lit "u3-doh2", Some 443, Some (lit "dns.example.net"));
     (lit "u4-dot", Some 853, Some (lit "dns.quad9.net"));
     (lit "u5-doq", Some 8853, Some (lit "dns.adguard-dns.com"))].
Proof. vm_compute. reflexivity. Qed.

(** What is refused, and as what. *)
Example refused_entries :
  map desugar [[lit " "]; [lit "nowhere"]; [lit "http://dns.example.net"]; [lit "ftp://dns.example.net"];
               [lit "tls://9.9.9.9"]; [lit "https://dns.example.net?port=1"];
               [lit "https://dns.example.net?addr=x"]; [lit "builtin:none"]; []]
  = [Err EeEmpty; Err EeNotAnEndpoint; Err EePlaintextHttp; Err (EeScheme (lit "ftp")); Err EeNoIdentity;
     Err (EeBadParameter (lit "port")); Err (EeBadHint (lit "x")); Err EeUnknownProfile; Err EeNoUpstreams].
Proof. vm_compute. reflexivity. Qed.

(** A host name that the catalogue lists as an alias is replaced even in a URI, so the
    certificate asked for is another one. *)
Example uri_host_is_rewritten :
  parse_endpoint (lit "https://one.one.one.one/dns-query")
  = Ok (doh_candidates (HostName (lit "cloudflare-dns.com")) 443 (lit "/dns-query") []).
Proof. vm_compute. reflexivity. Qed.

(** Every curated profile and every expansion of [auto] builds, and validates. *)
Example curated_lists_validate :
  forallb (λ entries, match build_upstreams entries with
                      | Ok tree => bool_decide (validate_upstream (config_of tree) = None)
                      | Err _ => false
                      end)
    ([lit "auto"] :: auto_expand (GatewayRejected NoGateway) China
     :: map (λ p, [lit "builtin:" ++ p]) profile_names) = true.
Proof. vm_compute. reflexivity. Qed.

Lemma written_upstreams_validate_witness :
  validate_upstream (config_of (tree_of some_upstreams)) = None.
Proof.
  apply (written_upstreams_validate (config_of (tree_of some_upstreams)) some_upstreams
           (tree_of some_upstreams)); [vm_compute; reflexivity|vm_compute; reflexivity|].
  assert (forallb (λ g, forallb admissibleb (ug_servers g)) (groups (tree_of some_upstreams)) = true) as Hall
    by (vm_compute; reflexivity).
  split; [vm_compute; discriminate|]. split; [by split; [constructor|]|].
  intros g s Hg Hs. apply admissibleb_admissible. rewrite forallb_elem in Hall. specialize (Hall g Hg).
  cbn beta in Hall. rewrite forallb_elem in Hall. exact (Hall s Hs).
Defined.

(** A host whose router answers, and whose list asks for it twice. *)
Definition router : IpAddr := V4 (ipv4 192 168 1 1).

Definition plain_reply : Message str :=
  mk_Message (mk_Metadata 7 MtResponse OpQuery false false true true false false NXDomain) [] [] [] [] None.

Definition routed := expand_auto [lit "auto"; lit "tcp://192.168.1.1"] (tree_of []) None default_UpstreamTlsConfig
  (probe_gateway [] (parse_gateway (lit "default via 192.168.1.1 dev enp2s0 proto dhcp"))
     [(V4 0, 53)] (Some plain_reply) None (Some plain_reply)) Global.

Lemma gateway_is_no_second_opinion_witness :
  routed.2 = Some router ∧
  ∀ g s, g ∈ groups routed.1.2 -> s ∈ ug_servers g ->
    us_role s = LocalForwarder <-> ∃ a, Some router = Some a ∧ a ∈ us_addresses s.
Proof.
  split; [vm_compute; reflexivity|].
  apply (gateway_is_no_second_opinion [lit "auto"; lit "tcp://192.168.1.1"] (tree_of []) None default_UpstreamTlsConfig Global
    [] (parse_gateway (lit "default via 192.168.1.1 dev enp2s0 proto dhcp")) [(V4 0, 53)]
    (Some plain_reply) None (Some plain_reply) (tree_of routed.1.1) routed.1.1 routed.1.2 (Some router));
    vm_compute; reflexivity.
Defined.

Example router_is_marked :
  map us_role (concat (map ug_servers (groups routed.1.2))) =
  LocalForwarder :: repeat Authority 9 ++ [LocalForwarder].
Proof. vm_compute. reflexivity. Qed.

Definition marker_query : Query str := mk_Query (loop_marker 51966 ++ lit ".") RT_A IN.

Definition marker_request : Message str :=
  mk_Message (mk_Metadata 9 MtQuery OpQuery false false true false false false NoError)
    [marker_query] [] [] [] None.

Definition marker_answer : option (Message str) :=
  an_message <$> special_use_answer reply_header (resolver_config plain) marker_request marker_query false 60 512.

Lemma forwarding_loop_is_detected_witness :
  gateway_address (probe_gateway [] (Some router) [] (Some plain_reply) None marker_answer) = None.
Proof.
  exact (forwarding_loop_is_detected reply_header (resolver_config plain) marker_request marker_query 51966 60
    512 _ [] (Some router) [] (Some plain_reply) None (λ _, eq_refl) eq_refl eq_refl eq_refl).
Defined.

End witnesses.
