(* ===== verification/Registry.v ===== *)
(** * Upstream routes

    [src/upstream/pool.rs]: the routes of a configuration, one for each enabled server,
    address and way out of the host, with the TCP companions of UDP servers.
    [src/upstream/bootstrap.rs]: the addresses of servers that only have a name, and the
    check that no upstream is this resolver.

    Connections are not opened here; what a lookup returns is an input, and so are the
    random words of the cookies and the addresses of the host. *)

From Stdlib Require Import Ascii String.
From S2P Require Import Prelude.
From S2P Require Import Hashing.
From S2P Require Import Floats.
From S2P Require Import Names.
From S2P Require Import Net.
From S2P Require Import Text.
From S2P Require Import Urls.
From S2P Require Import Catalog.
From S2P Require Import Config.
From S2P Require Import Errors.
From S2P Require Import Util.
From S2P Require Import Proxy.
From S2P Require Import Health.
From S2P Require Import Scheduler.
From S2P Require Import Datasets.
From S2P Require Import Validate.
From S2P Require Import Endpoints.

(** ** Identities *)

(** [SocketAddr]'s display form of an address and a port. *)
Definition authority_of (s : UpstreamServerConfig) (addr : IpAddr) : str :=
  match us_server_name s with
  | Some name => to_ascii_lowercase (trim_end_matches dot name)
  | None => show_socket (addr, effective_port s)
  end.

Definition path_supports (path : EgressPath) (t : TransportKind) : bool :=
  if is_stream t then true else egress_carries_udp path.

(** [RouteKey]'s display form. *)
Definition show_key (k : RouteKey) : str :=
  rk_server k ++ lit "/" ++ transport_label (rk_transport k) ++ lit "/" ++ print_ip (rk_addr k)
  ++ lit "/" ++ rk_path k.

Definition require_name (s : UpstreamServerConfig) : result ResolveError str :=
  match us_server_name s with Some name => Ok name | None => Err (NoRoute (us_name s)) end.

Definition connection_config_for (s : UpstreamServerConfig) : result ResolveError ConnectionConfig :=
  let named k := match require_name s with Ok name => Ok (k name) | Err e => Err e end in
  let path := default (lit "/dns-query") (us_path s) in
  match (match us_transport s with
         | Udp => Ok PcUdp
         | Tcp => Ok PcTcp
         | Dot => named PcTls
         | Doh2 => named (λ name, PcHttps name path)
         | Doq => named PcQuic
         | Doh3 => named (λ name, PcH3 name path)
         end) with
  | Ok protocol => Ok (mk_ConnectionConfig protocol (effective_port s) (us_bind_addr s))
  | Err e => Err e
  end.

(** ** Building the registry *)

Record UpstreamRegistry : Type := mk_UpstreamRegistry {
  rg_groups : gmap str UpstreamGroup;
  rg_default_group : str
}.

Section build.
(** The digest, and the word [rand::random] returns for the route. *)
Context (sha256 : list Z -> list Z) (random : RouteKey -> Z).

Definition cookie_new (key : RouteKey) : CookieState :=
  mk_CookieState
    (of_bytes (zip_with Z.lxor (take 8 (sha256 (to_bytes (show_key key))))
       (map (λ i, Z.land (Z.shiftr (random key) (8 * i)) 255) (seqZ 0 8)))) None.

Definition route_key (s : UpstreamServerConfig) (t : TransportKind) (addr : IpAddr) (path : EgressPath)
    : RouteKey :=
  mk_RouteKey (us_name s) t addr (egress_id path) (us_role s) (authority_of s addr).

Definition route_of (s : UpstreamServerConfig) (t : TransportKind) (addr : IpAddr) (path : EgressPath)
    (companion : bool) (connection : ConnectionConfig) : Route :=
  let key := route_key s t addr path in
  mk_Route key (us_weight s) (us_ecs s) (cookies_effective s) (us_trust_ad s) path companion connection
    health_new (cookie_new key).

(** The TCP routes beside a UDP route, one for each way out. *)
Definition companions (s : UpstreamServerConfig) (addr : IpAddr) (all : list EgressPath) : list Route :=
  map (λ path, route_of s Tcp addr path true
                 (mk_ConnectionConfig PcTcp (effective_port s) (us_bind_addr s))) all.

(** The loop over the ways out; a UDP server leaves it after its first route. *)
Fixpoint path_routes (s : UpstreamServerConfig) (addr : IpAddr) (all paths : list EgressPath)
    : result ResolveError (list Route) :=
  match paths with
  | [] => Ok []
  | path :: paths =>
      if negb (path_supports path (us_transport s)) then path_routes s addr all paths
      else
        match connection_config_for s with
        | Err e => Err e
        | Ok connection =>
            let route := route_of s (us_transport s) addr path false connection in
            if bool_decide (us_transport s = Udp) then Ok (route :: companions s addr all)
            else
              match path_routes s addr all paths with
              | Ok more => Ok (route :: more)
              | Err e => Err e
              end
        end
  end.

Fixpoint collect {A B} (f : A -> result ResolveError (list B)) (l : list A)
    : result ResolveError (list B) :=
  match l with
  | [] => Ok []
  | x :: l =>
      match f x with
      | Err e => Err e
      | Ok bs => match collect f l with Ok more => Ok (bs ++ more) | Err e => Err e end
      end
  end.

Definition egress_paths (proxies : list ProxyEndpoint) : list EgressPath :=
  Direct :: map ThroughProxy proxies.

Definition server_routes (proxies : list ProxyEndpoint) (s : UpstreamServerConfig)
    : result ResolveError (list Route) :=
  let paths := egress_paths proxies in
  collect (λ addr, path_routes s addr paths paths) (us_addresses s).

Definition group_routes (proxies : list ProxyEndpoint) (g : UpstreamGroupConfig)
    : result ResolveError (list Route) :=
  collect (server_routes proxies) (List.filter us_enabled (ug_servers g)).

Fixpoint build_groups (proxies : list ProxyEndpoint) (gs : list UpstreamGroupConfig)
    (m : gmap str UpstreamGroup) : result ResolveError (gmap str UpstreamGroup) :=
  match gs with
  | [] => Ok m
  | g :: gs =>
      match group_routes proxies g with
      | Err e => Err e
      | Ok routes =>
          build_groups proxies gs
            (<[ug_name g := mk_UpstreamGroup (ug_name g) routes (ug_scheduler g)]> m)
      end
  end.

Definition build_registry (cfg : UpstreamConfig) (proxies : list ProxyEndpoint)
    : result ResolveError UpstreamRegistry :=
  match build_groups proxies (groups cfg) ∅ with
  | Ok m => Ok (mk_UpstreamRegistry m (default_group cfg))
  | Err e => Err e
  end.

End build.

(** Look up a group by name, falling back to the default group. *)
Definition registry_group (rg : UpstreamRegistry) (name : str) : option UpstreamGroup :=
  match rg_groups rg !! name with
  | Some g => Some g
  | None => rg_groups rg !! rg_default_group rg
  end.

Definition stream_routes (g : UpstreamGroup) : list Route :=
  List.filter (λ r, is_stream (rk_transport (rt_key r))) (gr_routes g).

(** [HashMap::values] visits the groups in an order of its own. *)
Definition all_routes {HO : HashOrder str} (rg : UpstreamRegistry) : list Route :=
  concat (map (λ p, gr_routes p.2) (hash_iter (rg_groups rg))).

(** ** Servers that only have a name *)

Record Pending : Type := mk_Pending { pd_group : str; pd_server : str; pd_host : str }.

Definition pending_server (group : str) (s : UpstreamServerConfig) : list Pending :=
  match us_addresses s, us_server_name s with
  | [], Some host => [mk_Pending group (us_name s) host]
  | _, _ => []
  end.

Definition pending (cfg : Config) : list Pending :=
  flat_map (λ g, flat_map (pending_server (ug_name g)) (List.filter us_enabled (ug_servers g)))
    (groups (upstream cfg)).

(** [SocketAddr]'s order: IPv4 first, then the address, then the port. *)
Definition ip_leb (a b : IpAddr) : bool :=
  match a, b with
  | V4 x, V4 y | V6 x, V6 y => x <=? y
  | V4 _, V6 _ => true
  | V6 _, V4 _ => false
  end.

Definition socket_leb (a b : SocketAddr) : bool :=
  if bool_decide (a.1 = b.1) then a.2 <=? b.2 else ip_leb a.1 b.1.

Definition seed_resolvers (cfg : Config) : list SocketAddr :=
  dedup (stable_sort socket_leb
    (flat_map (λ g, flat_map (λ s, match us_server_name s with
                                   | Some _ => []
                                   | None => map (λ a, (a, effective_port s)) (us_addresses s)
                                   end) (List.filter us_enabled (ug_servers g)))
       (groups (upstream cfg)))).

(** What asking one resolver for one type returned. *)
Inductive QueryOutcome : Type := Answered (addresses : list str) | Failed (reason : str).

(** What the network did: the answers of the resolvers and of the system, and which of
    the limits passed. *)
Record LookupWorld : Type := mk_LookupWorld {
  lw_query : SocketAddr -> str -> string -> QueryOutcome;
  lw_seeds_in_time : str -> bool;
  lw_system : str -> result str (list IpAddr);
  lw_system_in_time : str -> bool;
  lw_past_deadline : nat -> bool
}.

Definition ask_seed (w : LookupWorld) (host : str) (seed : SocketAddr) (last : str)
    : list IpAddr * str :=
  let step (acc : list IpAddr * str) rtype :=
    match lw_query w seed host rtype with
    | Answered addresses => (acc.1 ++ omap parse_ip addresses, acc.2)
    | Failed reason => (acc.1, reason)
    end in
  fold_left step ["A"; "AAAA"]%string ([], last).

Fixpoint lookup_via_from (w : LookupWorld) (host : str) (last : str) (seeds : list SocketAddr)
    : result str (list IpAddr) :=
  match seeds with
  | [] => Err last
  | seed :: seeds =>
      let '(addrs, last) := ask_seed w host seed last in
      match addrs with [] => lookup_via_from w host last seeds | _ => Ok addrs end
  end.

Definition lookup_via (w : LookupWorld) (host : str) (seeds : list SocketAddr)
    : result str (list IpAddr) := lookup_via_from w host (lit "no seed resolver answered") seeds.

Definition lookup_via_system (w : LookupWorld) (host : str) : result str (list IpAddr) :=
  match lw_system w host with
  | Ok addrs => Ok (dedup (stable_sort ip_leb addrs))
  | Err e => Err (lit "the system resolver could not resolve it: " ++ e)
  end.

Definition lookup_host (w : LookupWorld) (host : str) (seeds : list SocketAddr)
    : result str (list IpAddr) :=
  let system := if lw_system_in_time w host then lookup_via_system w host else Err (lit "timed out") in
  match seeds with
  | [] => system
  | _ =>
      if lw_seeds_in_time w host then
        match lookup_via w host seeds with Ok ((_ :: _) as addrs) => Ok addrs | _ => system end
      else system
  end.

Definition with_addresses (s : UpstreamServerConfig) (addrs : list IpAddr) : UpstreamServerConfig :=
  mk_UpstreamServerConfig (us_name s) (us_role s) (us_transport s) addrs (us_port s) (us_server_name s)
    (us_path s) (us_bind_addr s) (us_weight s) (us_enabled s) (us_enable_cookies s) (us_trust_ad s)
    (us_ecs s).

Definition with_servers (g : UpstreamGroupConfig) (f : UpstreamServerConfig -> UpstreamServerConfig)
    : UpstreamGroupConfig :=
  mk_UpstreamGroupConfig (ug_name g) (map f (ug_servers g)) (ug_scheduler g).

Definition apply_server (host : str) (addrs : list IpAddr) (s : UpstreamServerConfig)
    : UpstreamServerConfig :=
  if no_items (us_addresses s) && bool_decide (us_server_name s = Some host)
  then with_addresses s addrs else s.

Definition apply_addresses (u : UpstreamConfig) (host : str) (addrs : list IpAddr) : UpstreamConfig :=
  mk_UpstreamConfig (default_group u) (map (λ g, with_servers g (apply_server host addrs)) (groups u))
    (upstream_tls u).

Record Report : Type := mk_Report {
  rp_resolved : list (str * list IpAddr);
  rp_failed : list (str * str)
}.

(** The lookups, one name after the other. *)
Fixpoint resolve_names (w : LookupWorld) (seeds : list SocketAddr) (i : nat) (names : list Pending)
    : list (str * list IpAddr) * list (str * str) :=
  match names with
  | [] => ([], [])
  | name :: names =>
      let '(found, failed) := resolve_names w seeds (S i) names in
      let host := pd_host name in
      if lw_past_deadline w i
      then (found, (host, lit "the bootstrap phase ran out of time") :: failed)
      else
        match lookup_host w host seeds with
        | Ok ((_ :: _) as addrs) => ((host, addrs) :: found, failed)
        | Ok [] => (found, (host, lit "no addresses were returned") :: failed)
        | Err e => (found, (host, e) :: failed)
        end
  end.

(** The route tree after the names of a configuration have been looked up. *)
Definition resolve_pending (w : LookupWorld) (cfg : Config) : UpstreamConfig * Report :=
  let '(found, failed) := resolve_names w (seed_resolvers cfg) 0 (pending cfg) in
  (fold_left (λ u e, apply_addresses u e.1 e.2) found (upstream cfg), mk_Report found failed).

(** ** Upstreams that are this resolver *)

(** systemd-resolved's stub listeners. *)
Definition is_known_stub (a : IpAddr) : bool :=
  match a with
  | V4 v4 => (v4 =? ipv4 127 0 0 53) || (v4 =? ipv4 127 0 0 54)
  | V6 _ => false
  end.

Inductive Cycle : Type := CycleSelf (server : str) (at_ : SocketAddr) | CycleStub (server : str) (at_ : SocketAddr).

Definition cycles_at (listeners : list SocketAddr) (local : list IpAddr) (s : UpstreamServerConfig)
    (addr : IpAddr) : list Cycle :=
  let port := effective_port s in
  let sock := (addr, port) in
  let direct := bool_decide (sock ∈ listeners) in
  let wildcard_ports := map snd (List.filter (λ a, is_unspecified a.1) listeners) in
  let via_wildcard := bool_decide (port ∈ wildcard_ports)
                      && (is_loopback addr || bool_decide (addr ∈ local)) in
  if direct || via_wildcard then [CycleSelf (us_name s) sock]
  else if is_known_stub addr && bool_decide (53 ∈ map snd listeners) then [CycleStub (us_name s) sock]
  else [].

(** [local] are the addresses of the host's interfaces. *)
Definition detect_cycles (local : list IpAddr) (cfg : Config) : list Cycle :=
  let listeners := udp_listen (server cfg) ++ tcp_listen (server cfg) in
  flat_map (λ g, flat_map (λ s, flat_map (cycles_at listeners local s) (us_addresses s))
                   (List.filter us_enabled (ug_servers g)))
    (groups (upstream cfg)).

(** ** The routes are those of the configuration *)

Section routes.
Context (sha256 : list Z -> list Z) (random : RouteKey -> Z).

(** The routes a server stands for. *)
Inductive configured (proxies : list ProxyEndpoint) (s : UpstreamServerConfig) : Route -> Prop :=
| conf_route addr path connection :
    addr ∈ us_addresses s -> path ∈ egress_paths proxies ->
    path_supports path (us_transport s) = true -> connection_config_for s = Ok connection ->
    configured proxies s (route_of sha256 random s (us_transport s) addr path false connection)
| conf_companion addr path :
    addr ∈ us_addresses s -> path ∈ egress_paths proxies -> us_transport s = Udp ->
    configured proxies s (route_of sha256 random s Tcp addr path true
      (mk_ConnectionConfig PcTcp (effective_port s) (us_bind_addr s))).

Lemma collect_ok {A B} (f : A -> result ResolveError (list B)) l bs :
  collect f l = Ok bs ->
  (∀ x, x ∈ l -> ∃ ys, f x = Ok ys) ∧ ∀ y, y ∈ bs <-> ∃ x ys, x ∈ l ∧ f x = Ok ys ∧ y ∈ ys.
Proof.
  revert bs. induction l as [|x l IH]; intros bs; cbn.
  - intros [= <-]. split; [by intros x ?%elem_of_nil|]. intros y. split; [by intros ?%elem_of_nil|].
    by intros (x & _ & ?%elem_of_nil & _).
  - destruct (f x) as [ys|] eqn:Hx; [|done]. destruct (collect f l) as [more|]; [|done]. intros [= <-].
    destruct (IH more eq_refl) as [Hall Hmem]. split.
    + intros z [->|Hz]%elem_of_cons; [by exists ys|by apply Hall].
    + intros y. rewrite elem_of_app, Hmem. split.
      * intros [Hy|(z & zs & Hz & Hf & Hy)]; [exists x, ys|exists z, zs]; split_and!; try done; by constructor.
      * intros (z & zs & [->|Hz]%elem_of_cons & Hf & Hy); [left; congruence|right; by exists z, zs].
Qed.

Lemma collect_total {A B} (f : A -> result ResolveError (list B)) l :
  (∀ x, x ∈ l -> ∃ ys, f x = Ok ys) -> ∃ bs, collect f l = Ok bs.
Proof.
  induction l as [|x l IH]; intros H; cbn; [by exists []|].
  destruct (H x ltac:(left)) as [ys ->]. destruct IH as [bs ->]; [intros z Hz; apply H; by right|].
  by eexists.
Qed.

Lemma proxied_udp p : path_supports (ThroughProxy p) Udp = false.
Proof. unfold path_supports. cbn. by destruct (px_kind p). Qed.

(** The ways out of any transport but UDP. *)
Lemma stream_path_routes s addr all paths routes :
  us_transport s ≠ Udp -> path_routes sha256 random s addr all paths = Ok routes ->
  ∀ r, r ∈ routes <-> ∃ path connection, path ∈ paths ∧ path_supports path (us_transport s) = true ∧
    connection_config_for s = Ok connection ∧
    r = route_of sha256 random s (us_transport s) addr path false connection.
Proof.
  intros Hne. revert routes. induction paths as [|p paths IH]; intros routes; cbn.
  - intros [= <-] r. split; [by intros ?%elem_of_nil|]. by intros (? & ? & ?%elem_of_nil & _).
  - destruct (path_supports p _) eqn:Hs; cbn.
    + destruct (connection_config_for s) as [c|] eqn:Hc; [|done]. rewrite bool_decide_false by done.
      destruct (path_routes _ _ _ _ _ paths) as [more|]; [|done]. intros [= <-] r.
      rewrite elem_of_cons, (IH more eq_refl). split.
      * intros [->|(q & d & Hq & Hsq & Hd & ->)]; [exists p, c|exists q, d]; split_and!; try done; by constructor.
      * intros (q & d & [->|Hq]%elem_of_cons & Hsq & [= <-] & ->); [by left|right; by exists q, c].
    + intros H r. rewrite (IH routes H). split.
      * intros (q & d & Hq & ?). exists q, d. split; [by right|done].
      * intros (q & d & [->|Hq]%elem_of_cons & ? & ?); [congruence|by exists q, d].
Qed.

(** The routes of one address of a UDP server. *)
Definition udp_routes (proxies : list ProxyEndpoint) (s : UpstreamServerConfig) (addr : IpAddr)
    : list Route :=
  route_of sha256 random s Udp addr Direct false
    (mk_ConnectionConfig PcUdp (effective_port s) (us_bind_addr s))
  :: companions sha256 random s addr (egress_paths proxies).

Lemma udp_path_routes proxies s addr routes :
  us_transport s = Udp ->
  path_routes sha256 random s addr (egress_paths proxies) (egress_paths proxies) = Ok routes <->
  routes = udp_routes proxies s addr.
Proof.
  intros Hu. cbn [path_routes egress_paths]. unfold connection_config_for. rewrite Hu.
  cbn [path_supports negb is_stream egress_carries_udp]. rewrite bool_decide_true by done.
  split; [by intros [= <-]|by intros ->].
Qed.

Lemma server_routes_configured proxies s routes :
  server_routes sha256 random proxies s = Ok routes -> ∀ r, r ∈ routes <-> configured proxies s r.
Proof.
  intros H r. apply collect_ok in H as [Hall Hmem]. rewrite Hmem. clear Hmem.
  destruct (decide (us_transport s = Udp)) as [Hu|Hne].
  - assert (connection_config_for s = Ok (mk_ConnectionConfig PcUdp (effective_port s) (us_bind_addr s)))
      as Hc by (unfold connection_config_for; by rewrite Hu).
    assert (Direct ∈ egress_paths proxies) as Hd by left. split.
    + intros (addr & ys & Ha & ->%udp_path_routes & Hr); [|done].
      apply elem_of_cons in Hr as [->|(p & -> & Hin)%list_elem_of_fmap]; [|by constructor].
      rewrite <- Hu at 1. constructor; [done..|by rewrite Hu|done].
    + intros [addr path conn Ha Hin Hs Hconn|addr path Ha Hin _]; exists addr, (udp_routes proxies s addr);
        (split_and!; [done|by apply udp_path_routes|]).
      * apply elem_of_cons in Hin as [->|(p & -> & _)%list_elem_of_fmap].
        -- rewrite Hc in Hconn. injection Hconn as <-. rewrite Hu. left.
        -- by rewrite Hu, proxied_udp in Hs.
      * right. apply list_elem_of_fmap. by exists path.
  - split.
    + intros (addr & ys & Ha & Hy & Hr).
      apply (stream_path_routes _ _ _ _ _ Hne Hy) in Hr as (p & c & Hp & Hs & Hc & ->). by constructor.
    + intros [addr path conn Ha Hin Hs Hconn|]; [|done].
      destruct (Hall addr Ha) as [ys Hy]. exists addr, ys. split_and!; [done..|].
      apply (stream_path_routes _ _ _ _ _ Hne Hy). by exists path, conn.
Qed.

Lemma build_groups_ok proxies gs m m' :
  NoDup (map ug_name gs) -> build_groups sha256 random proxies gs m = Ok m' ->
  (∀ g, g ∈ gs -> ∃ routes, group_routes sha256 random proxies g = Ok routes ∧
    m' !! ug_name g = Some (mk_UpstreamGroup (ug_name g) routes (ug_scheduler g))) ∧
  ∀ name, name ∉ map ug_name gs -> m' !! name = m !! name.
Proof.
  revert m. induction gs as [|g gs IH]; intros m; cbn [build_groups map].
  - intros _ [= <-]. split; [by intros g ?%elem_of_nil|done].
  - intros [Hni Hnd]%NoDup_cons. destruct (group_routes _ _ _ g) as [routes|] eqn:Hr; [|done].
    intros Hb. destruct (IH _ Hnd Hb) as [Hin Hout]. split.
    + intros g' [->|Hg']%elem_of_cons; [|by apply Hin]. exists routes. split; [done|].
      rewrite Hout by done. apply lookup_insert_eq.
    + intros name [Hne Hn]%not_elem_of_cons. rewrite Hout by done. by apply lookup_insert_ne.
Qed.

Lemma build_groups_total proxies gs m :
  (∀ g, g ∈ gs -> ∃ routes, group_routes sha256 random proxies g = Ok routes) ->
  ∃ m', build_groups sha256 random proxies gs m = Ok m'.
Proof.
  revert m. induction gs as [|g gs IH]; intros m H; cbn; [by exists m|].
  destruct (H g ltac:(left)) as [routes ->]. apply IH. intros g' Hg'. apply H. by right.
Qed.

Lemma registry_routes cfg proxies rg g :
  build_registry sha256 random cfg proxies = Ok rg -> NoDup (map ug_name (groups cfg)) ->
  g ∈ groups cfg ->
  ∃ gr, registry_group rg (ug_name g) = Some gr ∧ gr_name gr = ug_name g ∧
    gr_scheduler gr = ug_scheduler g ∧
    ∀ r, r ∈ gr_routes gr <->
      ∃ s, s ∈ ug_servers g ∧ us_enabled s = true ∧ configured proxies s r.
Proof.
  intros Hbuild Hnames Hg.
  unfold build_registry in Hbuild. destruct (build_groups _ _ _ _ _) as [m|] eqn:Hb; [|done].
  injection Hbuild as <-. apply build_groups_ok in Hb as [Hin _]; [|done].
  destruct (Hin g Hg) as (routes & Hr & Hm). unfold registry_group. cbn. rewrite Hm.
  eexists. split; [done|]. cbn. split_and!; [done..|]. intros r.
  apply collect_ok in Hr as [Hall ->]. split.
  - intros (s & ys & Hs & Hy & Hr). apply list_elem_of_In, filter_In in Hs as [Hs%list_elem_of_In He].
    exists s. split_and!; [done..|]. by eapply server_routes_configured.
  - intros (s & Hs & He & Hc). assert (s ∈ List.filter us_enabled (ug_servers g)) as Hf.
    { apply list_elem_of_In, filter_In. by rewrite <- list_elem_of_In. }
    destruct (Hall s Hf) as [ys Hy]. exists s, ys. split_and!; [done..|].
    by eapply server_routes_configured.
Qed.

(** What a route is for: the server, the address, the transport, the way out, and whether
    it is only there to repeat truncated answers. *)
Definition route_shape (r : Route) : str * IpAddr * TransportKind * EgressPath * bool :=
  (rk_server (rt_key r), rk_addr (rt_key r), rk_transport (rt_key r), rt_egress r, rt_stream_companion r).

(** The routes of one address of a server: over UDP only the direct one, with a TCP
    companion for each way out; over every other transport, DoQ and DoH3 among them, one
    for each way out. *)
Definition shapes_at (proxies : list ProxyEndpoint) (s : UpstreamServerConfig) (addr : IpAddr)
    : list (str * IpAddr * TransportKind * EgressPath * bool) :=
  let ways := Direct :: map ThroughProxy proxies in
  if bool_decide (us_transport s = Udp)
  then (us_name s, addr, Udp, Direct, false) :: map (λ way, (us_name s, addr, Tcp, way, true)) ways
  else map (λ way, (us_name s, addr, us_transport s, way, false)) ways.

Definition shapes_of (proxies : list ProxyEndpoint) (g : UpstreamGroupConfig)
    : list (str * IpAddr * TransportKind * EgressPath * bool) :=
  flat_map (λ s, flat_map (shapes_at proxies s) (us_addresses s)) (List.filter us_enabled (ug_servers g)).

Lemma collect_map {A B C} (f : A -> result ResolveError (list B)) (h : B -> C) (k : A -> list C) l bs :
  (∀ x ys, f x = Ok ys -> map h ys = k x) -> collect f l = Ok bs -> map h bs = flat_map k l.
Proof.
  intros Hf. revert bs. induction l as [|x l IH]; intros bs; cbn; [by intros [= <-]|].
  destruct (f x) as [ys|] eqn:Hx; [|done]. destruct (collect f l) as [more|]; [|done].
  intros [= <-]. by rewrite map_app, (Hf x ys Hx), (IH more).
Qed.

Lemma stream_shapes s addr all paths routes :
  us_transport s ≠ Udp -> path_routes sha256 random s addr all paths = Ok routes ->
  map route_shape routes = map (λ way, (us_name s, addr, us_transport s, way, false)) paths.
Proof.
  intros Hne. revert routes. induction paths as [|p paths IH]; intros routes; cbn; [by intros [= <-]|].
  assert (path_supports p (us_transport s) = true) as -> by (unfold path_supports; by destruct (us_transport s)).
  cbn [negb]. destruct (connection_config_for s) as [c|]; [|done]. rewrite bool_decide_false by done.
  destruct (path_routes _ _ _ _ _ paths) as [more|]; [|done]. intros [= <-]. cbn. by rewrite (IH more).
Qed.

Lemma group_shapes proxies g routes :
  group_routes sha256 random proxies g = Ok routes -> map route_shape routes = shapes_of proxies g.
Proof.
  apply collect_map. intros s ys. apply collect_map. intros addr zs. unfold shapes_at.
  case_bool_decide as Hu; [|by apply stream_shapes].
  intros ->%udp_path_routes; [|done]. unfold udp_routes, companions. cbn. by rewrite !map_map.
Qed.

Lemma registry_shapes cfg proxies rg g :
  build_registry sha256 random cfg proxies = Ok rg -> NoDup (map ug_name (groups cfg)) -> g ∈ groups cfg ->
  ∃ gr, rg_groups rg !! ug_name g = Some gr ∧ gr_name gr = ug_name g ∧
    gr_scheduler gr = ug_scheduler g ∧ map route_shape (gr_routes gr) = shapes_of proxies g.
Proof.
  unfold build_registry. intros Hbuild Hnames Hg. destruct (build_groups _ _ _ _ _) as [m|] eqn:Hb; [|done].
  injection Hbuild as <-. apply build_groups_ok in Hb as [Hin _]; [|done].
  destruct (Hin g Hg) as (routes & Hr & Hm). cbn. rewrite Hm. eexists. split; [done|]. cbn.
  split_and!; [done..|]. by apply group_shapes.
Qed.

Lemma registry_names cfg proxies rg name :
  build_registry sha256 random cfg proxies = Ok rg -> NoDup (map ug_name (groups cfg)) ->
  is_Some (rg_groups rg !! name) <-> name ∈ map ug_name (groups cfg).
Proof.
  unfold build_registry. intros Hbuild Hnames. destruct (build_groups _ _ _ _ _) as [m|] eqn:Hb; [|done].
  injection Hbuild as <-. apply build_groups_ok in Hb as [Hin Hout]; [|done]. cbn. split.
  - intros Hs. destruct (decide (name ∈ map ug_name (groups cfg))) as [|Hni]; [done|].
    rewrite Hout, lookup_empty in Hs by done. by destruct Hs.
  - intros (g & -> & Hg)%list_elem_of_fmap. destruct (Hin g Hg) as (routes & _ & ->). by eexists.
Qed.


(** ** Validated configurations *)

Lemma no_repeats_NoDup {A} `{EqDecision A} (l : list A) :
  (∀ i x, l !! i = Some x -> repeats l i x = false) -> NoDup l.
Proof.
  intros H. apply NoDup_alt. intros i j x Hi Hj.
  assert (∀ a b, (a < b)%nat -> l !! a = Some x -> l !! b = Some x -> False) as Hlt.
  { intros a b Hab Ha Hb. specialize (H b x Hb). unfold repeats in H.
    apply bool_decide_eq_false in H. apply H. apply list_elem_of_lookup. exists a.
    by rewrite lookup_take_lt. }
  destruct (lt_eq_lt_dec i j) as [[Hlt'|Heq]|Hlt']; [|done|]; exfalso; by eapply Hlt.
Qed.

Lemma validated_group_names {IPL : IpNetLib} cfg :
  validate_upstream cfg = None -> NoDup (map ug_name (groups (upstream cfg))).
Proof.
  intros Hu. apply no_repeats_NoDup. intros i x Hx.
  apply list_lookup_fmap_Some in Hx as (g & -> & Hg). unfold validate_upstream in Hu.
  assert (each (validate_group (groups (upstream cfg)) (foreground_budget (server cfg)))
    (groups (upstream cfg)) = None) as He by passed Hu 1%nat.
  pose proof (each_none _ _ _ _ He Hg) as Hv. unfold validate_group in Hv. passed Hv 1%nat.
Qed.

Lemma connection_total s :
  (is_encrypted (us_transport s) = true -> us_server_name s ≠ None) ->
  ∃ c, connection_config_for s = Ok c.
Proof.
  intros H. unfold connection_config_for, require_name.
  destruct (us_transport s), (us_server_name s); cbn in *; first [by eexists|by destruct H].
Qed.

Lemma path_routes_total s addr all paths c :
  connection_config_for s = Ok c -> ∃ routes, path_routes sha256 random s addr all paths = Ok routes.
Proof.
  intros Hc. induction paths as [|p paths IH]; cbn; [by eexists|].
  destruct (negb _); [done|]. rewrite Hc. case_bool_decide; [by eexists|].
  destruct IH as [more ->]. by eexists.
Qed.

(** A validated configuration has routes: its registry can always be built, whatever
    proxies it has, and every name of a group, known or not, finds a group in it. *)
Theorem validated_configuration_builds {IPL : IpNetLib} cfg proxies (Hu : validate_upstream cfg = None) :
  ∃ rg, build_registry sha256 random (upstream cfg) proxies = Ok rg ∧
    ∀ name, is_Some (registry_group rg name).
Proof.
  pose proof (validated_group_names cfg Hu) as Hnd.
  destruct (build_groups_total proxies (groups (upstream cfg)) ∅) as [m Hm].
  { intros g Hg. apply collect_total. intros s Hs. apply collect_total. intros addr Ha.
    apply list_elem_of_In, filter_In in Hs as [Hs%list_elem_of_In _].
    destruct (validated_server _ _ _ Hu Hg Hs) as (gi & si & Hv).
    destruct (connection_total s) as [c Hc]; [|by eapply path_routes_total].
    intros He. destruct (validated_identity _ _ _ _ Hv He) as (name & -> & _). done. }
  unfold build_registry. rewrite Hm. eexists. split; [done|]. intros name. unfold registry_group. cbn.
  destruct (m !! name); [by eexists|]. apply build_groups_ok in Hm as [Hin _]; [|done].
  destruct (default_group_exists _ Hu) as (g & Hg & <-). destruct (Hin g Hg) as (routes & _ & ->).
  by eexists.
Qed.

(** ** Well-formed routes *)

Definition identity (p : ProtocolConfig) : option str :=
  match p with
  | PcUdp | PcTcp => None
  | PcTls name | PcHttps name _ | PcQuic name | PcH3 name _ => Some name
  end.

(** What the scheduler and the connection code rely on. *)
Record route_wf (s : UpstreamServerConfig) (r : Route) : Prop := {
  wf_server : rk_server (rt_key r) = us_name s ∧ rk_addr (rt_key r) ∈ us_addresses s;
  wf_identity : is_encrypted (rk_transport (rt_key r)) = true ->
    ∃ name, us_server_name s = Some name ∧ identity (cc_protocol (rt_connection r)) = Some name ∧
      rk_authority (rt_key r) = canonical_name name;
  wf_plain : is_encrypted (rk_transport (rt_key r)) = false ->
    identity (cc_protocol (rt_connection r)) = None;
  wf_cookies : rt_cookies_enabled r = true -> is_encrypted (rk_transport (rt_key r)) = false;
  wf_companion : rt_stream_companion r = true -> rk_transport (rt_key r) = Tcp ∧ us_transport s = Udp;
  wf_plain_udp : rk_transport (rt_key r) = Udp -> rt_egress r = Direct;
  wf_path : rk_path (rt_key r) = egress_id (rt_egress r);
  wf_role : rk_role (rt_key r) = us_role s;
  wf_port : cc_port (rt_connection r) = effective_port s
}.

Lemma configured_wf proxies s r : configured proxies s r -> route_wf s r.
Proof.
  intros [addr path c Ha Hp Hs Hc|addr path Ha Hp Hu].
  - unfold connection_config_for, require_name in Hc. unfold cookies_effective.
    split; cbn; unfold authority_of, cookies_effective; try done.
    + intros He. destruct (us_transport s), (us_server_name s) as [name|]; try done; injection Hc as <-;
        by exists name.
    + intros He. destruct (us_transport s); try done; by injection Hc as <-.
    + destruct (is_encrypted _); [by rewrite andb_false_r|done].
    + intros Hu. rewrite Hu in Hs. apply elem_of_cons in Hp as [->|(p & -> & _)%list_elem_of_fmap]; [done|].
      by rewrite proxied_udp in Hs.
    + destruct (us_transport s), (us_server_name s); try done; by injection Hc as <-.
  - by split.
Qed.

(** C15. Every route of a registry is a well-formed route of one of the group's enabled
    servers, under its name and to one of its addresses: an encrypted route authenticates
    exactly the name that server was given, which is also the authority it counts as;
    plain routes authenticate nothing and are the only ones with cookies; a route over
    plain UDP leaves directly; a companion is a TCP route of a UDP server; and role, port
    and the identity of the way out are the server's. *)
Theorem routes_are_well_formed cfg proxies rg g gr r
    (Hbuild : build_registry sha256 random cfg proxies = Ok rg)
    (Hnames : NoDup (map ug_name (groups cfg))) (Hg : g ∈ groups cfg)
    (Hgr : registry_group rg (ug_name g) = Some gr) (Hr : r ∈ gr_routes gr) :
  ∃ s, s ∈ ug_servers g ∧ us_enabled s = true ∧ route_wf s r.
Proof.
  destruct (registry_routes _ _ _ _ Hbuild Hnames Hg) as (gr' & Hgr' & _ & _ & Hall).
  rewrite Hgr in Hgr'. injection Hgr' as <-. apply Hall in Hr as (s & Hs & He & Hc).
  exists s. split_and!; [done..|]. by eapply configured_wf.
Qed.
End routes.

(** ** Route identities *)

Lemma NoDup_collect {A B K T} (f : A -> result ResolveError (list B)) (k : B -> K) (tag : K -> T)
    (g : A -> T) l bs :
  (∀ x ys, x ∈ l -> f x = Ok ys -> NoDup (map k ys) ∧ ∀ y, y ∈ ys -> tag (k y) = g x) ->
  NoDup (map g l) -> collect f l = Ok bs -> NoDup (map k bs).
Proof.
  revert bs. induction l as [|x l IH]; intros bs Hf; cbn [collect map]; [intros _ [= <-]; constructor|].
  intros [Hni Hnd]%NoDup_cons. destruct (f x) as [ys|] eqn:Hx; [|done].
  destruct (collect f l) as [more|] eqn:Hc; [|done]. intros [= <-].
  destruct (Hf x ys ltac:(left) Hx) as [Hys Htag]. rewrite map_app. apply NoDup_app. split_and!; [done| |].
  - intros y (b & -> & Hb)%list_elem_of_fmap (b' & Heq & Hb')%list_elem_of_fmap. apply Hni.
    apply (proj2 (collect_ok f l more Hc)) in Hb' as (z & zs & Hz & Hfz & Hzb).
    destruct (Hf z zs ltac:(by right) Hfz) as [_ Htz].
    apply list_elem_of_fmap. exists z. split; [|done]. by rewrite <- (Htz _ Hzb), <- Heq, (Htag _ Hb).
  - apply IH; [|done..]. intros z zs Hz. apply Hf. by right.
Qed.

Lemma egress_ids_distinct proxies :
  NoDup (map proxy_id proxies) -> NoDup (map egress_id (egress_paths proxies)).
Proof.
  intros H. cbn [egress_paths map]. rewrite map_map. apply NoDup_cons_2; [|exact H].
  intros (p & Hp & _)%list_elem_of_fmap. cbn in Hp. unfold proxy_id in Hp. by destruct (px_kind p).
Qed.

Section identities.
Context (sha256 : list Z -> list Z) (random : RouteKey -> Z).

Lemma keys_of_paths s t addr companion connection paths :
  NoDup (map egress_id paths) ->
  NoDup (map rt_key (map (λ p, route_of sha256 random s t addr p companion connection) paths)).
Proof.
  rewrite map_map. cbn. induction paths as [|p paths IH]; cbn [map]; [constructor|].
  intros [Hni Hnd]%NoDup_cons. apply NoDup_cons_2; [|by apply IH].
  intros (q & Heq & Hq)%list_elem_of_fmap. apply Hni. apply list_elem_of_fmap. exists q.
  unfold route_key in Heq. by injection Heq.
Qed.

Lemma stream_keys s addr all paths routes :
  us_transport s ≠ Udp -> NoDup (map egress_id paths) ->
  path_routes sha256 random s addr all paths = Ok routes -> NoDup (map rt_key routes).
Proof.
  intros Hne. revert routes. induction paths as [|p paths IH]; intros routes; cbn [map path_routes].
  - intros _ [= <-]. constructor.
  - intros [Hni Hnd]%NoDup_cons. destruct (negb _); [by apply IH|].
    destruct (connection_config_for s) as [c|]; [|done]. rewrite bool_decide_false by done.
    destruct (path_routes _ _ _ _ _ paths) as [more|] eqn:Hm; [|done]. intros [= <-]. cbn [map].
    apply NoDup_cons_2; [|by apply IH]. intros (r & Heq & Hr)%list_elem_of_fmap. apply Hni.
    apply (stream_path_routes _ _ _ _ _ _ _ Hne Hm) in Hr as (q & d & Hq & _ & _ & ->).
    apply list_elem_of_fmap. exists q. split; [|done]. unfold route_key in Heq. by injection Heq.
Qed.

Lemma address_keys proxies s addr routes :
  NoDup (map proxy_id proxies) ->
  path_routes sha256 random s addr (egress_paths proxies) (egress_paths proxies) = Ok routes ->
  NoDup (map rt_key routes) ∧ ∀ r, r ∈ routes -> rk_addr (rt_key r) = addr ∧ rk_server (rt_key r) = us_name s.
Proof.
  intros Hp%egress_ids_distinct Hr. destruct (decide (us_transport s = Udp)) as [Hu|Hne].
  - apply udp_path_routes in Hr as ->; [|done]. split.
    + apply NoDup_cons_2; [|by apply keys_of_paths].
      by intros (r & Heq & (q & -> & _)%list_elem_of_fmap)%list_elem_of_fmap.
    + intros r [->|(q & -> & _)%list_elem_of_fmap]%elem_of_cons; done.
  - split; [by eapply stream_keys|]. intros r Hin.
    by apply (stream_path_routes _ _ _ _ _ _ _ Hne Hr) in Hin as (q & d & _ & _ & _ & ->).
Qed.

(** Two routes of a group are never the same route: where servers have distinct names,
    the addresses of a server are distinct and no proxy is listed twice, the identity a
    route keeps its health and its metrics under is its own. *)
Theorem route_identities_are_unique proxies g routes
    (Hproxies : NoDup (map proxy_id proxies)) (Hservers : NoDup (map us_name (ug_servers g)))
    (Haddrs : ∀ s, s ∈ ug_servers g -> NoDup (us_addresses s))
    (Hroutes : group_routes sha256 random proxies g = Ok routes) :
  NoDup (map rt_key routes).
Proof.
  eapply (NoDup_collect _ rt_key rk_server us_name); [|clear Haddrs|exact Hroutes].
  - intros s ys Hs Hys. apply list_elem_of_In, filter_In in Hs as [Hs%list_elem_of_In _].
    specialize (Haddrs s Hs). split.
    + eapply (NoDup_collect _ rt_key rk_addr id); [|by rewrite map_id|exact Hys].
      intros addr zs _ Hz. destruct (address_keys _ _ _ _ Hproxies Hz) as [Hn Ht]. split; [done|].
      intros r Hr. by apply Ht.
    + intros r Hr. apply (proj2 (collect_ok _ _ _ Hys)) in Hr as (addr & zs & _ & Hz & Hr).
      by apply (address_keys _ _ _ _ Hproxies Hz).
  - clear Hroutes routes. induction (ug_servers g) as [|s l IH]; cbn; [constructor|].
    cbn in Hservers. apply NoDup_cons in Hservers as [Hni Hnd]. destruct (us_enabled s); [|by apply IH].
    cbn. apply NoDup_cons_2; [|by apply IH]. intros (t & Ht & Hin)%list_elem_of_fmap. apply Hni.
    apply list_elem_of_In, filter_In in Hin as [Hin%list_elem_of_In _]. apply list_elem_of_fmap. by exists t.
Qed.
End identities.

(** ** What looking names up changes *)

(** A server after the lookups: the first result for its name, if it had no address. *)
Definition filled (found : list (str * list IpAddr)) (s : UpstreamServerConfig) : UpstreamServerConfig :=
  match us_addresses s, us_server_name s with
  | [], Some host =>
      match find_first (λ e, str_eqb e.1 host) found with
      | Some e => with_addresses s e.2
      | None => s
      end
  | _, _ => s
  end.

Definition fill (found : list (str * list IpAddr)) (u : UpstreamConfig) : UpstreamConfig :=
  mk_UpstreamConfig (default_group u) (map (λ g, with_servers g (filled found)) (groups u))
    (upstream_tls u).

Lemma with_addresses_id s : with_addresses s (us_addresses s) = s.
Proof. by destruct s. Qed.

Lemma filled_step host addrs found s :
  addrs ≠ [] -> filled found (apply_server host addrs s) = filled ((host, addrs) :: found) s.
Proof.
  intros Hne. unfold apply_server, filled.
  destruct (us_addresses s) as [|a l] eqn:Ha; cbn [no_items andb]; [|by rewrite Ha].
  destruct (us_server_name s) as [h|] eqn:Hn.
  - cbn [find_first]. unfold find_first. cbn. destruct (str_eqb host h) eqn:E.
    + apply str_eqb_eq in E as ->. rewrite bool_decide_true by done. cbn. by destruct addrs.
    + rewrite bool_decide_false; [by rewrite Ha, Hn|]. intros [= <-]. by rewrite str_eqb_refl in E.
  - rewrite bool_decide_false by done. by rewrite Ha, Hn.
Qed.

Lemma fill_nil u : fill [] u = u.
Proof.
  assert (∀ s, filled [] s = s) as Hs by (intros s; unfold filled; by repeat case_match).
  destruct u as [d gs t]. unfold fill. cbn. f_equal. rewrite <- (map_id gs) at 2. apply map_ext.
  intros [n ss sc]. unfold with_servers. cbn. f_equal. rewrite <- (map_id ss) at 2. by apply map_ext.
Qed.

(** Writing the results one after the other is one pass over the servers. *)
Lemma apply_all found u :
  Forall (λ e, e.2 ≠ []) found -> fold_left (λ u e, apply_addresses u e.1 e.2) found u = fill found u.
Proof.
  intros H. revert u. induction H as [|[host addrs] found Hne _ IH]; intros u; cbn [fold_left].
  - by rewrite fill_nil.
  - rewrite IH. destruct u as [d gs t]. unfold fill, apply_addresses. cbn. f_equal.
    rewrite map_map. apply map_ext. intros [n ss sc]. unfold with_servers. cbn. f_equal.
    rewrite map_map. apply map_ext. intros s. by apply filled_step.
Qed.

Lemma resolve_names_spec w seeds i names found failed :
  resolve_names w seeds i names = (found, failed) ->
  (∀ host addrs, (host, addrs) ∈ found ->
    addrs ≠ [] ∧ lookup_host w host seeds = Ok addrs ∧ host ∈ map pd_host names) ∧
  ∀ p, p ∈ names -> pd_host p ∈ map fst found ∨ pd_host p ∈ map fst failed.
Proof.
  revert i found failed. induction names as [|p names IH]; intros i found failed; cbn.
  - intros [= <- <-]. split; [by intros ? ? ?%elem_of_nil|by intros p ?%elem_of_nil].
  - destruct (resolve_names w seeds (S i) names) as [fo fa] eqn:Hr. destruct (IH _ _ _ Hr) as [Hf Hc].
    assert (∀ host addrs, (host, addrs) ∈ fo -> addrs ≠ [] ∧ lookup_host w host seeds = Ok addrs ∧
      host ∈ pd_host p :: map pd_host names) as Hf'.
    { intros host addrs Hin. destruct (Hf _ _ Hin) as (? & ? & ?). split_and!; [done..|by right]. }
    destruct (lw_past_deadline w i);
      [|destruct (lookup_host w (pd_host p) seeds) as [[|a addrs]|e] eqn:Hl]; intros [= <- <-];
      (split; [try exact Hf'|
        intros q [->|Hq]%elem_of_cons; [|destruct (Hc q Hq)]; cbn [map fst]; set_solver]).
    intros host ad [[= -> ->]|Hin]%elem_of_cons; [|by apply Hf']. split_and!; [done..|left].
Qed.

(** Looking names up fills in addresses and nothing else: every group and server keeps its
    name, transport and TLS identity, servers that had addresses keep them, and a server
    without any gets the first non-empty result a lookup of its own name returned; each
    pending name is reported as resolved or as failed. *)
Theorem lookups_only_fill_addresses w cfg u report (Hr : resolve_pending w cfg = (u, report)) :
  u = fill (rp_resolved report) (upstream cfg) ∧
  (∀ host addrs, (host, addrs) ∈ rp_resolved report ->
    addrs ≠ [] ∧ lookup_host w host (seed_resolvers cfg) = Ok addrs ∧ host ∈ map pd_host (pending cfg)) ∧
  ∀ p, p ∈ pending cfg ->
    pd_host p ∈ map fst (rp_resolved report) ∨ pd_host p ∈ map fst (rp_failed report).
Proof.
  unfold resolve_pending in Hr. destruct (resolve_names _ _ _ _) as [found failed] eqn:Hn.
  injection Hr as <- <-. cbn. apply resolve_names_spec in Hn as [Hf Hc]. split; [|done].
  apply apply_all, Forall_forall. intros [host addrs] Hin. by apply (Hf host).
Qed.

Lemma filled_identity found s :
  us_server_name (filled found s) = us_server_name s ∧ us_transport (filled found s) = us_transport s ∧
  us_enabled (filled found s) = us_enabled s.
Proof. unfold filled. by repeat case_match. Qed.

Lemma fill_group_names found u : map ug_name (groups (fill found u)) = map ug_name (groups u).
Proof. cbn. by rewrite map_map. Qed.

Lemma resolve_pending_fills w cfg : ∃ found, (resolve_pending w cfg).1 = fill found (upstream cfg).
Proof.
  unfold resolve_pending. destruct (resolve_names _ _ _ _) as [found failed] eqn:Hn. exists found.
  apply resolve_names_spec in Hn as [Hf _]. cbn. apply apply_all, Forall_forall.
  intros [host addrs] Hin. by apply (Hf host).
Qed.

(** A route of the registry built after the lookups, and the server it belongs to. *)
Lemma resolved_route_server sha256 random w cfg proxies rg g gr r :
  build_registry sha256 random (resolve_pending w cfg).1 proxies = Ok rg ->
  NoDup (map ug_name (groups (upstream cfg))) -> g ∈ groups (upstream cfg) ->
  registry_group rg (ug_name g) = Some gr -> r ∈ gr_routes gr ->
  ∃ found s, s ∈ ug_servers g ∧ us_enabled s = true ∧ route_wf (filled found s) r.
Proof.
  destruct (resolve_pending_fills w cfg) as [found ->]. intros Hbuild Hnames Hg Hgr Hr.
  destruct (registry_routes _ _ _ _ _ (with_servers g (filled found)) Hbuild) as (gr' & Hgr' & _ & _ & Hall).
  { by rewrite fill_group_names. }
  { cbn. apply list_elem_of_fmap. by exists g. }
  cbn in Hgr'. rewrite Hgr in Hgr'. injection Hgr' as <-.
  apply Hall in Hr as (s' & Hs' & He & Hc). apply list_elem_of_fmap in Hs' as (s & -> & Hs).
  exists found, s. split; [done|]. split; [by rewrite <- (proj2 (proj2 (filled_identity found s)))|].
  by eapply configured_wf.
Qed.

Lemma filled_name found s :
  us_name (filled found s) = us_name s ∧ effective_port (filled found s) = effective_port s.
Proof. unfold filled, effective_port. by repeat case_match. Qed.

Lemma filled_addresses found s : us_addresses s ≠ [] -> us_addresses (filled found s) = us_addresses s.
Proof. intros Hne. unfold filled. by destruct (us_addresses s) eqn:Ha; [|rewrite Ha]. Qed.

Lemma NoDup_map_inj {A B} (f : A -> B) l x y : NoDup (map f l) -> x ∈ l -> y ∈ l -> f x = f y -> x = y.
Proof.
  intros Hnd (i & Hi)%list_elem_of_lookup (j & Hj)%list_elem_of_lookup E.
  assert (i = j) as ->; [|congruence]. rewrite NoDup_alt in Hnd.
  apply (Hnd i j (f x)); rewrite list_lookup_fmap; [by rewrite Hi|rewrite Hj; cbn; by rewrite E].
Qed.

(** C16. A forged answer to a lookup cannot change whom a route trusts: whatever the resolvers
    and the system returned, each encrypted route built afterwards authenticates the name
    that its own server, the one the route is named after, was given in the configuration. *)
Theorem lookups_cannot_redirect sha256 random w cfg proxies rg g gr r
    (Hbuild : build_registry sha256 random (resolve_pending w cfg).1 proxies = Ok rg)
    (Hnames : NoDup (map ug_name (groups (upstream cfg)))) (Hg : g ∈ groups (upstream cfg))
    (Hservers : NoDup (map us_name (ug_servers g)))
    (Hgr : registry_group rg (ug_name g) = Some gr) (Hr : r ∈ gr_routes gr)
    (Henc : is_encrypted (rk_transport (rt_key r)) = true) :
  (∃ s, s ∈ ug_servers g ∧ us_name s = rk_server (rt_key r)) ∧
  ∀ s, s ∈ ug_servers g -> us_name s = rk_server (rt_key r) ->
    ∃ name, us_server_name s = Some name ∧ identity (cc_protocol (rt_connection r)) = Some name.
Proof.
  destruct (resolved_route_server _ _ _ _ _ _ _ _ _ Hbuild Hnames Hg Hgr Hr) as (found & s & Hs & _ & Hwf).
  destruct (wf_server _ _ Hwf) as [Hn _]. rewrite (proj1 (filled_name found s)) in Hn.
  split; [by exists s|]. intros s' Hs' Hn'.
  assert (s' = s) as -> by (eapply (NoDup_map_inj us_name); [exact Hservers|done|done|congruence]).
  destruct (wf_identity _ _ Hwf Henc) as (name & Hname & Hi & _). exists name. split; [|done].
  by rewrite <- (proj1 (filled_identity found s)).
Qed.

(** ** No route to ourselves *)

Lemma no_cycles local cfg g s addr :
  detect_cycles local cfg = [] -> g ∈ groups (upstream cfg) -> s ∈ ug_servers g -> us_enabled s = true ->
  addr ∈ us_addresses s ->
  cycles_at (udp_listen (server cfg) ++ tcp_listen (server cfg)) local s addr = [].
Proof.
  unfold detect_cycles. cbn zeta. generalize (udp_listen (server cfg) ++ tcp_listen (server cfg)) as ls.
  intros ls H Hg Hs He Ha.
  assert (∀ A B (f : A -> list B) l x, flat_map f l = [] -> x ∈ l -> f x = []) as Hflat.
  { intros A B f l x. induction l as [|y l IH]; cbn; [by intros _ ?%elem_of_nil|].
    intros [H1 H2]%app_nil [->|Hx]%elem_of_cons; [done|by apply IH]. }
  apply (Hflat _ _ _ _ g) in H; [|done]. apply (Hflat _ _ _ _ s) in H; [|].
  - by apply (Hflat _ _ _ _ addr) in H.
  - apply list_elem_of_In, filter_In. by rewrite <- list_elem_of_In.
Qed.

(** The address is not a listener's, and on a port a wildcard listener has it is neither
    loopback nor one of the host's. *)
Definition elsewhere (listeners : list SocketAddr) (local : list IpAddr) (addr : IpAddr) (port : Z) : Prop :=
  ((addr, port) ∉ listeners) ∧
  ∀ l, l ∈ listeners -> is_unspecified l.1 = true -> l.2 = port -> is_loopback addr = false ∧ addr ∉ local.

Lemma cycles_at_elsewhere listeners local s addr :
  cycles_at listeners local s addr = [] -> elsewhere listeners local addr (effective_port s).
Proof.
  unfold cycles_at. cbn zeta. intros Hn.
  destruct (bool_decide ((addr, effective_port s) ∈ listeners)) eqn:Hd; [done|]. apply bool_decide_eq_false in Hd.
  split; [done|]. intros l Hl Hun Hport. rewrite bool_decide_true in Hn.
  - destruct (is_loopback _); [done|]. split; [done|]. intros Hloc. by rewrite bool_decide_true in Hn.
  - rewrite <- Hport. apply list_elem_of_fmap. exists l. split; [done|].
    apply list_elem_of_In, filter_In. split; [by apply list_elem_of_In|done].
Qed.

(** C17. Started up in the order the program does it, with the check of the bootstrap graph
    first, then the lookups, then the registry: when the check reports nothing, a route of
    a server that was configured with addresses goes to one of these and does not lead
    back here.  A server that was given by name only is not checked, and its routes go
    wherever the lookup said. *)
Theorem no_route_to_ourselves sha256 random w local cfg proxies rg g gr r
    (Hcycles : detect_cycles local cfg = [])
    (Hbuild : build_registry sha256 random (resolve_pending w cfg).1 proxies = Ok rg)
    (Hnames : NoDup (map ug_name (groups (upstream cfg)))) (Hg : g ∈ groups (upstream cfg))
    (Hservers : NoDup (map us_name (ug_servers g)))
    (Hgr : registry_group rg (ug_name g) = Some gr) (Hr : r ∈ gr_routes gr) :
  ∀ s, s ∈ ug_servers g -> us_name s = rk_server (rt_key r) -> us_addresses s ≠ [] ->
    rk_addr (rt_key r) ∈ us_addresses s ∧
    elsewhere (udp_listen (server cfg) ++ tcp_listen (server cfg)) local (rk_addr (rt_key r))
      (cc_port (rt_connection r)).
Proof.
  destruct (resolved_route_server _ _ _ _ _ _ _ _ _ Hbuild Hnames Hg Hgr Hr) as (found & s & Hs & He & Hwf).
  destruct (wf_server _ _ Hwf) as [Hn Ha]. destruct (filled_name found s) as [Hfn Hfp]. rewrite Hfn in Hn.
  intros s' Hs' Hn' Hne.
  assert (s' = s) as -> by (eapply (NoDup_map_inj us_name); [exact Hservers|done|done|congruence]).
  rewrite filled_addresses in Ha by done. split; [done|]. rewrite (wf_port _ _ Hwf), Hfp.
  apply cycles_at_elsewhere. by eapply no_cycles.
Qed.

(** ** Concrete registries *)

Section witnesses.
#[local] Existing Instance ipnet_reference.
#[local] Existing Instance plain_urls.

Definition no_digest : list Z -> list Z := λ _, [1; 2; 3; 4; 5; 6; 7; 8].
Definition no_random : RouteKey -> Z := λ _, 0.

Definition registry_of (u : UpstreamConfig) (proxies : list ProxyEndpoint) : UpstreamRegistry :=
  match build_registry no_digest no_random u proxies with
  | Ok rg => rg
  | Err _ => mk_UpstreamRegistry ∅ []
  end.

Definition default_routes (rg : UpstreamRegistry) : list Route :=
  match registry_group rg (lit "default") with Some g => gr_routes g | None => [] end.

(** One server of each kind through one proxy. *)
Definition mixed : UpstreamConfig :=
  tree_of [lit "1.1.1.1"; lit "tls://dns.example.net?addr=192.0.2.1"; lit "quic://dns.example.net?addr=192.0.2.1"].

(** The way out of each route of [mixed]: a QUIC route is listed under the proxy although
    no proxy carries datagrams, and the socket it is given is a direct one. *)
Theorem quic_routes_bypass_the_proxy :
  map (λ r, (rk_transport (rt_key r), rt_egress r)) (default_routes (registry_of mixed [office_proxy]))
  = [(Udp, Direct); (Tcp, Direct); (Tcp, ThroughProxy office_proxy);
     (Dot, Direct); (Dot, ThroughProxy office_proxy);
     (Doq, Direct); (Doq, ThroughProxy office_proxy)] ∧
  egress_carries_udp (ThroughProxy office_proxy) = false.
Proof. split; vm_compute; reflexivity. Qed.

Definition default_gc (u : UpstreamConfig) : UpstreamGroupConfig :=
  match groups u with g :: _ => g | [] => mk_UpstreamGroupConfig [] [] default_SchedulerConfig end.


Lemma validated_configuration_builds_witness :
  ∃ rg, build_registry no_digest no_random (upstream plain) [office_proxy] = Ok rg ∧
    ∀ name, is_Some (registry_group rg name).
Proof.
  apply (validated_configuration_builds no_digest no_random plain [office_proxy]). vm_compute. reflexivity.
Defined.

Definition dot_route : Route :=
  default (route_of no_digest no_random (mk_UpstreamServerConfig [] Authority Udp [] None None None None 0
             false None false None) Udp (V4 0) Direct false (mk_ConnectionConfig PcUdp 0 None))
    (default_routes (registry_of mixed [office_proxy]) !! 3%nat).

Lemma routes_are_well_formed_witness :
  ∃ s, s ∈ ug_servers (default_gc mixed) ∧ us_enabled s = true ∧ route_wf s dot_route.
Proof.
  apply (routes_are_well_formed no_digest no_random mixed [office_proxy] (registry_of mixed [office_proxy])
    (default_gc mixed) (mk_UpstreamGroup (lit "default") (default_routes (registry_of mixed [office_proxy]))
       default_SchedulerConfig) dot_route).
  - vm_compute. reflexivity.
  - apply NoDup_singleton.
  - apply list_elem_of_singleton. reflexivity.
  - vm_compute. reflexivity.
  - apply (list_elem_of_lookup_2 _ 3). vm_compute. reflexivity.
Defined.

Lemma route_identities_are_unique_witness :
  NoDup (map rt_key (default_routes (registry_of mixed [office_proxy]))).
Proof.
  apply (route_identities_are_unique no_digest no_random [office_proxy] (default_gc mixed)).
  - apply NoDup_singleton.
  - apply (bool_decide_unpack _). vm_compute. reflexivity.
  - apply Forall_forall. apply (bool_decide_unpack _). vm_compute. reflexivity.
  - vm_compute. reflexivity.
Defined.
(** A resolver named by its certificate only, beside one that is an address; the lookup
    answers with an address of an attacker. *)
Definition named : Config := config_of (tree_of [lit "9.9.9.9"; lit "tls://dns.example.net"]).

Definition answering_world (answer : str) : LookupWorld :=
  mk_LookupWorld (λ _ _ rtype, if String.eqb rtype "A" then Answered [answer] else Failed (lit "timeout"))
    (λ _, true) (λ _, Err (lit "no")) (λ _, true) (λ _, false).

Lemma lookups_only_fill_addresses_witness :
  (resolve_pending (answering_world (lit "203.0.113.9")) named).1 =
  fill [(lit "dns.example.net", [V4 (ipv4 203 0 113 9)])] (upstream named).
Proof.
  apply (lookups_only_fill_addresses (answering_world (lit "203.0.113.9")) named _
    (resolve_pending (answering_world (lit "203.0.113.9")) named).2).
  apply surjective_pairing.
Defined.

Definition resolved : UpstreamConfig := (resolve_pending (answering_world (lit "203.0.113.9")) named).1.

Definition resolved_route : Route :=
  default dot_route (default_routes (registry_of resolved []) !! 2%nat).

Lemma lookups_cannot_redirect_witness :
  rk_addr (rt_key resolved_route) = V4 (ipv4 203 0 113 9) ∧
  ∃ s, s ∈ ug_servers (default_gc (upstream named)) ∧ us_name s = rk_server (rt_key resolved_route).
Proof.
  split; [vm_compute; reflexivity|].
  refine (proj1 (lookups_cannot_redirect no_digest no_random (answering_world (lit "203.0.113.9")) named []
    (registry_of resolved []) (default_gc (upstream named))
    (mk_UpstreamGroup (lit "default") (default_routes (registry_of resolved [])) default_SchedulerConfig)
    resolved_route _ _ _ _ _ _ _)).
  - vm_compute. reflexivity.
  - apply NoDup_singleton.
  - apply list_elem_of_singleton. reflexivity.
  - apply (bool_decide_unpack _). vm_compute. reflexivity.
  - vm_compute. reflexivity.
  - apply (list_elem_of_lookup_2 _ 2). vm_compute. reflexivity.
  - vm_compute. reflexivity.
Defined.

Definition plain_route : Route := default dot_route (default_routes (registry_of resolved []) !! 0%nat).

Lemma no_route_to_ourselves_witness :
  elsewhere (udp_listen default_ServerConfig ++ tcp_listen default_ServerConfig) []
    (V4 (ipv4 9 9 9 9)) 53.
Proof.
  refine (proj2 (no_route_to_ourselves no_digest no_random (answering_world (lit "203.0.113.9")) [] named []
    (registry_of resolved []) (default_gc (upstream named))
    (mk_UpstreamGroup (lit "default") (default_routes (registry_of resolved [])) default_SchedulerConfig)
    plain_route _ _ _ _ _ _ _ (default (mk_UpstreamServerConfig [] Authority Udp [] None None None None 0
             false None false None) (ug_servers (default_gc (upstream named)) !! 0%nat)) _ _ _)).
  - vm_compute. reflexivity.
  - vm_compute. reflexivity.
  - apply NoDup_singleton.
  - apply list_elem_of_singleton. reflexivity.
  - apply (bool_decide_unpack _). vm_compute. reflexivity.
  - vm_compute. reflexivity.
  - apply (list_elem_of_lookup_2 _ 0). vm_compute. reflexivity.
  - apply (list_elem_of_lookup_2 _ 0). vm_compute. reflexivity.
  - vm_compute. reflexivity.
  - vm_compute. discriminate.
Defined.

(** The check runs before names are looked up, so an upstream whose name turns out to be
    this host's own listener passes it. *)
Definition loopback_name : Config := config_of (tree_of [lit "9.9.9.9"; lit "tcp://dns.example.net"]).

Theorem named_cycles_are_not_detected :
  let u := (resolve_pending (answering_world (lit "127.0.0.1")) loopback_name).1 in
  detect_cycles [] loopback_name = [] ∧
  map cc_port (map rt_connection (List.filter (λ r, bool_decide (rk_addr (rt_key r) = V4 (ipv4 127 0 0 1)))
    (default_routes (registry_of u [])))) = [53] ∧
  detect_cycles [] (config_of u) ≠ [].
Proof. vm_compute. split_and!; [done..|discriminate]. Qed.

(** A wildcard listener of one family is taken to own the port on the addresses of the
    other one as well. *)
Theorem wildcard_ignores_the_family :
  cycles_at [(V6 0, 53)] [V4 (ipv4 192 168 1 2)]
    (mk_UpstreamServerConfig (lit "lan") Authority Udp [V4 (ipv4 192 168 1 2)] None None None None 100 true
       None false None) (V4 (ipv4 192 168 1 2)) ≠ [].
Proof. discriminate. Qed.

End witnesses.
