(* ===== verification/Reload.v ===== *)
(** * The reload contract

    [src/config/reload.rs]: the fields that cannot change in a running process, with the
    reasons, the catalogue of them and the list of the fields that can.  The functions
    compare two configurations; what a reload does with the result is in [Runtime]. *)

From Stdlib Require Import Ascii String.
From S2P Require Import Prelude.
From S2P Require Import Floats.
From S2P Require Import Names.
From S2P Require Import Net.
From S2P Require Import Text.
From S2P Require Import Config.
From S2P Require Import Proxy.
From S2P Require Import Datasets.
From S2P Require Import Validate.

Record RestartRequired : Type := mk_RestartRequired { rr_field : str; rr_reason : str }.

#[global] Instance RestartRequired_eq_dec : EqDecision RestartRequired.
Proof. solve_decision. Defined.

(** [!=] on the types the fields have. *)
Definition differs {A} `{EqDecision A} (a b : A) : bool := negb (bool_decide (a = b)).

(** On doubles a NaN differs from itself. *)
Definition f64_differs (a b : f64) : bool := negb (f64_eqb a b).

Definition changed_if (changed : bool) (field reason : string) : list RestartRequired :=
  if changed then [mk_RestartRequired (lit field) (lit reason)] else [].

(** The fields that differ and cannot change live. *)
Definition restart_required (old new : Config) : list RestartRequired :=
  concat [
    changed_if (differs (udp_listen (server old)) (udp_listen (server new)))
      "server.udp_listen"
      "listening sockets are bound once at startup; rebinding could drop queries and may need CAP_NET_BIND_SERVICE";
    changed_if (differs (tcp_listen (server old)) (tcp_listen (server new)))
      "server.tcp_listen"
      "listening sockets are bound once at startup";
    changed_if (differs (udp_reuse_port (server_udp (server old))) (udp_reuse_port (server_udp (server new))))
      "server.udp.reuse_port"
      "SO_REUSEPORT changes the socket topology, which is fixed at bind time";
    changed_if (differs (udp_workers_per_socket (server_udp (server old))) (udp_workers_per_socket (server_udp (server new))))
      "server.udp.workers_per_socket"
      "receive workers are spawned per socket at bind time";
    changed_if (differs (udp_recv_buffer_bytes (server_udp (server old))) (udp_recv_buffer_bytes (server_udp (server new))))
      "server.udp.recv_buffer_bytes"
      "SO_RCVBUF is applied to the socket at bind time";
    changed_if (differs (udp_send_buffer_bytes (server_udp (server old))) (udp_send_buffer_bytes (server_udp (server new))))
      "server.udp.send_buffer_bytes"
      "SO_SNDBUF is applied to the socket at bind time";
    changed_if (differs (metrics_enabled (metrics old)) (metrics_enabled (metrics new))
                || differs (metrics_listen (metrics old)) (metrics_listen (metrics new)))
      "metrics.enabled / metrics.listen"
      "the metrics listener is bound once at startup";
    changed_if (differs (admin_enabled (admin old)) (admin_enabled (admin new))
                || differs (admin_socket (admin old)) (admin_socket (admin new))
                || differs (admin_socket_mode (admin old)) (admin_socket_mode (admin new)))
      "admin.enabled / admin.socket / admin.socket_mode"
      "the admin socket is created once at startup; recreating it would break connected clients and race on the path";
    changed_if (differs (worker_threads (resources old)) (worker_threads (resources new)))
      "resources.worker_threads"
      "the Tokio runtime is built once at startup";
    changed_if (differs (max_blocking_threads (resources old)) (max_blocking_threads (resources new)))
      "resources.max_blocking_threads"
      "the Tokio blocking pool is sized once at startup";
    changed_if (differs (max_inflight_queries (resources old)) (max_inflight_queries (resources new)))
      "resources.max_inflight_queries"
      "the ingress semaphore is sized once at startup";
    changed_if (differs (max_inflight_upstream (resources old)) (max_inflight_upstream (resources new)))
      "resources.max_inflight_upstream"
      "the upstream semaphore is sized once at startup";
    changed_if (differs (systemd_watchdog (resources old)) (systemd_watchdog (resources new)))
      "resources.systemd_watchdog"
      "the watchdog task is spawned once at startup";
    changed_if (differs (cache_max_memory_bytes (cache old)) (cache_max_memory_bytes (cache new))
                || differs (cache_failure_max_entries (cache old)) (cache_failure_max_entries (cache new))
                || differs (cache_variant_max_memory_bytes (cache old)) (cache_variant_max_memory_bytes (cache new)))
      "cache.max_memory_bytes / cache.failure_max_entries / cache.variant_max_memory_bytes"
      "cache capacity is fixed at construction; resizing would mean discarding the cache";
    changed_if (differs (cache_quality_max_entries (cache old)) (cache_quality_max_entries (cache new)))
      "cache.quality_max_entries"
      "the quality store is sized once at startup";
    changed_if (differs (stale_enabled (serve_stale old)) (stale_enabled (serve_stale new))
                || differs (max_stale (serve_stale old)) (max_stale (serve_stale new))
                || differs (cache_internal_max_ttl (cache old)) (cache_internal_max_ttl (cache new)))
      "serve_stale.enabled / serve_stale.max_stale / cache.internal_max_ttl"
      "these determine cache retention, which is fixed when the cache is built";
    changed_if (differs (hot_set_size (prefetch old)) (hot_set_size (prefetch new))
                || differs (transition_table_size (prefetch old)) (transition_table_size (prefetch new))
                || differs (transition_prediction (prefetch old)) (transition_prediction (prefetch new)))
      "prefetch.hot_set_size / prefetch.transition_table_size / prefetch.transition_prediction"
      "the hot set is sized once at startup";
    changed_if (differs (probe_queue_size (probe old)) (probe_queue_size (probe new)))
      "probe.queue_size"
      "the probe channel capacity is fixed at construction";
    changed_if (differs (max_concurrent_validations (dnssec old)) (max_concurrent_validations (dnssec new)))
      "dnssec.max_concurrent_validations"
      "the validation semaphore is sized once at startup";
    changed_if (differs (cf_candidate_pool_max (cloudflare old)) (cf_candidate_pool_max (cloudflare new)))
      "cloudflare.candidate_pool_max"
      "the candidate pool capacity is fixed at construction; resizing would mean discarding validated candidates";
    changed_if (differs (sampling_seed (cf_sampling (cloudflare old))) (sampling_seed (cf_sampling (cloudflare new)))
                || differs (sampling_buckets_per_prefix (cf_sampling (cloudflare old)))
                     (sampling_buckets_per_prefix (cf_sampling (cloudflare new)))
                || f64_differs (sampling_exploit_fraction (cf_sampling (cloudflare old)))
                     (sampling_exploit_fraction (cf_sampling (cloudflare new))))
      "cloudflare.sampling.seed / cloudflare.sampling.buckets_per_prefix / cloudflare.sampling.exploit_fraction"
      "the sampler is built once at startup; rebuilding it would discard per-bucket history";
    changed_if (differs (storage_enabled (storage old)) (storage_enabled (storage new))
                || differs (storage_path (storage old)) (storage_path (storage new))
                || differs (storage_queue_size (storage old)) (storage_queue_size (storage new)))
      "storage.enabled / storage.path / storage.queue_size"
      "the database connection and its write queue are opened once at startup";
    changed_if (differs (log_level (logging old)) (log_level (logging new))
                || differs (log_json (logging old)) (log_json (logging new)))
      "logging.level / logging.json"
      "the tracing subscriber is installed once at startup" ].

(** The fields a reload applies. *)
Definition RELOADABLE : list str :=
  [ lit "proxies"; lit "upstreams"; lit "tls.extra_ca_files"; lit "tls.quic_zero_rtt";
    lit "tls.session_resumption"; lit "tls.use_system_roots"; lit "admin.max_request_bytes";
    lit "cache.failure_max_ttl"; lit "cache.failure_min_ttl"; lit "cache.negative_max_ttl";
    lit "cloudflare.allow_domains"; lit "cloudflare.augment.max_added";
    lit "cloudflare.augment.min_advantage"; lit "cloudflare.augment.min_samples";
    lit "cloudflare.augment.min_validations"; lit "cloudflare.augment.validation_ttl";
    lit "cloudflare.deny_domains"; lit "cloudflare.enabled"; lit "cloudflare.mode";
    lit "cloudflare.official.api_token_env"; lit "cloudflare.official.api_token_file";
    lit "cloudflare.official.api_url"; lit "cloudflare.official.cache_file";
    lit "cloudflare.official.ipv4_url"; lit "cloudflare.official.ipv6_url";
    lit "cloudflare.official.max_response_bytes"; lit "cloudflare.official.min_ipv4_prefixes";
    lit "cloudflare.official.min_ipv6_prefixes"; lit "cloudflare.official.refresh_interval";
    lit "cloudflare.official.timeout"; lit "cloudflare.probe_hosts";
    lit "cloudflare.sampling.addresses_per_round"; lit "cloudflare.sampling.enabled";
    lit "cloudflare.sampling.max_new_candidates_per_hour"; lit "cloudflare.sampling.round_interval";
    lit "cloudflare.seeds.enabled"; lit "cloudflare.seeds.endpoints.enabled";
    lit "cloudflare.seeds.endpoints.name"; lit "cloudflare.seeds.endpoints.url";
    lit "cloudflare.seeds.max_addresses_per_response"; lit "cloudflare.seeds.max_response_bytes";
    lit "cloudflare.seeds.refresh_interval"; lit "cloudflare.seeds.resolve_hostnames";
    lit "cloudflare.seeds.timeout"; lit "cloudflare.static_candidates"; lit "datasets.asn_mmdb";
    lit "datasets.domain_category_files"; lit "datasets.geoip_mmdb"; lit "datasets.hosts_files";
    lit "datasets.max_file_bytes"; lit "datasets.max_records"; lit "datasets.reload_interval";
    lit "dnssec.corroborate_negative"; lit "dnssec.extended_errors"; lit "dnssec.max_validation_depth";
    lit "dnssec.mode"; lit "dnssec.proof_completion_timeout"; lit "dnssec.trust_anchor_file";
    lit "dnssec.trust_upstream_ad"; lit "dnssec.validation_cache_entries"; lit "ecs.egress.ipv4";
    lit "ecs.egress.ipv6"; lit "ecs.mode"; lit "local.hosts.addresses"; lit "local.hosts.name";
    lit "local.local_ttl"; lit "local.suffix_rules.group"; lit "local.suffix_rules.suffix";
    lit "local.zones.authoritative"; lit "local.zones.name"; lit "local.zones.records.name";
    lit "local.zones.records.rtype"; lit "local.zones.records.ttl"; lit "local.zones.records.value";
    lit "logging.query_log"; lit "logging.query_log_sample"; lit "metrics.allow_non_loopback";
    lit "network.confidence_decay_on_change"; lit "network.debounce"; lit "network.enabled";
    lit "network.poll_interval"; lit "network.reference_v4"; lit "network.reference_v6";
    lit "network.relearn_window"; lit "prefetch.enabled"; lit "prefetch.global_qps";
    lit "prefetch.min_hits"; lit "prefetch.per_key_min_interval"; lit "prefetch.trigger_fraction";
    lit "prefetch.warm_on_start"; lit "probe.allow_special_use_targets"; lit "probe.concurrency";
    lit "probe.daily_bandwidth_budget_bytes"; lit "probe.enable_http3"; lit "probe.enabled";
    lit "probe.extra_ports"; lit "probe.global_connections_per_second"; lit "probe.http_timeout";
    lit "probe.max_candidates_per_rrset"; lit "probe.max_response_bytes";
    lit "probe.per_domain_cooldown"; lit "probe.per_ip_cooldown"; lit "probe.per_prefix_cooldown";
    lit "probe.profiles.allowed_status"; lit "probe.profiles.alpn"; lit "probe.profiles.body_sha256";
    lit "probe.profiles.domains"; lit "probe.profiles.method"; lit "probe.profiles.name";
    lit "probe.profiles.path"; lit "probe.profiles.required_header.name";
    lit "probe.profiles.required_header.value"; lit "probe.profiles.required_issuer_cn";
    lit "probe.profiles.spki_sha256"; lit "probe.tcp_timeout"; lit "probe.tls_timeout";
    lit "ranking.consecutive_failure_base"; lit "ranking.enabled"; lit "ranking.evidence_half_life";
    lit "ranking.exploration_rate"; lit "ranking.failure_penalty_ms"; lit "ranking.hysteresis";
    lit "ranking.jitter_weight"; lit "ranking.min_successes_to_lead"; lit "ranking.neutral_cost_ms";
    lit "ranking.sample_max_age"; lit "ranking.stale_sample_penalty_ms"; lit "ranking.tail_weight";
    lit "ranking.uncertainty_penalty_ms"; lit "serve_stale.client_timeout";
    lit "serve_stale.include_ede"; lit "serve_stale.retry_interval"; lit "server.allow_from";
    lit "server.any_policy"; lit "server.deny_from"; lit "server.foreground_budget";
    lit "server.rate_limit.client_table_size"; lit "server.rate_limit.enabled";
    lit "server.rate_limit.global_burst"; lit "server.rate_limit.global_qps";
    lit "server.rate_limit.per_client_burst"; lit "server.rate_limit.per_client_qps";
    lit "server.special_use"; lit "server.tcp.advertise_edns_keepalive"; lit "server.tcp.idle_timeout";
    lit "server.tcp.max_connection_lifetime"; lit "server.tcp.max_connections";
    lit "server.tcp.max_connections_per_client"; lit "server.tcp.max_message_bytes";
    lit "server.tcp.max_pipelined_queries"; lit "server.udp.max_payload";
    lit "server.udp.non_edns_max_payload"; lit "storage.flush_interval";
    lit "storage.max_candidate_rows"; lit "storage.max_hot_rows"; lit "storage.max_quality_rows";
    lit "storage.row_max_age"; lit "ttl.cap_cloudflare_augment"; lit "ttl.cap_cloudflare_preserve";
    lit "ttl.cap_default"; lit "ttl.cap_network_change"; lit "ttl.cap_optimized_multi";
    lit "ttl.cap_serve_stale"; lit "ttl.network_change_window" ].

(** ** The catalogue *)

Definition default_EcsConfig : EcsConfig := mk_EcsConfig EcsDisabled (mk_EcsScope None None).

(** A DoT server of the built-in defaults. *)
Definition dot_default (name host : string) (addresses : list IpAddr) : UpstreamServerConfig :=
  mk_UpstreamServerConfig (lit name) Authority Dot addresses None (Some (lit host)) None None 100 true None
    false None.

Definition default_upstreams : list UpstreamServerConfig :=
  [dot_default "cloudflare-dot" "cloudflare-dns.com" [V4 (ipv4 1 1 1 1); V4 (ipv4 1 0 0 1)];
   dot_default "quad9-dot" "dns.quad9.net" [V4 (ipv4 9 9 9 9); V4 (ipv4 149 112 112 112)]].

Definition default_UpstreamConfig : UpstreamConfig :=
  mk_UpstreamConfig (lit "default")
    [mk_UpstreamGroupConfig (lit "default") default_upstreams default_SchedulerConfig]
    default_UpstreamTlsConfig.

Definition default_LocalConfig : Snapshot.LocalConfig := Snapshot.mk_LocalConfig [] [] [] 60.

Definition default_Config : Config := {|
  upstreams := [];
  local_forwarder := None;
  proxies := [];
  server := default_ServerConfig;
  cache := default_CacheConfig;
  ttl := default_TtlConfig;
  ranking := default_RankingConfig;
  serve_stale := default_ServeStaleConfig;
  prefetch := default_PrefetchConfig;
  tls := default_UpstreamTlsConfig;
  proxy := [];
  upstream := default_UpstreamConfig;
  dnssec := default_DnssecConfig;
  trust_anchor_file := None;
  ecs := default_EcsConfig;
  probe := default_ProbeConfig;
  profiles := [];
  network := default_NetworkConfig;
  cloudflare := default_CloudflareConfig;
  datasets := default_DatasetsConfig;
  local := default_LocalConfig;
  storage := default_StorageConfig;
  metrics := default_MetricsConfig;
  logging := default_LoggingConfig;
  admin := default_AdminConfig;
  resources := default_ResourceConfig
|}.

(** Assignments to the sections the mutations change. *)
Record Assign : Type := mk_Assign {
  as_server : ServerConfig -> ServerConfig;
  as_cache : CacheConfig -> CacheConfig;
  as_serve_stale : ServeStaleConfig -> ServeStaleConfig;
  as_prefetch : PrefetchConfig -> PrefetchConfig;
  as_dnssec : DnssecConfig -> DnssecConfig;
  as_probe : ProbeConfig -> ProbeConfig;
  as_cloudflare : CloudflareConfig -> CloudflareConfig;
  as_storage : StorageConfig -> StorageConfig;
  as_metrics : MetricsConfig -> MetricsConfig;
  as_logging : LoggingConfig -> LoggingConfig;
  as_admin : AdminConfig -> AdminConfig;
  as_resources : ResourceConfig -> ResourceConfig
}.

Definition assign (a : Assign) (c : Config) : Config := {|
  upstreams := upstreams c;
  local_forwarder := local_forwarder c;
  proxies := proxies c;
  server := as_server a (server c);
  cache := as_cache a (cache c);
  ttl := ttl c;
  ranking := ranking c;
  serve_stale := as_serve_stale a (serve_stale c);
  prefetch := as_prefetch a (prefetch c);
  tls := tls c;
  proxy := proxy c;
  upstream := upstream c;
  dnssec := as_dnssec a (dnssec c);
  trust_anchor_file := trust_anchor_file c;
  ecs := ecs c;
  probe := as_probe a (probe c);
  profiles := profiles c;
  network := network c;
  cloudflare := as_cloudflare a (cloudflare c);
  datasets := datasets c;
  local := local c;
  storage := as_storage a (storage c);
  metrics := as_metrics a (metrics c);
  logging := as_logging a (logging c);
  admin := as_admin a (admin c);
  resources := as_resources a (resources c)
|}.

Definition on_server f : Config -> Config := assign (mk_Assign f id id id id id id id id id id id).
Definition on_cache f : Config -> Config := assign (mk_Assign id f id id id id id id id id id id).
Definition on_serve_stale f : Config -> Config := assign (mk_Assign id id f id id id id id id id id id).
Definition on_prefetch f : Config -> Config := assign (mk_Assign id id id f id id id id id id id id).
Definition on_dnssec f : Config -> Config := assign (mk_Assign id id id id f id id id id id id id).
Definition on_probe f : Config -> Config := assign (mk_Assign id id id id id f id id id id id id).
Definition on_cloudflare f : Config -> Config := assign (mk_Assign id id id id id id f id id id id id).
Definition on_storage f : Config -> Config := assign (mk_Assign id id id id id id id f id id id id).
Definition on_metrics f : Config -> Config := assign (mk_Assign id id id id id id id id f id id id).
Definition on_logging f : Config -> Config := assign (mk_Assign id id id id id id id id id f id id).
Definition on_admin f : Config -> Config := assign (mk_Assign id id id id id id id id id id f id).
Definition on_resources f : Config -> Config := assign (mk_Assign id id id id id id id id id id id f).

Definition set_listen (udp tcp : option (list SocketAddr)) (s : ServerConfig) : ServerConfig :=
  mk_ServerConfig (default (udp_listen s) udp) (default (tcp_listen s) tcp) (allow_from s) (deny_from s)
    (foreground_budget s) (any_policy s) (special_use s) (server_udp s) (server_tcp s) (rate_limit s).

Definition on_udp (f : UdpConfig -> UdpConfig) : Config -> Config :=
  on_server (λ s, mk_ServerConfig (udp_listen s) (tcp_listen s) (allow_from s) (deny_from s)
    (foreground_budget s) (any_policy s) (special_use s) (f (server_udp s)) (server_tcp s) (rate_limit s)).

Definition ALTERNATE_LISTEN : SocketAddr := (V4 (ipv4 127 0 0 1), 5399).

Definition MUTATIONS : list (Config -> Config) := [
  on_server (set_listen (Some [ALTERNATE_LISTEN]) None);
  on_server (set_listen None (Some [ALTERNATE_LISTEN]));
  on_udp (λ u, mk_UdpConfig (udp_max_payload u) (udp_non_edns_max_payload u) (udp_recv_buffer_bytes u)
                 (udp_send_buffer_bytes u) (negb (udp_reuse_port u)) (udp_workers_per_socket u));
  on_udp (λ u, mk_UdpConfig (udp_max_payload u) (udp_non_edns_max_payload u) (udp_recv_buffer_bytes u)
                 (udp_send_buffer_bytes u) (udp_reuse_port u) (udp_workers_per_socket u + 1));
  on_udp (λ u, mk_UdpConfig (udp_max_payload u) (udp_non_edns_max_payload u) (Some (Z.shiftl 1 20))
                 (udp_send_buffer_bytes u) (udp_reuse_port u) (udp_workers_per_socket u));
  on_udp (λ u, mk_UdpConfig (udp_max_payload u) (udp_non_edns_max_payload u) (udp_recv_buffer_bytes u)
                 (Some (Z.shiftl 1 20)) (udp_reuse_port u) (udp_workers_per_socket u));
  on_metrics (λ m, mk_MetricsConfig (negb (metrics_enabled m)) (metrics_listen m)
                     (metrics_allow_non_loopback m));
  on_admin (λ a, mk_AdminConfig (negb (admin_enabled a)) (admin_socket a) (admin_socket_mode a)
                   (admin_max_request_bytes a));
  on_resources (λ r, mk_ResourceConfig (Some 3) (max_inflight_queries r) (max_inflight_upstream r)
                       (max_blocking_threads r) (systemd_watchdog r));
  on_resources (λ r, mk_ResourceConfig (worker_threads r) (max_inflight_queries r) (max_inflight_upstream r)
                       (max_blocking_threads r + 1) (systemd_watchdog r));
  on_resources (λ r, mk_ResourceConfig (worker_threads r) (max_inflight_queries r + 1)
                       (max_inflight_upstream r) (max_blocking_threads r) (systemd_watchdog r));
  on_resources (λ r, mk_ResourceConfig (worker_threads r) (max_inflight_queries r)
                       (max_inflight_upstream r + 1) (max_blocking_threads r) (systemd_watchdog r));
  on_resources (λ r, mk_ResourceConfig (worker_threads r) (max_inflight_queries r) (max_inflight_upstream r)
                       (max_blocking_threads r) (negb (systemd_watchdog r)));
  on_cache (λ c, mk_CacheConfig (cache_max_memory_bytes c + 1048576) (cache_failure_max_entries c)
                   (cache_variant_max_memory_bytes c) (cache_quality_max_entries c)
                   (cache_internal_max_ttl c) (cache_negative_max_ttl c) (cache_failure_min_ttl c)
                   (cache_failure_max_ttl c));
  on_cache (λ c, mk_CacheConfig (cache_max_memory_bytes c) (cache_failure_max_entries c)
                   (cache_variant_max_memory_bytes c) (cache_quality_max_entries c + 1)
                   (cache_internal_max_ttl c) (cache_negative_max_ttl c) (cache_failure_min_ttl c)
                   (cache_failure_max_ttl c));
  on_serve_stale (λ s, mk_ServeStaleConfig (negb (stale_enabled s)) (max_stale s) (client_timeout s)
                         (retry_interval s) (include_ede s));
  on_prefetch (λ p, mk_PrefetchConfig (prefetch_enabled p) (trigger_fraction p) (min_hits p)
                      (S (hot_set_size p)) (prefetch_global_qps p) (per_key_min_interval p)
                      (warm_on_start p) (transition_prediction p) (transition_table_size p));
  on_probe (λ p, mk_ProbeConfig (probe_enabled p) (S (probe_queue_size p)) (probe_concurrency p)
                   (global_connections_per_second p) (tcp_timeout p) (tls_timeout p) (http_timeout p)
                   (per_ip_cooldown p) (per_prefix_cooldown p) (per_domain_cooldown p)
                   (max_candidates_per_rrset p) (extra_ports p) (max_response_bytes p) (enable_http3 p)
                   (daily_bandwidth_budget_bytes p) (allow_special_use_targets p));
  on_dnssec (λ d, mk_DnssecConfig (dnssec_mode d) (trust_upstream_ad d) (max_concurrent_validations d + 1)
                    (validation_cache_entries d) (max_validation_depth d) (extended_errors d)
                    (corroborate_negative_cfg d) (proof_completion_timeout d));
  on_cloudflare (λ c, mk_CloudflareConfig (cf_enabled c) (cf_mode c) (cf_official c) (cf_seeds c)
                        (cf_sampling c) (cf_augment c) (cf_probe_hosts c) (cf_allow_domains c)
                        (cf_deny_domains c) (cf_candidate_pool_max c + 1) (cf_static_candidates c));
  on_cloudflare (λ c, mk_CloudflareConfig (cf_enabled c) (cf_mode c) (cf_official c) (cf_seeds c)
                        (let s := cf_sampling c in
                         mk_SamplingConfig (sampling_enabled s) (sampling_round_interval s)
                           (sampling_addresses_per_round s) (sampling_max_new_per_hour s)
                           (sampling_buckets_per_prefix s) (sampling_exploit_fraction s)
                           (sampling_seed s + 1))
                        (cf_augment c) (cf_probe_hosts c) (cf_allow_domains c) (cf_deny_domains c)
                        (cf_candidate_pool_max c) (cf_static_candidates c));
  on_storage (λ s, mk_StorageConfig (negb (storage_enabled s)) (storage_path s) (storage_flush_interval s)
                     (storage_queue_size s) (max_quality_rows s) (max_hot_rows s) (max_candidate_rows s)
                     (row_max_age s));
  on_logging (λ l, mk_LoggingConfig (log_level l) (negb (log_json l)) (query_log l) (query_log_sample l)) ].

Definition catalog : list RestartRequired :=
  flat_map (λ mutate, restart_required default_Config (mutate default_Config)) MUTATIONS.

Definition describe (items : list RestartRequired) : str :=
  lit "reload refused: these fields require a restart:"
  ++ flat_map (λ i, [newline] ++ lit "  - " ++ rr_field i ++ lit ": " ++ rr_reason i) items
  ++ [newline] ++ lit "Revert them, or restart the service to apply them.".

(** ** The contract *)

Lemma changed_sublist b field reason (rest l : list RestartRequired) :
  sublist rest l -> sublist (changed_if b field reason ++ rest) (mk_RestartRequired (lit field) (lit reason) :: l).
Proof. intros H. destruct b; cbn; by constructor. Qed.

(** The catalogue never drifts from the check: each of its mutations changes exactly one
    group of fields, no group is listed twice, and whatever two configurations a reload
    compares, the fields it refuses are entries of the catalogue, with their reasons and
    in its order. *)
Theorem catalog_covers_every_refusal :
  Forall (λ mutate, length (restart_required default_Config (mutate default_Config)) = 1%nat) MUTATIONS ∧
  NoDup (map rr_field catalog) ∧
  ∀ old new, sublist (restart_required old new) catalog.
Proof.
  split_and!.
  - repeat constructor.
  - apply (bool_decide_unpack _). vm_compute. reflexivity.
  - intros old new. assert (∃ l, catalog = l) as [l Hl] by by eexists. rewrite Hl.
    vm_compute in Hl. subst l. unfold restart_required. cbn [concat].
    repeat apply changed_sublist. constructor.
Qed.

(** The paths of a group of fields. *)
Definition field_paths (field : str) : list str :=
  List.filter (λ w, negb (str_eqb w (lit "/"))) (split_whitespace field).

(** No field is both refused and applied, and none is listed twice. *)
Theorem contract_is_a_partition :
  NoDup (flat_map field_paths (map rr_field catalog) ++ RELOADABLE).
Proof. apply (bool_decide_unpack _). vm_compute. reflexivity. Qed.
