(* ===== verification/Augment.v ===== *)
(** * Where a served address comes from

    [build_response] of [src/dns/resolver.rs] together with the candidate state of
    [src/cloudflare/state.rs]: what the answer policy is given of it, and the
    theorem that an address a client is sent is either in the cached answer or has
    earned its place. *)

From Stdlib Require Import Ascii String.
From S2P Require Import Prelude.
From S2P Require Import Hashing.
From S2P Require Import Floats.
From S2P Require Import Names.
From S2P Require Import Net.
From S2P Require Import Config.
From S2P Require Import Dns.
From S2P Require Import Message.
From S2P Require Import EdnsOptions.
From S2P Require Import DnssecPolicy.
From S2P Require Import Prefixes.
From S2P Require Import CloudflarePolicy.
From S2P Require Import Quality.
From S2P Require Import Ranking.
From S2P Require Import AnswerPolicy.
From S2P Require Import Evidence.
From S2P Require Import Candidates.
From S2P Require Import Cache.
From S2P Require Import Resolver.
From S2P Require Import ResolverResponse.

Section augment.
Context {Name : Type} {NLib : NameLib Name} {ML : MokaLib CacheKey} {OL : OptLib}.
Context {IPL : IpNetLib} {FL : FloatLib}.
Context {HA : HashOrder IpAddr} {HV : HashOrder (list ascii * IpAddr)}.
Context (rfr : Metadata -> Metadata) (strip : Message Name -> Message Name).
Context {RL : ResponseLaws rfr strip}.

(** What the measurements say of an address, for the augmentation policy. *)
Definition series_cost (ranking : RankingConfig) (store : QualityStore) (host : str) (now : Instant)
    (a : IpAddr) : f64 * Z :=
  match store_get store (https_key a 443 host) with
  | Some s => (expected_cost s ranking now, q_samples s)
  | None => (neutral_cost_ms ranking, 0)
  end.

(** The shared state the resolver reads while it builds an answer. *)
Record SharedState : Type := mk_SharedState {
  sh_cloudflare : CloudflareState;
  sh_quality : QualityStore;
  sh_services : ServiceClassifier
}.

(** The environment of the answer policy; what is configuration, the clock or the
    network's state is taken from [base]. *)
Definition policy_env (base : PolicyEnv) (sh : SharedState) (q : Query Name) (now : Instant)
    : PolicyEnv :=
  let qname := name_text (q_name q) in
  {| pe_cloudflare_enabled := pe_cloudflare_enabled base;
     pe_configured_mode := pe_configured_mode base;
     pe_mode_state := pe_mode_state base;
     pe_snapshot := cs_prefixes (sh_cloudflare sh);
     pe_allow_domains := pe_allow_domains base;
     pe_deny_domains := pe_deny_domains base;
     pe_baseline := baseline (sh_cloudflare sh) qname;
     pe_verified :=
       verified_for (sh_cloudflare sh) qname (rtype_eqb (q_type q) RT_A)
         (min_validations (pe_augment base)) (validation_ttl (pe_augment base)) now
         (series_cost (pe_ranking base) (sh_quality sh) qname now);
     pe_is_web := is_web_service (sh_services sh) qname;
     pe_snapshot_for := λ addrs, snapshot_for (sh_quality sh) addrs 443 qname;
     pe_ranking := pe_ranking base;
     pe_augment := pe_augment base;
     pe_recent_change := pe_recent_change base;
     pe_now_unix := pe_now_unix base;
     pe_seed := pe_seed base |}.

(** What an address has to show before it is added for a host. *)
Definition earned (es : list Event) (sh : SharedState) (augment : AugmentConfig) (host : str)
    (now : Instant) (a : IpAddr) : Prop :=
  IpClass.classify a = None ∧
  (∃ snapshot, cs_prefixes (sh_cloudflare sh) = Some snapshot ∧ snapshot_contains snapshot a = true) ∧
  min_validations augment <= streak es (host_key host) a ∧
  (∃ t, validated_at es (host_key host) a t ∧ since now t < validation_ttl augment) ∧
  min_samples augment <= default 0 (q_samples <$> store_get (sh_quality sh) (https_key a 443 host)).

(** C9. Every record a client is sent is accounted for: after any history of the
    candidate state, a record of the answer section is a record of the cached
    answer, aged, or it carries an address that is publicly routable, inside the
    official prefixes in force, validated for this very host the required number
    of times in a row on the present network, the last time within the validity
    window, and measured for this host as often as required; and that only when the
    cached answer was proved insecure. *)
Theorem served_addresses_are_earned cfg base n builtin es sh (request : Message Name) q
    (entry : CacheEntry Name) remaining stale client_do now r
    (Hcloud : sh_cloudflare sh = history (state_new n builtin) es)
    (Hr : r ∈ answers (build_response rfr strip cfg (policy_env base sh q now) request q entry remaining
                         stale client_do now)) :
  (∃ r0, r0 ∈ answers (ent_message entry) ∧ aged_from (age_secs entry now) r0 r) ∨
  (∃ a, record_address r = Some a ∧ ent_dnssec entry = Insecure ∧
     earned es sh (pe_augment base) (name_text (q_name q)) now a).
Proof.
  destruct (response_sections rfr strip cfg (policy_env base sh q now) request q entry remaining stale
    client_do now) as (out & o & Hp & Ha & _ & _).
  rewrite Ha in Hr. destruct (maybe_strip rfr strip client_do out) as (_ & _ & _ & Sa & _). apply Sa in Hr.
  destruct (policy_answer_origin _ _ _ _ _ Hp Hr)
    as [(r0 & Hr0 & ->)|(a & rtype & existing & Hadr & Hacc & Hmode & Hd)].
  - left. apply capped_aged with (oc_client_ttl o). apply list_elem_of_fmap_2. exact Hr0.
  - right. exists a. split_and!; [done|done|].
    destruct Hacc as (c & Hc & <- & Hfresh & _ & Hsamples & _ & Hcf & Hgu & _).
    cbn [cx_verified answer_context cx_snapshot pe_snapshot policy_env pe_verified cx_augment pe_augment]
      in Hc, Hcf, Hsamples.
    destruct (_ && _) in Hc; [|by apply elem_of_nil in Hc].
    rewrite Hcloud in Hc. apply verified_streak in Hc as (Hn & _ & Hw & Hm); [|done].
    split_and!.
    + unfold IpClass.is_global_unicast in Hgu. by destruct (IpClass.classify (vc_addr c)).
    + unfold is_cloudflare in Hcf. destruct (cs_prefixes _) as [snapshot|]; [|done]. by exists snapshot.
    + lia.
    + by apply Hw.
    + rewrite Hm in Hsamples. revert Hsamples. unfold series_cost. by destruct (store_get _ _).
Qed.

(** Without measurements the upstream's order stands. *)
Lemma no_measurements_no_order ctx l : cx_quality ctx = ∅ -> ordered_addresses ctx l = l.
Proof.
  intros Hq. unfold ordered_addresses, order_addresses. rewrite Hq. destruct (_ || _); [done|].
  assert (any_evidence ∅ l = false) as ->; [|done]. unfold any_evidence.
  induction l as [|a l IH]; [done|]. cbn [existsb]. by rewrite lookup_empty.
Qed.

(** A name without evidence of an HTTPS service is left alone: whatever has been
    measured of its addresses, a client that asked for DNSSEC gets the cached answer
    section record for record in the order the upstream gave it, with only the TTLs
    lowered, unless addresses may be added, which takes the augment mode and an
    answer proved insecure. *)
Theorem unknown_services_pass_through cfg base sh (request : Message Name) q
    (entry : CacheEntry Name) remaining stale now
    (Hweb : is_web_service (sh_services sh) (name_text (q_name q)) = false)
    (Hmode : pe_cloudflare_enabled base = false ∨ ent_dnssec entry ≠ Insecure ∨
       ModeOverride.effective_mode (pe_mode_state base) (pe_configured_mode base) ≠ CfVerifiedAugment) :
  ∃ ttl,
    answers (build_response rfr strip cfg (policy_env base sh q now) request q entry remaining stale true now)
    = map (capped_at ttl) (map (λ r, with_ttl r (r_ttl r ⊖ age_secs entry now)) (answers (ent_message entry))).
Proof.
  destruct (response_sections rfr strip cfg (policy_env base sh q now) request q entry remaining stale
    true now) as (out & o & Hp & -> & _ & _).
  exists (oc_client_ttl o). apply (policy_passes_through _ _ _ _) in Hp as H; [exact H| |].
  - intros l. apply no_measurements_no_order. cbn [cx_quality answer_context pe_is_web policy_env].
    by rewrite Hweb.
  - destruct (oc_modified o) eqn:E; [|done]. exfalso.
    destruct (policy_modified_needs _ _ _ _ Hp E) as (H1 & H2 & H3).
    cbn [cx_cloudflare_enabled cx_cloudflare_mode cx_dnssec answer_context policy_env
      pe_cloudflare_enabled pe_mode_state pe_configured_mode] in H1, H2, H3.
    destruct Hmode as [?|[?|?]]; congruence.
Qed.

End augment.

(** ** A concrete augmented answer *)

Section witnesses.
#[local] Existing Instance text_names.
#[local] Existing Instance ipnet_reference.
#[local] Existing Instance moka_assoc.
#[local] Existing Instance opt_list.
#[local] Existing Instance response_floats.
#[local] Existing Instance reference_response.
#[local] Existing Instance addr_order.
#[local] Existing Instance validation_order.
#[local] Existing Instance series_order.

(** The site was reached directly, and then its name was reached at another edge
    three times in a row. *)
Definition well_validated : list Event :=
  three_passes ++ [EvBaseline (lit "www.example.com") true 0].

Definition augmenting_env : PolicyEnv := {|
  pe_cloudflare_enabled := true; pe_configured_mode := CfVerifiedAugment;
  pe_mode_state := ModeOverride.mode_new true CfVerifiedAugment; pe_snapshot := None;
  pe_allow_domains := []; pe_deny_domains := []; pe_baseline := false; pe_verified := [];
  pe_is_web := false; pe_snapshot_for := λ _, ∅;
  pe_ranking := no_exploration; pe_augment := default_AugmentConfig; pe_recent_change := false;
  pe_now_unix := 2000; pe_seed := 1 |}.

(** Twenty quick answers of the other edge, five slow ones of the address served. *)
Definition measured (n : Z) (latency_ms : Z) (times : nat) : list StoreOp :=
  repeat (OpRecord (site n) ObsSuccess (Some (from_millis latency_ms)) 0 (from_secs 5)) times.

Definition well_measured : SharedState :=
  mk_SharedState (history (state_new 8 official) well_validated)
    (store_run no_exploration (measured 1 5 20 ++ measured 7 200 5) (store_new 8))
    (note_https (classifier_new 8) (lit "www.example.com")).

Definition insecure_entry : CacheEntry str :=
  mk_CacheEntry
    (mk_Message (mk_Metadata 1 MtResponse OpQuery false false true true false false NoError)
       [asked] [mk_Record (lit "www.example.com.") IN 300 (RD_A (ipv4 104 16 0 7)) PInsecure] [] [] None)
    0 1000 300 Positive Insecure (mk_AnswerSource (lit "one") Udp) 7 None 512.

Definition augmented_response : Message str :=
  build_response reply_header drop_signatures plain_config
    (policy_env augmenting_env well_measured asked (from_secs 10))
    signed_request asked insecure_entry 290 false true (from_secs 10).

Lemma augmented_addresses :
  map record_address (answers augmented_response) = [Some (edge 1); Some (edge 7)].
Proof. vm_compute. reflexivity. Qed.

Lemma served_addresses_are_earned_witness :
  ∃ r, r ∈ answers augmented_response ∧ record_address r = Some (edge 1) ∧
  earned well_validated well_measured default_AugmentConfig
    (lit "www.example.com.") (from_secs 10) (edge 1).
Proof.
  assert (∀ r, r ∈ answers augmented_response -> _) as H
    by (intros r; exact (served_addresses_are_earned reply_header drop_signatures plain_config augmenting_env 8
      official well_validated well_measured signed_request asked insecure_entry 290 false true
      (from_secs 10) r eq_refl)).
  pose proof augmented_addresses as E. revert H E. generalize (answers augmented_response).
  intros [|r l] H E; [discriminate E|]. injection E as E _. exists r. split; [left|split; [exact E|]].
  destruct (H r) as [(r0 & H0 & Hdata & _)|(a & Ha & _ & Hearned)]; [left| |].
  - exfalso. apply list_elem_of_singleton in H0 as ->. rewrite Hdata in E. injection E as E.
    revert E. vm_compute. discriminate.
  - rewrite E in Ha. injection Ha as <-. exact Hearned.
Defined.

(** The same measurements, but no evidence of a service. *)
Lemma unknown_services_pass_through_witness :
  map record_address (answers (build_response reply_header drop_signatures plain_config
    (policy_env quiet_env (mk_SharedState (sh_cloudflare well_measured) (sh_quality well_measured)
       (classifier_new 8)) asked (from_secs 10))
    signed_request asked secure_entry 290 false true (from_secs 10)))
  = [Some (V4 1); None].
Proof.
  destruct (unknown_services_pass_through reply_header drop_signatures plain_config quiet_env
    (mk_SharedState (sh_cloudflare well_measured) (sh_quality well_measured) (classifier_new 8))
    signed_request asked secure_entry 290 false (from_secs 10) eq_refl (or_introl eq_refl)) as [ttl ->].
  reflexivity.
Defined.

End witnesses.
