(* ===== verification/Server.v ===== *)
(** * The listeners

    [src/dns/server.rs]: what a datagram or a TCP connection goes through before
    and after [Handler].  The tasks the listeners spawn, the connections with their
    channels, and the permits they hold are parts of the state [Ingress]; an
    [Event] is what the runtime lets happen next, so a run is any interleaving of
    them.  Every TCP listener has its own permits and table of clients, made when it
    starts; UDP sockets have no state of their own.

    Parsing and encoding a message are the DNS library's and parameters.  Octets
    are integers from 0 to 255.  Binding sockets, metrics and the text of the query
    log are left out. *)

From Stdlib Require Import Ascii String.
From S2P Require Import Prelude.
From S2P Require Import Hashing.
From S2P Require Import Floats.
From S2P Require Import Names.
From S2P Require Import Net.
From S2P Require Import Config.
From S2P Require Import Dns.
From S2P Require Import Util.
From S2P Require Import Message.
From S2P Require Import EdnsOptions.
From S2P Require Import Cache.
From S2P Require Import Datasets.
From S2P Require Import HotSet.
From S2P Require Import RateLimit.
From S2P Require Import Resolver.
From S2P Require Import ResolverResponse.
From S2P Require Import ResolverFetch.
From S2P Require Import Handler.
From S2P Require Import Validate.

#[local] Instance ClientTransport_eq_dec : EqDecision ClientTransport.
Proof. solve_decision. Defined.

(** ** Frames *)

(** A message on a stream is preceded by its length in two octets. *)
Definition frame (payload : list Z) : list Z :=
  let len := Z.min (Z.of_nat (length payload)) u16_max in
  be_bytes16 len ++ take (Z.to_nat len) payload.

Inductive FrameRead : Type :=
| FrameShort
| FrameRefused
| FrameOk (payload rest : list Z).

Definition next_frame (max_message_bytes : Z) (buf : list Z) : FrameRead :=
  match buf with
  | a :: b :: rest =>
      let len := a * 256 + b in
      if (len =? 0) || (max_message_bytes <? len) then FrameRefused
      else if Z.of_nat (length rest) <? len then FrameShort
      else FrameOk (take (Z.to_nat len) rest) (drop (Z.to_nat len) rest)
  | _ => FrameShort
  end.

(** The messages read from a stream, [fuel] of them at most. *)
Fixpoint read_frames (max_message_bytes : Z) (fuel : nat) (buf : list Z) : list (list Z) :=
  match fuel with
  | O => []
  | S fuel =>
      match next_frame max_message_bytes buf with
      | FrameOk payload rest => payload :: read_frames max_message_bytes fuel rest
      | _ => []
      end
  end.

(** ** The query log *)

Definition logs_query (query_log : bool) (query_log_sample : f64) (id : Z) : bool :=
  if negb query_log then false
  else if f64_leb query_log_sample f64_zero then false
  else if f64_ltb query_log_sample f64_one then
    negb (f64_leb query_log_sample (unit_from_seed id))
  else true.

Definition rcode_label (code : ResponseCode) : str :=
  match code with
  | NoError => lit "noerror"
  | FormErr => lit "formerr"
  | ServFail => lit "servfail"
  | NXDomain => lit "nxdomain"
  | NotImp => lit "notimp"
  | Refused => lit "refused"
  | BADVERS => lit "badvers"
  | _ => lit "other"
  end.

Section server.
Context {Name : Type} {NLib : NameLib Name} {ML : MokaLib CacheKey} {OL : OptLib}.
Context {IPL : IpNetLib} {FL : FloatLib} {WC : WireCodes (Name := Name)}.
Context {IO : HashOrder CacheKey} {F32 : Float32Lib} {GL : GovernorLib}.
Context (rfr : Metadata -> Metadata) (strip : Message Name -> Message Name).
Context (is_dnssec : RecordType -> bool) (wire_len : Message Name -> option Z).
Context (emit : Message Name -> Z -> result str (list Z * bool)).
Context (truncate : Message Name -> Message Name).
Context (parse : list Z -> option (Message Name)).
Implicit Types msg request : Message Name.

(** ** One message *)

(** What a reload replaces as a whole. *)
Record RuntimeState : Type := mk_RuntimeState {
  rt_acl : Acl.Acl;
  rt_limiter : InboundLimiter;
  rt_config : HandlerConfig;
  rt_data : Snapshot.DatasetSnapshot Name;
  rt_resolver : ResolverState (Name := Name)
}.

Definition rt_tcp (st : RuntimeState) : TcpConfig := cf_tcp (hc_resolver (rt_config st)).

Definition with_limiter (st : RuntimeState) (l : InboundLimiter) : RuntimeState :=
  mk_RuntimeState (rt_acl st) l (rt_config st) (rt_data st) (rt_resolver st).
Definition with_resolver (st : RuntimeState) (r : ResolverState (Name := Name)) : RuntimeState :=
  mk_RuntimeState (rt_acl st) (rt_limiter st) (rt_config st) (rt_data st) r.

(** [None] admits; [Some] is the reason not to. *)
Definition admit_client (st : RuntimeState) (client : IpAddr) (now : Instant)
    : option str * RuntimeState :=
  match Acl.acl_evaluate (rt_acl st) client with
  | Acl.Denied => (Some (lit "acl_denied"), st)
  | Acl.NotAllowed => (Some (lit "acl_not_allowed"), st)
  | Acl.Allow =>
      let '(d, l) := RateLimit.check (rt_limiter st) client now in
      (match d with
       | Allow => None
       | ClientLimited => Some (lit "rate_limited_client")
       | GlobalLimited => Some (lit "rate_limited_global")
       end, with_limiter st l)
  end.

(** The message that is encoded: on TCP the keepalive is announced. *)
Definition with_keepalive (st : RuntimeState) (t : ClientTransport) msg : Message Name :=
  if bool_decide (t = ClientTcp) && tcp_advertise_edns_keepalive (rt_tcp st)
     && bool_decide (is_Some (edns msg))
  then insert_option msg (encode_tcp_keepalive (tcp_idle_timeout (rt_tcp st)))
  else msg.

Definition respond (st : RuntimeState) (w : HandleWorld) (bytes : list Z) (t : ClientTransport)
    : option Serialized * RuntimeState :=
  match parse bytes with
  | None => (None, st)
  | Some request =>
      if negb (bool_decide (m_message_type (metadata request) = MtQuery)) then (None, st)
      else
        let '(a, r) := handle rfr strip is_dnssec wire_len (rt_config st) (rt_data st) w
                         (rt_resolver st) request t in
        (match serialize_limited emit truncate (with_keepalive st t (an_message a)) (an_max_size a) with
         | Ok out => Some out
         | Err _ =>
             match serialize_limited emit truncate (error_response rfr request ServFail true)
                     (an_max_size a) with
             | Ok out => Some out
             | Err _ => None
             end
         end, with_resolver st r)
  end.

Definition refuse_client (bytes : list Z) (reason : str) (max_size : Z) : option (list Z) :=
  if starts_with reason (lit "rate_limited") then None
  else
    match parse bytes with
    | None => None
    | Some request =>
        if negb (bool_decide (m_message_type (metadata request) = MtQuery))
           || negb (bool_decide (m_op_code (metadata request) = OpQuery)) then None
        else
          match serialize_limited emit truncate (error_response rfr request Refused false) max_size with
          | Ok out => Some (ser_bytes out)
          | Err _ => None
          end
    end.

(** The task of a datagram: what is sent back. *)
Definition datagram (st : RuntimeState) (w : HandleWorld) (peer : IpAddr) (bytes : list Z)
    (now : Instant) : option (list Z) * RuntimeState :=
  match admit_client st peer now with
  | (Some reason, st) => (refuse_client bytes reason 512, st)
  | (None, st) =>
      let '(out, st) := respond st w bytes ClientUdp in (ser_bytes <$> out, st)
  end.

(** ** The state of the listeners *)

Record Conn : Type := mk_Conn {
  c_peer : IpAddr;
  (** The listener that accepted it. *)
  c_listener : nat;
  (** The settings when the connection was accepted. *)
  c_cfg : TcpConfig;
  (** The read loop runs; the octets that arrived and how many of them it has read;
      a message it holds until a query of the connection ends. *)
  c_reading : bool;
  c_stream : list Z;
  c_pos : nat;
  c_waiting : option (list Z);
  (** Queries of the connection in progress. *)
  c_pipelined : Z;
  (** The writer runs; the responses in its channel. *)
  c_writing : bool;
  c_out : list (list Z)
}.

Inductive Task : Type :=
| UdpTask (peer : IpAddr) (bytes : list Z)
| TcpSpawned (conn : nat) (payload : list Z)
| TcpRunning (conn : nat) (payload : list Z)
| TcpSending (conn : nat) (response : list Z).

(** What [serve_tcp] holds: the settings when it started, the permits taken from
    [connections], and the connections of each client. *)
Record Listener : Type := mk_Listener {
  ls_tcp : TcpConfig;
  ls_connections : Z;
  ls_per_client : gmap IpAddr Z
}.

Record Ingress : Type := mk_Ingress {
  ig_state : RuntimeState;
  ig_max_inflight : Z;
  (** Permits taken from [inflight]. *)
  ig_inflight : Z;
  ig_listeners : list Listener;
  ig_conns : gmap nat Conn;
  ig_tasks : gmap nat Task;
  ig_next : nat
}.

Definition ingress_new (st : RuntimeState) (max_inflight : Z) : Ingress :=
  mk_Ingress st max_inflight 0 [] ∅ ∅ 0.

Definition set_state (s : Ingress) (st : RuntimeState) : Ingress :=
  mk_Ingress st (ig_max_inflight s) (ig_inflight s) (ig_listeners s) (ig_conns s) (ig_tasks s) (ig_next s).
Definition set_tasks (s : Ingress) (tasks : gmap nat Task) (inflight : Z) : Ingress :=
  mk_Ingress (ig_state s) (ig_max_inflight s) inflight (ig_listeners s) (ig_conns s) tasks (ig_next s).
Definition set_conn (s : Ingress) (cid : nat) (c : Conn) : Ingress :=
  mk_Ingress (ig_state s) (ig_max_inflight s) (ig_inflight s) (ig_listeners s)
    (<[cid := c]> (ig_conns s)) (ig_tasks s) (ig_next s).
Definition set_listeners (s : Ingress) (ls : list Listener) : Ingress :=
  mk_Ingress (ig_state s) (ig_max_inflight s) (ig_inflight s) ls (ig_conns s) (ig_tasks s) (ig_next s).
Definition new_task (s : Ingress) (t : Task) (inflight : Z) : Ingress :=
  mk_Ingress (ig_state s) (ig_max_inflight s) inflight (ig_listeners s)
    (ig_conns s) (<[ig_next s := t]> (ig_tasks s)) (S (ig_next s)).

Definition conn_with_stream (c : Conn) (stream : list Z) : Conn :=
  mk_Conn (c_peer c) (c_listener c) (c_cfg c) (c_reading c) stream (c_pos c) (c_waiting c) (c_pipelined c)
    (c_writing c) (c_out c).
Definition conn_with_read (c : Conn) (pos : nat) (waiting : option (list Z)) (reading : bool)
    : Conn :=
  mk_Conn (c_peer c) (c_listener c) (c_cfg c) reading (c_stream c) pos waiting (c_pipelined c) (c_writing c)
    (c_out c).
Definition conn_with_pipelined (c : Conn) (n : Z) : Conn :=
  mk_Conn (c_peer c) (c_listener c) (c_cfg c) (c_reading c) (c_stream c) (c_pos c) (c_waiting c) n (c_writing c)
    (c_out c).
Definition conn_with_output (c : Conn) (out : list (list Z)) (writing : bool) : Conn :=
  mk_Conn (c_peer c) (c_listener c) (c_cfg c) (c_reading c) (c_stream c) (c_pos c) (c_waiting c) (c_pipelined c)
    writing out.

(** ** Datagrams *)

Definition udp_received (s : Ingress) (peer : IpAddr) (bytes : list Z) : Ingress :=
  if ig_inflight s <? ig_max_inflight s
  then new_task s (UdpTask peer bytes) (ig_inflight s + 1)
  else s.

(** ** Connections *)

(** The counter of a client; a table that has grown large first loses the clients
    without a connection. *)
Definition client_counter (per_client : gmap IpAddr Z) (peer : IpAddr) : Z * gmap IpAddr Z :=
  let map := if (65536 <? Z.of_nat (size per_client))
             then filter (λ e : IpAddr * Z, (0 <? e.2) = true) per_client else per_client in
  match map !! peer with
  | Some n => (n, map)
  | None => (0, <[peer := 0]> map)
  end.

(** [serve_tcp] starts. *)
Definition tcp_listen (s : Ingress) : Ingress :=
  set_listeners s (ig_listeners s ++ [mk_Listener (rt_tcp (ig_state s)) 0 ∅]).

(** The listener [lid], which is [l], accepts a connection. *)
Definition tcp_accepted (s : Ingress) (lid : nat) (l : Listener) (peer : IpAddr) (now : Instant) : Ingress :=
  if negb (ls_connections l <? tcp_max_connections (ls_tcp l)) then s
  else
    match admit_client (ig_state s) peer now with
    | (Some _, st) => set_state s st
    | (None, st) =>
        let s := set_state s st in
        let '(count, table) := client_counter (ls_per_client l) peer in
        if tcp_max_connections_per_client (ls_tcp l) <=? count
        then set_listeners s (<[lid := mk_Listener (ls_tcp l) (ls_connections l) table]> (ig_listeners s))
        else
          mk_Ingress st (ig_max_inflight s) (ig_inflight s)
            (<[lid := mk_Listener (ls_tcp l) (ls_connections l + 1) (<[peer := count + 1]> table)]>
               (ig_listeners s))
            (<[ig_next s := mk_Conn peer lid (rt_tcp st) true [] 0 None 0 true []]> (ig_conns s))
            (ig_tasks s) (S (ig_next s))
    end.

(** [spawn_tcp_query], holding a permit of the connection. *)
Definition spawn_tcp_query (s : Ingress) (cid : nat) (c : Conn) (payload : list Z) : Ingress :=
  new_task (set_conn s cid (conn_with_pipelined c (c_pipelined c + 1)))
    (TcpSpawned cid payload) (ig_inflight s).

(** One turn of the read loop. *)
Definition tcp_read (s : Ingress) (cid : nat) (c : Conn) : Ingress :=
  match next_frame (tcp_max_message_bytes (c_cfg c)) (drop (c_pos c) (c_stream c)) with
  | FrameShort => s
  | FrameRefused => set_conn s cid (conn_with_read c (c_pos c) None false)
  | FrameOk payload _ =>
      let pos := (c_pos c + 2 + length payload)%nat in
      if c_pipelined c <? tcp_max_pipelined_queries (c_cfg c)
      then spawn_tcp_query s cid (conn_with_read c pos None true) payload
      else set_conn s cid (conn_with_read c pos (Some payload) true)
  end.

(** The end of a task: its permits are released. *)
Definition end_task (s : Ingress) (id cid : nat) (inflight : Z) : Ingress :=
  let s := set_tasks s (delete id (ig_tasks s)) inflight in
  match ig_conns s !! cid with
  | Some c => set_conn s cid (conn_with_pipelined c (c_pipelined c - 1))
  | None => s
  end.

(** A query of a connection starts when there is a permit, and is dropped when there
    is none. *)
Definition tcp_start (s : Ingress) (id cid : nat) (payload : list Z) : Ingress :=
  if ig_inflight s <? ig_max_inflight s
  then set_tasks s (<[id := TcpRunning cid payload]> (ig_tasks s)) (ig_inflight s + 1)
  else end_task s id cid (ig_inflight s).

Definition tcp_finish (s : Ingress) (id cid : nat) (payload : list Z) (w : HandleWorld) : Ingress :=
  let '(out, st) := respond (ig_state s) w payload ClientTcp in
  let s := set_state s st in
  match out with
  | Some out => set_tasks s (<[id := TcpSending cid (ser_bytes out)]> (ig_tasks s)) (ig_inflight s)
  | None => end_task s id cid (ig_inflight s - 1)
  end.

(** [tx.send]: waits while the channel is full, fails when the writer is gone. *)
Definition tcp_deliver (s : Ingress) (id cid : nat) (response : list Z) : Ingress :=
  match ig_conns s !! cid with
  | None => s
  | Some c =>
      if negb (c_writing c) then end_task s id cid (ig_inflight s - 1)
      else if Z.of_nat (length (c_out c)) <? tcp_max_pipelined_queries (c_cfg c)
      then end_task (set_conn s cid (conn_with_output c (c_out c ++ [response]) true)) id cid
             (ig_inflight s - 1)
      else s
  end.

(** The end of a connection: the read loop has stopped, every query has ended and
    the writer is done. *)
Definition conn_done (c : Conn) : bool :=
  negb (c_reading c) && (c_pipelined c =? 0)
  && (negb (c_writing c) || (length (c_out c) =? 0)%nat).

(** The permit goes back to the listener that accepted the connection. *)
Definition release (peer : IpAddr) (l : Listener) : Listener :=
  mk_Listener (ls_tcp l) (ls_connections l - 1)
    (<[peer := default 0 (ls_per_client l !! peer) - 1]> (ls_per_client l)).

Definition tcp_closed (s : Ingress) (cid : nat) (c : Conn) : Ingress :=
  mk_Ingress (ig_state s) (ig_max_inflight s) (ig_inflight s)
    (alter (release (c_peer c)) (c_listener c) (ig_listeners s))
    (delete cid (ig_conns s)) (ig_tasks s) (ig_next s).

(** ** Runs *)

Inductive Event : Type :=
| EvDatagram (peer : IpAddr) (bytes : list Z)
| EvListen
| EvAccept (lid : nat) (peer : IpAddr) (now : Instant)
| EvData (cid : nat) (bytes : list Z)
| EvRead (cid : nat)
| EvResume (cid : nat)
| EvStop (cid : nat)
| EvStart (id : nat)
| EvFinish (id : nat) (w : HandleWorld (Name := Name)) (now : Instant)
| EvDeliver (id : nat)
| EvWrite (cid : nat)
| EvWriteFail (cid : nat)
| EvClose (cid : nat)
| EvPublish (st : RuntimeState).

Inductive Output : Type :=
| SendTo (peer : IpAddr) (bytes : list Z)
| WriteTo (cid : nat) (bytes : list Z).

(** What an event does to a connection that is there. *)
Definition conn_step (s : Ingress) (cid : nat) (e : Event) (c : Conn) : Ingress * list Output :=
  match e with
  | EvData _ bytes =>
      (set_conn s cid (conn_with_stream c (c_stream c ++ bytes)), [])
  | EvRead _ =>
      (match c_waiting c with
       | None => if c_reading c then tcp_read s cid c else s
       | Some _ => s
       end, [])
  | EvResume _ =>
      (match c_waiting c with
       | Some payload =>
           if c_pipelined c <? tcp_max_pipelined_queries (c_cfg c)
           then spawn_tcp_query s cid (conn_with_read c (c_pos c) None true) payload
           else s
       | None => s
       end, [])
  | EvStop _ =>
      (match c_waiting c with
       | None => set_conn s cid (conn_with_read c (c_pos c) None false)
       | Some _ => s
       end, [])
  | EvWrite _ =>
      match c_writing c, c_out c with
      | true, payload :: out =>
          (set_conn s cid (conn_with_output c out true), [WriteTo cid (frame payload)])
      | _, _ => (s, [])
      end
  | EvWriteFail _ => (set_conn s cid (conn_with_output c [] false), [])
  | EvClose _ => (if conn_done c then tcp_closed s cid c else s, [])
  | _ => (s, [])
  end.

Definition task_step (s : Ingress) (id : nat) (e : Event) (t : Task) : Ingress * list Output :=
  match e, t with
  | EvStart _, TcpSpawned cid payload => (tcp_start s id cid payload, [])
  | EvFinish _ w now, UdpTask peer bytes =>
      let '(out, st) := datagram (ig_state s) w peer bytes now in
      (set_tasks (set_state s st) (delete id (ig_tasks s)) (ig_inflight s - 1),
       match out with Some b => [SendTo peer b] | None => [] end)
  | EvFinish _ w _, TcpRunning cid payload => (tcp_finish s id cid payload w, [])
  | EvDeliver _, TcpSending cid response => (tcp_deliver s id cid response, [])
  | _, _ => (s, [])
  end.

Definition on_conn (s : Ingress) (cid : nat) (e : Event) : Ingress * list Output :=
  match ig_conns s !! cid with Some c => conn_step s cid e c | None => (s, []) end.
Definition on_task (s : Ingress) (id : nat) (e : Event) : Ingress * list Output :=
  match ig_tasks s !! id with Some t => task_step s id e t | None => (s, []) end.

Definition ingress_step (s : Ingress) (e : Event) : Ingress * list Output :=
  match e with
  | EvDatagram peer bytes => (udp_received s peer bytes, [])
  | EvListen => (tcp_listen s, [])
  | EvAccept lid peer now =>
      (match ig_listeners s !! lid with Some l => tcp_accepted s lid l peer now | None => s end, [])
  | EvData cid _ | EvRead cid | EvResume cid | EvStop cid | EvWrite cid | EvWriteFail cid
  | EvClose cid => on_conn s cid e
  | EvStart id | EvFinish id _ _ | EvDeliver id => on_task s id e
  | EvPublish st => (set_state s st, [])
  end.

Fixpoint ingress_run (s : Ingress) (events : list Event) : Ingress * list Output :=
  match events with
  | [] => (s, [])
  | e :: events =>
      let '(s, out) := ingress_step s e in
      let '(s, rest) := ingress_run s events in
      (s, out ++ rest)
  end.

(** ** Frames read back *)

Lemma next_frame_frame max p rest :
  p ≠ [] -> Z.of_nat (length p) <= Z.min max u16_max -> next_frame max (frame p ++ rest) = FrameOk p rest.
Proof.
  intros Hne Hlen. unfold frame, next_frame. rewrite Z.min_l by (unfold u16_max in *; lia).
  rewrite Nat2Z.id. cbn [be_bytes16 app].
  assert (0 < Z.of_nat (length p)) by (destruct p; [done|cbn; lia]).
  replace (Z.of_nat (length p) / 256 * 256 + Z.of_nat (length p) mod 256) with (Z.of_nat (length p))
    by (pose proof (Z.div_mod (Z.of_nat (length p)) 256 ltac:(lia)); lia).
  rewrite firstn_all.
  rewrite (proj2 (Z.eqb_neq (Z.of_nat (length p)) 0)), (proj2 (Z.ltb_ge max (Z.of_nat (length p)))) by lia.
  cbn [orb].
  destruct (Z.ltb_spec (Z.of_nat (length (p ++ rest))) (Z.of_nat (length p))) as [Hlt|_];
    [rewrite length_app in Hlt; lia|].
  by rewrite Nat2Z.id, take_app_length, drop_app_length.
Qed.

Lemma next_frame_app max buf more p rest :
  next_frame max buf = FrameOk p rest ->
  next_frame max (buf ++ more) = FrameOk p (rest ++ more) ∧
  buf = take 2 buf ++ p ++ rest ∧ (2 <= length buf)%nat.
Proof.
  destruct buf as [|a [|b buf]]; [done..|]. cbn -[Z.mul Z.add].
  destruct (_ || _); [done|]. destruct (Z.ltb_spec (Z.of_nat (length buf)) (a * 256 + b)) as [|Hle]; [done|].
  intros [= <- <-]. destruct (Z.ltb_spec (Z.of_nat (length (buf ++ more))) (a * 256 + b)) as [Hlt|_].
  { rewrite length_app in Hlt. lia. }
  rewrite take_app_le, drop_app_le by lia. rewrite take_drop. split_and!; [done|done|lia].
Qed.

(** The messages up to a position of a stream. *)
Inductive parsed (max : Z) (stream : list Z) : nat -> list (list Z) -> Prop :=
| parsed_nil : parsed max stream 0 []
| parsed_snoc pos ps p rest :
    parsed max stream pos ps -> next_frame max (drop pos stream) = FrameOk p rest ->
    parsed max stream (pos + 2 + length p) (ps ++ [p]).

Lemma parsed_bound max stream pos ps : parsed max stream pos ps -> (pos <= length stream)%nat.
Proof.
  destruct 1 as [|pos ps p rest _ Hn]; [lia|].
  apply (next_frame_app _ _ []) in Hn as (_ & Heq & H2).
  apply (f_equal length) in Heq. rewrite !length_app, length_take in Heq.
  rewrite length_drop in *. lia.
Qed.

Lemma parsed_app max stream more pos ps :
  parsed max stream pos ps -> parsed max (stream ++ more) pos ps.
Proof.
  induction 1 as [|pos ps p rest Hp IH Hn]; [constructor|].
  econstructor; [done|]. rewrite drop_app_le by (by eapply parsed_bound).
  by apply next_frame_app.
Qed.

Lemma parsed_read_frames max stream pos ps k :
  parsed max stream pos ps ->
  read_frames max (length ps + k) stream = ps ++ read_frames max k (drop pos stream).
Proof.
  intros Hp. revert k. induction Hp as [|pos ps p rest Hp IH Hn]; intros k; [done|].
  rewrite length_app. cbn [length]. rewrite <- Nat.add_assoc, IH, <- app_assoc. f_equal.
  cbn [read_frames Nat.add]. rewrite Hn. cbn [app]. do 2 f_equal.
  apply (next_frame_app _ _ []) in Hn as (_ & Heq & H2).
  rewrite <- Nat.add_assoc, <- drop_drop, Heq, app_assoc. symmetry. apply drop_app_length'.
  rewrite length_app, length_take. lia.
Qed.

Lemma parsed_elem max stream pos ps p :
  parsed max stream pos ps -> p ∈ ps -> p ∈ read_frames max (length ps) stream.
Proof.
  intros Hp Hin. apply (parsed_read_frames _ _ _ _ 0) in Hp. rewrite Nat.add_0_r in Hp.
  rewrite Hp. apply elem_of_app. by left.
Qed.

(** ** One message *)

Context {RL : ResponseLaws rfr strip}.
Context (Hemit : ∀ m limit bytes tc, 512 <= limit -> emit m limit = Ok (bytes, tc) ->
  Z.of_nat (length bytes) <= limit).

Lemma with_keepalive_replies st t request msg :
  replies request msg -> replies request (with_keepalive st t msg).
Proof.
  unfold with_keepalive, replies, insert_option. case_match; [|done].
  destruct (edns msg) eqn:E; cbn; [|by rewrite E].
  intros (? & ? & ? & ? & <-). split_and!; by try done.
Qed.

(** [out] is the encoding of a reply to the query in [bytes]. *)
Definition encodes_reply (bytes : list Z) (limit : Message Name -> Z) (out : Serialized) : Prop :=
  ∃ request msg, parse bytes = Some request ∧ m_message_type (metadata request) = MtQuery ∧
    replies request msg ∧ serialize_limited emit truncate msg (limit request) = Ok out ∧
    Z.of_nat (length (ser_bytes out)) <= Z.max 512 (Z.min 65535 (limit request)).

Lemma respond_encodes_reply st w bytes t out :
  (respond st w bytes t).1 = Some out ->
  encodes_reply bytes (λ request, max_response_size (hc_resolver (rt_config st)) request t) out.
Proof.
  unfold respond. destruct (parse bytes) as [request|] eqn:Hp; [|done].
  destruct (bool_decide_reflect (m_message_type (metadata request) = MtQuery)) as [Hq|]; [|done].
  cbn [negb].
  pose proof (handle_proper rfr strip is_dnssec wire_len (rt_config st) (rt_data st) w
    (rt_resolver st) request t) as Hh.
  destruct (handle _ _ _ _ _ _ _ _ _ _) as [a r]. cbn in Hh. destruct Hh as [(Hr & Hm & _) _].
  cbn [fst]. rewrite Hm. intros Hout.
  assert (∃ msg, replies request msg ∧ serialize_limited emit truncate msg
    (max_response_size (hc_resolver (rt_config st)) request t) = Ok out) as (msg & Hmsg & Hs).
  { destruct (serialize_limited emit truncate (with_keepalive st t (an_message a)) _) as [o|] eqn:E1.
    { simplify_eq. eexists. split; [|exact E1]. by apply with_keepalive_replies. }
    destruct (serialize_limited emit truncate (error_response _ _ _ _) _) as [o|] eqn:E2; [|done].
    simplify_eq. eexists. split; [|exact E2]. apply (error_response_replies rfr strip). }
  exists request, msg. split_and!; [done..|].
  by apply (serialized_within_limit _ _ _ _ _ Hemit) in Hs as [].
Qed.

Lemma admit_permitted st peer now :
  match admit_client st peer now with
  | (None, st') =>
      Acl.permits (rt_acl st) peer = true ∧ (RateLimit.check (rt_limiter st) peer now).1 = Allow ∧
      st' = with_limiter st (RateLimit.check (rt_limiter st) peer now).2
  | (Some reason, st') =>
      if starts_with reason (lit "rate_limited")
      then Acl.permits (rt_acl st) peer = true ∧
           (RateLimit.check (rt_limiter st) peer now).1 ≠ Allow ∧
           st' = with_limiter st (RateLimit.check (rt_limiter st) peer now).2
      else Acl.permits (rt_acl st) peer = false ∧ st' = st
  end.
Proof.
  unfold admit_client, Acl.permits. destruct (Acl.acl_evaluate _ _); [|by vm_compute..].
  by destruct (RateLimit.check _ _ _) as [[] l].
Qed.

Lemma refuse_client_encodes bytes reason out :
  refuse_client bytes reason 512 = Some out ->
  ∃ request, parse bytes = Some request ∧ m_message_type (metadata request) = MtQuery ∧
    (ser_bytes <$> match serialize_limited emit truncate (error_response rfr request Refused false) 512
                   with Ok o => Some o | Err _ => None end) = Some out ∧
    Z.of_nat (length out) <= 512.
Proof.
  unfold refuse_client. case_match; [done|]. destruct (parse bytes) as [request|]; [|done].
  destruct (bool_decide_reflect (m_message_type (metadata request) = MtQuery)) as [Hq|]; [|done].
  cbn [negb orb]. case_match; [done|]. intros Hs. exists request. split_and!; [done..| |].
  - destruct (serialize_limited _ _ _ _); [|done]. exact Hs.
  - destruct (serialize_limited _ _ _ _) as [o|] eqn:E; simplify_eq.
    by apply (serialized_within_limit _ _ _ _ _ Hemit) in E as [].
Qed.

Lemma datagram_size st w peer bytes now out request :
  (datagram st w peer bytes now).1 = Some out -> parse bytes = Some request ->
  Z.of_nat (length out) <=
    Z.max 512 (Z.min 65535 (max_response_size (hc_resolver (rt_config st)) request ClientUdp)).
Proof.
  unfold datagram. intros Hout Hp. pose proof (admit_permitted st peer now) as Ha.
  destruct (admit_client st peer now) as [[reason|] st'].
  - apply refuse_client_encodes in Hout as (_ & _ & _ & _ & Hlen). lia.
  - destruct Ha as (_ & _ & ->).
    pose proof (respond_encodes_reply (with_limiter st (RateLimit.check (rt_limiter st) peer now).2) w
      bytes ClientUdp) as Hr.
    destruct (respond _ w bytes ClientUdp) as [[o|] st']; [|done]. cbn in Hout, Hr. simplify_eq.
    destruct (Hr o eq_refl) as (request' & msg & Hp' & _ & _ & _ & Hlen). by simplify_eq.
Qed.

(** C12. A datagram is answered only when it holds a query (never a response, so two
    servers cannot answer each other for ever), with one datagram that is a reply to
    it: the same id and question, of a size the client can take.  A client outside
    the access list gets nothing but a refusal of at most 512 octets and changes
    nothing; a client over its rate gets nothing at all, and reaches neither the
    caches nor an upstream. *)
Theorem datagram_gets_its_own_reply st w peer bytes now :
  let r := datagram st w peer bytes now in
  let limited := (RateLimit.check (rt_limiter st) peer now).1 in
  if Acl.permits (rt_acl st) peer then
    (limited ≠ Allow -> r.1 = None ∧ rt_resolver r.2 = rt_resolver st) ∧
    (limited = Allow -> ∀ out, r.1 = Some out -> ∃ o, out = ser_bytes o ∧
       encodes_reply bytes (λ request, max_response_size (hc_resolver (rt_config st)) request ClientUdp) o)
  else
    r.2 = st ∧
    ∀ out, r.1 = Some out -> ∃ request o,
      parse bytes = Some request ∧ m_message_type (metadata request) = MtQuery ∧
      serialize_limited emit truncate (error_response rfr request Refused false) 512 = Ok o ∧
      out = ser_bytes o ∧ Z.of_nat (length out) <= 512.
Proof.
  cbn zeta. unfold datagram. pose proof (admit_permitted st peer now) as Ha.
  destruct (admit_client st peer now) as [[reason|] st'].
  - destruct (starts_with reason _) eqn:Hrl.
    + destruct Ha as (-> & Hne & ->). unfold refuse_client. rewrite Hrl. by split.
    + destruct Ha as [-> ->]. split; [done|]. cbn [fst]. intros out Hout.
      apply refuse_client_encodes in Hout as (request & Hp & Hq & Hs & Hlen).
      destruct (serialize_limited _ _ _ _) as [o|] eqn:E; [|done]. cbn in Hs. simplify_eq.
      by exists request, o.
  - destruct Ha as (-> & Hal & ->). split; [done|]. intros _ out.
    pose proof (respond_encodes_reply (with_limiter st (RateLimit.check (rt_limiter st) peer now).2) w
      bytes ClientUdp) as Hr.
    destruct (respond _ w bytes ClientUdp) as [[o|] st']; [|done]. cbn in Hr |- *.
    intros [= <-]. exists o. split; [done|]. by apply Hr.
Qed.

(** ** Limits *)

Definition task_conn (t : Task) : option nat :=
  match t with
  | UdpTask _ _ => None
  | TcpSpawned cid _ | TcpRunning cid _ | TcpSending cid _ => Some cid
  end.
(** The task has a permit of [inflight]. *)
Definition holds_permit (t : Task) : bool := match t with TcpSpawned _ _ => false | _ => true end.
Definition of_conn (cid : nat) (t : Task) : bool := bool_decide (task_conn t = Some cid).
Definition on_listener (lid : nat) (c : Conn) : bool := bool_decide (c_listener c = lid).
Definition from_client (lid : nat) (ip : IpAddr) (c : Conn) : bool :=
  bool_decide (c_listener c = lid ∧ c_peer c = ip).

(** A limit of zero or more; the settings are unsigned. *)
Definition at_most (limit n : Z) : Prop := n <= Z.max 0 limit.

(** The permits and counters of a listener are those of its connections. *)
Definition listener_ok (conns : gmap nat Conn) (lid : nat) (l : Listener) : Prop :=
  (ls_connections l = count_of (on_listener lid) conns ∧
   at_most (tcp_max_connections (ls_tcp l)) (ls_connections l)) ∧
  ∀ ip, default 0 (ls_per_client l !! ip) = count_of (from_client lid ip) conns ∧
    at_most (tcp_max_connections_per_client (ls_tcp l)) (count_of (from_client lid ip) conns).

Record within_limits (s : Ingress) : Prop := mk_within_limits {
  wl_inflight : ig_inflight s = count_of holds_permit (ig_tasks s) ∧
    at_most (ig_max_inflight s) (ig_inflight s);
  wl_conn cid c : ig_conns s !! cid = Some c ->
    c_pipelined c = count_of (of_conn cid) (ig_tasks s) ∧
    at_most (tcp_max_pipelined_queries (c_cfg c)) (c_pipelined c) ∧
    at_most (tcp_max_pipelined_queries (c_cfg c)) (Z.of_nat (length (c_out c)));
  wl_task id t cid : ig_tasks s !! id = Some t -> task_conn t = Some cid -> is_Some (ig_conns s !! cid);
  wl_fresh id : (ig_next s <= id)%nat -> ig_tasks s !! id = None ∧ ig_conns s !! id = None;
  wl_home cid c : ig_conns s !! cid = Some c -> is_Some (ig_listeners s !! c_listener c);
  wl_listener lid l : ig_listeners s !! lid = Some l -> listener_ok (ig_conns s) lid l
}.

Lemma limits_new st max_inflight : within_limits (ingress_new st max_inflight).
Proof.
  unfold ingress_new. split; cbn; try done.
  rewrite count_of_empty. split; [done|]. unfold at_most. lia.
Qed.

Lemma limits_set_state s st : within_limits s -> within_limits (set_state s st).
Proof. intros []. by split. Qed.

(** A connection is replaced by one of the same client on the same listener. *)
Lemma listener_ok_update conns cid c c' lid l :
  conns !! cid = Some c -> c_peer c' = c_peer c -> c_listener c' = c_listener c ->
  listener_ok conns lid l -> listener_ok (<[cid := c']> conns) lid l.
Proof.
  intros Hcid Hp Hl [[Hn Hm] Hcl]. split.
  - rewrite (count_of_insert _ _ _ _ _ Hcid). unfold on_listener at 2 3. rewrite Hl, Z.sub_simpl_r. done.
  - intros ip. rewrite (count_of_insert _ _ _ _ _ Hcid). unfold from_client at 2 3 5 6.
    rewrite Hp, Hl, Z.sub_simpl_r. apply Hcl.
Qed.

(** An update of a connection that keeps what is counted. *)
Lemma limits_set_conn s cid c c' :
  within_limits s -> ig_conns s !! cid = Some c ->
  c_peer c' = c_peer c -> c_listener c' = c_listener c -> c_cfg c' = c_cfg c ->
  c_pipelined c' = c_pipelined c ->
  at_most (tcp_max_pipelined_queries (c_cfg c)) (Z.of_nat (length (c_out c'))) ->
  within_limits (set_conn s cid c').
Proof.
  intros [Hi Hc Ht Hf Hh Hl] Hcid Hp Hli Hg Hpl Ho. split; cbn; try done.
  - intros cid' c0. destruct (decide (cid' = cid)) as [->|Hne].
    + rewrite lookup_insert_eq. intros [= <-]. rewrite Hg, Hpl. destruct (Hc _ _ Hcid) as (? & ? & ?). done.
    + rewrite lookup_insert_ne by done. apply Hc.
  - intros id t cid' Hid Hcon. destruct (decide (cid' = cid)) as [->|Hne].
    + rewrite lookup_insert_eq. eauto.
    + rewrite lookup_insert_ne by done. eauto.
  - intros id Hid. destruct (Hf id Hid) as [? Hno]. split; [done|].
    rewrite lookup_insert_ne; [done|]. congruence.
  - intros cid' c0 [[<- <-]|[_ H0]]%lookup_insert_Some; [rewrite Hli|]; eauto.
  - intros lid l H0. eapply listener_ok_update; eauto.
Qed.

Lemma limits_retask s id t t' inflight :
  within_limits s -> ig_tasks s !! id = Some t -> task_conn t' = task_conn t ->
  inflight = ig_inflight s - Z.b2z (holds_permit t) + Z.b2z (holds_permit t') ->
  at_most (ig_max_inflight s) inflight ->
  within_limits (set_tasks s (<[id := t']> (ig_tasks s)) inflight).
Proof.
  intros [Hi Hc Ht Hf Hh Hl] Hid Hco Hin Hm. split; cbn; try done.
  - rewrite (count_of_insert _ _ _ _ _ Hid). split; [|done]. rewrite Hin. lia.
  - intros cid c Hcid. rewrite (count_of_insert _ _ _ _ _ Hid). unfold of_conn at 2 3. rewrite Hco.
    rewrite Z.sub_simpl_r. by apply Hc.
  - intros id' t0 cid. destruct (decide (id' = id)) as [->|Hne].
    + rewrite lookup_insert_eq. intros [= <-]. rewrite Hco. eauto.
    + rewrite lookup_insert_ne by done. eauto.
  - intros id' Hid'. destruct (Hf id' Hid') as [Hno ?]. split; [|done].
    rewrite lookup_insert_ne; [done|]. congruence.
Qed.

Lemma limits_udp_received s peer bytes :
  within_limits s -> within_limits (udp_received s peer bytes).
Proof.
  intros Hw. unfold udp_received. case_match eqn:Hlt; [|done]. apply Z.ltb_lt in Hlt.
  destruct Hw as [Hi Hc Ht Hf Hh Hl]. pose proof (Hf _ (le_n (ig_next s))) as [Hfr _].
  split; cbn; try done.
  - rewrite count_of_fresh by done. cbn. unfold at_most in *. lia.
  - intros cid c Hcid. rewrite count_of_fresh by done. cbn. rewrite Z.add_0_r. by apply Hc.
  - intros id t cid. destruct (decide (id = ig_next s)) as [->|Hne].
    + rewrite lookup_insert_eq. by intros [= <-].
    + rewrite lookup_insert_ne by done. eauto.
  - intros id Hid. rewrite lookup_insert_ne by lia. apply Hf. lia.
Qed.

Lemma limits_spawn s cid c c0 payload :
  within_limits s -> ig_conns s !! cid = Some c0 ->
  c_peer c = c_peer c0 -> c_listener c = c_listener c0 -> c_cfg c = c_cfg c0 -> c_pipelined c = c_pipelined c0 -> c_out c = c_out c0 ->
  c_pipelined c0 < tcp_max_pipelined_queries (c_cfg c0) ->
  within_limits (spawn_tcp_query s cid c payload).
Proof.
  intros [Hi Hc Ht Hf Hh Hl] Hcid Hp Hli Hg Hpl Ho Hlt.
  pose proof (Hf _ (le_n (ig_next s))) as [Hfr Hfc].
  assert (cid ≠ ig_next s) as Hnx by congruence. split; cbn; try done.
  - rewrite count_of_fresh by done. cbn. by rewrite Z.add_0_r.
  - intros cid' c1. rewrite count_of_fresh by done. unfold of_conn at 2. cbn.
    destruct (decide (cid' = cid)) as [->|Hne].
    + rewrite lookup_insert_eq, bool_decide_true by done. intros [= <-]. cbn.
      rewrite Hg, Hpl, Ho. destruct (Hc _ _ Hcid) as (H1 & H2 & H3). unfold at_most in *.
      split_and!; [|lia|done]. by rewrite H1.
    + rewrite lookup_insert_ne, bool_decide_false by congruence. cbn. rewrite Z.add_0_r. apply Hc.
  - intros id t cid'. destruct (decide (cid' = cid)) as [->|Hne]; [by rewrite lookup_insert_eq|].
    rewrite (lookup_insert_ne (ig_conns s)) by done. destruct (decide (id = ig_next s)) as [->|Hid].
    + rewrite lookup_insert_eq. by intros [= <-] [= ->].
    + rewrite lookup_insert_ne by done. eauto.
  - intros id Hid. rewrite !lookup_insert_ne; [apply Hf; lia| |lia].
    intros <-. destruct (Hf cid ltac:(lia)). congruence.
  - intros cid' c1 [[<- <-]|[_ H0]]%lookup_insert_Some; [cbn; rewrite Hli|]; eauto.
  - intros lid l H0. eapply listener_ok_update; eauto.
Qed.

Lemma limits_end_udp s id peer bytes :
  within_limits s -> ig_tasks s !! id = Some (UdpTask peer bytes) ->
  within_limits (set_tasks s (delete id (ig_tasks s)) (ig_inflight s - 1)).
Proof.
  intros [Hi Hc Ht Hf Hh Hl] Hid. split; cbn; try done.
  - rewrite (count_of_delete _ _ _ _ Hid). cbn. unfold at_most in *. lia.
  - intros cid c Hcid. rewrite (count_of_delete _ _ _ _ Hid). cbn. rewrite Z.sub_0_r. by apply Hc.
  - intros id' t cid [_ H0]%lookup_delete_Some. eauto.
  - intros id' Hid'. destruct (Hf id' Hid') as [Hno ?]. split; [|done].
    apply lookup_delete_None. by right.
Qed.

Lemma limits_end_task s id t cid inflight :
  within_limits s -> ig_tasks s !! id = Some t -> task_conn t = Some cid ->
  inflight = ig_inflight s - Z.b2z (holds_permit t) ->
  within_limits (end_task s id cid inflight).
Proof.
  intros [Hi Hc Ht Hf Hh Hl] Hid Hco Hin. unfold end_task. cbn [ig_conns set_tasks].
  destruct (Ht _ _ _ Hid Hco) as [c Hcid]. rewrite Hcid.
  destruct (Hc _ _ Hcid) as (H1 & H2 & H3).
  assert (1 <= c_pipelined c) as Hpos.
  { rewrite H1. apply (count_of_pos _ _ _ _ Hid). by apply bool_decide_eq_true_2. }
  split; cbn; try done.
  - rewrite (count_of_delete _ _ _ _ Hid). unfold at_most in *. destruct (holds_permit t); cbn in *; lia.
  - intros cid' c'. rewrite (count_of_delete _ _ _ _ Hid). unfold of_conn at 2. rewrite Hco.
    destruct (decide (cid' = cid)) as [->|Hne].
    + rewrite lookup_insert_eq, bool_decide_true by done. intros [= <-]. cbn.
      unfold at_most in *. split_and!; [by rewrite H1|lia|done].
    + rewrite lookup_insert_ne, bool_decide_false by congruence. cbn. rewrite Z.sub_0_r. apply Hc.
  - intros id' t' cid' [_ H0]%lookup_delete_Some Hc'. destruct (decide (cid' = cid)) as [->|Hne].
    + by rewrite lookup_insert_eq.
    + rewrite lookup_insert_ne by done. eauto.
  - intros id' Hid'. destruct (Hf id' Hid') as [Hno Hno']. split; [apply lookup_delete_None; by right|].
    rewrite lookup_insert_ne; [done|]. congruence.
  - intros cid' c1 [[<- <-]|[_ H0]]%lookup_insert_Some; [apply (Hh _ _ Hcid)|eauto].
  - intros lid l H0. eapply listener_ok_update; eauto.
Qed.

Lemma client_counter_spec per_client peer ip :
  (∀ ip, 0 <= default 0 (per_client !! ip)) ->
  (client_counter per_client peer).1 = default 0 (per_client !! peer) ∧
  default 0 ((client_counter per_client peer).2 !! ip) = default 0 (per_client !! ip).
Proof.
  intros Hpos. unfold client_counter.
  set (m := if 65536 <? _ then _ else per_client).
  assert (∀ ip, default 0 (m !! ip) = default 0 (per_client !! ip)) as Hm.
  { intros i. unfold m. case_match; [|done]. specialize (Hpos i).
    destruct (per_client !! i) as [n|] eqn:E; cbn in *.
    - destruct (0 <? n) eqn:Hn.
      + by rewrite (proj2 (map_lookup_filter_Some _ _ _ _)) by (split; [exact E|exact Hn]).
      + rewrite (proj2 (map_lookup_filter_None _ _ _)); [apply Z.ltb_ge in Hn; cbn; lia|].
        right. intros x Hx. cbn. congruence.
    - by rewrite (proj2 (map_lookup_filter_None _ _ _)) by (by left). }
  destruct (m !! peer) as [n|] eqn:E; cbn; (split; [rewrite <- Hm, E; done|]); [apply Hm|].
  destruct (decide (ip = peer)) as [->|Hne].
  - rewrite lookup_insert_eq, <- Hm, E. done.
  - by rewrite lookup_insert_ne, Hm.
Qed.

Lemma limits_listen s : within_limits s -> within_limits (tcp_listen s).
Proof.
  intros [Hi Hc Ht Hf Hh Hl]. split; cbn; try done.
  - intros cid c Hcid. destruct (Hh _ _ Hcid) as [l H0]. exists l. by apply lookup_app_l_Some.
  - intros lid l [H0|[Hlen H0]]%lookup_app_Some; [by apply Hl|].
    apply list_lookup_singleton_Some in H0 as [H0 <-].
    assert (lid = length (ig_listeners s)) as -> by lia.
    assert (∀ cid c, ig_conns s !! cid = Some c -> c_listener c ≠ length (ig_listeners s)) as Hno.
    { intros cid c Hcid E. destruct (Hh _ _ Hcid) as [l H1]. apply lookup_lt_Some in H1. lia. }
    unfold listener_ok. cbn. unfold at_most.
    rewrite count_of_none by (intros cid c Hcid; apply bool_decide_eq_false_2; eauto).
    split; [lia|]. intros ip.
    rewrite count_of_none by (intros cid c Hcid; apply bool_decide_eq_false_2; intros [? _]; by eapply Hno).
    rewrite lookup_empty. cbn. lia.
Qed.

(** Another listener's new connection or closed connection does not matter. *)
Lemma listener_ok_fresh conns cid c lid l :
  conns !! cid = None -> c_listener c ≠ lid -> listener_ok conns lid l -> listener_ok (<[cid := c]> conns) lid l.
Proof.
  intros Hno Hne [[Hn Hm] Hcl]. split.
  - rewrite count_of_fresh by done. unfold on_listener at 2. rewrite bool_decide_false by done. cbn.
    by rewrite Z.add_0_r.
  - intros ip. rewrite count_of_fresh by done. unfold from_client at 2 4.
    rewrite bool_decide_false by naive_solver. cbn. rewrite Z.add_0_r. apply Hcl.
Qed.

Lemma limits_accepted s lid l peer now :
  within_limits s -> ig_listeners s !! lid = Some l -> within_limits (tcp_accepted s lid l peer now).
Proof.
  intros Hw Hlid. unfold tcp_accepted.
  destruct (Z.ltb_spec (ls_connections l) (tcp_max_connections (ls_tcp l))) as [Hlt|]; [cbn [negb]|done].
  destruct (admit_client _ _ _) as [[reason|] st]; [by apply limits_set_state|].
  destruct Hw as [Hi Hc Ht Hf Hh Hl]. destruct (Hl _ _ Hlid) as [[Hn Hnm] Hcl].
  assert (∀ ip, 0 <= default 0 (ls_per_client l !! ip)) as Hpos.
  { intros ip. rewrite (proj1 (Hcl ip)). apply count_of_nonneg. }
  pose proof (λ ip, client_counter_spec (ls_per_client l) peer ip Hpos) as Hk.
  destruct (client_counter (ls_per_client l) peer) as [n table]. cbn in Hk.
  destruct (Hk peer) as [Hcount _]. pose proof (λ ip, proj2 (Hk ip)) as Htab. clear Hk.
  destruct (Z.leb_spec (tcp_max_connections_per_client (ls_tcp l)) n) as [|Hroom].
  { split; cbn; try done.
    - intros cid c Hcid. destruct (Hh _ _ Hcid) as [l0 H0]. apply lookup_lt_is_Some.
      rewrite length_insert. by apply lookup_lt_Some in H0.
    - intros lid' l' [(<- & <- & _)|[Hne H0]]%list_lookup_insert_Some; [|by apply Hl].
      split; [done|]. intros ip. cbn. rewrite Htab. apply Hcl. }
  pose proof (Hf _ (le_n (ig_next s))) as [Hfr Hfc]. split; cbn; try done.
  - intros cid c. destruct (decide (cid = ig_next s)) as [->|Hne].
    + rewrite lookup_insert_eq. intros [= <-]. cbn. unfold at_most.
      rewrite count_of_none; [lia|]. intros id t Hid. apply bool_decide_eq_false_2. intros Hco.
      destruct (Ht _ _ _ Hid Hco). congruence.
    + rewrite lookup_insert_ne by done. apply Hc.
  - intros id t cid Hid Hco. rewrite lookup_insert_ne; [eauto|]. intros <-.
    destruct (Ht _ _ _ Hid Hco). congruence.
  - intros id Hid. rewrite lookup_insert_ne by lia. apply Hf. lia.
  - intros cid c Hcid. apply lookup_lt_is_Some. rewrite length_insert.
    apply lookup_insert_Some in Hcid as [[<- <-]|[_ H0]]; [by apply lookup_lt_Some in Hlid|].
    destruct (Hh _ _ H0) as [l0 H1]. by apply lookup_lt_Some in H1.
  - intros lid' l' [(<- & <- & _)|[Hne H0]]%list_lookup_insert_Some.
    2: { apply listener_ok_fresh; [done|done|by apply Hl]. }
    split; [rewrite count_of_fresh by done; unfold on_listener at 2; cbn;
            rewrite bool_decide_true by done; cbn; unfold at_most in *; lia|].
    intros ip. rewrite count_of_fresh by done. unfold from_client at 2 4. cbn.
    destruct (Hcl ip) as [H1 H2]. destruct (decide (ip = peer)) as [->|Hip].
    + rewrite lookup_insert_eq, bool_decide_true by done. cbn. unfold at_most in *. lia.
    + rewrite lookup_insert_ne, bool_decide_false by naive_solver. cbn. rewrite Htab.
      unfold at_most in *. lia.
Qed.

Lemma limits_closed s cid c :
  within_limits s -> ig_conns s !! cid = Some c -> conn_done c = true -> within_limits (tcp_closed s cid c).
Proof.
  intros [Hi Hc Ht Hf Hh Hl] Hcid Hdone.
  assert (∀ id t, ig_tasks s !! id = Some t -> task_conn t ≠ Some cid) as Hnone.
  { unfold conn_done in Hdone. apply andb_true_iff in Hdone as [[_ Hz]%andb_true_iff _].
    intros id t Hid Hco. destruct (Hc _ _ Hcid) as [H1 _]. apply Z.eqb_eq in Hz.
    pose proof (count_of_pos (of_conn cid) _ _ _ Hid (bool_decide_eq_true_2 _ Hco)). lia. }
  split; cbn; try done.
  - intros cid' c' [_ H0]%lookup_delete_Some. by apply Hc.
  - intros id t cid' Hid Hco. rewrite lookup_delete_ne; [eauto|]. intros <-. by apply (Hnone id t).
  - intros id Hid. destruct (Hf id Hid) as [? ?]. split; [done|]. apply lookup_delete_None. by right.
  - intros cid' c' [_ H0]%lookup_delete_Some. apply lookup_lt_is_Some. rewrite length_alter.
    destruct (Hh _ _ H0) as [l0 H1]. by apply lookup_lt_Some in H1.
  - intros lid l' Hl'. unfold listener_ok. rewrite (count_of_delete _ _ _ _ Hcid).
    unfold on_listener at 2. destruct (decide (c_listener c = lid)) as [<-|Hne].
    + rewrite list_lookup_alter_eq in Hl'. apply fmap_Some in Hl' as (l & H0 & ->).
      destruct (Hl _ _ H0) as [[Hn Hm] Hcl]. rewrite bool_decide_true by done. cbn.
      split; [unfold at_most in *; lia|]. intros ip. rewrite (count_of_delete _ _ _ _ Hcid).
      unfold from_client at 2 4. destruct (Hcl ip) as [H1 H2]. destruct (decide (ip = c_peer c)) as [->|Hip].
      * rewrite lookup_insert_eq, bool_decide_true by done. cbn. unfold at_most in *. lia.
      * rewrite lookup_insert_ne, bool_decide_false by naive_solver. cbn. rewrite Z.sub_0_r. apply Hcl.
    + rewrite list_lookup_alter_ne in Hl' by done. destruct (Hl _ _ Hl') as [[Hn Hm] Hcl].
      rewrite bool_decide_false by done. cbn. rewrite Z.sub_0_r. split; [done|]. intros ip.
      rewrite (count_of_delete _ _ _ _ Hcid). unfold from_client at 2 4.
      rewrite bool_decide_false by naive_solver. cbn. rewrite Z.sub_0_r. apply Hcl.
Qed.

Lemma limits_conn_step s cid e c :
  within_limits s -> ig_conns s !! cid = Some c -> within_limits (conn_step s cid e c).1.
Proof.
  intros Hw Hcid. pose proof (wl_conn s Hw cid c Hcid) as (_ & _ & Ho).
  destruct e; cbn; try done.
  - by eapply limits_set_conn.
  - destruct (c_waiting c); [done|]. destruct (c_reading c); [|done]. unfold tcp_read.
    destruct (next_frame _ _); [done|by eapply limits_set_conn|].
    case_match eqn:Hlt; [|by eapply limits_set_conn].
    apply Z.ltb_lt in Hlt. by eapply limits_spawn.
  - destruct (c_waiting c); [|done]. case_match eqn:Hlt; [|done]. apply Z.ltb_lt in Hlt.
    by eapply limits_spawn.
  - destruct (c_waiting c); [done|]. by eapply limits_set_conn.
  - destruct (c_writing c); [|done]. destruct (c_out c) as [|b out] eqn:Hout; [done|]. cbn.
    eapply limits_set_conn; try done. unfold at_most in *. cbn [conn_with_output c_out length] in *. lia.
  - eapply limits_set_conn; try done. unfold at_most. cbn. lia.
  - destruct (conn_done c) eqn:Hd; [|done]. by apply limits_closed.
Qed.

Lemma limits_task_step s id e t :
  within_limits s -> ig_tasks s !! id = Some t -> within_limits (task_step s id e t).1.
Proof.
  intros Hw Hid. pose proof (proj2 (wl_inflight s Hw)) as Hm. destruct e, t; cbn; try done.
  - unfold tcp_start. case_match eqn:Hlt.
    + apply Z.ltb_lt in Hlt. eapply limits_retask; try done; cbn; [lia|]. unfold at_most. lia.
    + eapply limits_end_task; try done. cbn. lia.
  - destruct (datagram _ _ _ _ _) as [out st].
    apply (limits_end_udp (set_state s st) id peer bytes); [by apply limits_set_state|done].
  - unfold tcp_finish. destruct (respond _ _ _ _) as [out st].
    assert (within_limits (set_state s st)) as Hw' by (by apply limits_set_state).
    destruct out as [out|]; [eapply (limits_retask (set_state s st))|eapply (limits_end_task (set_state s st))];
      try done; cbn; lia.
  - unfold tcp_deliver. destruct (ig_conns s !! conn) as [c|] eqn:Hc; [|done].
    case_match; [by eapply limits_end_task|]. case_match eqn:Hlt; [|done].
    eapply limits_end_task; [|done..]. eapply limits_set_conn; try done. cbn.
    rewrite length_app. cbn. apply Z.ltb_lt in Hlt. unfold at_most. lia.
Qed.

Lemma limits_step s e : within_limits s -> within_limits (ingress_step s e).1.
Proof.
  intros Hw. destruct e; cbn [ingress_step fst];
    first [ by apply limits_udp_received | by apply limits_listen | by apply limits_set_state
          | destruct (ig_listeners s !! lid) eqn:E; [by apply limits_accepted|done]
          | unfold on_conn; destruct (ig_conns s !! cid) eqn:E; [by apply limits_conn_step|done]
          | unfold on_task; destruct (ig_tasks s !! id) eqn:E; [by apply limits_task_step|done] ].
Qed.

Lemma limits_run s events : within_limits s -> within_limits (ingress_run s events).1.
Proof.
  revert s. induction events as [|e events IH]; intros s Hw; cbn; [done|].
  pose proof (limits_step s e Hw) as Hs. destruct (ingress_step s e) as [s1 o].
  specialize (IH s1 Hs). by destruct (ingress_run s1 events).
Qed.

(** The settings of a listener are those it was started with. *)
Lemma settings_are_fixed s events :
  ig_max_inflight (ingress_run s events).1 = ig_max_inflight s ∧
  map ls_tcp (ig_listeners s) `prefix_of` map ls_tcp (ig_listeners (ingress_run s events).1).
Proof.
  revert s. induction events as [|e events IH]; intros s; cbn; [done|].
  assert (ig_max_inflight (ingress_step s e).1 = ig_max_inflight s ∧
          map ls_tcp (ig_listeners s) `prefix_of` map ls_tcp (ig_listeners (ingress_step s e).1)) as [H1 H2].
  { split.
    - destruct e; cbn; unfold udp_received, tcp_accepted, on_conn, on_task, conn_step, task_step, tcp_read,
        spawn_tcp_query, tcp_start, tcp_finish, tcp_deliver, end_task; repeat case_match; simplify_eq; done.
    - assert (∀ lid l l', ig_listeners s !! lid = Some l -> ls_tcp l' = ls_tcp l ->
        map ls_tcp (<[lid := l']> (ig_listeners s)) = map ls_tcp (ig_listeners s)) as Hins.
      { intros lid l l' H0 Hl. rewrite list_fmap_insert, list_insert_id; [done|].
        by rewrite list_lookup_fmap, H0, Hl. }
      assert (∀ cid c, map ls_tcp (ig_listeners (tcp_closed s cid c)) = map ls_tcp (ig_listeners s)) as Hcl.
      { intros cid c. cbn. apply list_eq. intros i. rewrite !list_lookup_fmap, list_lookup_alter.
        case_decide; [|done]. subst. by destruct (ig_listeners s !! _). }
      destruct e; cbn; unfold udp_received, on_conn, on_task, conn_step, task_step, tcp_read,
        spawn_tcp_query, tcp_start, tcp_finish, tcp_deliver, end_task;
        try (repeat case_match; simplify_eq; done).
      + rewrite map_app. by eexists.
      + destruct (ig_listeners s !! lid) as [l|] eqn:E; [|done]. unfold tcp_accepted.
        repeat case_match; simplify_eq; try done; cbn; by rewrite (Hins lid l).
      + destruct (ig_conns s !! cid); [|done]. cbn. case_match; [|done]. by rewrite Hcl. }
  destruct (ingress_step s e) as [s1 o]. cbn in H1, H2. destruct (IH s1) as [H3 H4].
  destruct (ingress_run s1 events) as [s2 o']. cbn in *. split; [congruence|by etrans].
Qed.

(** C11. However datagrams, listeners, connections, queries and reloads interleave, the
    permits taken are those of the tasks and connections there are, so none leaks.  At no
    time are there more queries in progress, or more queries or unsent responses of one
    connection, than configured; and each TCP listener by itself has no more connections,
    and no more of one client, than the settings in force when it started allow. *)
Theorem ingress_keeps_to_its_limits st max_inflight before later :
  let s0 := (ingress_run (ingress_new st max_inflight) before).1 in
  let s := (ingress_run (ingress_step s0 EvListen).1 later).1 in
  let lid := length (ig_listeners s0) in
  ig_inflight s = count_of holds_permit (ig_tasks s) ∧
  at_most max_inflight (ig_inflight s) ∧
  (∃ l, ig_listeners s !! lid = Some l ∧ ls_connections l = count_of (on_listener lid) (ig_conns s)) ∧
  at_most (tcp_max_connections (rt_tcp (ig_state s0))) (count_of (on_listener lid) (ig_conns s)) ∧
  (∀ ip, at_most (tcp_max_connections_per_client (rt_tcp (ig_state s0)))
           (count_of (from_client lid ip) (ig_conns s))) ∧
  (∀ cid c, ig_conns s !! cid = Some c ->
     (c_listener c < length (ig_listeners s))%nat ∧
     at_most (tcp_max_pipelined_queries (c_cfg c)) (count_of (of_conn cid) (ig_tasks s)) ∧
     at_most (tcp_max_pipelined_queries (c_cfg c)) (Z.of_nat (length (c_out c)))).
Proof.
  intros s0 s lid.
  assert (within_limits s) as [Hi Hc _ _ Hh Hl]
    by apply limits_run, limits_step, limits_run, limits_new.
  destruct (settings_are_fixed (ingress_new st max_inflight) before) as [Hf0 _].
  destruct (settings_are_fixed (ingress_step s0 EvListen).1 later) as [Hf1 Hf2].
  fold s0 in Hf0. fold s in Hf1, Hf2. cbn in Hf0, Hf1, Hf2.
  assert (map ls_tcp (ig_listeners s) !! lid = Some (rt_tcp (ig_state s0))) as Hset.
  { eapply prefix_lookup_Some; [|exact Hf2]. rewrite map_app. apply list_lookup_middle.
    by rewrite length_map. }
  apply list_lookup_fmap_Some in Hset as (l & Htcp & Hlid). destruct (Hl _ _ Hlid) as [[Hn Hnm] Hcl].
  rewrite <- Htcp in Hnm, Hcl. destruct Hi as [Hi Hm]. rewrite Hf1, Hf0 in Hm. split_and!; try done.
  - by exists l.
  - by rewrite <- Hn.
  - intros ip. apply Hcl.
  - intros cid c Hcid. destruct (Hc _ _ Hcid) as (H1 & H2 & H3). destruct (Hh _ _ Hcid) as [l0 H0].
    apply lookup_lt_Some in H0. by rewrite <- H1.
Qed.

(** ** Whose answer it is *)

(** [b] was computed as the answer to the message [p] of a connection. *)
Definition answered (p b : list Z) : Prop :=
  ∃ st w out, (respond st w p ClientTcp).1 = Some out ∧ b = ser_bytes out.

Definition justified (ps : list (list Z)) (t : Task) : Prop :=
  match t with
  | UdpTask _ _ => True
  | TcpSpawned _ p | TcpRunning _ p => p ∈ ps
  | TcpSending _ b => ∃ p, p ∈ ps ∧ answered p b
  end.

(** What a connection holds and what runs for it goes back to the messages [ps] read
    from it. *)
Definition conn_justified (s : Ingress) (cid : nat) (c : Conn) (ps : list (list Z)) : Prop :=
  parsed (tcp_max_message_bytes (c_cfg c)) (c_stream c) (c_pos c) ps ∧
  (∀ p, c_waiting c = Some p -> p ∈ ps) ∧
  (∀ b, b ∈ c_out c -> ∃ p, p ∈ ps ∧ answered p b) ∧
  (∀ id t, ig_tasks s !! id = Some t -> task_conn t = Some cid -> justified ps t).

Definition attributed (s : Ingress) : Prop :=
  ∀ cid c, ig_conns s !! cid = Some c -> ∃ ps, conn_justified s cid c ps.

Lemma justified_app ps more t : justified ps t -> justified (ps ++ more) t.
Proof. destruct t; cbn; try done; setoid_rewrite elem_of_app; naive_solver. Qed.

(** Tasks that are no longer there, or are the same, do not matter. *)
Lemma attributed_tasks s s' :
  attributed s -> ig_conns s' = ig_conns s ->
  (∀ id t cid, ig_tasks s' !! id = Some t -> task_conn t = Some cid ->
     ∀ ps, (∀ id t, ig_tasks s !! id = Some t -> task_conn t = Some cid -> justified ps t) ->
       justified ps t) ->
  attributed s'.
Proof.
  intros Ha Hc Ht cid c. rewrite Hc. intros Hcid.
  destruct (Ha cid c Hcid) as (ps & H1 & H2 & H3 & H4). exists ps. split_and!; try done. eauto.
Qed.

(** A connection is replaced by one with at least the same messages read. *)
Lemma attributed_conn s cid c c' ps' :
  attributed s -> conn_justified s cid c' ps' ->
  ig_conns s !! cid = Some c -> attributed (set_conn s cid c').
Proof.
  intros Ha Hj Hcid cid' c1. cbn. destruct (decide (cid' = cid)) as [->|Hne].
  - rewrite lookup_insert_eq. intros [= <-]. by exists ps'.
  - rewrite lookup_insert_ne by done. apply Ha.
Qed.

Lemma attributed_set_state s st : attributed s -> attributed (set_state s st).
Proof. intros Ha. eapply attributed_tasks; eauto. Qed.

Lemma attributed_delete s id n : attributed s -> attributed (set_tasks s (delete id (ig_tasks s)) n).
Proof.
  intros Ha. eapply attributed_tasks; [done..|]. cbn. intros id' t cid [_ Hl]%lookup_delete_Some Hco ps Hps. eauto.
Qed.

Lemma attributed_end_task s id cid n : attributed s -> attributed (end_task s id cid n).
Proof.
  intros Ha. apply (attributed_delete s id n) in Ha. unfold end_task. case_match eqn:Hcid; [|done].
  destruct (Ha _ _ Hcid) as (ps & Hj). by eapply attributed_conn.
Qed.

Lemma attributed_retask s id t t' n :
  attributed s -> ig_tasks s !! id = Some t -> task_conn t' = task_conn t ->
  (∀ ps, justified ps t -> justified ps t') ->
  attributed (set_tasks s (<[id := t']> (ig_tasks s)) n).
Proof.
  intros Ha Hid Hco Hj. eapply attributed_tasks; [done..|]. cbn. intros id' t1 cid Hl Hc1 ps Hps.
  apply lookup_insert_Some in Hl as [[<- <-]|[_ Hl]]; [|by eauto].
  apply Hj. rewrite Hco in Hc1. eauto.
Qed.

Lemma attributed_spawn s cid c c' ps payload :
  attributed s -> ig_conns s !! cid = Some c -> conn_justified s cid c' ps -> payload ∈ ps ->
  attributed (spawn_tcp_query s cid c' payload).
Proof.
  intros Ha Hcid (H1 & H2 & H3 & H4) Hin cid' c1. cbn.
  intros [[<- <-]|[Hne Hl]]%lookup_insert_Some.
  - exists ps. split_and!; try done. cbn. intros id t [[<- <-]|[_ Hl]]%lookup_insert_Some Hco; eauto.
  - destruct (Ha _ _ Hl) as (ps' & G1 & G2 & G3 & G4). exists ps'. split_and!; try done. cbn.
    intros id t [[<- <-]|[_ Hlt]]%lookup_insert_Some Hco; [|by eauto]. cbn in Hco. congruence.
Qed.

Lemma attributed_accepted s lid l peer now :
  within_limits s -> attributed s -> attributed (tcp_accepted s lid l peer now).
Proof.
  intros Hw Ha. unfold tcp_accepted. case_match; [done|].
  destruct (admit_client _ _ _) as [[reason|] st]; [by apply attributed_set_state|].
  destruct (client_counter _ _) as [n table]. case_match; [by eapply attributed_tasks; eauto|].
  intros cid c. cbn. intros [[<- <-]|[_ Hl]]%lookup_insert_Some; [|by apply Ha].
  exists []. split_and!; cbn; [constructor|done|intros b Hb; by apply elem_of_nil in Hb|].
  intros id t Hid Hco. destruct (wl_task s Hw _ _ _ Hid Hco) as [c' Hc'].
  destruct (wl_fresh s Hw _ (le_n (ig_next s))). congruence.
Qed.

(** The messages read so far with one more. *)
Lemma read_more s cid c payload rest waiting :
  (∃ ps, conn_justified s cid c ps) ->
  next_frame (tcp_max_message_bytes (c_cfg c)) (drop (c_pos c) (c_stream c)) = FrameOk payload rest ->
  (∀ p, waiting = Some p -> p = payload) ->
  ∃ ps, payload ∈ ps ∧
    conn_justified s cid (conn_with_read c (c_pos c + 2 + length payload) waiting true) ps.
Proof.
  intros (ps & H1 & H2 & H3 & H4) Hn Hwait. exists (ps ++ [payload]).
  split; [apply elem_of_app; right; by apply list_elem_of_singleton|]. split_and!; cbn.
  - by econstructor.
  - intros p Hp. rewrite (Hwait p Hp). apply elem_of_app. right. by apply list_elem_of_singleton.
  - intros b Hb. destruct (H3 b Hb) as (p & ? & ?). exists p. rewrite elem_of_app. auto.
  - intros id t Hid Hco. apply justified_app. eauto.
Qed.

Lemma attributed_conn_step s cid e c :
  attributed s -> ig_conns s !! cid = Some c -> attributed (conn_step s cid e c).1.
Proof.
  intros Ha Hcid. pose proof (Ha _ _ Hcid) as Hj. destruct Hj as (ps & H1 & H2 & H3 & H4).
  destruct e; cbn; try done.
  - eapply (attributed_conn s cid c _ ps); [done| |done]. split_and!; try done. by apply parsed_app.
  - destruct (c_waiting c) eqn:Hwait; [done|]. destruct (c_reading c); [|done]. unfold tcp_read.
    destruct (next_frame _ _) as [| |payload rest] eqn:Hn; [done| |].
    { eapply (attributed_conn s cid c _ ps); [done| |done]. by split_and!. }
    case_match.
    + destruct (read_more s cid c payload rest None (Ha _ _ Hcid) Hn) as (ps' & Hin & Hj); [done|].
      by eapply attributed_spawn.
    + destruct (read_more s cid c payload rest (Some payload) (Ha _ _ Hcid) Hn) as (ps' & Hin & Hj);
        [congruence|]. by eapply attributed_conn.
  - destruct (c_waiting c) as [payload|] eqn:Hwait; [|done]. case_match; [|done].
    eapply (attributed_spawn s cid c _ ps); [done|done| |by apply H2]. by split_and!.
  - destruct (c_waiting c) eqn:Hwait; [done|].
    eapply (attributed_conn s cid c _ ps); [done| |done]. by split_and!.
  - destruct (c_writing c); [|done]. destruct (c_out c) as [|b out] eqn:Hout; [done|]. cbn.
    eapply (attributed_conn s cid c _ ps); [done| |done]. split_and!; try done. cbn.
    intros b' Hb'. apply H3. by right.
  - eapply (attributed_conn s cid c _ ps); [done| |done]. split_and!; try done. cbn.
    intros b Hb. by apply elem_of_nil in Hb.
  - case_match; [|done]. intros cid' c'. cbn. intros [_ Hl]%lookup_delete_Some.
    destruct (Ha _ _ Hl) as (ps' & ?). by exists ps'.
Qed.

Lemma attributed_task_step s id e t :
  attributed s -> ig_tasks s !! id = Some t -> attributed (task_step s id e t).1.
Proof.
  intros Ha Hid. destruct e, t; cbn; try done.
  - unfold tcp_start. case_match; [by eapply attributed_retask|by apply attributed_end_task].
  - destruct (datagram _ _ _ _ _) as [out st]. apply (attributed_delete (set_state s st)).
    by apply attributed_set_state.
  - unfold tcp_finish. destruct (respond (ig_state s) w payload ClientTcp) as [out st] eqn:Hr.
    apply (attributed_set_state s st) in Ha.
    destruct out as [out|]; [|by apply attributed_end_task].
    eapply (attributed_retask (set_state s st)); [done|done|done|]. cbn. intros ps Hin.
    exists payload. split; [done|]. exists (ig_state s), w, out. by rewrite Hr.
  - unfold tcp_deliver. destruct (ig_conns s !! conn) as [c|] eqn:Hc; [|done].
    case_match; [by apply attributed_end_task|]. case_match; [|done].
    apply attributed_end_task. destruct (Ha _ _ Hc) as (ps & H1 & H2 & H3 & H4).
    eapply (attributed_conn s conn c _ ps); [done| |done]. split_and!; try done. cbn.
    intros b [Hb| ->%list_elem_of_singleton]%elem_of_app; [by apply H3|].
    apply (H4 _ _ Hid eq_refl).
Qed.

Lemma attributed_step s e : within_limits s -> attributed s -> attributed (ingress_step s e).1.
Proof.
  intros Hw Ha. destruct e; cbn [ingress_step fst];
    first [ by apply attributed_set_state | by eapply attributed_tasks; eauto
          | destruct (ig_listeners s !! lid); [by apply attributed_accepted|done]
          | unfold on_conn; destruct (ig_conns s !! cid) eqn:E; [by apply attributed_conn_step|done]
          | unfold on_task; destruct (ig_tasks s !! id) eqn:E; [by apply attributed_task_step|done]
          | idtac ].
  unfold udp_received. case_match; [|done]. eapply attributed_tasks; [done..|]. cbn.
  intros id t cid [[<- <-]|[_ Hl]]%lookup_insert_Some Hco ps Hps; [done|]. eauto.
Qed.

Lemma attributed_run s events :
  within_limits s -> attributed s -> attributed (ingress_run s events).1.
Proof.
  revert s. induction events as [|e events IH]; intros s Hw Ha; cbn; [done|].
  pose proof (limits_step s e Hw) as Hs. pose proof (attributed_step s e Hw Ha) as Hs'.
  destruct (ingress_step s e) as [s1 o]. specialize (IH s1 Hs Hs').
  by destruct (ingress_run s1 events).
Qed.

(** C10. Whatever the interleaving, what is written to a TCP connection is one frame that
    holds a response to a query its client sent as a frame on this very connection:
    the same id and question, encoded within the limit of a TCP message.  No answer
    reaches another client, and none appears without a query. *)
Theorem tcp_answers_stay_on_their_connection st max_inflight events e cid octets :
  let s := (ingress_run (ingress_new st max_inflight) events).1 in
  WriteTo cid octets ∈ (ingress_step s e).2 ->
  ∃ c p n st' out, ig_conns s !! cid = Some c ∧
    p ∈ read_frames (tcp_max_message_bytes (c_cfg c)) n (c_stream c) ∧
    octets = frame (ser_bytes out) ∧
    encodes_reply p (λ _, tcp_max_message_bytes (rt_tcp st')) out.
Proof.
  intros s Hin.
  assert (attributed s) as Ha.
  { apply attributed_run; [apply limits_new|]. intros cid' c'. cbn. by rewrite lookup_empty. }
  assert (∃ c b, ig_conns s !! cid = Some c ∧ b ∈ c_out c ∧ octets = frame b) as (c & b & Hc & Hb & ->).
  { destruct e; cbn [ingress_step snd] in Hin; try (by apply elem_of_nil in Hin);
      unfold on_conn, on_task in Hin.
    all: try (destruct (ig_conns s !! _) as [c|] eqn:Hc; [|by apply elem_of_nil in Hin];
              cbn in Hin; try (by apply elem_of_nil in Hin)).
    all: try (destruct (ig_tasks s !! _) as [[]|]; cbn in Hin; try (by apply elem_of_nil in Hin)).
    - destruct (datagram _ _ _ _ _) as [[o|] st']; cbn in Hin; [|by apply elem_of_nil in Hin].
      by apply list_elem_of_singleton in Hin.
    - destruct (c_writing c); [|by apply elem_of_nil in Hin].
      destruct (c_out c) as [|b out] eqn:Hout; [by apply elem_of_nil in Hin|].
      apply list_elem_of_singleton in Hin. simplify_eq. exists c, b.
      split; [done|]. split; [rewrite Hout; left|done]. }
  destruct (Ha _ _ Hc) as (ps & H1 & _ & H3 & _).
  destruct (H3 b Hb) as (p & Hp & st' & w & out & Hr & ->).
  exists c, p, (length ps), st', out. split_and!; try done; [by eapply parsed_elem|].
  by apply (respond_encodes_reply st' w p ClientTcp).
Qed.

(** ** Rates *)

(** Queries on a connection are not charged to the rate limits: only a datagram and
    the acceptance of a connection are. *)
Lemma tcp_queries_are_not_charged s id cid payload w now :
  ig_tasks s !! id = Some (TcpRunning cid payload) ->
  rt_limiter (ig_state (ingress_step s (EvFinish id w now)).1) = rt_limiter (ig_state s).
Proof.
  intros Hid. cbn. unfold on_task. rewrite Hid. cbn. unfold tcp_finish.
  assert (rt_limiter (respond (ig_state s) w payload ClientTcp).2 = rt_limiter (ig_state s)) as Hl.
  { unfold respond. destruct (parse payload); [|done]. case_match; [done|].
    by destruct (handle _ _ _ _ _ _ _ _ _ _). }
  destruct (respond _ _ _ _) as [[out|] st]; [done|]. unfold end_task. by case_match.
Qed.

(** ** With a validated configuration *)

(** A datagram sent under a validated configuration has at most 512 octets for a
    client without EDNS, and otherwise at most 4096 and at most what the client
    announced (or 512). *)
Lemma validated_datagrams_fit cfg identity st w peer bytes now out request :
  validate cfg = None -> rt_config st = handler_config cfg identity ->
  (datagram st w peer bytes now).1 = Some out -> parse bytes = Some request ->
  Z.of_nat (length out) <=
    match edns request with None => 512 | Some e => Z.min 4096 (Z.max 512 (e_max_payload e)) end.
Proof.
  intros Hvalid Hcfg Hout Hp. etransitivity; [by eapply datagram_size|].
  destruct (validated_sections cfg Hvalid) as (Hs & _). apply server_sizes in Hs as (Hu & Hn & _).
  rewrite Hcfg. unfold max_response_size. cbn [hc_resolver handler_config cf_udp resolver_config].
  destruct (edns request); [|lia]. unfold clampZ. repeat case_match; lia.
Qed.

End server.

(** Whatever is written to a stream as frames is read back: the messages arrive whole,
    in their order, and nothing else does. *)
Theorem frames_read_back max ps more
    (Hok : Forall (λ p, p ≠ [] ∧ Z.of_nat (length p) <= Z.min max u16_max) ps) :
  read_frames max (length ps) (concat (map frame ps) ++ more) = ps.
Proof.
  induction Hok as [|p ps [Hne Hlen] _ IH]; [done|].
  cbn [length map concat read_frames]. by rewrite <- app_assoc, next_frame_frame, IH.
Qed.

(** ** Concrete traffic *)

Section witnesses.
#[local] Existing Instance text_names.
#[local] Existing Instance ipnet_reference.
#[local] Existing Instance moka_assoc.
#[local] Existing Instance opt_list.
#[local] Existing Instance plain_codes.
#[local] Existing Instance response_floats.
#[local] Existing Instance reference_response.
#[local] Existing Instance some_order.
#[local] Existing Instance some_power.

#[local] Instance no_governor : GovernorLib := {
  bucket := unit; bucket_new _ _ := tt; bucket_check b _ := (true, b)
}.

(** A query is one octet and its answer another. *)
Definition printer_request : Message str := request_for (lit "printer.lan.") RT_AAAA.
Definition tiny_parse (bytes : list Z) : option (Message str) :=
  if bool_decide (bytes = [1]) then Some printer_request else None.
Definition tiny_emit (m : Message str) (limit : Z) : result str (list Z * bool) :=
  Ok ([m_id (metadata m) + Z.of_nat (length (answers m))], false).

Lemma tiny_emit_fits m limit bytes tc :
  512 <= limit -> tiny_emit m limit = Ok (bytes, tc) -> Z.of_nat (length bytes) <= limit.
Proof. unfold tiny_emit. intros Hl [= <- <-]. cbn. lia. Qed.

Definition lan_runtime : RuntimeState :=
  mk_RuntimeState (Acl.mk_Acl loopback_networks []) (mk_InboundLimiter false None None) lan_config
    lan_data fresh_state.

Definition localhost : IpAddr := V4 (ipv4 127 0 0 1).

Local Abbreviation tiny f :=
  (f reply_header drop_signatures signature_only (λ _, None) tiny_emit id tiny_parse) (only parsing).

Lemma datagram_gets_its_own_reply_witness :
  ∃ o, [100] = ser_bytes o ∧
    encodes_reply tiny_emit id tiny_parse [1] (λ request, max_response_size
      (hc_resolver lan_config) request ClientUdp) o.
Proof.
  refine (proj2 (tiny datagram_gets_its_own_reply tiny_emit_fits lan_runtime (leading failing 0)
    localhost [1] 0) eq_refl [100] _).
  vm_compute. reflexivity.
Defined.

Definition one_query : list (Event (Name := str)) :=
  [EvListen; EvAccept 0 localhost 0; EvData 0 [0; 1; 1]; EvRead 0; EvStart 1; EvFinish 1 (leading failing 0) 0;
   EvDeliver 1].

Lemma ingress_keeps_to_its_limits_witness :
  at_most 8 (ig_inflight (tiny ingress_run (tiny ingress_step
    (tiny ingress_run (ingress_new lan_runtime 8) []).1 EvListen).1 (tail one_query)).1).
Proof. exact (proj1 (proj2 (tiny ingress_keeps_to_its_limits lan_runtime 8 [] (tail one_query)))). Defined.

(** The same runtime with room for one connection. *)
Definition narrow_runtime : RuntimeState :=
  let r := hc_resolver lan_config in
  let t := cf_tcp r in
  mk_RuntimeState (rt_acl lan_runtime) (rt_limiter lan_runtime)
    (mk_HandlerConfig
       (mk_ResolverConfig (cf_foreground_budget r) (cf_any_policy r) (cf_udp r)
          (mk_TcpConfig (tcp_idle_timeout t) (tcp_max_connection_lifetime t) 1 1
             (tcp_max_pipelined_queries t) (tcp_max_message_bytes t) (tcp_advertise_edns_keepalive t))
          (cf_cache r) (cf_ttl r) (cf_serve_stale r) (cf_dnssec r))
       (hc_special_use lan_config) (hc_local_ttl lan_config) (hc_default_group lan_config)
       (hc_ecs_identity lan_config)) lan_data fresh_state.

(** Every listener counts for itself: with two of them a limit of one connection, and of
    one for each client, admits two connections of the same client. *)
Theorem listeners_count_separately :
  let s := (tiny ingress_run (ingress_new narrow_runtime 8)
              [EvListen; EvListen; EvAccept 0 localhost 0; EvAccept 0 localhost 0; EvAccept 1 localhost 0]).1 in
  tcp_max_connections (rt_tcp narrow_runtime) = 1 ∧ size (ig_conns s) = 2%nat ∧
  map c_peer (map_to_list (ig_conns s)).*2 = [localhost; localhost].
Proof. vm_compute. done. Qed.

Lemma tcp_answers_stay_on_their_connection_witness :
  ∃ c p n (st' : RuntimeState (Name := str)) out,
    ig_conns (tiny ingress_run (ingress_new lan_runtime 8) one_query).1 !! 0%nat = Some c ∧
    p ∈ read_frames (tcp_max_message_bytes (c_cfg c)) n (c_stream c) ∧
    [0; 1; 100] = frame (ser_bytes out) ∧
    encodes_reply tiny_emit id tiny_parse p (λ _, tcp_max_message_bytes (rt_tcp st')) out.
Proof.
  refine (tiny tcp_answers_stay_on_their_connection tiny_emit_fits lan_runtime 8 one_query (EvWrite 0) 0
    [0; 1; 100] _).
  apply list_elem_of_In. vm_compute. left. reflexivity.
Defined.

Lemma frames_read_back_witness :
  read_frames 65535 2 (concat (map frame [[1; 2; 3]; [7]]) ++ [0]) = [[1; 2; 3]; [7]].
Proof.
  apply (frames_read_back 65535 [[1; 2; 3]; [7]] [0]).
  repeat constructor; try discriminate; vm_compute; discriminate.
Defined.

End witnesses.
