(* ===== verification/ProbeHttp.v ===== *)
(** * Probing an address over HTTPS

    [src/probe/http.rs]: one exchange with an address that is given, under the host
    name whose service is being checked.  What the network does at each stage is an
    input ([Exchange]); the leaf certificate is the one the verifier of [src/tls.rs]
    has accepted.  SHA-256 is a parameter. *)

From Stdlib Require Import Ascii String.
From S2P Require Import Prelude.
From S2P Require Import Names.
From S2P Require Import Net.
From S2P Require Import Text.
From S2P Require Import Der.
From S2P Require Import Errors.
From S2P Require Import Util.
From S2P Require Import Message.
From S2P Require Import EdnsOptions.

Inductive ProbeMethod : Set := MethodHead | MethodGet.

Definition method_parse (s : str) : option ProbeMethod :=
  let s := to_ascii_uppercase s in
  if str_eqb s (lit "HEAD") then Some MethodHead
  else if str_eqb s (lit "GET") then Some MethodGet
  else None.

Record HttpProbeRequest : Type := mk_HttpProbeRequest {
  hr_ip : IpAddr;
  hr_port : Z;
  hr_hostname : str;
  hr_path : str;
  hr_method : ProbeMethod;
  hr_alpn : list str;
  hr_connect_timeout : Duration;
  hr_tls_timeout : Duration;
  hr_http_timeout : Duration;
  hr_max_body_bytes : Z
}.

(** Facts of a verified leaf certificate; the digest and the name are octets. *)
Record CapturedLeaf : Type := mk_CapturedLeaf {
  cl_spki_sha256 : option (list Z);
  cl_issuer_cn : option (list Z)
}.

Record HttpProbeOutcome : Type := mk_HttpProbeOutcome {
  ho_tcp : Duration;
  ho_tls : Duration;
  ho_ttfb : Duration;
  ho_total : Duration;
  ho_status : Z;
  ho_alpn : option str;
  ho_headers : list (str * str);
  ho_body : list Z;
  ho_body_sha256 : list Z;
  ho_leaf : option CapturedLeaf
}.

Definition outcome_header (o : HttpProbeOutcome) (name : str) : option str :=
  match find_first (λ h, eq_ignore_ascii_case h.1 name) (ho_headers o) with
  | Some h => Some h.2
  | None => None
  end.

(** The last piece of the [cf-ray] header. *)
Definition cf_colo (o : HttpProbeOutcome) : option str :=
  match outcome_header o (lit "cf-ray") with
  | Some ray => last (split_on "-"%char ray)
  | None => None
  end.

Definition MAX_HEADERS : nat := 32.
Definition MAX_HEADER_VALUE : nat := 256.

Definition collect_headers (map_ : list (str * str)) : list (str * str) :=
  map (λ h, (h.1, bounded_octets h.2 MAX_HEADER_VALUE)) (take MAX_HEADERS map_).

(** ** What the network does *)

(** A stage under a timeout. *)
Inductive Stage (A : Type) : Type :=
| TimedOut
| Refused (detail : str)
| Done (a : A).
Arguments TimedOut {A}.
Arguments Refused {A} detail.
Arguments Done {A} a.

Definition staged {A} (wrap : str -> ProbeError) (s : Stage A) : result ProbeError A :=
  match s with
  | TimedOut => Err PeTimeout
  | Refused detail => Err (wrap detail)
  | Done a => Ok a
  end.

(** A frame of the body, or why there is none. *)
Inductive Frame : Type := FrameLate | FrameError | FrameData (octets : list Z) | FrameOther.

Record Response : Type := mk_Response {
  re_ttfb : Duration;
  re_status : Z;
  re_headers : list (str * str);
  re_frames : list Frame
}.

(** A completed TLS handshake: how long it took, the protocol, and the leaf
    certificate the WebPKI verifier accepted for the name. *)
Record Handshake : Type := mk_Handshake {
  hs_elapsed : Duration;
  hs_alpn : option str;
  hs_leaf : list Z
}.

Record Exchange : Type := mk_Exchange {
  ex_tcp : Stage Duration;
  ex_tls : Stage Handshake;
  ex_uri : bool;
  ex_http : Stage unit;
  ex_response : Stage Response;
  ex_total : Duration
}.

(** ** The exchange *)

(** The loop of [finish]. *)
Fixpoint read_body (max : Z) (body : list Z) (frames : list Frame) : list Z :=
  if Z.of_nat (length body) <? max then
    match frames with
    | FrameData data :: frames =>
        let take_ := Z.min (max - Z.of_nat (length body)) (Z.of_nat (length data)) in
        let body := body ++ take (Z.to_nat take_) data in
        if take_ <? Z.of_nat (length data) then body else read_body max body frames
    | FrameOther :: frames => read_body max body frames
    | _ => body
    end
  else body.

Section exchange.
Context (sha256 : list Z -> list Z).

(** [CapturingVerifier::verify_server_cert], after the inner verifier has accepted. *)
Definition captured_leaf (cert : list Z) : CapturedLeaf :=
  mk_CapturedLeaf (spki_sha256 sha256 cert) (issuer_common_name cert).

Definition http_probe (req : HttpProbeRequest) (x : Exchange) : result ProbeError HttpProbeOutcome :=
  match staged PeConnect (ex_tcp x) with
  | Err e => Err e
  | Ok tcp =>
      match staged PeTls (ex_tls x) with
      | Err e => Err e
      | Ok hs =>
          if negb (ex_uri x) then Err (PeHttp (lit "invalid request URI"))
          else
            match staged PeHttp (ex_http x) with
            | Err e => Err e
            | Ok _ =>
                match staged PeHttp (ex_response x) with
                | Err e => Err e
                | Ok re =>
                    let body := read_body (hr_max_body_bytes req) [] (re_frames re) in
                    Ok (mk_HttpProbeOutcome tcp (hs_elapsed hs) (re_ttfb re) (ex_total x) (re_status re)
                          (hs_alpn hs) (collect_headers (re_headers re)) body (sha256 body)
                          (Some (captured_leaf (hs_leaf hs))))
                end
            end
      end
  end.

(** ** Bounds *)

Lemma read_body_bound max body frames :
  0 <= max -> Z.of_nat (length body) <= max -> Z.of_nat (length (read_body max body frames)) <= max.
Proof.
  intros Hm. revert body. induction frames as [|[| |data|] frames IH]; intros body Hb; cbn [read_body];
    case_match; try done; [|by apply IH].
  apply Z.ltb_lt in H.
  assert (Z.of_nat (length (body ++ take (Z.to_nat (Z.min (max - Z.of_nat (length body))
            (Z.of_nat (length data)))) data)) <= max).
  { rewrite length_app, length_take. lia. }
  case_match; [done|]. by apply IH.
Qed.

(** The body is a prefix of what was sent. *)
Fixpoint sent_octets (frames : list Frame) : list Z :=
  match frames with
  | FrameData data :: frames => data ++ sent_octets frames
  | FrameOther :: frames => sent_octets frames
  | _ => []
  end.

Lemma read_body_prefix max body frames : ∃ cut, read_body max body frames = body ++ take cut (sent_octets frames).
Proof.
  revert body. induction frames as [|[| |data|] frames IH]; intros body; cbn [read_body sent_octets];
    (case_match; [|by exists 0%nat; rewrite app_nil_r]); try (by exists 0%nat; rewrite app_nil_r).
  - set (n := Z.to_nat _). case_match; apply Z.ltb_lt in H || apply Z.ltb_ge in H0 || apply Z.ltb_lt in H0.
    + exists n. rewrite take_app_le; [done|]. unfold n. lia.
    + destruct (IH (body ++ take n data)) as [cut ->]. exists (length data + cut)%nat.
      rewrite take_app_add, <- app_assoc. rewrite (take_ge data n); [done|]. apply Z.ltb_ge in H0. unfold n. lia.
  - apply IH.
Qed.
End exchange.



Lemma http_probe_ok sha256 req x o :
  http_probe sha256 req x = Ok o ->
  ∃ tcp hs re, ex_tcp x = Done tcp ∧ ex_tls x = Done hs ∧ ex_response x = Done re ∧
    o = mk_HttpProbeOutcome tcp (hs_elapsed hs) (re_ttfb re) (ex_total x) (re_status re)
          (hs_alpn hs) (collect_headers (re_headers re))
          (read_body (hr_max_body_bytes req) [] (re_frames re))
          (sha256 (read_body (hr_max_body_bytes req) [] (re_frames re)))
          (Some (captured_leaf sha256 (hs_leaf hs))).
Proof.
  unfold http_probe. destruct (ex_tcp x) as [| |tcp]; cbn; [done..|].
  destruct (ex_tls x) as [| |hs]; cbn; [done..|]. destruct (ex_uri x); cbn; [|done].
  destruct (ex_http x) as [| |[]]; cbn; [done..|]. destruct (ex_response x) as [| |re]; cbn; [done..|].
  intros [= <-]. by exists tcp, hs, re.
Qed.

Lemma bounded_octets_length s max : (length (bounded_octets s max) <= max + 3)%nat.
Proof.
  unfold bounded_octets. case_match; [apply Nat.leb_le in H; lia|].
  rewrite length_app, length_take. cbn [length ellipsis_utf8]. lia.
Qed.

(** Whatever a server sends, a completed probe holds no more than the configured number
    of body octets, a prefix of what was sent and the digest of that prefix, and at
    most 32 headers of bounded size; and it reports the certificate that was verified. *)
Theorem measured_response_is_bounded sha256 req x o
    (Hmax : 0 <= hr_max_body_bytes req) (Hok : http_probe sha256 req x = Ok o) :
  Z.of_nat (length (ho_body o)) <= hr_max_body_bytes req ∧
  (∃ re cut, ex_response x = Done re ∧ ho_body o = take cut (sent_octets (re_frames re))) ∧
  ho_body_sha256 o = sha256 (ho_body o) ∧
  (length (ho_headers o) <= MAX_HEADERS)%nat ∧
  (∀ h, h ∈ ho_headers o -> (length h.2 <= MAX_HEADER_VALUE + 3)%nat) ∧
  ∃ hs, ex_tls x = Done hs ∧ ho_leaf o = Some (captured_leaf sha256 (hs_leaf hs)).
Proof.
  apply http_probe_ok in Hok as (tcp & hs & re & _ & Hhs & Hre & ->). cbn [ho_body ho_headers ho_leaf ho_body_sha256].
  split_and!; [by apply read_body_bound; [|cbn; lia]| |done| | |by exists hs].
  - destruct (read_body_prefix (hr_max_body_bytes req) [] (re_frames re)) as [cut ->]. by exists re, cut.
  - unfold collect_headers. rewrite length_map, length_take. lia.
  - unfold collect_headers. intros h [h' [-> _]]%list_elem_of_fmap. apply bounded_octets_length.
Qed.

Definition sample_exchange : Exchange :=
  mk_Exchange (Done (from_millis 12)) (Done (mk_Handshake (from_millis 20) (Some (lit "h2")) [])) true
    (Done tt)
    (Done (mk_Response (from_millis 9) 200 [(lit "CF-Ray", lit "8f0-FRA")]
             [FrameData [1; 2; 3]; FrameOther; FrameData [4; 5; 6]; FrameData [7]])) (from_millis 41).

Definition sample_request : HttpProbeRequest :=
  mk_HttpProbeRequest (V4 (ipv4 104 16 0 1)) 443 (lit "www.example.com") (lit "/") MethodHead [lit "h2"]
    (from_secs 1) (from_secs 1) (from_secs 1) 5.

Lemma measured_response_is_bounded_witness :
  ∃ o, http_probe (λ b, b) sample_request sample_exchange = Ok o ∧ ho_body o = [1; 2; 3; 4; 5] ∧
    cf_colo o = Some (lit "FRA") ∧ Z.of_nat (length (ho_body o)) <= 5.
Proof.
  eexists. split; [vm_compute; reflexivity|]. split; [reflexivity|]. split; [reflexivity|].
  apply (measured_response_is_bounded (λ b, b) sample_request sample_exchange);
    [by vm_compute|vm_compute; reflexivity].
Defined.
