(* ===== verification/Engine.v ===== *)
(** * The probe engine

    [src/probe/engine.rs]: the loop that takes jobs under a worker ceiling, the workers,
    and what a finished probe does to the quality store, the validations, the candidate
    pool and the health of the subsystem.  A worker is a program counter ([Pc]); each
    step of it is one operation on shared state, so that workers, reloads, changes of
    the network and new jobs interleave freely.  What the network and the clock do is
    the input of a step. *)

From Stdlib Require Import Ascii String.
From S2P Require Import Prelude.
From S2P Require Import Hashing.
From S2P Require Import Floats.
From S2P Require Import Names.
From S2P Require Import Net.
From S2P Require Import Text.
From S2P Require Import Config.
From S2P Require Import Errors.
From S2P Require Import Util.
From S2P Require Import Proxy.
From S2P Require Import Message.
From S2P Require Import Prefixes.
From S2P Require Import Quality.
From S2P Require Import Evidence.
From S2P Require Import Candidates.
From S2P Require Import Probing.
From S2P Require Import ProbeGuard.
From S2P Require Import Resolver.
From S2P Require Import Validate.
From S2P Require Import Reload.
From S2P Require Import ProbeHttp.

#[global] Instance ObservationClass_eq_dec : EqDecision ObservationClass.
Proof. solve_decision. Defined.

(** ** Health of the subsystem *)

Record SubsystemHealth : Type := mk_SubsystemHealth {
  sh_healthy : bool;
  sh_consecutive_failures : Z;
  sh_distinct_failures : Z;
  sh_threshold : Z
}.

Definition subsystem_new (threshold : Z) : SubsystemHealth :=
  mk_SubsystemHealth true 0 0 (Z.max threshold 4).

Definition subsystem_success (h : SubsystemHealth) : SubsystemHealth :=
  mk_SubsystemHealth true 0 0 (sh_threshold h).

Definition subsystem_failure (h : SubsystemHealth) : SubsystemHealth :=
  let n := as_u32 (sh_consecutive_failures h + 1) in
  mk_SubsystemHealth (if sh_threshold h <=? n then false else sh_healthy h) n
    (as_u32 (sh_distinct_failures h + 1)) (sh_threshold h).

Definition classify_error (h : SubsystemHealth) (error : ProbeError) : ObservationClass :=
  if negb (sh_healthy h) then ObsAmbiguousFailure
  else
    match error with
    | PePolicyBlocked _ => ObsPolicyBlocked
    | PeUnsupported _ => ObsUnsupported
    | PeTimeout => ObsTimeout
    | PeConnect _ | PeTls _ | PeHttp _ => ObsApplicableFailure
    | PeQuic _ => ObsUnsupported
    end.

(** ** Profiles *)

Definition profile_for (profiles : list ProbeProfile) (hostname : str) : option ProbeProfile :=
  let h := to_ascii_lowercase (trim_end_matches dot hostname) in
  find_first (λ p,
    existsb (λ d,
      let d := to_ascii_lowercase (trim_end_matches dot d) in
      match strip_prefix dot d with
      | Some suffix => str_eqb h suffix || ends_with h (dot :: suffix)
      | None => str_eqb h d
      end) (pp_domains p)) profiles.

Definition accepts (profile : option ProbeProfile) (o : HttpProbeOutcome) : bool :=
  if ho_status o =? 421 then false
  else
    match profile with
    | None => (100 <=? ho_status o) && (ho_status o <? 600)
    | Some p =>
        existsb (Z.eqb (ho_status o)) (pp_allowed_status p)
        && match pp_required_header p with
           | None => true
           | Some required =>
               match outcome_header o (rh_name required) with
               | None => false
               | Some value =>
                   match rh_value required with
                   | None => true
                   | Some expected => eq_ignore_ascii_case value expected
                   end
               end
           end
        && match pp_body_sha256 p with
           | None => true
           | Some expected => str_eqb (hex_encode (ho_body_sha256 o)) (to_ascii_lowercase expected)
           end
        && (no_items (pp_spki_sha256 p)
            || match ho_leaf o with
               | None => false
               | Some leaf =>
                   match cl_spki_sha256 leaf with
                   | None => false
                   | Some spki =>
                       existsb (λ pin, str_eqb (to_ascii_lowercase pin) (hex_encode spki)) (pp_spki_sha256 p)
                   end
               end)
        && match pp_required_issuer_cn p with
           | None => true
           | Some expected =>
               match ho_leaf o with
               | None => false
               | Some leaf =>
                   match cl_issuer_cn leaf with
                   | Some cn => contains_text expected (of_bytes cn)
                   | None => false
                   end
               end
           end
    end.

(** The host name of a probe that is about no name in particular. *)
Definition probe_host (cfg : CloudflareConfig) (addr : IpAddr) : str :=
  match cf_probe_hosts cfg with
  | [] => lit "speed.cloudflare.com"
  | hosts =>
      default [] (hosts !! Z.to_nat (fnv1a64 (to_bytes (print_ip addr)) mod Z.of_nat (length hosts)))
  end.

Definition HANDSHAKE_AND_HEADERS : Z := 6000.

Definition estimated_probe_bytes (outcome : result ProbeError HttpProbeOutcome) : Z :=
  match outcome with
  | Ok o =>
      HANDSHAKE_AND_HEADERS + Z.of_nat (length (ho_body o))
      + fold_right Z.add 0
          (map (λ h : str * str, Z.of_nat (length h.1 + length h.2 + 4)) (ho_headers o))
  | Err _ => HANDSHAKE_AND_HEADERS / 2
  end.

(** ** Workers *)

Inductive ProbeIntent : Set := IntentBaseline | IntentValidate | IntentCandidate.

#[global] Instance ProbeIntent_eq_dec : EqDecision ProbeIntent.
Proof. solve_decision. Defined.

(** What [run_https] is called with. *)
Record Target : Type := mk_Target {
  tg_addr : IpAddr;
  tg_port : Z;
  tg_host : str;
  tg_intent : ProbeIntent;
  tg_now : Instant
}.

(** A probe under way: its target, with the host name as it is sent, and the
    configuration that was in force when it started. *)
Record Dial : Type := mk_Dial { dl_target : Target; dl_config : Config }.

Definition Outcome : Type := result ProbeError HttpProbeOutcome.

(** One operation on what the workers share. *)
Inductive Effect : Type :=
| EfHealthy
| EfFailed
| EfRecord (key : ProbeKey) (class : ObservationClass) (latency : option Duration) (now : Instant)
| EfCloudflare (e : Event).

Inductive Pc : Type :=
| PcExecute (job : ProbeJob)
| PcObserve (t : Target) (generation : Z)
| PcStart (t : Target)
| PcAdmit (d : Dial)
| PcExchange (d : Dial)
| PcBandwidth (d : Dial) (o : Outcome)
| PcQuic (d : Dial) (o : Outcome)
| PcConclude (d : Dial) (o : Outcome)
| PcEffects (es : list Effect).

(** [wk_epoch] is the semaphore its permit came from. *)
Record Worker : Type := mk_Worker { wk_epoch : nat; wk_pc : Pc }.

(** What a step may find: the clocks, the exchange, whether its deadline passed first,
    the QUIC handshake, and whether the engine is being stopped. *)
Record Input : Type := mk_Input {
  in_now : Instant;
  in_unix : Z;
  in_exchange : Exchange;
  in_late : bool;
  in_quic : result ProbeError Duration;
  in_cancelled : bool
}.

Record Shared : Type := mk_Shared {
  s_limits : GuardLimits;
  s_guard : GuardState;
  s_quality : QualityStore;
  s_cloudflare : CloudflareState;
  s_health : SubsystemHealth
}.

(** Where the loop of [run] is. *)
Inductive Loop : Set := LoopStart | LoopWaiting | LoopHolding | LoopStopped.

#[global] Instance Loop_eq_dec : EqDecision Loop.
Proof. solve_decision. Defined.

(** The ceiling, the semaphore made for it and its free permits. *)
Record Pool : Type := mk_Pool {
  pl_want : nat;
  pl_epoch : nat;
  pl_free : Z;
  pl_loop : Loop;
  pl_next : nat
}.

Record Engine : Type := mk_Engine {
  en_config : Config;
  en_generation : Z;
  en_shared : Shared;
  en_queue : ProbeQueue;
  en_pool : Pool;
  en_workers : gmap nat Worker
}.

Definition with_shared (e : Engine) (s : Shared) : Engine :=
  mk_Engine (en_config e) (en_generation e) s (en_queue e) (en_pool e) (en_workers e).

Definition with_pool_state (e : Engine) (p : Pool) : Engine :=
  mk_Engine (en_config e) (en_generation e) (en_shared e) (en_queue e) p (en_workers e).

Definition with_workers (e : Engine) (m : gmap nat Worker) : Engine :=
  mk_Engine (en_config e) (en_generation e) (en_shared e) (en_queue e) (en_pool e) m.

Definition with_guard (s : Shared) (l : GuardLimits) (g : GuardState) : Shared :=
  mk_Shared l g (s_quality s) (s_cloudflare s) (s_health s).

Definition with_health (s : Shared) (h : SubsystemHealth) : Shared :=
  mk_Shared (s_limits s) (s_guard s) (s_quality s) (s_cloudflare s) h.

Definition with_quality (s : Shared) (q : QualityStore) : Shared :=
  mk_Shared (s_limits s) (s_guard s) q (s_cloudflare s) (s_health s).

Definition with_cloudflare (s : Shared) (c : CloudflareState) : Shared :=
  mk_Shared (s_limits s) (s_guard s) (s_quality s) c (s_health s).

(** ** The engine *)

Section engine.
Context {IPL : IpNetLib} {FL : FloatLib}.
Context {HA : HashOrder IpAddr} {HV : HashOrder (list ascii * IpAddr)} {HK : HashOrder ProbeKey}.
Context (sha256 : list Z -> list Z).
Implicit Types (e : Engine) (d : Dial) (i : Input).

(** [record]: the network and the configuration are those at the time of the call. *)
Definition record_probe e (s : Shared) (key : ProbeKey) (class : ObservationClass)
    (latency : option Duration) (now : Instant) : Shared :=
  with_quality s
    (store_record (s_quality s) key class latency (en_generation e) now (ranking (en_config e))).

Definition apply_effect e (ef : Effect) : Shared :=
  let s := en_shared e in
  match ef with
  | EfHealthy => with_health s (subsystem_success (s_health s))
  | EfFailed => with_health s (subsystem_failure (s_health s))
  | EfRecord key class latency now => record_probe e s key class latency now
  | EfCloudflare ev => with_cloudflare s (apply_event (s_cloudflare s) ev)
  end.

(** The call of [run_https] that a job makes. *)
Definition target_of e (job : ProbeJob) (now : Instant) : Target :=
  match job with
  | JobObserved hostname addr port _ _ => mk_Target addr port hostname IntentBaseline now
  | JobBaseline hostname addr port _ => mk_Target addr port hostname IntentBaseline now
  | JobValidate hostname addr port _ => mk_Target addr port hostname IntentValidate now
  | JobCandidate addr port _ =>
      mk_Target addr port (probe_host (cloudflare (en_config e)) addr) IntentCandidate now
  end.

Definition execute e (job : ProbeJob) i : Pc :=
  if negb (job_generation job =? en_generation e) then PcEffects []
  else
    let t := target_of e job (in_now i) in
    match job with
    | JobObserved _ _ _ true _ => PcObserve t (en_generation e)
    | _ => PcStart t
    end.

Definition dial_of e (t : Target) : Dial :=
  mk_Dial (mk_Target (tg_addr t) (tg_port t) (trim_end_matches dot (tg_host t)) (tg_intent t) (tg_now t))
    (en_config e).

Definition guard_request d : ProbeRequest :=
  mk_ProbeRequest (tg_addr (dl_target d)) (tg_port (dl_target d)) false (Some (tg_host (dl_target d))).

Definition profile_of d : option ProbeProfile :=
  profile_for (profiles (dl_config d)) (tg_host (dl_target d)).

Definition request_of d : HttpProbeRequest :=
  let t := dl_target d in
  let cfg := probe (dl_config d) in
  let prof := profile_of d in
  mk_HttpProbeRequest (tg_addr t) (tg_port t) (tg_host t)
    (match prof with Some p => pp_path p | None => lit "/" end)
    (match prof with Some p => default MethodHead (method_parse (pp_method p)) | None => MethodHead end)
    (match prof with Some p => pp_alpn p | None => [lit "h2"; lit "http/1.1"] end)
    (tcp_timeout cfg) (tls_timeout cfg) (http_timeout cfg) (max_response_bytes cfg).

(** The exchange under the deadline of the whole probe. *)
Definition exchange d i : Outcome :=
  if in_late i then Err (PeConnect (lit "probe deadline exceeded"))
  else http_probe sha256 (request_of d) (in_exchange i).

Definition wants_quic d (o : Outcome) i : bool :=
  enable_http3 (probe (dl_config d)) && negb (in_cancelled i)
  && match o with
     | Ok r =>
         bool_decide (ho_alpn r = Some (lit "h2"))
         || bool_decide (is_Some (outcome_header r (lit "alt-svc")))
     | Err _ => false
     end.

Definition https_of d : ProbeKey := https_key (tg_addr (dl_target d)) (tg_port (dl_target d)) (tg_host (dl_target d)).
Definition generic_of d : ProbeKey := generic_key (tg_addr (dl_target d)) (tg_port (dl_target d)).

(** A response, accepted or not. *)
Definition concluded_ok d (r : HttpProbeOutcome) (unix : Z) : list Effect :=
  let t := dl_target d in
  let accepted := accepts (profile_of d) r in
  let class := if accepted then ObsSuccess else ObsApplicableFailure in
  [EfHealthy;
   EfRecord (https_of d) class (Some (ho_tcp r + ho_tls r + ho_ttfb r)) (tg_now t);
   EfRecord (generic_of d) class (Some (ho_tcp r)) (tg_now t)]
  ++ match tg_intent t with
     | IntentBaseline => [EfCloudflare (EvBaseline (tg_host t) accepted unix)]
     | IntentValidate => [EfCloudflare (EvValidation (tg_host t) (tg_addr t) accepted (cf_colo r) (tg_now t))]
     | IntentCandidate => []
     end
  ++ [EfCloudflare (EvStage (tg_addr t) (if accepted then HttpOk else TlsOk) accepted (cf_colo r) (tg_now t))].

(** No response. *)
Definition concluded_err (h : SubsystemHealth) d (error : ProbeError) : list Effect :=
  let t := dl_target d in
  let class := classify_error h error in
  let applicable := bool_decide (class = ObsApplicableFailure) in
  (if applicable then [EfFailed] else [])
  ++ [EfRecord (https_of d) class None (tg_now t)]
  ++ (match error with PeConnect _ | PeTimeout => [EfRecord (generic_of d) class None (tg_now t)] | _ => [] end)
  ++ (if bool_decide (tg_intent t = IntentValidate) && applicable
      then [EfCloudflare (EvValidation (tg_host t) (tg_addr t) false None (tg_now t))] else [])
  ++ [EfCloudflare (EvStage (tg_addr t) StageNew false None (tg_now t))].

Definition conclude (h : SubsystemHealth) d (o : Outcome) (unix : Z) : list Effect :=
  match o with Ok r => concluded_ok d r unix | Err error => concluded_err h d error end.

(** One step of a worker: the shared state it leaves, and where it goes on, [None] when
    it is done. *)
Definition work e (pc : Pc) i : Shared * option Pc :=
  let s := en_shared e in
  match pc with
  | PcExecute job => (s, Some (execute e job i))
  | PcObserve t generation =>
      (with_cloudflare s (apply_event (s_cloudflare s) (EvAdmit (tg_addr t) DnsAnswer generation (tg_now t) None)),
       Some (PcStart t))
  | PcStart t =>
      if negb (probe_enabled (probe (en_config e))) then (s, None)
      else (with_guard s (limits_from_config (probe (en_config e))) (s_guard s), Some (PcAdmit (dial_of e t)))
  | PcAdmit d =>
      match admit_probe (s_limits s) (s_guard s) (guard_request d) (tg_now (dl_target d)) with
      | (Ok _, g) => (with_guard s (s_limits s) g, Some (PcExchange d))
      | (Err refusal, g) =>
          (with_guard s (s_limits s) g,
           Some (PcEffects (if is_cooldown refusal then []
                            else [EfRecord (https_of d) ObsPolicyBlocked None (tg_now (dl_target d))])))
      end
  | PcExchange d => (s, Some (PcBandwidth d (exchange d i)))
  | PcBandwidth d o =>
      (with_guard s (s_limits s)
         (consume_bandwidth (s_limits s) (s_guard s) (estimated_probe_bytes o) (tg_now (dl_target d))).2,
       Some (if wants_quic d o i then PcQuic d o else PcConclude d o))
  | PcQuic d o =>
      let t := dl_target d in
      (match in_quic i with
       | Ok handshake => record_probe e s (quic_key (tg_addr t) (tg_port t)) ObsSuccess (Some handshake) (tg_now t)
       | Err _ => record_probe e s (quic_key (tg_addr t) (tg_port t)) ObsUnsupported None (tg_now t)
       end, Some (PcConclude d o))
  | PcConclude d o => (s, Some (PcEffects (conclude (s_health s) d o (in_unix i))))
  | PcEffects [] => (s, None)
  | PcEffects (ef :: es) => (apply_effect e ef, Some (PcEffects es))
  end.

(** A worker that ends gives its permit back to the semaphore it came from. *)
Definition release (p : Pool) (epoch : nat) : Pool :=
  if bool_decide (epoch = pl_epoch p)
  then mk_Pool (pl_want p) (pl_epoch p) (pl_free p + 1) (pl_loop p) (pl_next p)
  else p.

Definition work_step e (id : nat) i : Engine :=
  match en_workers e !! id with
  | None => e
  | Some w =>
      match work e (wk_pc w) i with
      | (s, Some pc) => with_workers (with_shared e s) (<[id := mk_Worker (wk_epoch w) pc]> (en_workers e))
      | (s, None) =>
          with_pool_state (with_workers (with_shared e s) (delete id (en_workers e)))
            (release (en_pool e) (wk_epoch w))
      end
  end.

(** [worker_slots]: a changed ceiling makes a new semaphore. *)
Definition worker_slots (cfg : Config) (p : Pool) : Pool :=
  let want := Nat.max (probe_concurrency (probe cfg)) 1 in
  if bool_decide (pl_want p = want) then p
  else mk_Pool want (S (pl_epoch p)) (Z.of_nat want) (pl_loop p) (pl_next p).

Definition set_loop (p : Pool) (l : Loop) (free : Z) : Pool :=
  mk_Pool (pl_want p) (pl_epoch p) free l (pl_next p).

(** What happens to the engine. *)
Inductive Label : Type :=
| LSlots
| LAcquire
| LReceive
| LCancel
| LAbort
| LWork (id : nat) (i : Input)
| LReload (c : Config)
| LNetwork (generation : Z) (factor : f64)
| LOffer (job : ProbeJob)
| LPrefixes (snapshot : PrefixSnapshot)
| LAdmit (addr : IpAddr) (origin : CandidateOrigin) (generation : Z) (now : Instant) (budget : option Z).

Definition receive e : Engine :=
  match take_job (en_queue e) with
  | (None, _) => e
  | (Some job, queue) =>
      let p := en_pool e in
      mk_Engine (en_config e) (en_generation e) (en_shared e) queue
        (mk_Pool (pl_want p) (pl_epoch p) (pl_free p) LoopStart (S (pl_next p)))
        (<[pl_next p := mk_Worker (pl_epoch p) (PcExecute job)]> (en_workers e))
  end.

(** A change of the network reaches the generation, the series and the candidates. *)
Definition network_change e (generation : Z) (factor : f64) : Engine :=
  let s := en_shared e in
  mk_Engine (en_config e) generation
    (with_cloudflare (with_quality s (store_generation_change (s_quality s) generation factor))
       (apply_event (s_cloudflare s) (EvGeneration generation)))
    (en_queue e) (en_pool e) (en_workers e).

Definition cloudflare_step e (ev : Event) : Engine :=
  with_shared e (with_cloudflare (en_shared e) (apply_event (s_cloudflare (en_shared e)) ev)).

Definition step e (l : Label) : Engine :=
  let p := en_pool e in
  match l with
  | LSlots =>
      if bool_decide (pl_loop p = LoopStart)
      then with_pool_state e (let p := worker_slots (en_config e) p in set_loop p LoopWaiting (pl_free p))
      else e
  | LAcquire =>
      if bool_decide (pl_loop p = LoopWaiting) && (0 <? pl_free p)
      then with_pool_state e (set_loop p LoopHolding (pl_free p - 1)) else e
  | LReceive => if bool_decide (pl_loop p = LoopHolding) then receive e else e
  | LCancel =>
      with_pool_state e
        (set_loop p LoopStopped (if bool_decide (pl_loop p = LoopHolding) then pl_free p + 1 else pl_free p))
  | LAbort =>
      if bool_decide (pl_loop p = LoopStopped)
      then with_workers (with_pool_state e (set_loop p LoopStopped (Z.of_nat (pl_want p)))) ∅ else e
  | LWork id i => work_step e id i
  | LReload c =>
      mk_Engine c (en_generation e) (en_shared e)
        (queue_set_enabled (en_queue e) (probe_enabled (probe c))) p (en_workers e)
  | LNetwork generation factor => network_change e generation factor
  | LOffer job =>
      mk_Engine (en_config e) (en_generation e) (en_shared e) (offer (en_queue e) job).2 p (en_workers e)
  | LPrefixes snapshot => cloudflare_step e (EvPrefixes snapshot)
  | LAdmit addr origin generation now budget => cloudflare_step e (EvAdmit addr origin generation now budget)
  end.

Definition run_engine (ls : list Label) e : Engine := fold_left step ls e.

Definition engine_new (c : Config) (generation : Z) (quality : QualityStore) (cf : CloudflareState)
    (queue : ProbeQueue) : Engine :=
  mk_Engine c generation
    (mk_Shared (limits_from_config (probe c)) guard_new quality cf
       (subsystem_new (Z.of_nat (Nat.max (probe_concurrency (probe c)) 8))))
    queue (mk_Pool 0 0 0 LoopStart 0) ∅.

(** ** Permits *)

Definition held (p : Pool) : Z := match pl_loop p with LoopHolding => 1 | _ => 0 end.

Definition current (p : Pool) (w : Worker) : bool := bool_decide (wk_epoch w = pl_epoch p).

Record permits_inv e : Prop := {
  pi_sum : pl_free (en_pool e) + held (en_pool e) + count_of (current (en_pool e)) (en_workers e)
           = Z.of_nat (pl_want (en_pool e));
  pi_free : 0 <= pl_free (en_pool e);
  pi_epoch : ∀ id w, en_workers e !! id = Some w -> (wk_epoch w <= pl_epoch (en_pool e))%nat;
  pi_fresh : ∀ id w, en_workers e !! id = Some w -> (id < pl_next (en_pool e))%nat
}.

(** Steps that leave the pool and the workers alone. *)
Lemma permits_frame e e' :
  en_pool e' = en_pool e -> en_workers e' = en_workers e -> permits_inv e -> permits_inv e'.
Proof. intros Hp Hw []. by constructor; rewrite ?Hp, ?Hw. Qed.

Lemma permits_work e id i : permits_inv e -> permits_inv (work_step e id i).
Proof.
  intros [Hs Hf He Hn]. unfold work_step. destruct (en_workers e !! id) as [w|] eqn:Hw; [|done].
  destruct (work e (wk_pc w) i) as [s [pc|]].
  - constructor; cbn; [|done| |].
    + rewrite (count_of_insert _ _ _ w) by done. unfold current at 2 3. cbn. lia.
    + intros id' w' [[<- <-]|[_ H]]%lookup_insert_Some; [by apply (He id w)|by apply (He id' w')].
    + intros id' w' [[<- <-]|[_ H]]%lookup_insert_Some; [by apply (Hn id w)|by apply (Hn id' w')].
  - 
    assert (∀ P : nat -> Worker -> Prop, (∀ j w', en_workers e !! j = Some w' -> P j w') ->
              ∀ j w', delete id (en_workers e) !! j = Some w' -> P j w') as Hdel.
    { intros P H j w' [_ Hj]%lookup_delete_Some. by apply H. }
    pose proof (count_of_delete (current (en_pool e)) _ _ _ Hw) as Hc. unfold current at 3 in Hc.
    constructor; cbn; unfold release; case_bool_decide; cbn; try done.
    + unfold current in *. cbn in *. unfold held in *. cbn. lia.
    + cbn in Hc. lia.
    + lia.
    + by apply (Hdel (λ _ w', (wk_epoch w' <= _)%nat)).
    + by apply (Hdel (λ _ w', (wk_epoch w' <= _)%nat)).
    + by apply (Hdel (λ j _, (j < _)%nat)).
    + by apply (Hdel (λ j _, (j < _)%nat)).
Qed.

Lemma permits_receive e : pl_loop (en_pool e) = LoopHolding -> permits_inv e -> permits_inv (receive e).
Proof.
  intros Hl [Hs Hf He Hn]. unfold receive. destruct (take_job (en_queue e)) as [[job|] q]; [|done].
  assert (en_workers e !! pl_next (en_pool e) = None) as Hfr.
  { apply eq_None_not_Some. intros [w Hw]. specialize (Hn _ _ Hw). lia. }
  unfold held in Hs. rewrite Hl in Hs. cbn in Hs.
  constructor; cbn; [|done| |].
  - rewrite count_of_fresh by done. unfold held, current in *. cbn in *. rewrite (bool_decide_eq_true_2 (pl_epoch (en_pool e) = pl_epoch (en_pool e)) eq_refl). cbn. lia.
  - intros j w [[<- <-]|[_ H]]%lookup_insert_Some; [done|by apply (He j)].
  - intros j w [[<- <-]|[_ H]]%lookup_insert_Some; [lia|]. specialize (Hn _ _ H). lia.
Qed.

Lemma permits_slots e :
  pl_loop (en_pool e) = LoopStart -> permits_inv e ->
  permits_inv (with_pool_state e (let p := worker_slots (en_config e) (en_pool e) in
                                  set_loop p LoopWaiting (pl_free p))).
Proof.
  intros Hl [Hs Hf He Hn]. unfold held in Hs. rewrite Hl in Hs. cbn in Hs.
  unfold worker_slots. case_bool_decide; constructor; cbn; try done; unfold held; cbn.
  - rewrite (count_of_none (current _)); [lia|]. intros j w Hw. unfold current. cbn.
    apply bool_decide_eq_false_2. specialize (He _ _ Hw). lia.
  - lia.
  - intros j w Hw. specialize (He _ _ Hw). lia.
Qed.

Lemma permits_step e l : permits_inv e -> permits_inv (step e l).
Proof.
  intros Hi. destruct l; cbn [step]; try (by apply (permits_frame e)).
  - case_bool_decide; [|done]. by apply permits_slots.
  - destruct (bool_decide _) eqn:Hl; [|done]. apply bool_decide_eq_true_1 in Hl.
    destruct (0 <? _) eqn:Hp; [|done]. cbn. apply Z.ltb_lt in Hp. destruct Hi as [Hs Hf He Hn].
    unfold held in Hs. rewrite Hl in Hs. cbn in Hs.
    constructor; cbn; [unfold held, current in *; cbn; lia|lia|done|done].
  - case_bool_decide; [|done]. by apply permits_receive.
  - destruct Hi as [Hs Hf He Hn]. unfold held in Hs.
    constructor; cbn; [unfold held, current in *; cbn|case_bool_decide; lia|done|done].
    destruct (pl_loop (en_pool e)); case_bool_decide; try done; lia.
  - case_bool_decide; [|done].
    constructor; cbn; [unfold held; cbn; rewrite count_of_empty; lia|lia|intros ? ?; by rewrite lookup_empty..].
  - by apply permits_work.
Qed.

Lemma run_ind (P : Engine -> Prop) ls e :
  P e -> (∀ e l, l ∈ ls -> P e -> P (step e l)) -> P (run_engine ls e).
Proof.
  revert e. induction ls as [|l ls IH]; intros e He Hs; [done|]. cbn. apply IH.
  - apply Hs; [left|done].
  - intros e' l' Hl. apply Hs. by right.
Qed.

Lemma permits_new c generation quality cf queue : permits_inv (engine_new c generation quality cf queue).
Proof. constructor; cbn; [by rewrite count_of_empty|done|intros ? ?; by rewrite lookup_empty..]. Qed.

Definition keeps_ceiling (n : nat) (l : Label) : Prop :=
  match l with LReload c => probe_concurrency (probe c) = n | _ => True end.

(** While the ceiling stays the same there is one semaphore, after the empty one. *)
Record one_semaphore (n : nat) e : Prop := {
  os_permits : permits_inv e;
  os_config : probe_concurrency (probe (en_config e)) = n;
  os_pool : pl_epoch (en_pool e) = 0%nat ∧ pl_want (en_pool e) = 0%nat
            ∨ pl_epoch (en_pool e) = 1%nat ∧ pl_want (en_pool e) = Nat.max n 1;
  os_workers : ∀ id w, en_workers e !! id = Some w -> wk_epoch w = 1%nat
}.

Lemma one_semaphore_step n e l : keeps_ceiling n l -> one_semaphore n e -> one_semaphore n (step e l).
Proof.
  intros Hk [Hp Hc Hw He]. pose proof (permits_step e l Hp) as Hp'.
  destruct l; try (by constructor); cbn [step] in *.
  - case_bool_decide; [|by constructor]. constructor; cbn; try done.
    unfold worker_slots. rewrite Hc. case_bool_decide; cbn; [done|]. right. destruct Hw as [[-> _]|[_ Hw]]; [done|lia].
  - destruct (bool_decide _ && _); by constructor.
  - case_bool_decide as Hl; [|by constructor]. unfold receive in *.
    destruct (take_job (en_queue e)) as [[job|] q]; [|by constructor]. constructor; cbn; try done.
    intros j w [[<- <-]|[_ H]]%lookup_insert_Some; [cbn|by apply (He j)].
    destruct Hw as [[_ Hw]|[-> _]]; [|done]. destruct Hp as [Hs Hf _ _]. unfold held in Hs.
    pose proof (count_of_nonneg (current (en_pool e)) (en_workers e)). rewrite Hl, Hw in Hs. lia.
  - case_bool_decide; [|by constructor]. constructor; cbn; try done.
  - unfold work_step in *. destruct (en_workers e !! id) as [w|] eqn:Hid; [|by constructor].
    destruct (work e (wk_pc w) i) as [s [pc|]]; constructor; cbn; try done.
    + intros j w' [[<- <-]|[_ H]]%lookup_insert_Some; [by apply (He id w)|by apply (He j w')].
    + unfold release. by case_bool_decide.
    + intros j w' [_ H]%lookup_delete_Some. by apply (He j w').
Qed.

(** C25. The engine keeps to its ceiling: however jobs, probes, reloads and changes of the
    network interleave, while no reload changes [probe.concurrency] there are never more
    probes under way than that, and the permits that are free, held by the loop and
    carried by workers always add up to the ceiling in force. *)
Theorem workers_keep_to_the_ceiling c generation quality cf queue ls
    (Hls : ∀ l, l ∈ ls -> keeps_ceiling (probe_concurrency (probe c)) l) :
  let e := run_engine ls (engine_new c generation quality cf queue) in
  (size (en_workers e) <= Nat.max (probe_concurrency (probe c)) 1)%nat ∧
  pl_free (en_pool e) + held (en_pool e) + Z.of_nat (size (en_workers e)) = Z.of_nat (pl_want (en_pool e)).
Proof.
  intros e. assert (one_semaphore (probe_concurrency (probe c)) e) as [[Hs Hf He _] _ Hw H1].
  { apply run_ind; [|intros; apply one_semaphore_step; [by apply Hls|done]].
    constructor; cbn; [apply permits_new|done|by left|intros ? ?; by rewrite lookup_empty]. }
  assert (count_of (current (en_pool e)) (en_workers e) = Z.of_nat (size (en_workers e))) as Hc.
  { apply count_of_all. intros j w Hj. unfold current. apply bool_decide_eq_true_2.
    specialize (He _ _ Hj). rewrite (H1 _ _ Hj) in *. destruct Hw as [[Hw _]|[Hw _]]; lia. }
  rewrite Hc in Hs. split; [|done]. unfold held in Hs.
  destruct Hw as [[_ Hw]|[_ Hw]]; rewrite Hw in Hs; destruct (pl_loop (en_pool e)); lia.
Qed.
(** ** What reaches the validations *)

(** The change a step makes to the Cloudflare state. *)
Definition events_at e (l : Label) : list Event :=
  match l with
  | LWork id _ =>
      match wk_pc <$> (en_workers e !! id) with
      | Some (PcObserve t generation) => [EvAdmit (tg_addr t) DnsAnswer generation (tg_now t) None]
      | Some (PcEffects (EfCloudflare ev :: _)) => [ev]
      | _ => []
      end
  | LNetwork generation _ => [EvGeneration generation]
  | LPrefixes snapshot => [EvPrefixes snapshot]
  | LAdmit addr origin generation now budget => [EvAdmit addr origin generation now budget]
  | _ => []
  end.

(** The history of a run, the most recent event first. *)
Fixpoint events (ls : list Label) e : list Event :=
  match ls with [] => [] | l :: ls => events ls (step e l) ++ events_at e l end.

(** The probes that came to an end in a run, with what they found. *)
Definition concluded_at e (l : Label) : list (Dial * Outcome) :=
  match l with
  | LWork id _ =>
      match wk_pc <$> (en_workers e !! id) with Some (PcConclude d o) => [(d, o)] | _ => [] end
  | _ => []
  end.

Fixpoint concluded (ls : list Label) e : list (Dial * Outcome) :=
  match ls with [] => [] | l :: ls => concluded_at e l ++ concluded ls (step e l) end.

(** A probe that set out to check the address for the host, and was accepted. *)
Definition served (host : str) (addr : IpAddr) (c : Dial * Outcome) : bool :=
  let t := dl_target c.1 in
  bool_decide (tg_intent t = IntentValidate) && bool_decide (host_key (tg_host t) = host ∧ tg_addr t = addr)
  && match c.2 with Ok r => accepts (profile_of c.1) r | Err _ => false end.

Lemma cloudflare_of_work e pc i :
  s_cloudflare (work e pc i).1 =
  history (s_cloudflare (en_shared e))
    match pc with
    | PcObserve t generation => [EvAdmit (tg_addr t) DnsAnswer generation (tg_now t) None]
    | PcEffects (EfCloudflare ev :: _) => [ev]
    | _ => []
    end.
Proof.
  destruct pc as [| |t|d| | | | |[|[]]]; try done; cbn [work].
  - by case_match.
  - by destruct (admit_probe _ _ _ _) as [[] ?].
  - by destruct (in_quic i).
Qed.

Lemma cloudflare_of_step e l :
  s_cloudflare (en_shared (step e l)) = history (s_cloudflare (en_shared e)) (events_at e l).
Proof.
  destruct l; cbn [step]; try done; try (by case_match).
  - case_bool_decide; [|done]. unfold receive. by destruct (take_job _) as [[] ?].
  - unfold work_step, events_at. destruct (en_workers e !! id) as [w|]; [|done]. cbn [fmap option_fmap option_map].
    pose proof (cloudflare_of_work e (wk_pc w) i) as Hw.
    destruct (work e (wk_pc w) i) as [s [pc|]]; exact Hw.
Qed.

Lemma history_app s es1 es2 : history s (es1 ++ es2) = history (history s es2) es1.
Proof. unfold history. by rewrite foldr_app. Qed.

Lemma cloudflare_of_run ls e :
  s_cloudflare (en_shared (run_engine ls e)) = history (s_cloudflare (en_shared e)) (events ls e).
Proof.
  revert e. induction ls as [|l ls IH]; intros e; [done|].
  change (run_engine (l :: ls) e) with (run_engine ls (step e l)). cbn [events].
  by rewrite IH, cloudflare_of_step, history_app.
Qed.

(** *** Counting accepted validations *)

Definition passes (host : str) (addr : IpAddr) (ev : Event) : bool :=
  match ev with EvValidation h a ok _ _ => ok && bool_decide (host_key h = host ∧ a = addr) | _ => false end.

Definition passed (host : str) (addr : IpAddr) (es : list Event) : Z :=
  Z.of_nat (length (List.filter (passes host addr) es)).

Lemma passed_app host addr es1 es2 : passed host addr (es1 ++ es2) = passed host addr es1 + passed host addr es2.
Proof. unfold passed. rewrite List.filter_app, length_app. lia. Qed.

Lemma streak_passed es host addr : streak es host addr <= passed host addr es.
Proof.
  unfold passed. induction es as [|ev es IH]; [done|]. pose proof (streak_nonneg es host addr).
  destruct ev; cbn [streak List.filter passes]; try lia.
  destruct success; cbn [andb]; repeat case_bool_decide; cbn [length]; lia.
Qed.

(** The validations a worker has still to record. *)
Definition effect_passes (host : str) (addr : IpAddr) (ef : Effect) : bool :=
  match ef with EfCloudflare ev => passes host addr ev | _ => false end.

Definition pending_of (host : str) (addr : IpAddr) (w : Worker) : bool :=
  match wk_pc w with PcEffects es => existsb (effect_passes host addr) es | _ => false end.

Definition is_validation (ef : Effect) : bool :=
  match ef with EfCloudflare (EvValidation _ _ _ _ _) => true | _ => false end.

Definition tidy (pc : Pc) : Prop :=
  match pc with PcEffects es => (length (List.filter is_validation es) <= 1)%nat | _ => True end.

Lemma conclude_tidy h d o unix : tidy (PcEffects (conclude h d o unix)).
Proof.
  unfold conclude, concluded_ok, concluded_err, tidy. destruct o as [r|err].
  - destruct (tg_intent (dl_target d)); cbn; lia.
  - destruct (bool_decide (tg_intent _ = _)), (bool_decide (classify_error h err = _)), err; cbn; lia.
Qed.

Lemma work_tidy e pc i : tidy pc -> match (work e pc i).2 with Some pc' => tidy pc' | None => True end.
Proof.
  intros Ht. destruct pc as [job| |t|d|d|d o|d o|d o|[|ef es]]; cbn [work snd]; try done.
  - unfold execute. case_match; [cbn; lia|]. destruct job as [? ? ? [] ?| | |]; done.
  - by destruct (negb (probe_enabled (probe (en_config e)))).
  - destruct (admit_probe _ _ _ _) as [[|r] ?]; [done|]. cbn. destruct (is_cooldown r); cbn; lia.
  - by destruct (wants_quic d o i).
  - apply conclude_tidy.
  - cbn in *. destruct (is_validation ef); cbn in *; lia.
Qed.

Lemma no_validation_no_pass host addr es :
  List.filter is_validation es = [] -> existsb (effect_passes host addr) es = false.
Proof.
  induction es as [|ef es IH]; [done|]. cbn. destruct (is_validation ef) eqn:Hv; [done|]. intros H.
  rewrite (IH H), orb_false_r. destruct ef as [| | |[]]; done.
Qed.

(** What a conclusion leaves to be recorded. *)
Lemma conclude_pending host addr h d o unix :
  existsb (effect_passes host addr) (conclude h d o unix) = served host addr (d, o).
Proof.
  unfold conclude, served. destruct o as [r|err]; cbn [fst snd].
  - unfold concluded_ok. destruct (tg_intent (dl_target d)) eqn:Hi; cbn; try done.
    rewrite !orb_false_r. by rewrite andb_comm.
  - rewrite andb_false_r. unfold concluded_err.
    by destruct (bool_decide (tg_intent _ = _)), (bool_decide (classify_error h err = _)), err.
Qed.

(** One step of a worker: what it records, and what it has still to record. *)
Lemma work_pending host addr e w i :
  tidy (wk_pc w) ->
  Z.b2z (match (work e (wk_pc w) i).2 with Some pc => pending_of host addr (mk_Worker (wk_epoch w) pc) | None => false end)
  + passed host addr match wk_pc w with
                     | PcObserve t generation => [EvAdmit (tg_addr t) DnsAnswer generation (tg_now t) None]
                     | PcEffects (EfCloudflare ev :: _) => [ev]
                     | _ => []
                     end
  = Z.b2z (pending_of host addr w)
    + match wk_pc w with PcConclude d o => Z.b2z (served host addr (d, o)) | _ => 0 end.
Proof.
  intros Ht. destruct w as [ep pc]. cbn [wk_pc wk_epoch] in *.
  destruct pc as [job|t g|t|d|d|d o|d o|d o|[|ef es]]; cbn [work snd]; try done.
  - unfold execute. case_match; [done|]. by destruct job as [? ? ? [] ?| | |].
  - by destruct (negb (probe_enabled (probe (en_config e)))).
  - destruct (admit_probe _ _ _ _) as [[|r] ?]; [done|]. cbn. by destruct (is_cooldown r).
  - by destruct (wants_quic d o i).
  - unfold pending_of. cbn [wk_pc]. rewrite conclude_pending. by destruct (served host addr (d, o)).
  - unfold pending_of. cbn [wk_pc existsb]. cbn in Ht.
    destruct ef as [| | |ev]; cbn [effect_passes orb];
      try (by destruct (existsb (effect_passes host addr) es)).
    unfold passed. cbn [List.filter]. destruct (passes host addr ev) eqn:Hp; cbn [length orb Z.b2z];
      [|by destruct (existsb (effect_passes host addr) es)].
    destruct ev; try discriminate Hp. cbn in Ht. rewrite no_validation_no_pass; [cbn; lia|].
    destruct (List.filter is_validation es); [done|cbn in Ht; lia].
Qed.

Definition all_tidy e : Prop := ∀ id w, en_workers e !! id = Some w -> tidy (wk_pc w).

Lemma step_tidy e l : all_tidy e -> all_tidy (step e l).
Proof.
  intros Ht. destruct l; cbn [step]; try done; try (by case_match).
  - case_bool_decide as Hl; [|done]. unfold receive. destruct (take_job _) as [[job|] ?]; [|done].
    intros j w; cbn; intros [[<- <-]|[_ H]]%lookup_insert_Some; [done|by apply (Ht j)].
  - unfold work_step. destruct (en_workers e !! id) as [w|] eqn:Hid; [|done].
    pose proof (work_tidy e (wk_pc w) i (Ht _ _ Hid)) as Hw. destruct (work e (wk_pc w) i) as [s [pc|]].
    + intros j w'; cbn; intros [[<- <-]|[_ H]]%lookup_insert_Some; [done|by apply (Ht j)].
    + intros j w'; cbn; intros [_ H]%lookup_delete_Some. by apply (Ht j).
Qed.

Lemma step_pending host addr e l :
  all_tidy e -> en_workers e !! pl_next (en_pool e) = None ->
  passed host addr (events_at e l) + count_of (pending_of host addr) (en_workers (step e l))
  <= count_of (pending_of host addr) (en_workers e)
     + Z.of_nat (length (List.filter (served host addr) (concluded_at e l))).
Proof.
  intros Ht Hn. pose proof (count_of_nonneg (pending_of host addr) (en_workers e)) as Hp.
  destruct l; cbn [step events_at concluded_at]; unfold passed; cbn [List.filter passes length Z.of_nat];
    try (by repeat case_match; cbn [en_workers with_pool_state network_change cloudflare_step with_shared]; lia).
  - case_bool_decide as Hl; [|lia]. unfold receive. destruct (take_job _) as [[job|] ?]; [|lia].
    cbn [en_workers]. rewrite count_of_fresh by done. cbn [Z.b2z pending_of wk_pc]. lia.
  - case_bool_decide as Hl; [|lia]. cbn [en_workers with_workers]. rewrite count_of_empty. lia.
  - unfold work_step. destruct (en_workers e !! id) as [w|] eqn:Hid; cbn [fmap option_fmap option_map];
      [|cbn [List.filter length Z.of_nat]; lia].
    pose proof (work_pending host addr e w i (Ht _ _ Hid)) as Hw. unfold passed in Hw.
    assert (match wk_pc w with PcConclude d o => Z.b2z (served host addr (d, o)) | _ => 0 end
            = Z.of_nat (length (List.filter (served host addr)
                match wk_pc w with PcConclude d o => [(d, o)] | _ => [] end))) as <-.
    { destruct (wk_pc w); try done. cbn [List.filter]. by destruct (served host addr (d, o)). }
    destruct (work e (wk_pc w) i) as [s [pc|]]; cbn [snd] in Hw.
    + cbn [en_workers with_workers with_shared]. rewrite (count_of_insert _ _ _ _ _ Hid). lia.
    + cbn [en_workers with_pool_state with_workers with_shared]. rewrite (count_of_delete _ _ _ _ Hid).
      cbn [Z.b2z] in Hw. lia.
Qed.

Lemma run_pending host addr ls e :
  all_tidy e -> permits_inv e ->
  passed host addr (events ls e) + count_of (pending_of host addr) (en_workers (run_engine ls e))
  <= count_of (pending_of host addr) (en_workers e)
     + Z.of_nat (length (List.filter (served host addr) (concluded ls e))).
Proof.
  revert e. induction ls as [|l ls IH]; intros e Ht Hp; [unfold passed; cbn [run_engine fold_left events concluded List.filter length Z.of_nat]; lia|].
  change (run_engine (l :: ls) e) with (run_engine ls (step e l)). cbn [events concluded].
  rewrite passed_app, List.filter_app, length_app.
  assert (en_workers e !! pl_next (en_pool e) = None) as Hn.
  { apply eq_None_not_Some. intros [w Hw]. pose proof (pi_fresh e Hp _ _ Hw). lia. }
  pose proof (step_pending host addr e l Ht Hn).
  specialize (IH (step e l) (step_tidy e l Ht) (permits_step e l Hp)). lia.
Qed.

(** C20. A validated address has served the host: whatever jobs, workers, reloads and
    changes of the network interleave, the successes on record for an address and a host
    are at most the probes that set out to check that address for that host, ended with
    a response to a verified handshake under the host's name, and met its profile. *)
Theorem validated_means_served c generation quality cf queue ls hostname addr v
    (Hcf : cs_validations cf = ∅)
    (Hv : validation (s_cloudflare (en_shared (run_engine ls (engine_new c generation quality cf queue))))
            hostname addr = Some v) :
  dv_successes v <=
  Z.of_nat (length (List.filter (served (host_key hostname) addr)
                      (concluded ls (engine_new c generation quality cf queue)))).
Proof.
  set (e := engine_new c generation quality cf queue) in *. rewrite cloudflare_of_run in Hv.
  destruct (history_validations (s_cloudflare (en_shared e)) (events ls e) Hcf _ _ _ Hv) as [[_ Hs] _].
  pose proof (streak_passed (events ls e) (host_key hostname) addr) as Hp.
  assert (all_tidy e) as Ht by (intros ? ?; cbn; by rewrite lookup_empty).
  pose proof (run_pending (host_key hostname) addr ls e Ht (permits_new c generation quality cf queue)) as Hr.
  assert (count_of (pending_of (host_key hostname) addr) (en_workers e) = 0) as H0 by apply count_of_empty.
  pose proof (count_of_nonneg (pending_of (host_key hostname) addr) (en_workers (run_engine ls e))).
  lia.
Qed.

(** ** What is dialled *)

Definition configs (c : Config) (ls : list Label) : list Config :=
  c :: flat_map (λ l, match l with LReload c => [c] | _ => [] end) ls.

(** Dialled with probing switched on, and admitted by the guard under limits in force. *)
Definition permitted (cs : list Config) d : Prop :=
  dl_config d ∈ cs ∧ probe_enabled (probe (dl_config d)) = true ∧
  ∃ c', c' ∈ cs ∧
    address_allowed (limits_from_config (probe c')) (tg_addr (dl_target d)) = true ∧
    port_allowed (limits_from_config (probe c')) (tg_port (dl_target d)) false = true.

Definition pc_permitted (cs : list Config) (pc : Pc) : Prop :=
  match pc with
  | PcAdmit d => dl_config d ∈ cs ∧ probe_enabled (probe (dl_config d)) = true
  | PcExchange d | PcBandwidth d _ | PcQuic d _ | PcConclude d _ => permitted cs d
  | _ => True
  end.

Record dials_inv (cs : list Config) e : Prop := {
  di_config : en_config e ∈ cs;
  di_limits : ∃ c', c' ∈ cs ∧ s_limits (en_shared e) = limits_from_config (probe c');
  di_workers : ∀ id w, en_workers e !! id = Some w -> pc_permitted cs (wk_pc w)
}.

Lemma work_permitted cs e pc i :
  dials_inv cs e -> pc_permitted cs pc ->
  (∃ c', c' ∈ cs ∧ s_limits (work e pc i).1 = limits_from_config (probe c')) ∧
  match (work e pc i).2 with Some pc' => pc_permitted cs pc' | None => True end.
Proof.
  intros [Hc (c' & Hc' & Hl) _] Hp. destruct pc as [job|t g|t|d|d|d o|d o|d o|[|ef es]]; cbn [work fst snd].
  - split; [eauto|]. unfold execute. case_match; [done|]. by destruct job as [? ? ? [] ?| | |].
  - split; [eauto|done].
  - destruct (probe_enabled (probe (en_config e))) eqn:He; cbn; split; eauto.
  - destruct (admit_probe _ _ _ _) as [[[]|r] g] eqn:Ha; cbn; split; eauto.
    apply admit_ok in Ha as (H1 & H2 & _). rewrite Hl in H1, H2. destruct Hp. by split_and!; [..|exists c'].
  - split; [eauto|done].
  - split; [eauto|]. by destruct (wants_quic d o i).
  - by destruct (in_quic i); split; eauto.
  - split; [eauto|done].
  - split; [eauto|done].
  - split; [|done]. exists c'. by destruct ef.
Qed.

Lemma dials_step cs e l :
  (∀ c', l = LReload c' -> c' ∈ cs) -> dials_inv cs e -> dials_inv cs (step e l).
Proof.
  intros Hr Hi. pose proof Hi as [Hc Hl Hw].
  destruct l; cbn [step]; try (by constructor); try (by case_match; constructor).
  - case_bool_decide as Hh; [|by constructor]. unfold receive. destruct (take_job _) as [[job|] ?]; [|by constructor].
    constructor; try done. intros j w; cbn; intros [[<- <-]|[_ H]]%lookup_insert_Some; [done|by apply (Hw j)].
  - unfold work_step. destruct (en_workers e !! id) as [w|] eqn:Hid; [|by constructor].
    destruct (work_permitted cs e (wk_pc w) i Hi (Hw _ _ Hid)) as [H1 H2].
    destruct (work e (wk_pc w) i) as [s [pc|]]; constructor; try done.
    + intros j w'; cbn; intros [[<- <-]|[_ H]]%lookup_insert_Some; [done|by apply (Hw j)].
    + intros j w'; cbn; intros [_ H]%lookup_delete_Some. by apply (Hw j).
  - constructor; try done. by apply Hr.
Qed.

Lemma concluded_permitted cs ls e :
  (∀ c', LReload c' ∈ ls -> c' ∈ cs) -> dials_inv cs e ->
  ∀ d o, (d, o) ∈ concluded ls e -> permitted cs d.
Proof.
  revert e. induction ls as [|l ls IH]; intros e Hls Hi d o; cbn [concluded]; [by intros ?%elem_of_nil|].
  intros [Hin|Hin]%elem_of_app.
  - destruct l; try (by apply elem_of_nil in Hin). cbn in Hin.
    destruct (en_workers e !! id) as [w|] eqn:Hid; cbn in Hin; [|by apply elem_of_nil in Hin].
    pose proof (di_workers cs e Hi _ _ Hid) as Hw.
    destruct (wk_pc w); try (by apply elem_of_nil in Hin).
    apply list_elem_of_singleton in Hin. by simplify_eq.
  - apply (IH (step e l)) with o; [|apply dials_step; [|done]|done].
    + intros c' Hc'. apply Hls. by right.
    + intros c' ->. apply Hls. left.
Qed.

(** C21. Every address the engine has dialled was one it may dial: probing was switched on in
    the configuration the probe was started under, and under the limits of a
    configuration that has been in force the address is routable or expressly allowed,
    never loopback, link-local, multicast or a metadata service, and the port is allowed. *)
Theorem only_permitted_addresses_are_dialled c generation quality cf queue ls d o
    (Hin : (d, o) ∈ concluded ls (engine_new c generation quality cf queue)) :
  permitted (configs c ls) d ∧
  ∀ class, IpClass.classify (tg_addr (dl_target d)) = Some class -> never_probeable class = false.
Proof.
  assert (permitted (configs c ls) d) as Hp.
  { eapply concluded_permitted; [|constructor|exact Hin].
    - intros c' Hc'. right. apply list_elem_of_In, in_flat_map. exists (LReload c').
      split; [by apply list_elem_of_In|by left].
    - left.
    - exists c. by split; [left|].
    - intros ? ?. cbn. by rewrite lookup_empty. }
  split; [done|]. intros class Hclass. destruct Hp as (_ & _ & c' & _ & Ha & _).
  unfold address_allowed in Ha. rewrite Hclass in Ha. by destruct (never_probeable class).
Qed.

(** ** Whom a failure is blamed on *)

(** While every probe is failing nobody is blamed: an error that is classified with the
    subsystem degraded adds observations that do not penalise, no failed validation and
    no further failure of the subsystem; and the first response makes it healthy. *)
Theorem degraded_engine_blames_nobody (h : SubsystemHealth) d error unix (Hh : sh_healthy h = false) :
  (∀ key class latency now, EfRecord key class latency now ∈ conclude h d (Err error) unix ->
     is_penalising class = false) ∧
  (∀ ef, ef ∈ conclude h d (Err error) unix -> is_validation ef = false ∧ ef ≠ EfFailed) ∧
  ∀ r, ∃ rest, conclude h d (Ok r) unix = EfHealthy :: rest ∧ sh_healthy (subsystem_success h) = true.
Proof.
  assert (classify_error h error = ObsAmbiguousFailure) as Hc by (unfold classify_error; by rewrite Hh).
  unfold conclude, concluded_err. rewrite Hc, andb_false_r. split_and!.
  - intros key class latency now. rewrite !elem_of_app, !list_elem_of_singleton.
    destruct error; rewrite ?elem_of_nil, ?list_elem_of_singleton; naive_solver.
  - intros ef. rewrite !elem_of_app, !list_elem_of_singleton.
    destruct error; rewrite ?elem_of_nil, ?list_elem_of_singleton; naive_solver.
  - intros r. by eexists.
Qed.

(** A run of applicable failures as long as the threshold degrades the subsystem. *)
Lemma failures_degrade h (n : nat) :
  0 <= sh_consecutive_failures h -> sh_threshold h <= sh_consecutive_failures h + Z.of_nat n <= u32_max ->
  (0 < n)%nat -> sh_healthy (Nat.iter n subsystem_failure h) = false.
Proof.
  assert (∀ m, sh_threshold (Nat.iter m subsystem_failure h) = sh_threshold h) as Ht.
  { induction m as [|m IH]; [done|]. exact IH. }
  assert (∀ m, 0 <= sh_consecutive_failures h -> sh_consecutive_failures h + Z.of_nat m <= u32_max ->
    sh_consecutive_failures (Nat.iter m subsystem_failure h) = sh_consecutive_failures h + Z.of_nat m) as Hcnt.
  { induction m as [|m IH]; intros; [cbn; lia|]. cbn. fold (Nat.iter m subsystem_failure h).
    rewrite IH by lia. rewrite as_u32_small; [lia|]. unfold is_u32. lia. }
  intros H0 H1 Hn. destruct n as [|n]; [lia|]. cbn [Nat.iter nat_rect].
  change (nat_rect _ h _ n) with (Nat.iter n subsystem_failure h).
  unfold subsystem_failure at 1. cbn [sh_healthy]. rewrite Ht, Hcnt by lia.
  rewrite as_u32_small by (unfold is_u32; lia). rewrite (proj2 (Z.leb_le _ _)); [done|lia].
Qed.

(** A lost route shows as probes that time out.  They are no failure of the subsystem,
    however many there are, and each of them counts against its address. *)
Theorem timeouts_never_degrade h d unix (Hh : sh_healthy h = true) :
  (EfFailed ∉ conclude h d (Err PeTimeout) unix) ∧
  EfRecord (https_of d) ObsTimeout None (tg_now (dl_target d)) ∈ conclude h d (Err PeTimeout) unix ∧
  EfRecord (generic_of d) ObsTimeout None (tg_now (dl_target d)) ∈ conclude h d (Err PeTimeout) unix ∧
  is_penalising ObsTimeout = true.
Proof.
  unfold conclude, concluded_err, classify_error. rewrite Hh, andb_false_r. cbn [negb].
  rewrite (bool_decide_eq_false_2 (ObsTimeout = _)) by done. split_and!; [|set_solver..|done].
  rewrite !elem_of_app, !list_elem_of_singleton, elem_of_nil. naive_solver.
Qed.

(** A response that does not meet the profile of one host counts against the address for
    every other host as well, through its generic series. *)
Theorem one_host_blames_the_address h d r unix (Hr : accepts (profile_of d) r = false) :
  EfRecord (generic_of d) ObsApplicableFailure (Some (ho_tcp r)) (tg_now (dl_target d))
  ∈ conclude h d (Ok r) unix.
Proof. unfold conclude, concluded_ok. rewrite Hr. set_solver. Qed.

(** Any error starts the successes of a candidate over, also one that says nothing about
    the address. *)
Theorem any_error_restarts_a_candidate h d error unix :
  EfCloudflare (EvStage (tg_addr (dl_target d)) StageNew false None (tg_now (dl_target d)))
  ∈ conclude h d (Err error) unix.
Proof. unfold conclude, concluded_err. rewrite !elem_of_app, !list_elem_of_singleton. naive_solver. Qed.
End engine.

(** ** A concrete engine *)

Section witnesses.
#[local] Existing Instance ipnet_reference.
#[local] Existing Instance evidence_floats.
#[local] Existing Instance addr_order.
#[local] Existing Instance validation_order.
#[local] Existing Instance series_order.

Definition one_worker : Config :=
  on_probe (λ p, mk_ProbeConfig true 8 1 (global_connections_per_second p) (tcp_timeout p) (tls_timeout p)
    (http_timeout p) (per_ip_cooldown p) (per_prefix_cooldown p) (per_domain_cooldown p)
    (max_candidates_per_rrset p) (extra_ports p) (max_response_bytes p) (enable_http3 p)
    (daily_bandwidth_budget_bytes p) (allow_special_use_targets p)) default_Config.

Definition two_workers : Config :=
  on_probe (λ p, mk_ProbeConfig true 8 2 (global_connections_per_second p) (tcp_timeout p) (tls_timeout p)
    (http_timeout p) (per_ip_cooldown p) (per_prefix_cooldown p) (per_domain_cooldown p)
    (max_candidates_per_rrset p) (extra_ports p) (max_response_bytes p) (enable_http3 p)
    (daily_bandwidth_budget_bytes p) (allow_special_use_targets p)) default_Config.

#[local] Abbreviation idle_engine :=
  (engine_new one_worker 1 (store_new 16) (state_new 8 official) (queue_new 8 true)).

Definition www : str := lit "www.example.com".

Definition found (secs : Z) : Input :=
  mk_Input (from_secs secs) secs sample_exchange false (Ok (from_millis 15)) false.

Definition check_job (n : Z) : ProbeJob := JobValidate www (edge n) 443 1.

(** One job from the queue into a worker. *)
Definition take_one : list Label := [LSlots; LAcquire; LReceive].

(** [n] steps of a worker. *)
Definition works (id n : nat) : list Label := repeat (LWork id (found 5)) n.

#[local] Abbreviation engine_run ls := (run_engine (λ b, b) ls idle_engine).

Definition one_check : list Label := [LOffer (check_job 1)] ++ take_one ++ works 0 13.

Definition successes_of (e : Engine) : option Z :=
  dv_successes <$> validation (s_cloudflare (en_shared e)) www (edge 1).

Lemma one_check_result :
  successes_of (engine_run one_check) = Some 1 ∧
  size (en_workers (engine_run one_check)) = 0%nat ∧
  pl_free (en_pool (engine_run one_check)) = 1 ∧
  length (concluded (λ b, b) one_check idle_engine) = 1%nat.
Proof. split_and!; vm_compute; reflexivity. Qed.

(** The network changes while the exchange is under way.  What was measured on the old
    network is recorded as a measurement, and as a validation, on the new one. *)
Definition crossing : list Label :=
  [LOffer (check_job 1)] ++ take_one ++ works 0 4 ++ [LNetwork 2 f64_one] ++ works 0 9.

Theorem evidence_crosses_networks :
  successes_of (engine_run crossing) = Some 1 ∧
  (q_generation <$> store_get (s_quality (en_shared (engine_run crossing))) (https_key (edge 1) 443 www))
  = Some 2.
Proof. split; vm_compute; reflexivity. Qed.

(** A reload that changes the ceiling makes a new semaphore, and a worker under the old
    one is not counted against it: three workers under a ceiling of two. *)
Definition resized : list Label :=
  [LOffer (check_job 1); LOffer (check_job 2); LOffer (check_job 3)] ++ take_one ++ [LReload two_workers]
  ++ take_one ++ take_one.

Theorem resizing_exceeds_the_ceiling :
  probe_concurrency (probe (en_config (engine_run resized))) = 2%nat ∧
  size (en_workers (engine_run resized)) = 3%nat.
Proof. split; vm_compute; reflexivity. Qed.

Lemma workers_keep_to_the_ceiling_witness :
  (size (en_workers (engine_run one_check)) <= 1)%nat.
Proof.
  apply (workers_keep_to_the_ceiling (λ b, b) one_worker 1 (store_new 16) (state_new 8 official)
           (queue_new 8 true) one_check).
  apply Forall_forall. repeat (constructor; [exact I|]). constructor.
Defined.

Lemma validated_means_served_witness :
  1 <= Z.of_nat (length (List.filter (served (host_key www) (edge 1)) (concluded (λ b, b) one_check idle_engine))).
Proof.
  destruct (validation (s_cloudflare (en_shared (engine_run one_check))) www (edge 1)) as [v|] eqn:Hv;
    [|vm_compute in Hv; discriminate Hv].
  assert (dv_successes v = 1) as H1 by (vm_compute in Hv; injection Hv as <-; reflexivity).
  eapply Z.le_trans; [apply Z.eq_le_incl; symmetry; exact H1|].
  exact (validated_means_served (λ b, b) one_worker 1 (store_new 16) (state_new 8 official)
           (queue_new 8 true) one_check www (edge 1) v eq_refl Hv).
Defined.

Definition first_dial : Dial :=
  mk_Dial (mk_Target (edge 1) 443 www IntentValidate (from_secs 5)) one_worker.

Lemma only_permitted_addresses_are_dialled_witness :
  match concluded (λ b, b) one_check idle_engine with
  | (d, _) :: _ => permitted (configs one_worker one_check) d
  | [] => False
  end.
Proof.
  destruct (concluded (λ b, b) one_check idle_engine) as [|[d o] rest] eqn:Hc.
  - assert (length (concluded (λ b, b) one_check idle_engine) = 1%nat) as H1 by (vm_compute; reflexivity).
    rewrite Hc in H1. discriminate H1.
  - apply (only_permitted_addresses_are_dialled (λ b, b) one_worker 1 (store_new 16) (state_new 8 official)
             (queue_new 8 true) one_check d o).
    rewrite Hc. left.
Defined.

Lemma degraded_engine_blames_nobody_witness :
  EfFailed ∉ conclude (mk_SubsystemHealth false 8 8 8) first_dial (Err PeTimeout) 0.
Proof.
  intros Hin.
  by destruct (degraded_engine_blames_nobody (mk_SubsystemHealth false 8 8 8) first_dial PeTimeout 0 eq_refl)
    as (_ & H & _); destruct (H _ Hin).
Defined.
End witnesses.
