(* ===== verification/Seeds.v ===== *)
(** * Lists fetched from the network

    [src/cloudflare/seeds.rs]: the parser of candidate lists that nobody vouches for.
    [src/probe/fetch.rs]: the capped HTTPS fetch behind them and behind the official
    prefixes.  Text is a list of octets; white space is that of ASCII.  What a server
    sends is an input, as for a probe. *)

From Stdlib Require Import Ascii String.
From S2P Require Import Prelude.
From S2P Require Import Names.
From S2P Require Import Net.
From S2P Require Import Text.
From S2P Require Import Config.
From S2P Require Import Errors.
From S2P Require Import Message.
From S2P Require Import EdnsOptions.
From S2P Require Import Prefixes.
From S2P Require Import Endpoints.
From S2P Require Import ProbeHttp.

(** ** Octets and text *)

Definition between (lo hi : Z) (c : ascii) : bool := (lo <=? code c) && (code c <=? hi).

Definition continuation : ascii -> bool := between 128 191.

(** [str::from_utf8] succeeds. *)
Fixpoint valid_utf8 (s : str) : bool :=
  match s with
  | [] => true
  | a :: s =>
      if code a <? 128 then valid_utf8 s
      else if between 194 223 a then
        match s with b :: s => continuation b && valid_utf8 s | _ => false end
      else if between 224 239 a then
        match s with
        | b :: c :: s =>
            between (if code a =? 224 then 160 else 128) (if code a =? 237 then 159 else 191) b
            && continuation c && valid_utf8 s
        | _ => false
        end
      else if between 240 244 a then
        match s with
        | b :: c :: d :: s =>
            between (if code a =? 240 then 144 else 128) (if code a =? 244 then 143 else 191) b
            && continuation c && continuation d && valid_utf8 s
        | _ => false
        end
      else false
  end.

(** [rsplit_once]: the text before and after the last occurrence. *)
Definition rsplit_once (c : ascii) (s : str) : option (str * str) :=
  match split_once (ascii_eqb c) (rev s) with
  | Some (after, before) => Some (rev before, rev after)
  | None => None
  end.

Definition has_char (c : ascii) (s : str) : bool := existsb (ascii_eqb c) s.

Definition is_digit (c : ascii) : bool := between 48 57 c.
Definition is_ascii_alphanumeric (c : ascii) : bool := is_digit c || between 65 90 c || between 97 122 c.

(** ** Seed lists *)

Inductive SeedItem : Type :=
| SeedAddress (addr : IpAddr) (port : option Z)
| SeedHostname (host : str) (port : option Z).

Record SeedParseStats : Type := mk_SeedParseStats {
  sp_lines : nat;
  sp_accepted : nat;
  sp_skipped : nat;
  sp_malformed : nat;
  sp_truncated : nat
}.

Definition hyphen : ascii := "-"%char.

Definition seed_label_ok (label : str) : bool :=
  negb (is_empty label) && (length label <=? 63)%nat
  && forallb (λ b, is_ascii_alphanumeric b || ascii_eqb b hyphen || ascii_eqb b "_"%char) label
  && negb (starts_with label [hyphen] || ends_with label [hyphen]).

Definition validate_hostname (s : str) : option str :=
  let s := trim_end_matches dot s in
  if is_empty s || (253 <? length s)%nat || negb (has_char dot s) then None
  else if negb (forallb seed_label_ok (split_on dot s)) then None
  else
    let last_ := default [] (last (split_on dot s)) in
    if is_empty last_ || forallb is_digit last_ then None else Some (to_ascii_lowercase s).

Definition parse_entry (s : str) : option SeedItem :=
  if (300 <? length s)%nat then None
  else if starts_with s (lit "[") then
    match parse_socket s with
    | Some (addr, port) => Some (SeedAddress addr (Some port))
    | None => None
    end
  else
    match parse_ip s with
    | Some addr => Some (SeedAddress addr None)
    | None =>
        match rsplit_once colon s with
        | Some (host, port_str) =>
            if has_char colon host then None
            else
              match parse_uint u16_max port_str with
              | None => None
              | Some port =>
                  if port =? 0 then None
                  else
                    match parse_ip host with
                    | Some addr => Some (SeedAddress addr (Some port))
                    | None => (λ host, SeedHostname host (Some port)) <$> validate_hostname host
                    end
              end
        | None => (λ host, SeedHostname host None) <$> validate_hostname s
        end
    end.

(** What a line is about: nothing, or an entry that is good or not. *)
Definition seed_payload (raw_line : str) : option str :=
  let line := trim raw_line in
  if is_empty line || starts_with line (lit "#") || starts_with line (lit "//") then None
  else
    let payload := match split_once (ascii_eqb "#"%char) line with
                   | Some (before, _) => trim before
                   | None => line
                   end in
    if is_empty payload then None else Some payload.

Definition MAX_LINES : nat := Z.to_nat 100000.

Fixpoint parse_lines (max_items : nat) (items : list SeedItem) (st : SeedParseStats) (ls : list str)
    : result CloudflareError (list SeedItem * SeedParseStats) :=
  match ls with
  | [] => Ok (items, st)
  | raw :: ls =>
      let n := S (sp_lines st) in
      if (MAX_LINES <? n)%nat then Err (CfParse (lit "seed response had too many lines"))
      else
        match seed_payload raw with
        | None =>
            parse_lines max_items items
              (mk_SeedParseStats n (sp_accepted st) (S (sp_skipped st)) (sp_malformed st) (sp_truncated st)) ls
        | Some payload =>
            match parse_entry payload with
            | Some item =>
                if (max_items <=? length items)%nat
                then parse_lines max_items items
                       (mk_SeedParseStats n (sp_accepted st) (sp_skipped st) (sp_malformed st)
                          (S (sp_truncated st))) ls
                else parse_lines max_items (items ++ [item])
                       (mk_SeedParseStats n (S (sp_accepted st)) (sp_skipped st) (sp_malformed st)
                          (sp_truncated st)) ls
            | None =>
                parse_lines max_items items
                  (mk_SeedParseStats n (sp_accepted st) (sp_skipped st) (S (sp_malformed st))
                     (sp_truncated st)) ls
            end
        end
  end.

Definition parse_seeds (body : str) (max_items : nat)
    : result CloudflareError (list SeedItem * SeedParseStats) :=
  if negb (valid_utf8 body) then Err (CfParse (lit "seed response was not valid UTF-8"))
  else
    let head_ := skip_while is_whitespace body in
    if starts_with head_ (lit "<") || starts_with head_ ["{"%char; chr 34] || starts_with head_ (lit "[")
    then Err (CfParse (lit "seed response was markup or JSON, not a candidate list"))
    else parse_lines max_items [] (mk_SeedParseStats 0 0 0 0 0) (lines body).

(** ** Fetching *)

Record HttpsUrl : Type := mk_HttpsUrl { hu_host : str; hu_port : Z; hu_path : str }.

Definition slash : ascii := "/"%char.

Definition https_parse (url : str) : result CloudflareError HttpsUrl :=
  let scheme := lit "https://" in
  if negb (starts_with url scheme) then Err (CfFetch (lit "only https:// URLs are supported"))
  else
    let rest := drop (length scheme) url in
    if is_empty rest || (Z.to_nat 2048 <? length rest)%nat then Err (CfFetch (lit "URL length is implausible"))
    else
      let '(authority, path) := match split_once (ascii_eqb slash) rest with
                                | Some (before, after) => (before, slash :: after)
                                | None => (rest, [slash])
                                end in
      if has_char "@"%char authority then Err (CfFetch (lit "userinfo is not permitted in a dataset URL"))
      else
        match (match rsplit_once colon authority with
               | Some (h, p) =>
                   if negb (is_empty h) && negb (has_char colon h)
                   then match parse_uint u16_max p with
                        | Some port => Ok (h, port)
                        | None => Err (CfFetch (lit "invalid port"))
                        end
                   else Ok (authority, 443)
               | None => Ok (authority, 443)
               end) with
        | Err e => Err e
        | Ok (host, port) =>
            if is_empty host || (253 <? length host)%nat then Err (CfFetch (lit "invalid host"))
            else Ok (mk_HttpsUrl host port path)
        end.

Record FetchOptions : Type := mk_FetchOptions {
  fo_max_bytes : Z;
  fo_timeout : Duration;
  fo_etag : option str;
  fo_last_modified : option str;
  fo_bearer : option str
}.

Definition default_FetchOptions : FetchOptions := mk_FetchOptions (256 * 1024) (from_secs 10) None None None.

Record FetchResult : Type := mk_FetchResult {
  fr_status : Z;
  fr_body : list Z;
  fr_etag : option str;
  fr_last_modified : option str;
  fr_served_by : IpAddr
}.

(** The loop over the body; an error, with what had been read, when it is larger than the
    cap. *)
Fixpoint read_capped (max : Z) (body : list Z) (frames : list Frame) : result Z (list Z) :=
  match frames with
  | FrameData data :: frames =>
      if max <? Z.of_nat (length body + length data) then Err (Z.of_nat (length body))
      else read_capped max (body ++ data) frames
  | FrameOther :: frames => read_capped max body frames
  | _ => Ok body
  end.

Definition header_value (headers : list (str * str)) (name : str) : option str :=
  match find_first (λ h, eq_ignore_ascii_case h.1 name) headers with
  | Some h => Some (bounded_octets h.2 200)
  | None => None
  end.

Section fetch.
(** The text of a probe error, and of an error of a fetch. *)
Context {IPL : IpNetLib} (detail : ProbeError -> str) (show : CloudflareError -> str).

Definition fetch_one (options : FetchOptions) (addr : IpAddr) (x : Exchange)
    : result CloudflareError FetchResult :=
  if negb (bool_decide (IpClass.classify addr = None))
  then Err (CfFetch (print_ip addr ++ lit " is a special-use address and will not be fetched from"))
  else
    match staged PeConnect (ex_tcp x), staged PeTls (ex_tls x) with
    | Err e, _ => Err (CfFetch (bounded_octets (detail e) 120))
    | _, Err e => Err (CfFetch (bounded_octets (detail e) 120))
    | Ok _, Ok _ =>
        if negb (ex_uri x) then Err (CfFetch (lit "invalid request URI"))
        else
          match ex_http x, ex_response x with
          | TimedOut, _ => Err (CfFetch (lit "handshake timed out"))
          | Refused e, _ => Err (CfFetch (bounded_octets e 120))
          | Done _, TimedOut => Err (CfFetch (lit "request timed out"))
          | Done _, Refused e => Err (CfFetch (bounded_octets e 120))
          | Done _, Done re =>
              match read_capped (fo_max_bytes options) [] (re_frames re) with
              | Err got => Err (CfTooLarge got (fo_max_bytes options))
              | Ok body =>
                  Ok (mk_FetchResult (re_status re) body (header_value (re_headers re) (lit "etag"))
                        (header_value (re_headers re) (lit "last-modified")) addr)
              end
          end
    end.

Definition OVERALL_ATTEMPTS : nat := 4.

(** An attempt: whether the overall deadline had passed before it or passed during it,
    and what the server did. *)
Record Attempt : Type := mk_Attempt { at_past : bool; at_late : bool; at_exchange : Exchange }.

Fixpoint fetch_from (options : FetchOptions) (last_ : str) (tries : list (IpAddr * Attempt))
    : result CloudflareError FetchResult :=
  match tries with
  | [] => Err (CfFetch (bounded_octets last_ 160))
  | (addr, a) :: tries =>
      if at_past a || at_late a
      then Err (CfFetch (bounded_octets (lit "overall fetch deadline exceeded") 160))
      else
        match fetch_one options addr (at_exchange a) with
        | Ok r => Ok r
        | Err e => fetch_from options (show e) tries
        end
  end.

(** [attempt i] is what happens to the [i]-th attempt. *)
Definition fetch (url : HttpsUrl) (addresses : list IpAddr) (options : FetchOptions)
    (attempt : nat -> Attempt) : result CloudflareError FetchResult :=
  match addresses with
  | [] => Err (CfFetch (lit "no addresses for " ++ hu_host url))
  | _ =>
      fetch_from options (lit "no attempt made")
        (imap (λ i a, (a, attempt i)) (take OVERALL_ATTEMPTS addresses))
  end.
(** ** What a fetch returns *)

Lemma read_capped_bound max body frames out :
  Z.of_nat (length body) <= max -> read_capped max body frames = Ok out -> Z.of_nat (length out) <= max.
Proof.
  revert body. induction frames as [|[| |data|] frames IH]; intros body Hb; cbn [read_capped];
    try (by intros [= <-]); [|by apply IH].
  case_match; [done|]. apply Z.ltb_ge in H. apply IH. rewrite length_app. lia.
Qed.

Lemma fetch_one_ok options addr x r :
  0 <= fo_max_bytes options -> fetch_one options addr x = Ok r ->
  IpClass.classify addr = None ∧ fr_served_by r = addr ∧
  Z.of_nat (length (fr_body r)) <= fo_max_bytes options.
Proof.
  intros Hm. unfold fetch_one. case_bool_decide as Hc; cbn [negb]; [|done].
  destruct (ex_tcp x), (ex_tls x); try done. cbn [staged]. destruct (ex_uri x); [|done]. cbn [negb].
  destruct (ex_http x); try done. destruct (ex_response x) as [| |re]; try done.
  destruct (read_capped _ _ _) as [body|] eqn:Hb; [|done]. intros [= <-]. cbn.
  split_and!; [done|done|]. by apply (read_capped_bound _ [] (re_frames re)).
Qed.

Lemma fetch_from_ok options last_ tries r :
  0 <= fo_max_bytes options -> fetch_from options last_ tries = Ok r ->
  ∃ a, (fr_served_by r, a) ∈ tries ∧ IpClass.classify (fr_served_by r) = None ∧
    Z.of_nat (length (fr_body r)) <= fo_max_bytes options.
Proof.
  intros Hm. revert last_. induction tries as [|[addr a] tries IH]; intros last_; cbn [fetch_from]; [done|].
  case_match; [done|]. destruct (fetch_one options addr (at_exchange a)) as [r'|e] eqn:Hf.
  - intros [= <-]. apply fetch_one_ok in Hf as (H1 & <- & H3); [|done]. exists a.
    split_and!; [left|done|done].
  - intros Hr. apply IH in Hr as (a' & ? & ? & ?). exists a'. split_and!; [by right|done|done].
Qed.

(** A fetch returns at most the configured number of octets, from one of the first four
    addresses of the host, and never from a special-use address. *)
Theorem fetches_are_capped url addresses options attempt r
    (Hmax : 0 <= fo_max_bytes options) (Hok : fetch url addresses options attempt = Ok r) :
  Z.of_nat (length (fr_body r)) <= fo_max_bytes options ∧
  fr_served_by r ∈ take OVERALL_ATTEMPTS addresses ∧
  IpClass.classify (fr_served_by r) = None.
Proof.
  unfold fetch in Hok. destruct addresses as [|a0 rest]; [done|].
  apply fetch_from_ok in Hok as (a & Hin & Hc & Hl); [|done]. split_and!; [done| |done].
  apply list_elem_of_lookup in Hin as [i Hi]. rewrite list_lookup_imap in Hi.
  destruct (take OVERALL_ATTEMPTS (a0 :: rest) !! i) as [b|] eqn:Hb; [|done]. cbn in Hi. injection Hi as -> _.
  by apply list_elem_of_lookup_2 in Hb.
Qed.
End fetch.

(** ** What a seed list yields *)

(** A conservative host name: letters in lower case, labels of 1 to 63 characters with no
    hyphen at either end, at least two of them, and the last not a number. *)
Record hostname_ok (host : str) : Prop := {
  hn_length : (length host <= 253)%nat;
  hn_dot : dot ∈ host;
  hn_labels : ∀ label, label ∈ split_on dot host -> seed_label_ok label = true;
  hn_lower : to_ascii_lowercase host = host;
  hn_last : ∀ label, last (split_on dot host) = Some label -> forallb is_digit label = false
}.

Lemma lower_char_ok c :
  is_ascii_alphanumeric (lower_ascii c) = is_ascii_alphanumeric c ∧ is_digit (lower_ascii c) = is_digit c ∧
  ascii_eqb (lower_ascii c) hyphen = ascii_eqb c hyphen ∧
  ascii_eqb (lower_ascii c) "_"%char = ascii_eqb c "_"%char.
Proof. destruct c as [[] [] [] [] [] [] [] []]; vm_compute; done. Qed.

Lemma forallb_lower (p : ascii -> bool) s :
  (∀ c, p (lower_ascii c) = p c) -> forallb p (to_ascii_lowercase s) = forallb p s.
Proof.
  intros Hp. induction s as [|c s IH]; [done|]. cbn [to_ascii_lowercase map forallb].
  fold (to_ascii_lowercase s). by rewrite Hp, IH.
Qed.

Lemma starts_hyphen_lower s : starts_with (to_ascii_lowercase s) [hyphen] = starts_with s [hyphen].
Proof.
  destruct s as [|c s]; [done|]. cbn. destruct (lower_char_ok c) as (_ & _ & -> & _). done.
Qed.

Lemma seed_label_lower label : seed_label_ok (to_ascii_lowercase label) = seed_label_ok label.
Proof.
  unfold seed_label_ok, ends_with. rewrite to_ascii_lowercase_length.
  rewrite (forallb_lower (λ b, is_ascii_alphanumeric b || ascii_eqb b hyphen || ascii_eqb b "_"%char)).
  - unfold to_ascii_lowercase at 3. rewrite <- map_rev. fold (to_ascii_lowercase (rev label)).
    rewrite !starts_hyphen_lower. by destruct label.
  - intros c. by destruct (lower_char_ok c) as (-> & _ & -> & ->).
Qed.

Lemma split_on_lower s : split_on dot (to_ascii_lowercase s) = map to_ascii_lowercase (split_on dot s).
Proof.
  induction s as [|c s IH]; [done|]. cbn [to_ascii_lowercase map split_on].
  fold (to_ascii_lowercase s). rewrite IH.
  assert (ascii_eqb (lower_ascii c) dot = ascii_eqb c dot) as ->.
  { destruct (ascii_eqb c dot) eqn:E; [by apply ascii_eqb_eq in E as ->|].
    apply not_true_is_false. intros E'%ascii_eqb_eq. apply (proj1 (lower_ascii_dot c)) in E'. rewrite E' in E. discriminate E. }
  destruct (ascii_eqb c dot); [done|]. by destruct (split_on dot s).
Qed.

Lemma has_char_elem c s : has_char c s = true <-> c ∈ s.
Proof.
  unfold has_char. rewrite existsb_elem. split.
  - intros (x & Hx & E%ascii_eqb_eq). by subst.
  - intros H. exists c. split; [done|apply ascii_eqb_refl].
Qed.

Lemma validate_hostname_ok s host : validate_hostname s = Some host -> hostname_ok host.
Proof.
  unfold validate_hostname. set (t := trim_end_matches dot s).
  destruct (is_empty t); [done|]. destruct (253 <? length t)%nat eqn:Hl; [done|].
  destruct (has_char dot t) eqn:Hd; [|done]. cbn [orb negb].
  destruct (forallb seed_label_ok (split_on dot t)) eqn:Hlab; [|done]. cbn [negb].
  case_match eqn:Hlast; [done|]. intros [= <-]. apply orb_false_iff in Hlast as [_ Hlast].
  constructor.
  - rewrite to_ascii_lowercase_length. apply Nat.ltb_ge in Hl. lia.
  - apply has_char_elem in Hd. apply list_elem_of_fmap. by exists dot.
  - intros label. rewrite split_on_lower. intros (l & -> & Hin)%list_elem_of_fmap.
    rewrite seed_label_lower. by eapply forallb_elem in Hlab.
  - apply to_ascii_lowercase_idem.
  - intros label. rewrite split_on_lower. change (map to_ascii_lowercase) with (fmap (M := list) to_ascii_lowercase).
    rewrite fmap_last. destruct (last (split_on dot t)) as [l|]; [|done]. intros [= <-]. cbn in Hlast.
    rewrite forallb_lower; [done|]. intros c. by destruct (lower_char_ok c) as (_ & -> & _).
Qed.

Lemma parse_entry_host s host port :
  parse_entry s = Some (SeedHostname host port) -> hostname_ok host ∧ port ≠ Some 0.
Proof.
  unfold parse_entry. case_match; [done|]. case_match; [by destruct (parse_socket s) as [[]|]|].
  destruct (parse_ip s); [done|]. destruct (rsplit_once colon s) as [[h p]|].
  - destruct (has_char colon h); [done|]. destruct (parse_uint u16_max p) as [q|]; [|done].
    destruct (q =? 0) eqn:Hq; [done|]. apply Z.eqb_neq in Hq. destruct (parse_ip h); [done|].
    destruct (validate_hostname h) as [v|] eqn:Hv; [|done]. cbn. intros [= <- <-].
    split; [by eapply validate_hostname_ok|]. by intros [= ->].
  - destruct (validate_hostname s) as [v|] eqn:Hv; [|done]. cbn. intros [= <- <-].
    split; [by eapply validate_hostname_ok|done].
Qed.

(** The entry of a line, if it has a good one. *)
Definition seed_of_line (raw : str) : option SeedItem :=
  match seed_payload raw with Some payload => parse_entry payload | None => None end.

Definition counted (st : SeedParseStats) : nat :=
  sp_accepted st + sp_skipped st + sp_malformed st + sp_truncated st.

Lemma parse_lines_ok max items st ls out st' :
  parse_lines max items st ls = Ok (out, st') ->
  out = items ++ take (max - length items) (omap seed_of_line ls) ∧
  sp_lines st' = (sp_lines st + length ls)%nat ∧
  (counted st' = counted st + length ls)%nat ∧
  (sp_accepted st' + length items = sp_accepted st + length out)%nat.
Proof.
  revert items st. induction ls as [|raw ls IH]; intros items st; cbn [parse_lines omap list_omap].
  { intros [= <- <-]. cbn. rewrite take_nil, app_nil_r. split_and!; [done|lia..]. }
  case_match eqn:Hn; [done|]. unfold seed_of_line at 1. destruct (seed_payload raw) as [payload|].
  - destruct (parse_entry payload) as [item|].
    + destruct (max <=? length items)%nat eqn:Hm; intros H; apply IH in H as (-> & H2 & H3 & H4);
        unfold counted in *; cbn in *.
      * apply Nat.leb_le in Hm. replace (max - length items)%nat with 0%nat in H4 |- * by lia.
        rewrite !take_0, app_nil_r in *. split_and!; [done|lia..].
      * apply Nat.leb_gt in Hm. rewrite length_app in *. cbn in *.
        replace (max - length items)%nat with (S (max - (length items + 1))) by lia.
        cbn [take firstn]. rewrite <- app_assoc. split_and!; [done|lia|lia|].
        rewrite !length_app in *. cbn in *. lia.
    + intros H; apply IH in H as (-> & H2 & H3 & H4). unfold counted in *. cbn in *. split_and!; [done|lia..].
  - intros H; apply IH in H as (-> & H2 & H3 & H4). unfold counted in *. cbn in *. split_and!; [done|lia..].
Qed.

(** A seed list is a filter and nothing else: what the parser yields are the good entries
    of the list in order, up to the ceiling; every line is accounted for exactly once; and
    every name among them is a conservative host name, never a malformed address. *)
Theorem seed_list_is_filtered body max items st (Hok : parse_seeds body max = Ok (items, st)) :
  items = take max (omap seed_of_line (lines body)) ∧
  (length items <= max)%nat ∧
  sp_lines st = length (lines body) ∧ counted st = length (lines body) ∧ sp_accepted st = length items ∧
  ∀ host port, SeedHostname host port ∈ items -> hostname_ok host ∧ port ≠ Some 0.
Proof.
  unfold parse_seeds in Hok. destruct (valid_utf8 body); [|done]. cbn [negb] in Hok.
  case_match; [done|]. apply parse_lines_ok in Hok as (-> & H2 & H3 & H4). cbn in H2, H3, H4.
  rewrite Nat.sub_0_r in *. cbn [app]. split_and!; [done|rewrite length_take; lia|lia|lia|lia|].
  - intros host port Hin.
    assert (SeedHostname host port ∈ omap seed_of_line (lines body)) as (raw & _ & Hr)%list_elem_of_omap.
    { rewrite <- (take_drop max (omap seed_of_line (lines body))). apply elem_of_app. by left. }
    unfold seed_of_line in Hr. destruct (seed_payload raw); [|done]. by eapply parse_entry_host.
Qed.

(** *** Lists of addresses read back *)

Lemma address_char_ascii c : address_char c -> code c < 128.
Proof. intros [->|H]; [by vm_compute|lia]. Qed.

Lemma valid_utf8_ascii s : (∀ c, c ∈ s -> code c < 128) -> valid_utf8 s = true.
Proof.
  induction s as [|c s IH]; intros H; [done|]. cbn. rewrite (proj2 (Z.ltb_lt _ _)) by (apply H; left).
  apply IH. intros x Hx. apply H. by right.
Qed.

Lemma address_char_b c : address_char c -> ascii_eqb c dot || is_digit c = true.
Proof.
  intros [->|[H1 H2]]; [done|]. apply orb_true_iff. right. unfold is_digit, between.
  apply andb_true_iff. split; by apply Z.leb_le.
Qed.

(** A character that no printed address has. *)
Ltac not_of_an_address H := apply address_char_b in H; vm_compute in H; discriminate H.

Lemma payload_of_address a : seed_payload (print_ipv4 a) = Some (print_ipv4 a).
Proof.
  destruct (print_ipv4_word a) as [Hne Hw].
  assert (∀ c, c ∈ print_ipv4 a -> address_char c) as Hc by (intros c; apply print_ipv4_chars).
  unfold seed_payload. rewrite trim_id.
  - destruct (print_ipv4 a) as [|x s] eqn:E; [done|]. cbn [is_empty orb].
    assert (ascii_eqb x "#"%char = false ∧ ascii_eqb x "/"%char = false) as [H1 H2].
    { split; apply not_true_is_false; intros ->%ascii_eqb_eq;
        (pose proof (Hc _ ltac:(left)) as H; not_of_an_address H). }
    cbn [starts_with lit list_ascii_of_string]. rewrite H1, H2. cbn [andb orb].
    rewrite split_once_none; [done|]. intros c Hin. apply not_true_is_false. intros <-%ascii_eqb_eq.
    apply Hc in Hin. not_of_an_address Hin.
  - intros c Hh. apply Hw. destruct (print_ipv4 a); [done|]. injection Hh as ->. left.
  - intros c Hl. apply Hw. by apply last_Some_elem_of.
Qed.

Lemma print_octet_length z : (length (print_octet z) <= 3)%nat.
Proof.
  unfold print_octet. cbn. repeat (case_match; cbn; rewrite ?length_app; cbn); lia.
Qed.

Lemma print_ipv4_length a : (length (print_ipv4 a) <= 15)%nat.
Proof.
  unfold print_ipv4. rewrite !length_app. cbn [length]. rewrite !length_app. cbn [length]. rewrite !length_app.
  cbn [length]. pose proof print_octet_length as H.
  pose proof (H (a / 2 ^ 24)). pose proof (H (a / 2 ^ 16 mod 256)). pose proof (H (a / 2 ^ 8 mod 256)).
  pose proof (H (a mod 256)). lia.
Qed.

Lemma entry_of_address a :
  0 <= a < 2 ^ 32 -> parse_entry (print_ipv4 a) = Some (SeedAddress (V4 a) None).
Proof.
  intros Ha. unfold parse_entry. pose proof (print_ipv4_length a) as Hl.
  rewrite (proj2 (Nat.ltb_ge _ _)) by lia.
  assert (starts_with (print_ipv4 a) (lit "[") = false) as ->.
  { destruct (print_ipv4 a) as [|x s] eqn:E; [done|]. cbn. rewrite andb_true_r.
    apply not_true_is_false. intros ->%ascii_eqb_eq.
    pose proof (print_ipv4_chars a "["%char ltac:(rewrite E; left)) as H. not_of_an_address H. }
  by rewrite (parse_ip_ipv4 _ a (parse_print_ipv4 a Ha)).
Qed.

Lemma parse_lines_addresses max l items st :
  Forall (λ a, 0 <= a < 2 ^ 32) l -> (sp_lines st + length l <= MAX_LINES)%nat ->
  (length items + length l <= max)%nat ->
  parse_lines max items st (map print_ipv4 l) =
  Ok (items ++ map (λ a, SeedAddress (V4 a) None) l,
      mk_SeedParseStats (sp_lines st + length l) (sp_accepted st + length l) (sp_skipped st)
        (sp_malformed st) (sp_truncated st)).
Proof.
  revert items st. induction l as [|a l IH]; intros items st Hl Hn Hm.
  { destruct st. cbn. by rewrite app_nil_r, !Nat.add_0_r. }
  apply Forall_cons in Hl as [Ha Hl]. cbn [map length] in *. cbn [parse_lines].
  rewrite (proj2 (Nat.ltb_ge _ _)) by lia. rewrite payload_of_address, entry_of_address by done.
  rewrite (proj2 (Nat.leb_gt _ _)) by lia.
  rewrite IH; [|done|cbn; lia|rewrite length_app; cbn; lia].
  rewrite <- app_assoc. cbn. repeat f_equal; lia.
Qed.

(** A list of IPv4 addresses, one to a line, is read back whole: every address in order,
    none skipped, none malformed. *)
Theorem seed_addresses_read_back l max
    (Hl : Forall (λ a, 0 <= a < 2 ^ 32) l) (Hn : (length l <= MAX_LINES)%nat) (Hm : (length l <= max)%nat) :
  parse_seeds (unlines (map print_ipv4 l)) max =
  Ok (map (λ a, SeedAddress (V4 a) None) l, mk_SeedParseStats (length l) (length l) 0 0 0).
Proof.
  assert (∀ c, c ∈ unlines (map print_ipv4 l) -> address_char c ∨ c = newline) as Hc.
  { intros c. unfold unlines. rewrite map_map. intros (s & Hs & Hin)%list_elem_of_In%in_concat.
    apply in_map_iff in Hs as (a & <- & _). apply in_app_or in Hin as [Hin|[<-|[]]]; [|by right].
    left. by eapply print_ipv4_chars, list_elem_of_In. }
  unfold parse_seeds. rewrite valid_utf8_ascii.
  2:{ intros c [H%address_char_ascii| ->]%Hc; [done|by vm_compute]. }
  cbn [negb]. rewrite lines_unlines.
  2:{ apply Forall_forall. intros s (a & -> & _)%list_elem_of_fmap. split.
      - intros H%print_ipv4_chars. not_of_an_address H.
      - intros H%last_Some_elem_of%print_ipv4_chars. not_of_an_address H. }
  assert (∀ x t, address_char x -> ascii_eqb x "<"%char = false ∧ ascii_eqb x "{"%char = false ∧
            ascii_eqb x "["%char = false ∧ skip_while is_whitespace (x :: t) = x :: t) as Hx.
  { intros x t Hx. split_and!; [apply not_true_is_false; intros ->%ascii_eqb_eq;
      not_of_an_address Hx..|].
    cbn. by rewrite address_char_not_space. }
  destruct l as [|a l]; [done|]. destruct (print_ipv4 a) as [|x t] eqn:E.
  { exfalso. by apply (proj1 (print_ipv4_word a)). }
  unfold unlines. cbn [map concat]. rewrite E. cbn [app].
  destruct (Hx x (((t ++ [newline]) ++ concat (map (λ l, l ++ [newline]) (map print_ipv4 l)))%list))
    as (H1 & H2 & H3 & ->).
  { apply (print_ipv4_chars a). rewrite E. left. }
  cbn [starts_with lit list_ascii_of_string]. rewrite H1, H2, H3. cbn [andb orb].
  change (print_ipv4 a :: map print_ipv4 l) with (map print_ipv4 (a :: l)). rewrite <- E.
  change (print_ipv4 a :: map print_ipv4 l) with (map print_ipv4 (a :: l)).
  by rewrite (parse_lines_addresses max (a :: l) [] _ Hl).
Qed.

(** ** Concrete lists *)

Section witnesses.
#[local] Existing Instance ipnet_reference.

Definition sample_list : str :=
  unlines [lit "# candidates"; lit "104.16.0.1#FRA"; lit " cdn.Example.com:8443 "; lit "999.999.999.999";
           lit "[2606:4700::1]:443"; lit "-bad-.example"; lit "172.64.0.9"].

Lemma sample_items :
  parse_seeds sample_list 3 =
  Ok ([SeedAddress (V4 (ipv4 104 16 0 1)) None; SeedHostname (lit "cdn.example.com") (Some 8443);
       SeedAddress (V6 (ipv6 [9734; 18176; 0; 0; 0; 0; 0; 1])) (Some 443)],
      mk_SeedParseStats 7 3 1 2 1).
Proof. vm_compute. reflexivity. Qed.

Lemma seed_list_is_filtered_witness : hostname_ok (lit "cdn.example.com").
Proof.
  apply (seed_list_is_filtered sample_list 3 _ _ sample_items) with (Some 8443). right. left.
Defined.

Lemma seed_addresses_read_back_witness :
  parse_seeds (unlines (map print_ipv4 [ipv4 104 16 0 1; ipv4 172 64 0 9])) 8 =
  Ok ([SeedAddress (V4 (ipv4 104 16 0 1)) None; SeedAddress (V4 (ipv4 172 64 0 9)) None],
      mk_SeedParseStats 2 2 0 0 0).
Proof.
  refine (seed_addresses_read_back [ipv4 104 16 0 1; ipv4 172 64 0 9] 8 _ _ _);
    [repeat constructor; by vm_compute|apply Nat.leb_le; vm_compute; reflexivity|cbn; lia].
Defined.

Definition list_url : HttpsUrl := mk_HttpsUrl (lit "lists.example") 443 (lit "/v4").

Lemma https_parse_examples :
  https_parse (lit "https://lists.example/v4") = Ok list_url ∧
  https_parse (lit "https://lists.example:8443") = Ok (mk_HttpsUrl (lit "lists.example") 8443 (lit "/")) ∧
  https_parse (lit "http://lists.example/") = Err (CfFetch (lit "only https:// URLs are supported")) ∧
  https_parse (lit "https://u@lists.example/") = Err (CfFetch (lit "userinfo is not permitted in a dataset URL")).
Proof. split_and!; vm_compute; reflexivity. Qed.

(** A server that sends the given frames. *)
Definition sending (frames : list Frame) : nat -> Attempt := λ _,
  mk_Attempt false false
    (mk_Exchange (Done 1) (Done (mk_Handshake 1 None [])) true (Done tt) (Done (mk_Response 1 200 [] frames)) 4).

Definition fetched (frames : list Frame) : result CloudflareError FetchResult :=
  fetch (λ _, []) (λ _, []) list_url [V4 (ipv4 203 0 114 1)] default_FetchOptions (sending frames).

Lemma fetches_are_capped_witness :
  ∃ r, fetched [FrameData [1; 2]; FrameData [3]] = Ok r ∧ fr_body r = [1; 2; 3] ∧
    Z.of_nat (length (fr_body r)) <= 256 * 1024.
Proof.
  eexists. split; [vm_compute; reflexivity|]. split; [reflexivity|].
  eapply (fetches_are_capped (λ _, []) (λ _, []) list_url [V4 (ipv4 203 0 114 1)] default_FetchOptions
            (sending [FrameData [1; 2]; FrameData [3]])); [by vm_compute|vm_compute; reflexivity].
Defined.

(** A transfer that breaks off is a success with what had arrived: the list [104.16.0.12]
    cut after ten characters is taken for the address [104.16.0.1]. *)
Theorem broken_transfer_is_a_success :
  ∃ r, fetched [FrameData (map code (lit "104.16.0.1")); FrameError; FrameData (map code (lit "2"))] = Ok r ∧
    fr_status r = 200 ∧
    parse_seeds (map chr (fr_body r)) 8 =
    Ok ([SeedAddress (V4 (ipv4 104 16 0 1)) None], mk_SeedParseStats 1 1 0 0 0).
Proof. eexists. split; [vm_compute; reflexivity|]. split; vm_compute; reflexivity. Qed.
End witnesses.
