(* ===== verification/CloudflareTasks.v ===== *)
(** * The Cloudflare tasks

    [src/tasks/cloudflare.rs]: the updater of the official prefixes, the poller of seed
    lists, the sampler and the candidate prober.  A round of a task is a function of the
    configuration it runs under, the clock, and what its lookups and fetches return; the
    JSON decoder is a parameter.  The rounds of different tasks interleave, which
    [interleaved] describes access by access.  The lines that read a plain-text prefix list are from
    [src/cloudflare/prefixes.rs]. *)

From Stdlib Require Import Ascii String.
From S2P Require Import Prelude.
From S2P Require Import Hashing.
From S2P Require Import Floats.
From S2P Require Import Names.
From S2P Require Import Net.
From S2P Require Import Text.
From S2P Require Import Config.
From S2P Require Import Errors.
From S2P Require Import Dns.
From S2P Require Import EdnsOptions.
From S2P Require Import Prefixes.
From S2P Require Import CloudflarePolicy.
From S2P Require Import Cache.
From S2P Require Import HotSet.
From S2P Require Import Sampler.
From S2P Require Import Candidates.
From S2P Require Import Validate.
From S2P Require Import Quality.
From S2P Require Import Evidence.
From S2P Require Import Reload.
From S2P Require Import ProbeGuard.
From S2P Require Import Probing.
From S2P Require Import ProbeHttp.
From S2P Require Import Engine.
From S2P Require Import Seeds.

(** ** Plain-text prefix lists *)

Fixpoint list_lines (out : list str) (ls : list str) : result CloudflareError (list str) :=
  match ls with
  | [] => Ok out
  | raw :: ls =>
      let line := trim raw in
      if is_empty line || starts_with line (lit "#") then list_lines out ls
      else if (Z.to_nat 4096 <=? length out)%nat then Err (CfParse (lit "prefix list had too many lines"))
      else list_lines (out ++ [line]) ls
  end.

Definition parse_text_list (body : str) : result CloudflareError (list str) :=
  if negb (valid_utf8 body) then Err (CfParse (lit "prefix list was not valid UTF-8"))
  else if starts_with (skip_while is_whitespace body) (lit "<")
  then Err (CfParse (lit "prefix list returned HTML instead of CIDRs"))
  else list_lines [] (lines body).

(** ** State and surroundings *)

(** What the tasks share, and the prefix cache on disk as it would be read back. *)
Record Tasks : Type := mk_Tasks {
  tk_cloudflare : CloudflareState;
  tk_sampler : StratifiedSampler;
  tk_queue : ProbeQueue;
  tk_disk : option StoredSnapshot
}.

Definition with_cf (t : Tasks) (cf : CloudflareState) : Tasks :=
  mk_Tasks cf (tk_sampler t) (tk_queue t) (tk_disk t).

Definition offer_job (t : Tasks) (job : ProbeJob) : Tasks :=
  mk_Tasks (tk_cloudflare t) (tk_sampler t) (offer (tk_queue t) job).2 (tk_disk t).

(** What a round finds: the clocks, the network generation, the addresses of a host, what
    a fetch meets, the secret that was read, and whether the cache could be written. *)
Record World : Type := mk_World {
  wd_now : Instant;
  wd_unix : Z;
  wd_generation : Z;
  wd_lookup : str -> list IpAddr;
  wd_fetch : HttpsUrl -> nat -> Attempt;
  wd_token : option str;
  wd_written : bool
}.

Section tasks.
Context {IPL : IpNetLib} {NT : IpNetText} {HA : HashOrder IpAddr} {HV : HashOrder (list ascii * IpAddr)}.
Context {HC : HashOrder CacheKey}.
Context (from_slice : str -> result str ApiEnvelope).
Context (detail : ProbeError -> str) (show : CloudflareError -> str).
Implicit Types (t : Tasks) (w : World).

(** ** The status of a source *)

(** [format!("unexpected status {}", result.status)]. *)
Definition unexpected_status (status : Z) : str := lit "unexpected status " ++ digits_of 5 status.

Definition record_success t (name : str) (accepted rejected : nat) (now_unix : Z) : Tasks :=
  with_cf t (record_source (tk_cloudflare t)
    (mk_SourceStatus name true [] now_unix (Some now_unix) accepted rejected)).

Definition record_failure t (name : str) (why : str) (now_unix : Z) : Tasks :=
  let previous := match cs_sources (tk_cloudflare t) !! name with
                  | Some s => ss_succeeded_unix s
                  | None => None
                  end in
  with_cf t (record_source (tk_cloudflare t)
    (mk_SourceStatus name false (bounded_octets why 160) now_unix previous 0 0)).

(** ** Proposing an address *)

(** Admission against a snapshot, and a probe for an address that is new. *)
Definition propose_candidate t (addr : IpAddr) (origin : CandidateOrigin) (snapshot : option PrefixSnapshot)
    w (budget : option Z) : Admission * Tasks :=
  let cf := tk_cloudflare t in
  let '(admission, pool) :=
    admit_candidate (cs_pool cf) addr origin snapshot (wd_generation w) (wd_now w) budget in
  let t := with_cf t (with_pool cf pool) in
  (admission,
   match admission with Added => offer_job t (JobCandidate addr 443 (wd_generation w)) | _ => t end).

(** ** Official prefixes *)

Definition read_cached_snapshot (cfg : CloudflareConfig) t : option PrefixSnapshot :=
  match of_cache_file (cf_official cfg), tk_disk t with
  | Some _, Some stored =>
      match from_stored stored SourceLocalCache with
      | Ok snapshot =>
          match validate_snapshot snapshot None (Z.to_nat (of_min_ipv4_prefixes (cf_official cfg)))
                  (Z.to_nat (of_min_ipv6_prefixes (cf_official cfg))) with
          | Ok _ => Some snapshot
          | Err _ => None
          end
      | Err _ => None
      end
  | _, _ => None
  end.

(** The start of [run_prefix_updater]. *)
Definition load_cached (cfg : CloudflareConfig) t : Tasks :=
  if cf_enabled cfg then
    match read_cached_snapshot cfg t with
    | Some snapshot => with_cf t (set_prefixes (tk_cloudflare t) snapshot)
    | None => t
    end
  else t.

Definition admit_static_candidates (cfg : CloudflareConfig) w t : Tasks :=
  let snapshot := cs_prefixes (tk_cloudflare t) in
  fold_left (λ t addr, (propose_candidate t addr FromConfig snapshot w None).2) (cf_static_candidates cfg) t.

Definition fetch_from_host (options : FetchOptions) w (url : HttpsUrl) : result CloudflareError FetchResult :=
  fetch detail show url (wd_lookup w (hu_host url)) options (wd_fetch w url).

(** The text lists are compared with the API's answer; only their status is kept. *)
Definition cross_check_lists (cfg : CloudflareConfig) w t : Tasks :=
  let o := cf_official cfg in
  let options := mk_FetchOptions (of_max_response_bytes o) (of_timeout o) None None None in
  match https_parse (of_ipv4_url o), https_parse (of_ipv6_url o) with
  | Ok v4_url, Ok v6_url =>
      match fetch_from_host options w v4_url, fetch_from_host options w v6_url with
      | Ok v4, Ok v6 =>
          match (match parse_text_list (map chr (fr_body v4)) with
                 | Ok ls => parse_cidr_list_v4 ls | Err e => Err e end),
                (match parse_text_list (map chr (fr_body v6)) with
                 | Ok ls => parse_cidr_list_v6 ls | Err e => Err e end) with
          | Ok a, Ok b =>
              record_success t (lit "cloudflare-text-lists") (length a + length b) 0 (wd_unix w)
          | _, _ => t
          end
      | _, _ => t
      end
  | _, _ => t
  end.

Definition api_source : str := lit "cloudflare-api".

Definition update_prefixes (cfg : CloudflareConfig) w (etag : option str) t
    : result unit (option str) * Tasks :=
  let o := cf_official cfg in
  let failed why := (Err tt, record_failure t api_source why (wd_unix w)) in
  match https_parse (of_api_url o) with
  | Err e => failed (show e)
  | Ok url =>
      match fetch_from_host
              (mk_FetchOptions (of_max_response_bytes o) (of_timeout o) etag None (wd_token w)) w url with
      | Err e => failed (show e)
      | Ok r =>
          if fr_status r =? 304 then (Ok None, record_success t api_source 0 0 (wd_unix w))
          else if negb (fr_status r =? 200) then failed (unexpected_status (fr_status r))
          else
            match parse_api_json from_slice (map chr (fr_body r)) (wd_unix w) with
            | Err e => failed (show e)
            | Ok candidate =>
                match validate_snapshot candidate (cs_prefixes (tk_cloudflare t))
                        (Z.to_nat (of_min_ipv4_prefixes o)) (Z.to_nat (of_min_ipv6_prefixes o)) with
                | Err e => failed (show e)
                | Ok _ =>
                    let t := cross_check_lists cfg w t in
                    let disk := if bool_decide (is_Some (of_cache_file o)) && wd_written w
                                then Some (to_stored candidate) else tk_disk t in
                    let t := mk_Tasks (set_prefixes (tk_cloudflare t) candidate) (tk_sampler t)
                               (tk_queue t) disk in
                    (Ok (match snap_etag candidate with Some e => Some e | None => fr_etag r end),
                     record_success t api_source (length (snap_v4 candidate) + length (snap_v6 candidate)) 0
                       (wd_unix w))
                end
            end
      end
  end.

(** One turn of [run_prefix_updater]: [captured] is the configuration read before the wait,
    [after] the one that is read after it. *)
Definition updater_round (captured after : CloudflareConfig) w (etag : option str) t : option str * Tasks :=
  if negb (cf_enabled captured) || negb (cf_enabled after) then (etag, t)
  else
    let '(r, t) := update_prefixes captured w etag t in
    let etag := match r with Ok (Some e) => Some e | _ => etag end in
    (etag, admit_static_candidates captured w t).

(** ** Seed lists *)

(** The addresses an entry stands for. *)
Definition item_addresses (cfg : CloudflareConfig) w (item : SeedItem) : list IpAddr :=
  match item with
  | SeedAddress addr _ => [addr]
  | SeedHostname host _ => if seeds_resolve_hostnames (cf_seeds cfg) then wd_lookup w host else []
  end.

Definition admit_seed w (acc : nat * nat * Tasks) (addr : IpAddr) : nat * nat * Tasks :=
  let '(accepted, rejected, t) := acc in
  match propose_candidate t addr Seed (cs_prefixes (tk_cloudflare t)) w None with
  | (RejectedFor _, t) => (accepted, S rejected, t)
  | (_, t) => (S accepted, rejected, t)
  end.

Definition poll_seed (cfg : CloudflareConfig) (endpoint : SeedEndpoint) w t : Tasks :=
  let failed why := record_failure t (se_name endpoint) why (wd_unix w) in
  match https_parse (se_url endpoint) with
  | Err e => failed (show e)
  | Ok url =>
      match fetch_from_host
              (mk_FetchOptions (seeds_max_response_bytes (cf_seeds cfg)) (seeds_timeout (cf_seeds cfg))
                 None None None) w url with
      | Err e => failed (show e)
      | Ok r =>
          if negb (fr_status r =? 200) then failed (unexpected_status (fr_status r))
          else
            match parse_seeds (map chr (fr_body r)) (Z.to_nat (seeds_max_addresses (cf_seeds cfg))) with
            | Err e => failed (show e)
            | Ok (items, _) =>
                let '(accepted, rejected, t) :=
                  fold_left (admit_seed w) (flat_map (item_addresses cfg w) items) (0%nat, 0%nat, t) in
                record_success t (se_name endpoint) accepted rejected (wd_unix w)
            end
      end
  end.

Definition seed_round (cfg : CloudflareConfig) (world : SeedEndpoint -> World) t : Tasks :=
  if negb (cf_enabled cfg) || negb (seeds_enabled (cf_seeds cfg)) then t
  else fold_left (λ t ep, poll_seed cfg ep (world ep) t) (List.filter se_enabled (seeds_endpoints (cf_seeds cfg))) t.

(** ** Sampling *)

Definition sampler_round (cfg : CloudflareConfig) w t : Tasks :=
  if negb (cf_enabled cfg) || negb (sampling_enabled (cf_sampling cfg)) then t
  else
    match cs_prefixes (tk_cloudflare t) with
    | None => t
    | Some snapshot =>
        let '(addrs, sampler) :=
          next_round (tk_sampler t) snapshot (Z.to_nat (sampling_addresses_per_round (cf_sampling cfg))) in
        let t := mk_Tasks (tk_cloudflare t) sampler (tk_queue t) (tk_disk t) in
        fold_left (λ t a, (propose_candidate t (V4 a) Sampling (Some snapshot) w
                             (Some (sampling_max_new_per_hour (cf_sampling cfg)))).2) addrs t
    end.

(** ** Probing candidates *)

(** The validations of one hot name. *)
Definition validations_for (cfg : CloudflareConfig) w (v4 v6 : list Candidate) (key : CacheKey) : list ProbeJob :=
  match key_qtype key with
  | RT_A | RT_AAAA =>
      if is_excluded (key_name key) (cf_allow_domains cfg) (cf_deny_domains cfg) then []
      else
        map (λ c, JobValidate (key_name key) (cd_addr c) 443 (wd_generation w))
          (take (max_added (cf_augment cfg) + 2) (match key_qtype key with RT_A => v4 | _ => v6 end))
  | _ => []
  end.

Definition prober_jobs (cfg : CloudflareConfig) (probe_cfg : ProbeConfig) w (hot : HotSet) t : list ProbeJob :=
  let pool := cs_pool (tk_cloudflare t) in
  map (λ c, JobCandidate (cd_addr c) 443 (wd_generation w))
    (due_for_probe pool (per_ip_cooldown probe_cfg) (wd_now w) (probe_concurrency probe_cfg * 2))
  ++ if bool_decide (cf_mode cfg = CfVerifiedAugment) then
       flat_map (λ e, validations_for cfg w (eligible_candidates pool true 1) (eligible_candidates pool false 1) e.1)
         (top hot 32)
     else [].

Definition prober_round (cfg : CloudflareConfig) (probe_cfg : ProbeConfig) w (hot : HotSet) t : Tasks :=
  if negb (cf_enabled cfg) || negb (probe_enabled probe_cfg) then t
  else fold_left offer_job (prober_jobs cfg probe_cfg w hot t) t.

(** ** A round of any of the tasks *)

Inductive Round : Type :=
| RoundCache (cfg : CloudflareConfig)
| RoundUpdate (captured after : CloudflareConfig) (w : World) (etag : option str)
| RoundSeeds (cfg : CloudflareConfig) (world : SeedEndpoint -> World)
| RoundSample (cfg : CloudflareConfig) (w : World)
| RoundProbe (cfg : CloudflareConfig) (probe_cfg : ProbeConfig) (w : World) (hot : HotSet).

Definition round t (r : Round) : Tasks :=
  match r with
  | RoundCache cfg => load_cached cfg t
  | RoundUpdate captured after w etag => (updater_round captured after w etag t).2
  | RoundSeeds cfg world => seed_round cfg world t
  | RoundSample cfg w => sampler_round cfg w t
  | RoundProbe cfg probe_cfg w hot => prober_round cfg probe_cfg w hot t
  end.

(** ** What a round may do *)

(** Nothing is learned: what has been validated is as before, and every candidate is
    either as far as it was or has everything still to show. *)
Record unearned (s s' : CloudflareState) : Prop := {
  un_validations : cs_validations s' = cs_validations s;
  un_baseline : cs_baseline s' = cs_baseline s;
  un_pool : ∀ a c, family (cs_pool s') a !! a = Some c ->
    (cd_stage c = StageNew ∧ cd_successes c = 0) ∨
    ∃ c0, family (cs_pool s) a !! a = Some c0 ∧ cd_stage c = cd_stage c0 ∧ cd_successes c = cd_successes c0
}.

#[local] Instance unearned_preorder : PreOrder unearned.
Proof.
  split.
  - intros s. split; [done|done|]. intros a c Hc. right. by exists c.
  - intros s1 s2 s3 [V1 B1 P1] [V2 B2 P2]. split; [by rewrite V2|by rewrite B2|].
    intros a c [Hn|(c0 & Hc0 & Es & Ec)]%P2; [by left|].
    destruct (P1 _ _ Hc0) as [[Hs Hk]|(c1 & Hc1 & Es' & Ec')]; [left; by rewrite Es, Ec|].
    right. exists c1. by rewrite Es, Ec.
Qed.

Lemma family_with_family p a m b :
  family (with_family p a m) b = if Bool.eqb (ipv4_addr a) (ipv4_addr b) then m else family p b.
Proof. unfold family, with_family. by destruct (ipv4_addr a), (ipv4_addr b). Qed.

Lemma family_replaced p a c b c' :
  family (with_family p a (<[a := c]> (family p a))) b !! b = Some c' ->
  (b = a ∧ c' = c) ∨ family p b !! b = Some c'.
Proof.
  rewrite family_with_family. destruct (Bool.eqb _ _) eqn:E; [|by right].
  apply Bool.eqb_prop in E. intros [[-> ->]|[_ H]]%lookup_insert_Some; [by left|right].
  revert H. unfold family. by rewrite E.
Qed.

Lemma evicted_family p o room p' b c :
  evict_one p o = (room, p') -> family p' b !! b = Some c -> family p b !! b = Some c.
Proof.
  unfold evict_one. destruct (evict_victim p o) as [[a v]|]; intros [= <- <-]; [|done].
  rewrite family_with_family. destruct (Bool.eqb _ _) eqn:E; [|done].
  apply Bool.eqb_prop in E. intros [_ H]%lookup_delete_Some. revert H. unfold family. by rewrite E.
Qed.

(** An address that may be probed as a candidate. *)
Definition official_in (prefixes : option PrefixSnapshot) (a : IpAddr) : Prop :=
  IpClass.classify a = None ∧
  ∃ snapshot, prefixes = Some snapshot ∧ snapshot_contains snapshot a = true.

(** After an admission a member is new and official, or was there. *)
Lemma admit_member p a o sn g now b x c :
  family (admit_candidate p a o sn g now b).2 x !! x = Some c ->
  (x = a ∧ official_in sn a ∧ cd_stage c = StageNew ∧ cd_successes c = 0) ∨
  ∃ c0, family p x !! x = Some c0 ∧ cd_stage c = cd_stage c0 ∧ cd_successes c = cd_successes c0.
Proof.
  unfold admit_candidate.
  assert (family p x !! x = Some c -> (x = a ∧ official_in sn a ∧ cd_stage c = StageNew ∧ cd_successes c = 0) ∨
    ∃ c0, family p x !! x = Some c0 ∧ cd_stage c = cd_stage c0 ∧
      cd_successes c = cd_successes c0) as Hsame by (intros Hc; right; by exists c).
  case_bool_decide as Hclass; cbn [negb]; [|done]. destruct sn as [sn|]; [|done].
  destruct (snapshot_contains sn a) eqn:Ein; cbn [negb]; [|done].
  destruct (family p a !! a) as [c0|] eqn:Ec; cbn [snd].
  { intros [[-> ->]|Hc]%family_replaced; [|by apply Hsame]. right. by exists c0. }
  destruct (hour_gate p b now) as [allowed q] eqn:Eg.
  assert (∀ y, family q y = family p y) as Hq.
  { intros y. unfold hour_gate in Eg. unfold family. destruct b; simplify_eq; [|done].
    by destruct (match p_hour_started p with None => _ | Some _ => _ end). }
  destruct allowed; cbn [negb snd]; [|by rewrite Hq].
  destruct (if (p_capacity q <=? pool_size q)%nat then evict_one q o else (true, q)) as [room q'] eqn:Er.
  assert (family q' x !! x = Some c -> family p x !! x = Some c) as Hq'.
  { rewrite <- Hq. destruct (_ <=? _)%nat; [by eapply evicted_family|by simplify_eq]. }
  destruct room; cbn [negb snd]; [|by intros ?%Hq'%Hsame].
  assert (∀ q cand, family (add_candidate q cand) x =
    family (with_family q (cd_addr cand) (<[cd_addr cand := cand]> (family q (cd_addr cand)))) x) as Hadd
    by (intros; unfold add_candidate, family; by destruct (ipv4_addr x)).
  rewrite Hadd. intros [[-> ->]|Hc%Hq'%Hsame]%family_replaced; [|done].
  left. split; [done|]. split; [|done]. split; [done|]. by exists sn.
Qed.

Lemma admit_unearned s a o g now b : unearned s (apply_event s (EvAdmit a o g now b)).
Proof.
  split; [done|done|]. intros x c Hc. apply admit_member in Hc as [(_ & _ & Hn)|Hc]; [by left|by right].
Qed.

Lemma prefixes_unearned s snapshot : unearned s (set_prefixes s snapshot).
Proof.
  split; [done|done|]. intros a c Hc. right. exists c. split; [|done]. revert Hc.
  unfold family, set_prefixes, revalidate. cbn [cs_pool snd p_v4 p_v6].
  destruct (ipv4_addr a); by intros [Hc _]%map_lookup_filter_Some.
Qed.

(** A job of a task; [worth] says which names it may validate an address for. *)
Definition task_job (prefixes : option PrefixSnapshot) (worth : str -> IpAddr -> Prop) (j : ProbeJob) : Prop :=
  job_port j = 443 ∧ official_in prefixes (job_addr j) ∧
  match j with
  | JobCandidate _ _ _ => True
  | JobValidate h a _ _ => worth h a
  | JobObserved _ _ _ _ _ | JobBaseline _ _ _ _ => False
  end.

(** What proposing does: no prefix, no cache file and no evidence changes, and the jobs it
    adds are for addresses of the prefixes in force. *)
Record proposes t t' : Prop := {
  ps_prefixes : cs_prefixes (tk_cloudflare t') = cs_prefixes (tk_cloudflare t);
  ps_disk : tk_disk t' = tk_disk t;
  ps_inv : state_inv (tk_cloudflare t) -> state_inv (tk_cloudflare t');
  ps_unearned : unearned (tk_cloudflare t) (tk_cloudflare t');
  ps_jobs : ∃ js, waiting (tk_queue t') = waiting (tk_queue t) ++ js ∧
    Forall (task_job (cs_prefixes (tk_cloudflare t)) (λ _ _, False)) js
}.

#[local] Instance proposes_preorder : PreOrder proposes.
Proof.
  split.
  - intros t. split; [done..|reflexivity|]. exists []. by rewrite app_nil_r.
  - intros t1 t2 t3 [P1 D1 I1 U1 (js1 & W1 & J1)] [P2 D2 I2 U2 (js2 & W2 & J2)].
    split; [by rewrite P2|by rewrite D2|auto|by etrans|].
    exists (js1 ++ js2). rewrite W2, W1, app_assoc. split; [done|].
    apply Forall_app. split; [done|]. by rewrite P1 in J2.
Qed.

Lemma admit_added p a o sn g now b p' :
  admit_candidate p a o sn g now b = (Added, p') -> official_in sn a.
Proof.
  unfold admit_candidate. case_bool_decide as Hc; cbn [negb]; [|done].
  destruct sn as [sn|]; [|done]. destruct (snapshot_contains sn a) eqn:E; cbn [negb]; [|done].
  intros _. split; [done|]. by exists sn.
Qed.

Lemma propose_proposes t a o w b :
  proposes t (propose_candidate t a o (cs_prefixes (tk_cloudflare t)) w b).2.
Proof.
  unfold propose_candidate.
  pose proof (apply_event_inv (tk_cloudflare t) (EvAdmit a o (wd_generation w) (wd_now w) b)) as Hi.
  pose proof (admit_unearned (tk_cloudflare t) a o (wd_generation w) (wd_now w) b) as Hu.
  cbn [apply_event] in Hi, Hu.
  destruct (admit_candidate _ a o _ _ _ b) as [adm pool] eqn:E. cbn [snd] in *.
  assert (proposes t (with_cf t (with_pool (tk_cloudflare t) pool))) as Hp.
  { split; [done..|]. exists []. by rewrite app_nil_r. }
  destruct adm; [|done..]. apply admit_added in E.
  split; [apply Hp..|]. cbn [offer_job tk_queue with_cf].
  destruct (offer_waiting (tk_queue t) (JobCandidate a 443 (wd_generation w))) as [->|[-> _]];
    [exists []; by rewrite app_nil_r|]. exists [JobCandidate a 443 (wd_generation w)]. split; [done|].
  by apply Forall_singleton.
Qed.

Lemma fold_proposes {A} (f : Tasks -> A -> Tasks) prefixes l t :
  (∀ t x, cs_prefixes (tk_cloudflare t) = prefixes -> proposes t (f t x)) ->
  cs_prefixes (tk_cloudflare t) = prefixes -> proposes t (fold_left f l t).
Proof.
  intros Hf. revert t. induction l as [|x l IH]; intros t Ht; cbn [fold_left]; [done|].
  transitivity (f t x); [by apply Hf|]. apply IH. by rewrite (ps_prefixes _ _ (Hf t x Ht)).
Qed.

Lemma static_proposes cfg w t : proposes t (admit_static_candidates cfg w t).
Proof.
  unfold admit_static_candidates. cbn zeta. eapply fold_proposes; [|done].
  intros t' a Ht. cbn beta. rewrite <- Ht. apply propose_proposes.
Qed.

Lemma source_proposes t status : proposes t (with_cf t (record_source (tk_cloudflare t) status)).
Proof.
  split; [done|done|apply (apply_event_inv _ (EvSource status))|split; [done|done|]|].
  - intros a c Hc. right. by exists c.
  - exists []. by rewrite app_nil_r.
Qed.

Lemma success_proposes t name a r unix : proposes t (record_success t name a r unix).
Proof. apply source_proposes. Qed.

Lemma failure_proposes t name why unix : proposes t (record_failure t name why unix).
Proof. apply source_proposes. Qed.

Create HintDb tasks.
#[local] Hint Resolve propose_proposes static_proposes success_proposes failure_proposes : tasks.

Lemma seeds_propose w l acc : proposes acc.2 (fold_left (admit_seed w) l acc).2.
Proof.
  revert acc. induction l as [|a l IH]; intros [[n m] t]; cbn [fold_left snd]; [done|].
  etrans; [|apply IH]. unfold admit_seed.
  pose proof (propose_proposes t a Seed w None) as Hp.
  by destruct (propose_candidate _ _ _ _ _ _) as [[| |] t'].
Qed.

Lemma poll_proposes cfg ep w t : proposes t (poll_seed cfg ep w t).
Proof.
  unfold poll_seed. cbn zeta. destruct (https_parse _) as [url|]; [|auto with tasks].
  destruct (fetch_from_host _ _ _) as [r|]; [|auto with tasks].
  destruct (negb _); [auto with tasks|]. destruct (parse_seeds _ _) as [[items stats]|]; [|auto with tasks].
  pose proof (seeds_propose w (flat_map (item_addresses cfg w) items) (0%nat, 0%nat, t)) as Hs.
  destruct (fold_left _ _ _) as [[n m] t']. etrans; [exact Hs|]. cbn [snd]. auto with tasks.
Qed.

Lemma seed_round_proposes cfg world t : proposes t (seed_round cfg world t).
Proof.
  unfold seed_round. destruct (_ || _); [done|]. eapply fold_proposes; [|done].
  intros. apply poll_proposes.
Qed.

Lemma sampler_proposes cfg w t : proposes t (sampler_round cfg w t).
Proof.
  unfold sampler_round. destruct (_ || _); [done|].
  destruct (cs_prefixes (tk_cloudflare t)) as [sn|] eqn:E; [|done].
  destruct (next_round _ _ _) as [addrs sampler].
  transitivity (mk_Tasks (tk_cloudflare t) sampler (tk_queue t) (tk_disk t)).
  - split; [done..|reflexivity|]. exists []. by rewrite app_nil_r.
  - eapply fold_proposes; [|exact E]. intros t' a Ht. cbn beta. rewrite <- Ht. apply propose_proposes.
Qed.

(** ** The refresh of the prefixes *)

(** Only the status of the sources changes. *)
Definition reported t t' : Prop :=
  ∃ m, let cf := tk_cloudflare t in
  t' = with_cf t (mk_CloudflareState (cs_prefixes cf) (cs_pool cf) (cs_validations cf) (cs_baseline cf) m
                    (cs_max_validations cf)).

(** The status of the sources [p] says is as it was.  A table of more than 64 is emptied
    before the next status is entered, so [n] leaves room. *)
Definition statuses_kept (n : nat) (p : str -> Prop) t t' : Prop :=
  (size (cs_sources (tk_cloudflare t)) <= n)%nat ->
  ∀ name, p name -> cs_sources (tk_cloudflare t') !! name = cs_sources (tk_cloudflare t) !! name.

Lemma success_reported t name a r unix : reported t (record_success t name a r unix).
Proof. by eexists. Qed.

Lemma failure_reported t name why unix : reported t (record_failure t name why unix).
Proof. by eexists. Qed.

Lemma record_kept t status :
  statuses_kept 64 (λ name, name ≠ ss_name status) t (with_cf t (record_source (tk_cloudflare t) status)).
Proof.
  intros Hn name Hne. unfold record_source. cbn [tk_cloudflare with_cf cs_sources].
  rewrite (proj2 (Nat.ltb_ge 64 _)) by done. by rewrite lookup_insert_ne.
Qed.

Lemma success_kept t name a r unix :
  statuses_kept 64 (λ other, other ≠ name) t (record_success t name a r unix).
Proof. exact (record_kept t (mk_SourceStatus name true [] unix (Some unix) a r)). Qed.

Lemma failure_kept t name why unix :
  statuses_kept 64 (λ other, other ≠ name) t (record_failure t name why unix).
Proof.
  exact (record_kept t (mk_SourceStatus name false (bounded_octets why 160) unix
    (match cs_sources (tk_cloudflare t) !! name with Some s => ss_succeeded_unix s | None => None end) 0 0)).
Qed.

Lemma record_size t status :
  (size (cs_sources (record_source (tk_cloudflare t) status)) <= S (size (cs_sources (tk_cloudflare t))))%nat.
Proof.
  unfold record_source. cbn [cs_sources]. rewrite map_size_insert.
  destruct (_ <? _)%nat; [rewrite lookup_empty, map_size_empty; cbn; lia|].
  destruct (_ !! _); cbn; lia.
Qed.

Definition text_source : str := lit "cloudflare-text-lists".

(** The comparison enters one status or none. *)
Lemma cross_check_cases cfg w t :
  cross_check_lists cfg w t = t ∨
  ∃ n, cross_check_lists cfg w t = record_success t text_source n 0 (wd_unix w).
Proof. unfold cross_check_lists. cbn zeta. repeat case_match; eauto. Qed.

Lemma cross_check_reported cfg w t : reported t (cross_check_lists cfg w t).
Proof.
  destruct (cross_check_cases cfg w t) as [->|[n ->]]; [|apply success_reported].
  exists (cs_sources (tk_cloudflare t)). by destruct t as [[] ? ? ?].
Qed.

Lemma cross_check_proposes cfg w t : proposes t (cross_check_lists cfg w t).
Proof. destruct (cross_check_cases cfg w t) as [->|[n ->]]; auto with tasks; reflexivity. Qed.

(** What the API answered, and a list in it that may be installed. *)
Definition api_answer (cfg : CloudflareConfig) w (etag : option str) : result CloudflareError FetchResult :=
  let o := cf_official cfg in
  match https_parse (of_api_url o) with
  | Err e => Err e
  | Ok url =>
      fetch_from_host (mk_FetchOptions (of_max_response_bytes o) (of_timeout o) etag None (wd_token w)) w url
  end.

Definition offered (cfg : CloudflareConfig) w t (a : FetchResult) (c : PrefixSnapshot) : Prop :=
  fr_status a = 200 ∧ parse_api_json from_slice (map chr (fr_body a)) (wd_unix w) = Ok c ∧
  validate_snapshot c (cs_prefixes (tk_cloudflare t))
    (Z.to_nat (of_min_ipv4_prefixes (cf_official cfg)))
    (Z.to_nat (of_min_ipv6_prefixes (cf_official cfg))) = Ok tt.

(** The status a source is left with. *)
Definition api_status t (p : SourceStatus -> Prop) : Prop :=
  ∃ status, cs_sources (tk_cloudflare t) !! api_source = Some status ∧ p status.

(** What a refresh that installs [c] leaves. *)
Record installed (cfg : CloudflareConfig) w t (c : PrefixSnapshot) t' : Prop := {
  in_prefixes : cs_prefixes (tk_cloudflare t') = Some c;
  in_pool : ∀ a x, family (cs_pool (tk_cloudflare t')) a !! a = Some x <->
    family (cs_pool (tk_cloudflare t)) a !! a = Some x ∧ snapshot_contains c a = true;
  in_unearned : unearned (tk_cloudflare t) (tk_cloudflare t');
  in_queue : tk_queue t' = tk_queue t;
  in_sampler : tk_sampler t' = tk_sampler t;
  in_disk : tk_disk t' = if bool_decide (is_Some (of_cache_file (cf_official cfg))) && wd_written w
                         then Some (to_stored c) else tk_disk t;
  in_status : api_status t' (λ status, ss_ok status = true ∧ ss_succeeded_unix status = Some (wd_unix w) ∧
    ss_accepted status = (length (snap_v4 c) + length (snap_v6 c))%nat);
  in_others : statuses_kept 63 (λ name, name ≠ api_source ∧ name ≠ text_source) t t'
}.

Definition install (disk : option StoredSnapshot) t (c : PrefixSnapshot) : Tasks :=
  mk_Tasks (set_prefixes (tk_cloudflare t) c) (tk_sampler t) (tk_queue t) disk.

Lemma set_prefixes_members s c a x :
  family (cs_pool (set_prefixes s c)) a !! a = Some x <->
  family (cs_pool s) a !! a = Some x ∧ snapshot_contains c a = true.
Proof.
  unfold family, set_prefixes, revalidate. cbn [cs_pool snd p_v4 p_v6].
  by destruct (ipv4_addr a); rewrite map_lookup_filter_Some.
Qed.

Lemma install_kept cfg w t disk (c : PrefixSnapshot) n :
  statuses_kept 63 (λ name, name ≠ api_source ∧ name ≠ text_source) t
    (record_success (install disk (cross_check_lists cfg w t) c) api_source n 0 (wd_unix w)).
Proof.
  intros Hn name [Hapi Htext].
  assert ((size (cs_sources (tk_cloudflare (cross_check_lists cfg w t))) <= 64)%nat ∧
    cs_sources (tk_cloudflare (cross_check_lists cfg w t)) !! name = cs_sources (tk_cloudflare t) !! name)
    as [Hs <-].
  { destruct (cross_check_cases cfg w t) as [->|[k ->]]; [split; [lia|done]|]. split.
    - etrans; [apply record_size|]. lia.
    - apply success_kept; [lia|done]. }
  by apply (success_kept (install disk (cross_check_lists cfg w t) c)).
Qed.

Lemma install_refreshes cfg w t (c : PrefixSnapshot) :
  let o := cf_official cfg in
  let disk := if bool_decide (is_Some (of_cache_file o)) && wd_written w
              then Some (to_stored c) else tk_disk (cross_check_lists cfg w t) in
  installed cfg w t c (record_success (install disk (cross_check_lists cfg w t) c) api_source
    (length (snap_v4 c) + length (snap_v6 c)) 0 (wd_unix w)).
Proof.
  cbn zeta. pose proof (install_kept cfg w t
    (if bool_decide (is_Some (of_cache_file (cf_official cfg))) && wd_written w
     then Some (to_stored c) else tk_disk (cross_check_lists cfg w t)) c
    (length (snap_v4 c) + length (snap_v6 c))) as Hk.
  destruct (cross_check_reported cfg w t) as [m Hm]. rewrite Hm in *. split; try done.
  - apply (set_prefixes_members (tk_cloudflare t)).
  - by destruct (prefixes_unearned (tk_cloudflare t) c); split.
  - eexists. split; [apply lookup_insert_eq|done].
Qed.

(** A refresh that was refused. *)
Definition refused w t t' : Prop :=
  reported t t' ∧ statuses_kept 64 (λ name, name ≠ api_source) t t' ∧
  api_status t' (λ status, ss_ok status = false ∧ ss_attempted_unix status = wd_unix w ∧
    ss_succeeded_unix status = cs_sources (tk_cloudflare t) !! api_source ≫= ss_succeeded_unix).

Lemma failure_refused w t why : refused w t (record_failure t api_source why (wd_unix w)).
Proof.
  split_and!; [apply failure_reported|apply failure_kept|].
  eexists. split; [apply lookup_insert_eq|]. split_and!; [done..|]. cbn.
  by destruct (cs_sources (tk_cloudflare t) !! api_source).
Qed.

(** The three ways a refresh can end. *)
Definition update_outcome (cfg : CloudflareConfig) w (etag : option str) t
    (r : result unit (option str)) t' : Prop :=
  (∃ a c, api_answer cfg w etag = Ok a ∧ offered cfg w t a c ∧
     r = Ok (match snap_etag c with Some e => Some e | None => fr_etag a end) ∧ installed cfg w t c t') ∨
  (∃ a, api_answer cfg w etag = Ok a ∧ fr_status a = 304 ∧ r = Ok None ∧ reported t t' ∧
     statuses_kept 64 (λ name, name ≠ api_source) t t' ∧
     api_status t' (λ status, ss_ok status = true ∧ ss_succeeded_unix status = Some (wd_unix w))) ∨
  ((∀ a, api_answer cfg w etag = Ok a -> fr_status a ≠ 304 ∧ ∀ c, ¬ offered cfg w t a c) ∧
     r = Err tt ∧ refused w t t').

Lemma update_cases cfg w etag t :
  let '(r, t') := update_prefixes cfg w etag t in update_outcome cfg w etag t r t'.
Proof.
  unfold update_prefixes, update_outcome. cbn zeta.
  pose proof (failure_refused w t) as Hf. unfold api_answer.
  destruct (https_parse _) as [url|]; [|right; right; split_and!; done].
  destruct (fetch_from_host _ _ _) as [r|]; [|right; right; split_and!; done].
  destruct (fr_status r =? 304) eqn:E304.
  { right. left. exists r. apply Z.eqb_eq in E304. split_and!; [done..|apply success_reported|apply success_kept|].
    eexists. split; [apply lookup_insert_eq|done]. }
  apply Z.eqb_neq in E304. destruct (fr_status r =? 200) eqn:E200; cbn [negb].
  2:{ right. right. apply Z.eqb_neq in E200. split_and!; [|done..]. intros a [= <-]. split; [done|]. by intros c []. }
  apply Z.eqb_eq in E200. destruct (parse_api_json _ _ _) as [c|] eqn:Ep.
  2:{ right. right. split_and!; [|done..]. intros a [= <-]. split; [done|]. intros c (_ & Hp & _). congruence. }
  destruct (validate_snapshot _ _ _ _) as [[]|] eqn:Ev.
  2:{ right. right. split_and!; [|done..]. intros a [= <-]. split; [done|]. intros c' (_ & Hp & Hv). congruence. }
  left. exists r, c. split_and!; [done..|]. apply install_refreshes.
Qed.

Lemma update_inv cfg w etag t :
  state_inv (tk_cloudflare t) -> state_inv (tk_cloudflare (update_prefixes cfg w etag t).2).
Proof.
  intros Hi. pose proof (λ why, ps_inv _ _ (failure_proposes t api_source why (wd_unix w)) Hi) as Hf.
  unfold update_prefixes. cbn zeta. destruct (https_parse _); [|apply Hf].
  destruct (fetch_from_host _ _ _) as [r|]; [|apply Hf].
  destruct (fr_status r =? 304); [by apply (ps_inv _ _ (success_proposes t api_source 0 0 (wd_unix w)))|].
  destruct (negb _); [apply Hf|]. destruct (parse_api_json _ _ _) as [c|]; [|apply Hf].
  destruct (validate_snapshot _ _ _ _); [|apply Hf]. cbn [snd].
  apply (ps_inv _ _ (success_proposes _ _ _ _ _)). cbn [tk_cloudflare].
  apply (apply_event_inv _ (EvPrefixes c)). by apply (ps_inv _ _ (cross_check_proposes cfg w t)).
Qed.

(** ** Probing *)

(** When an address is worth validating for a name. *)
Definition worth_validating (cfg : CloudflareConfig) (hot : HotSet) t (host : str) (a : IpAddr) : Prop :=
  cf_mode cfg = CfVerifiedAugment ∧
  is_excluded host (cf_allow_domains cfg) (cf_deny_domains cfg) = false ∧
  (∃ key e, (key, e) ∈ top hot 32 ∧ key_name key = host ∧
     key_qtype key = if ipv4_addr a then RT_A else RT_AAAA) ∧
  ∃ c, family (cs_pool (tk_cloudflare t)) a !! a = Some c ∧ is_eligible c 1 = true.

Definition worth_of t (r : Round) : str -> IpAddr -> Prop :=
  match r with
  | RoundProbe cfg _ _ hot => worth_validating cfg hot t
  | _ => λ _ _, False
  end.

Lemma member_official prefixes fam a c : member_ok prefixes fam a c -> official_in prefixes (cd_addr c).
Proof. by intros (-> & _ & ? & ?). Qed.

Lemma pool_iter_member prefixes p c :
  pool_inv prefixes p -> c ∈ map snd (hash_iter (p_v4 p) ++ hash_iter (p_v6 p)) ->
  official_in prefixes (cd_addr c).
Proof.
  intros [_ _ H4 H6] [[a c'] [-> Hc]]%list_elem_of_fmap.
  apply elem_of_app in Hc as [Hc%hash_iter_elem|Hc%hash_iter_elem]; eapply member_official;
    [by apply H4|by apply H6].
Qed.

Lemma due_official prefixes p cooldown now limit c :
  pool_inv prefixes p -> c ∈ due_for_probe p cooldown now limit -> official_in prefixes (cd_addr c).
Proof.
  intros Hp Hc. unfold due_for_probe in Hc. cbn zeta in Hc. apply elem_of_take in Hc as (i & Hc & _).
  apply list_elem_of_lookup_2 in Hc. rewrite stable_sort_perm in Hc.
  apply list_elem_of_In, filter_In in Hc as [Hc _]. apply list_elem_of_In in Hc.
  by eapply pool_iter_member.
Qed.

Lemma eligible_member prefixes p ipv4 min c :
  pool_inv prefixes p -> c ∈ eligible_candidates p ipv4 min ->
  ipv4_addr (cd_addr c) = ipv4 ∧ official_in prefixes (cd_addr c) ∧
  family p (cd_addr c) !! cd_addr c = Some c ∧ is_eligible c min = true.
Proof.
  intros [_ _ H4 H6] Hc. unfold eligible_candidates in Hc.
  apply list_elem_of_In, filter_In in Hc as [Hc He]. apply list_elem_of_In in Hc.
  apply list_elem_of_fmap in Hc as [[a c'] [-> Hc%hash_iter_elem]]. cbn [snd] in *.
  assert (member_ok prefixes ipv4 a c') as Hm by (destruct ipv4; [by apply H4|by apply H6]).
  pose proof (member_official _ _ _ _ Hm) as Ho. destruct Hm as (Ha & Hf & _). subst a.
  split; [done|]. split; [done|]. split; [|done]. unfold family. rewrite Hf. by destruct ipv4.
Qed.

Lemma prober_jobs_ok cfg probe_cfg w hot t :
  state_inv (tk_cloudflare t) ->
  Forall (task_job (cs_prefixes (tk_cloudflare t)) (worth_validating cfg hot t))
    (prober_jobs cfg probe_cfg w hot t).
Proof.
  intros Hi. pose proof (si_pool _ Hi) as Hp. unfold prober_jobs. cbn zeta. apply Forall_app. split.
  - apply Forall_forall. intros j (c & -> & Hc%(due_official _ _ _ _ _ _ Hp))%list_elem_of_fmap.
    by split.
  - case_bool_decide as Hmode; [|done]. apply Forall_forall.
    intros j ([key e] & He & Hj)%list_elem_of_In%in_flat_map. apply list_elem_of_In in He, Hj.
    cbn [fst] in Hj. revert Hj. unfold validations_for.
    destruct (is_excluded _ _ _) eqn:Ex; [by destruct (key_qtype key); intros ?%elem_of_nil|].
    assert (∀ (ipv4 : bool) n c, key_qtype key = (if ipv4 then RT_A else RT_AAAA) ->
      c ∈ take n (eligible_candidates (cs_pool (tk_cloudflare t)) ipv4 1) ->
      task_job (cs_prefixes (tk_cloudflare t)) (worth_validating cfg hot t)
        (JobValidate (key_name key) (cd_addr c) 443 (wd_generation w))) as Hval.
    { intros ipv4 n c Hq (i & Hc & _)%elem_of_take. apply list_elem_of_lookup_2 in Hc.
      destruct (eligible_member _ _ _ _ _ Hp Hc) as (Hf & Ho & Hl & He').
      split; [done|]. split; [done|]. split; [done|]. split; [done|]. split; [|by exists c].
      exists key, e. by rewrite Hf. }
    destruct (key_qtype key) eqn:Eq; try (by intros ?%elem_of_nil);
      intros (c & -> & Hc)%list_elem_of_fmap; [by apply (Hval true (max_added (cf_augment cfg) + 2)%nat c)
       |by apply (Hval false (max_added (cf_augment cfg) + 2)%nat c)].
Qed.

Lemma offer_all js t :
  tk_cloudflare (fold_left offer_job js t) = tk_cloudflare t ∧
  tk_disk (fold_left offer_job js t) = tk_disk t ∧
  ∃ js', waiting (tk_queue (fold_left offer_job js t)) = waiting (tk_queue t) ++ js' ∧ js' ⊆ js.
Proof.
  revert t. induction js as [|j js IH]; intros t; cbn [fold_left].
  { split_and!; [done|done|]. exists []. by rewrite app_nil_r. }
  destruct (IH (offer_job t j)) as (Hc & Hd & js' & Hw & Hs). split_and!; [done|done|].
  rewrite Hw. cbn [offer_job tk_queue].
  destruct (offer_waiting (tk_queue t) j) as [->|[-> _]]; [exists js'; set_solver|].
  exists (j :: js'). rewrite <- app_assoc. split; [done|set_solver].
Qed.

Lemma proposes_round t t' worth :
  proposes t t' -> state_inv (tk_cloudflare t) ->
  state_inv (tk_cloudflare t') ∧ unearned (tk_cloudflare t) (tk_cloudflare t') ∧
  ∃ js, waiting (tk_queue t') = waiting (tk_queue t) ++ js ∧
    Forall (task_job (cs_prefixes (tk_cloudflare t')) worth) js.
Proof.
  intros [Hp _ Hi Hu (js & Hw & Hjs)] H. split_and!; [by apply Hi|apply Hu|].
  exists js. split; [done|]. rewrite Hp. eapply Forall_impl; [done|].
  intros j (? & ? & Hj). split; [done|]. split; [done|]. by destruct j.
Qed.

Lemma update_round t cfg w etag :
  state_inv (tk_cloudflare t) ->
  let t' := (update_prefixes cfg w etag t).2 in
  state_inv (tk_cloudflare t') ∧ unearned (tk_cloudflare t) (tk_cloudflare t') ∧
  waiting (tk_queue t') = waiting (tk_queue t).
Proof.
  intros Hi t'. split; [by apply update_inv|]. unfold t'.
  pose proof (update_cases cfg w etag t) as Hu. destruct (update_prefixes cfg w etag t) as [r t1].
  assert (∀ t', reported t t' -> unearned (tk_cloudflare t) (tk_cloudflare t') ∧
    waiting (tk_queue t') = waiting (tk_queue t)) as Hr.
  { intros t2 [m ->]. split; [|done]. split; [done|done|]. intros a c Hc. right. by exists c. }
  destruct Hu as [(a & c & _ & _ & _ & Hin)|[(a & _ & _ & _ & Hrep & _)|(_ & _ & Hrep & _)]]; cbn [snd];
    [|by apply Hr..].
  split; [apply Hin|]. by rewrite (in_queue _ _ _ _ _ Hin).
Qed.

Lemma round_spec t r :
  state_inv (tk_cloudflare t) ->
  let t' := round t r in
  state_inv (tk_cloudflare t') ∧ unearned (tk_cloudflare t) (tk_cloudflare t') ∧
  ∃ js, waiting (tk_queue t') = waiting (tk_queue t) ++ js ∧
    Forall (task_job (cs_prefixes (tk_cloudflare t')) (worth_of t r)) js.
Proof.
  intros Hi t'. unfold t'.
  destruct r as [cfg|captured after w etag|cfg world|cfg w|cfg probe_cfg w hot]; cbn [round].
  - unfold load_cached. destruct (cf_enabled cfg); [|by apply proposes_round].
    destruct (read_cached_snapshot cfg t) as [sn|]; [|by apply proposes_round].
    split; [by apply (apply_event_inv _ (EvPrefixes sn))|]. split; [apply prefixes_unearned|].
    exists []. by rewrite app_nil_r.
  - unfold updater_round. destruct (_ || _); [by apply proposes_round|].
    destruct (update_round t captured w etag Hi) as (Hi' & Hu & Hq).
    destruct (update_prefixes captured w etag t) as [res t1]. cbn [snd] in *.
    destruct (proposes_round _ _ (λ _ _, False) (static_proposes captured w t1) Hi') as (H1 & H2 & H3).
    split_and!; [done|by etrans|]. by rewrite <- Hq.
  - apply proposes_round; [apply seed_round_proposes|done].
  - apply proposes_round; [apply sampler_proposes|done].
  - unfold prober_round. destruct (_ || _); [by apply proposes_round|].
    destruct (offer_all (prober_jobs cfg probe_cfg w hot t) t) as (-> & _ & js & Hw & Hs).
    split; [done|]. split; [reflexivity|]. exists js. split; [done|].
    pose proof (prober_jobs_ok cfg probe_cfg w hot t Hi) as Hj. rewrite Forall_forall in Hj |- *. eauto.
Qed.

(** C23. The tasks only propose.  Whatever a list, a sample, the configuration or the cached
    prefixes say, a round of a task changes no validation and no baseline and gives no
    candidate a stage or a success it had not earned: a new one starts with none.  The
    jobs a round queues are for port 443 and for routable addresses inside the prefixes in
    force when it ends, and an address is validated only for a frequent name of its own
    family that is not excluded, in the augmenting mode, once it has served a request. *)
Theorem rounds_only_propose t r (Hi : state_inv (tk_cloudflare t)) :
  let t' := round t r in
  unearned (tk_cloudflare t) (tk_cloudflare t') ∧
  ∃ js, waiting (tk_queue t') = waiting (tk_queue t) ++ js ∧
    Forall (task_job (cs_prefixes (tk_cloudflare t')) (worth_of t r)) js.
Proof. by apply round_spec. Qed.

(** C24. A refresh of the official prefixes is all or nothing, and which of the two is decided
    by what the API answered.  When the answer has status 200 and a body that parses to a
    list that passes validation against the one in force, that list replaces it, the pool
    keeps exactly the members it contains, and the cache file holds the new list when it
    could be written and the old one otherwise.  When the status is 304 nothing but the
    status of the source changes.  In every other case the refresh fails, and nothing but
    the status of its source changes, which keeps the time of the last success.  The
    status of the other sources stays, as long as the table is not overfull. *)
Theorem refresh_is_all_or_nothing cfg w etag t :
  let '(r, t') := update_prefixes cfg w etag t in update_outcome cfg w etag t r t'.
Proof. apply update_cases. Qed.

(** ** Histories *)

Context {NLaws : IpNetLaws} {NTLaws : IpNetTextLaws}.

(** The compiled-in snapshot, or one made of networks the parser takes: none wider than a /8
    or a /16 or narrower than a /24 or a /64, and none starting in special-use space. *)
Definition trusted (s : PrefixSnapshot) : Prop :=
  s = builtin ∨
  (Forall accepted4 (snap_v4 s) ∧ Forall accepted6 (snap_v6 s) ∧
   v4_masks s = map (λ n, (net4_network n, net4_netmask n)) (snap_v4 s) ∧
   v6_masks s = map (λ n, (net6_network n, net6_netmask n)) (snap_v6 s)).

Lemma snapshot_trusted v4 v6 etag unix source :
  Forall accepted4 v4 -> Forall accepted6 v6 -> trusted (snapshot_new v4 v6 etag unix source).
Proof. intros H4 H6. right. split_and!; [by apply Forall_sort_dedup..|done|done]. Qed.

Lemma api_trusted body unix c : parse_api_json from_slice body unix = Ok c -> trusted c.
Proof.
  unfold parse_api_json. destruct (from_slice body) as [env|]; [|done]. case_bool_decide; [done|].
  destruct (api_result env) as [r|]; [|done].
  destruct (parse_cidr_list_v4 _) as [v4|] eqn:E4; [|done].
  destruct (parse_cidr_list_v6 _) as [v6|] eqn:E6; [|done]. intros [= <-].
  apply snapshot_trusted; [by eapply parse_v4_accepted|by eapply parse_v6_accepted].
Qed.

Lemma cached_trusted cfg t c : read_cached_snapshot cfg t = Some c -> trusted c.
Proof.
  unfold read_cached_snapshot. destruct (of_cache_file _); [|done]. destruct (tk_disk t) as [st|]; [|done].
  destruct (from_stored st _) as [c'|] eqn:E; [|done]. destruct (validate_snapshot _ _ _ _); [|done].
  intros [= <-]. revert E. unfold from_stored.
  destruct (parse_cidr_list_v4 _) as [v4|] eqn:E4; [|done].
  destruct (parse_cidr_list_v6 _) as [v6|] eqn:E6; [|done]. intros [= <-].
  apply snapshot_trusted; [by eapply parse_v4_accepted|by eapply parse_v6_accepted].
Qed.

Definition tasks_start (n : nat) (sampler : StratifiedSampler) (queue : ProbeQueue)
    (disk : option StoredSnapshot) : Tasks := mk_Tasks (state_new n builtin) sampler queue disk.

Definition drop_outside t (snapshot : PrefixSnapshot) : Tasks :=
  let cf := tk_cloudflare t in with_cf t (with_pool cf (revalidate (cs_pool cf) snapshot).2).

Definition publish t (snapshot : PrefixSnapshot) : Tasks :=
  let cf := tk_cloudflare t in
  with_cf t (mk_CloudflareState (Some snapshot) (cs_pool cf) (cs_validations cf) (cs_baseline cf)
               (cs_sources cf) (cs_max_validations cf)).

Definition admit_into t (addr : IpAddr) (origin : CandidateOrigin) (snapshot : option PrefixSnapshot)
    (generation : Z) (now : Instant) (budget : option Z) : Tasks :=
  let cf := tk_cloudflare t in
  with_cf t (with_pool cf (admit_candidate (cs_pool cf) addr origin snapshot generation now budget).2).

(** The measurements and changes that neither admit nor publish. *)
Definition plain_event (e : Event) : Prop :=
  match e with EvAdmit _ _ _ _ _ | EvPrefixes _ => False | _ => True end.

(** One access of a task, the probe engine, a query or an administrator to what they share.
    [seen] are the snapshots that have been in force, the present one first.  A snapshot
    is loaded some time before it is used, so an admission, a sample and the comparison
    of a new list use any of them; publishing drops the candidates outside first, and
    stores the snapshot in another access. *)
Inductive access (seen : list PrefixSnapshot) t : list PrefixSnapshot -> Tasks -> Prop :=
| ac_drop snapshot : access seen t seen (drop_outside t snapshot)
| ac_cached cfg file snapshot :
    read_cached_snapshot cfg file = Some snapshot -> access seen t (snapshot :: seen) (publish t snapshot)
| ac_refreshed body unix previous min_v4 min_v6 snapshot :
    parse_api_json from_slice body unix = Ok snapshot -> previous ∈ seen ->
    validate_snapshot snapshot (Some previous) min_v4 min_v6 = Ok tt ->
    access seen t (snapshot :: seen) (publish t snapshot)
| ac_admit addr origin snapshot generation now budget :
    (∀ s, snapshot = Some s -> s ∈ seen) ->
    access seen t seen (admit_into t addr origin snapshot generation now budget)
| ac_sample snapshot n :
    snapshot ∈ seen ->
    access seen t seen (mk_Tasks (tk_cloudflare t) (next_round (tk_sampler t) snapshot n).2 (tk_queue t) (tk_disk t))
| ac_event e : plain_event e -> access seen t seen (with_cf t (apply_event (tk_cloudflare t) e))
| ac_offer job : access seen t seen (offer_job t job)
| ac_take : access seen t seen (mk_Tasks (tk_cloudflare t) (tk_sampler t) (take_job (tk_queue t)).2 (tk_disk t))
| ac_disk stored : access seen t seen (mk_Tasks (tk_cloudflare t) (tk_sampler t) (tk_queue t) stored).

(** What a history of accesses, in any order, can lead to. *)
Inductive interleaved : list PrefixSnapshot -> Tasks -> Prop :=
| il_start n sampler queue disk : interleaved [builtin] (tasks_start n sampler queue disk)
| il_access seen t seen' t' : interleaved seen t -> access seen t seen' t' -> interleaved seen' t'.

Lemma interleaved_current seen t :
  interleaved seen t -> ∃ s earlier, seen = s :: earlier ∧ cs_prefixes (tk_cloudflare t) = Some s.
Proof.
  induction 1 as [|seen t seen' t' _ (s & earlier & -> & Hs) Ha]; [by exists builtin, []|].
  destruct Ha as [| | | | |e He| | |]; try (by exists s, earlier); try (by exists snapshot, (s :: earlier)).
  exists s, earlier. split; [done|]. by destruct e.
Qed.

(** ** The rounds of the tasks are such histories *)

Lemma fold_interleaved {A} (f : Tasks -> A -> Tasks) seen l t :
  (∀ t x, interleaved seen t -> interleaved seen (f t x)) -> interleaved seen t ->
  interleaved seen (fold_left f l t).
Proof. intros Hf. revert t. induction l as [|x l IH]; intros t Ht; [done|]. apply IH. by apply Hf. Qed.

Lemma propose_interleaved seen t a o sn w b :
  interleaved seen t -> (∀ s, sn = Some s -> s ∈ seen) -> interleaved seen (propose_candidate t a o sn w b).2.
Proof.
  intros Ht Hsn. pose proof (il_access _ _ _ _ Ht (ac_admit seen t a o sn (wd_generation w) (wd_now w) b Hsn)) as Ha.
  unfold propose_candidate. unfold admit_into in Ha. cbn zeta in Ha.
  destruct (admit_candidate _ a o _ _ _ b) as [adm pool]. destruct adm; [|done..].
  cbn [snd]. eapply il_access; [exact Ha|constructor].
Qed.

Lemma current_interleaved seen t :
  interleaved seen t -> ∀ s, cs_prefixes (tk_cloudflare t) = Some s -> s ∈ seen.
Proof. intros (s & earlier & -> & Hs)%interleaved_current s' Hs'. simplify_eq. left. Qed.

Lemma source_interleaved seen t status :
  interleaved seen t -> interleaved seen (with_cf t (record_source (tk_cloudflare t) status)).
Proof. intros Ht. eapply il_access; [exact Ht|]. by apply (ac_event _ _ (EvSource status)). Qed.

Lemma poll_interleaved seen cfg ep w t : interleaved seen t -> interleaved seen (poll_seed cfg ep w t).
Proof.
  intros Ht. unfold poll_seed. cbn zeta. destruct (https_parse _) as [url|]; [|by apply source_interleaved].
  destruct (fetch_from_host _ _ _) as [r|]; [|by apply source_interleaved].
  destruct (negb _); [by apply source_interleaved|].
  destruct (parse_seeds _ _) as [[items stats]|]; [|by apply source_interleaved].
  assert (∀ l acc, interleaved seen acc.2 -> interleaved seen (fold_left (admit_seed w) l acc).2) as Hl.
  { induction l as [|a l IH]; intros [[n m] t'] Ht'; [done|]. apply IH. unfold admit_seed.
    pose proof (propose_interleaved seen t' a Seed (cs_prefixes (tk_cloudflare t')) w None Ht'
      (current_interleaved _ _ Ht')) as Hp.
    by destruct (propose_candidate _ _ _ _ _ _) as [[| |] t2]. }
  specialize (Hl (flat_map (item_addresses cfg w) items) (0%nat, 0%nat, t) Ht).
  destruct (fold_left _ _ _) as [[n m] t']. by apply source_interleaved.
Qed.

Lemma static_interleaved seen cfg w t : interleaved seen t -> interleaved seen (admit_static_candidates cfg w t).
Proof.
  intros Ht. unfold admit_static_candidates. cbn zeta. apply fold_interleaved; [|done].
  intros t' a Ht'. apply propose_interleaved; [done|]. by apply current_interleaved.
Qed.

Lemma sampler_interleaved seen cfg w t : interleaved seen t -> interleaved seen (sampler_round cfg w t).
Proof.
  intros Ht. unfold sampler_round. destruct (_ || _); [done|].
  destruct (cs_prefixes (tk_cloudflare t)) as [sn|] eqn:E; [|done].
  pose proof (current_interleaved _ _ Ht _ E) as Hsn.
  pose proof (il_access _ _ _ _ Ht (ac_sample seen t sn
    (Z.to_nat (sampling_addresses_per_round (cf_sampling cfg))) Hsn)) as Hs.
  destruct (next_round _ _ _) as [addrs sampler]. apply fold_interleaved; [|exact Hs].
  intros t' a Ht'. apply propose_interleaved; [done|]. by intros s [= <-].
Qed.

Lemma publish_interleaved seen t snapshot :
  (∀ t, interleaved seen t -> interleaved (snapshot :: seen) (publish t snapshot)) -> interleaved seen t ->
  interleaved (snapshot :: seen) (with_cf t (set_prefixes (tk_cloudflare t) snapshot)).
Proof. intros Hp Ht. apply (Hp (drop_outside t snapshot)). eapply il_access; [exact Ht|constructor]. Qed.

Lemma update_interleaved seen cfg w etag t :
  interleaved seen t -> ∃ more, interleaved (more ++ seen) (update_prefixes cfg w etag t).2.
Proof.
  intros Ht. pose proof (source_interleaved seen t) as Hs. unfold update_prefixes. cbn zeta.
  destruct (https_parse _); [|exists []; by apply Hs].
  destruct (fetch_from_host _ _ _) as [r|]; [|exists []; by apply Hs].
  destruct (fr_status r =? 304); [exists []; by apply Hs|].
  destruct (negb _); [exists []; by apply Hs|].
  destruct (parse_api_json _ _ _) as [c|] eqn:Ep; [|exists []; by apply Hs].
  destruct (validate_snapshot _ _ _ _) as [[]|] eqn:Ev; [|exists []; by apply Hs].
  exists [c]. apply source_interleaved.
  assert (interleaved seen (cross_check_lists cfg w t)) as Hc.
  { destruct (cross_check_cases cfg w t) as [->|[n ->]]; [done|by apply Hs]. }
  destruct (interleaved_current _ _ Ht) as (s & earlier & -> & Hcur). rewrite Hcur in Ev.
  assert (interleaved (c :: s :: earlier) (with_cf (cross_check_lists cfg w t)
    (set_prefixes (tk_cloudflare (cross_check_lists cfg w t)) c))) as Hp.
  { apply publish_interleaved; [|exact Hc]. intros t' Ht'. eapply il_access; [exact Ht'|].
    eapply ac_refreshed; [exact Ep| |exact Ev]. left. }
  exact (il_access _ _ _ _ Hp (ac_disk _ _ _)).
Qed.

(** Each round, were it not interrupted, is a sequence of accesses. *)
Lemma round_interleaved seen t r : interleaved seen t -> ∃ more, interleaved (more ++ seen) (round t r).
Proof.
  intros Ht. destruct r as [cfg|captured after w etag|cfg world|cfg w|cfg probe_cfg w hot]; cbn [round].
  - unfold load_cached. destruct (cf_enabled cfg); [|by exists []].
    destruct (read_cached_snapshot cfg t) as [c|] eqn:E; [|by exists []]. exists [c].
    apply publish_interleaved; [|done]. intros t' Ht'. eapply il_access; [exact Ht'|]. by eapply ac_cached.
  - unfold updater_round. destruct (_ || _); [by exists []|].
    destruct (update_interleaved seen captured w etag t Ht) as [more Hm]. exists more.
    destruct (update_prefixes captured w etag t) as [res t1]. by apply static_interleaved.
  - exists []. unfold seed_round. destruct (_ || _); [done|]. apply fold_interleaved; [|done].
    intros. by apply poll_interleaved.
  - exists []. by apply sampler_interleaved.
  - exists []. unfold prober_round. destruct (_ || _); [done|]. apply fold_interleaved; [|done].
    intros t' j Ht'. eapply il_access; [exact Ht'|constructor].
Qed.

(** ** What holds throughout *)

(** Every member is routable and was inside a snapshot that has been in force. *)
Definition covered (seen : list PrefixSnapshot) (p : CandidatePool) : Prop :=
  ∀ a c, family p a !! a = Some c ->
    IpClass.classify a = None ∧ ∃ s, s ∈ seen ∧ snapshot_contains s a = true.

Lemma covered_sub seen p p' :
  (∀ a c, family p' a !! a = Some c -> is_Some (family p a !! a)) -> covered seen p -> covered seen p'.
Proof. intros Hs Hp a c [c0 Hc]%Hs. by eapply Hp. Qed.

Lemma covered_more seen s p : covered seen p -> covered (s :: seen) p.
Proof. intros Hp a c Hc. destruct (Hp a c Hc) as [? (s' & ? & ?)]. split; [done|]. exists s'. split; [by right|done]. Qed.

Lemma event_members s e a c :
  plain_event e -> family (cs_pool (apply_event s e)) a !! a = Some c -> is_Some (family (cs_pool s) a !! a).
Proof.
  destruct e; try done; cbn [apply_event cs_pool with_pool]; try (intros _ Hc; by exists c).
  - intros _. unfold record_stage. destruct (family (cs_pool s) addr !! addr) as [c0|] eqn:E; [|by eexists].
    intros [[-> _]|Hc]%family_replaced; by eexists.
  - intros _. unfold family, on_generation_change, pool_generation_change. cbn [cs_pool p_v4 p_v6].
    destruct (ipv4_addr a); rewrite lookup_fmap; intros (c0 & -> & _)%fmap_Some; by eexists.
Qed.

Lemma access_covered seen t seen' t' :
  access seen t seen' t' -> covered seen (cs_pool (tk_cloudflare t)) -> covered seen' (cs_pool (tk_cloudflare t')).
Proof.
  intros [| | |a o sn g now b Hsn| |e He| | |] Hc; try done; try (by apply covered_more).
  - eapply covered_sub; [|exact Hc]. intros a c Hm. exists c.
    by apply (set_prefixes_members (tk_cloudflare t) snapshot) in Hm as [? _].
  - intros x c [(-> & [Hr (s & Es & Hin)] & _)|(c0 & Hc0 & _)]%admit_member; [|by eapply Hc].
    split; [done|]. exists s. split; [by apply Hsn|done].
  - eapply covered_sub; [|exact Hc]. intros a c. by apply event_members.
Qed.

Lemma access_trusted seen t seen' t' :
  access seen t seen' t' -> Forall trusted seen -> Forall trusted seen'.
Proof.
  intros Ha Hs. destruct Ha; try done; constructor; try done; [by eapply cached_trusted|by eapply api_trusted].
Qed.

End tasks.

(** ** Concrete rounds *)

Section witnesses.
#[local] Existing Instance ipnet_reference.
#[local] Existing Instance ipnet_reference_laws.
#[local] Existing Instance digit_text.
#[local] Existing Instance digit_text_laws.
#[local] Existing Instance evidence_floats.
#[local] Existing Instance addr_order.
#[local] Existing Instance validation_order.
#[local] Existing Instance series_order.
#[local] Instance hot_order : HashOrder CacheKey := {
  hash_iter A m := map_to_list m; hash_iter_perm A m := Permutation_refl _ }.

Definition augmenting : CloudflareConfig := {|
  cf_enabled := true;
  cf_mode := CfVerifiedAugment;
  cf_official := default_OfficialPrefixConfig;
  cf_seeds := default_SeedConfig;
  cf_sampling := default_SamplingConfig;
  cf_augment := default_AugmentConfig;
  cf_probe_hosts := [lit "speed.cloudflare.com"];
  cf_allow_domains := [];
  cf_deny_domains := [];
  cf_candidate_pool_max := 8;
  cf_static_candidates := [edge 1; V4 (ipv4 10 0 0 1); V4 (ipv4 9 9 9 9)]
|}.

(** A world without a network at [secs]. *)
Definition offline (secs : Z) : World :=
  mk_World (from_secs secs) secs 1 (λ _, []) (λ _ _, mk_Attempt true true sample_exchange) None false.

Definition one_hot_name : HotSet :=
  mk_HotSet {[ web_key := mk_HotEntry f32_one 1 0 None ]} 0 ∅ 4 4 f32_one.

(** The prober's round at [secs] and the engine's work on what it queued. *)
Definition prober_minute (e : Engine) (secs : Z) : Engine :=
  let t := mk_Tasks (s_cloudflare (en_shared e)) (sampler_new 0 1 f64_one) (en_queue e) None in
  fold_left (λ e job,
      run_engine (λ b, b) (LOffer job :: take_one ++ repeat (LWork (pl_next (en_pool e)) (found secs)) 14) e)
    (prober_jobs augmenting (probe one_worker) (offline secs) one_hot_name t) e.

Definition minutes (n : nat) : list Z := map (λ k, 60 * Z.of_nat k) (seq 1 n).

(** An engine whose pool holds one address. *)
Definition one_address : Engine :=
  step (λ b, b) (engine_new one_worker 1 (store_new 16) (state_new 8 official) (queue_new 8 true))
    (LAdmit (edge 1) Seed 1 0 None).

(** The prober, the guard and the engine together.  When the cooldown of an address ends
    its probe as a candidate is queued before the validations of the same round, and the
    guard lets one of them through; the longer cooldown of the candidate's own host makes
    that the validation every other time.  After half an hour of rounds in which every
    probe succeeds the address has served six requests, three of them for the name. *)
Example validations_take_turns :
  let e := fold_left prober_minute (minutes 30) one_address in
  (cd_successes <$> family (cs_pool (s_cloudflare (en_shared e))) (edge 1) !! edge 1) = Some 6 ∧
  (dv_successes <$> validation (s_cloudflare (en_shared e)) (lit "www.example.com.") (edge 1)) = Some 3.
Proof. split; vm_compute; reflexivity. Qed.

Definition nothing_decoded (body : str) : result str ApiEnvelope := Err (lit "expected value").
Definition no_detail (e : ProbeError) : str := [].
Definition show_fetch (e : CloudflareError) : str := match e with CfFetch d => d | _ => [] end.

Definition tasks_at_start : Tasks := tasks_start 8 (sampler_new 0 1 f64_one) (queue_new 8 true) None.

(** The first turn of the updater without a network: the compiled-in prefixes stay in
    force and the one configured address that lies inside them is proposed. *)
Definition first_turn : Round := RoundUpdate augmenting augmenting (offline 0) None.

#[local] Abbreviation run_round := (round nothing_decoded no_detail show_fetch).

Example first_turn_proposes :
  waiting (tk_queue (run_round tasks_at_start first_turn)) = [JobCandidate (edge 1) 443 1] ∧
  (ss_ok <$> cs_sources (tk_cloudflare (run_round tasks_at_start first_turn)) !! api_source) = Some false.
Proof. split; vm_compute; reflexivity. Qed.


Lemma rounds_only_propose_witness :
  ∃ js, waiting (tk_queue (run_round tasks_at_start first_turn)) = [] ++ js ∧
    Forall (task_job (cs_prefixes (tk_cloudflare (run_round tasks_at_start first_turn))) (λ _ _, False)) js.
Proof.
  exact (proj2 (rounds_only_propose nothing_decoded no_detail show_fetch tasks_at_start
    first_turn (state_new_inv 8 builtin))).
Defined.

(** A turn of the updater works with the configuration it read before it waited, except for
    the switch: a new address of the API, a new token or a new list of static candidates
    is used one interval later than a reload announces. *)
Theorem updater_uses_the_old_configuration captured after w etag t :
  cf_enabled after = true ->
  updater_round nothing_decoded no_detail show_fetch captured after w etag t =
  updater_round nothing_decoded no_detail show_fetch captured captured w etag t.
Proof. intros E. unfold updater_round. rewrite E. by destruct (cf_enabled captured). Qed.

(** A sampling round admits against the snapshot it started with.  When the prefixes in
    force change before it is done, an address the new ones do not contain enters the
    pool, where only the next change of the prefixes looks at it again. *)
Definition narrowed : PrefixSnapshot :=
  snapshot_new [mk_Ipv4Net (ipv4 104 24 0 0) 14] [] None 0 SourceApi.

Theorem stale_snapshot_admits :
  let t := with_cf tasks_at_start (set_prefixes (tk_cloudflare tasks_at_start) narrowed) in
  let '(admission, t') := propose_candidate t (edge 1) Sampling (Some builtin) (offline 0) (Some 8) in
  admission = Added ∧ is_cloudflare (cs_prefixes (tk_cloudflare t')) (edge 1) = false ∧
  size (p_v4 (cs_pool (tk_cloudflare t'))) = 1%nat.
Proof. vm_compute. split_and!; reflexivity. Qed.
End witnesses.
