(* ===== verification/Addresses.v ===== *)
(** * Printed addresses read back

    The display form of every address of [std::net], the compressed form of IPv6 included,
    is parsed to the address it was printed from ([Text]). *)

From Stdlib Require Import Ascii String.
From S2P Require Import Prelude.
From S2P Require Import Names.
From S2P Require Import Net.
From S2P Require Import Text.

(** ** A group *)

Definition is_group (g : Z) : Prop := 0 <= g < 65536.

(** The digits of a group, most significant first. *)
Fixpoint hex_values (fuel : nat) (z : Z) : list Z :=
  match fuel with
  | O => []
  | S fuel' => (if z <? 16 then [] else hex_values fuel' (z / 16)) ++ [z mod 16]
  end.

Lemma hex_digit_value d :
  0 <= d < 16 -> to_digit 16 (chr (if d <? 10 then 48 + d else 87 + d)) = Some d.
Proof.
  intros Hd.
  assert (forallb (λ d, bool_decide (to_digit 16 (chr (if d <? 10 then 48 + d else 87 + d)) = Some d))
            (seqZ 0 16) = true) as H by (vm_compute; reflexivity).
  rewrite forallb_elem in H. specialize (H d). rewrite bool_decide_eq_true in H. apply H.
  by apply elem_of_seqZ.
Qed.

Lemma hex_digits_values fuel z :
  Forall2 (λ c d, to_digit 16 c = Some d) (hex_digits_of fuel z) (hex_values fuel z).
Proof.
  revert z. induction fuel as [|fuel IH]; intros z; cbn; [constructor|].
  apply Forall2_app; [destruct (z <? 16); [constructor|apply IH]|].
  constructor; [|constructor]. apply hex_digit_value. apply Z.mod_pos_bound. lia.
Qed.

Lemma hex_values_fold fuel z :
  0 <= z < 16 ^ Z.of_nat fuel -> fold_left (λ a d, a * 16 + d) (hex_values fuel z) 0 = z.
Proof.
  revert z. induction fuel as [|fuel IH]; intros z Hz; [cbn in *; lia|].
  cbn [hex_values]. rewrite fold_left_app. cbn [fold_left].
  destruct (Z.ltb_spec z 16) as [Hlt|Hge].
  - cbn. rewrite Z.mod_small; lia.
  - rewrite IH; [pose proof (Z.div_mod z 16 ltac:(lia)); lia|].
    rewrite Nat2Z.inj_succ, Z.pow_succ_r in Hz by lia.
    split; [apply Z.div_pos; lia|apply Z.div_lt_upper_bound; lia].
Qed.

Lemma hex_digits_length fuel z :
  fuel ≠ 0%nat -> (1 <= length (hex_digits_of fuel z) <= fuel)%nat.
Proof.
  destruct fuel as [|fuel]; [done|]. intros _. revert z. induction fuel as [|fuel IH]; intros z.
  - cbn. destruct (z <? 16); cbn; lia.
  - change (hex_digits_of (S (S fuel)) z) with
      ((if z <? 16 then [] else hex_digits_of (S fuel) (z / 16))
       ++ [chr (let d := z mod 16 in if d <? 10 then 48 + d else 87 + d)]).
    rewrite length_app. cbn [length]. specialize (IH (z / 16)). destruct (z <? 16); cbn [length]; lia.
Qed.

Definition not_hex (s : str) : Prop := ∀ c, head s = Some c -> to_digit 16 c = None.

Lemma read_group g rest :
  is_group g -> not_hex rest ->
  read_number 16 4 true 65535 (hex_digits_of 4 g ++ rest) = Some (g, rest).
Proof.
  intros Hg Hr. unfold read_number.
  rewrite (span_digits_app 16 (hex_digits_of 4 g) rest 0 0 (hex_values 4 g) (hex_digits_values 4 g) Hr).
  rewrite hex_values_fold by (cbn; unfold is_group in *; lia).
  pose proof (hex_digits_length 4 g ltac:(done)) as Hl. cbn [Nat.add].
  rewrite (proj2 (Nat.ltb_ge _ _)), (proj2 (Nat.eqb_neq _ _)) by lia. cbn [negb andb].
  by rewrite (proj2 (Z.leb_le _ _)) by (unfold is_group in *; lia).
Qed.

(** ** Not an IPv4 address *)

(** What follows the decimal digits of a group is not a dot. *)
Lemma span_no_dot h r acc n :
  (∀ c, c ∈ h -> c ≠ dot) -> head r ≠ Some dot -> (∀ c, head r = Some c -> to_digit 10 c = None) ->
  head (span_digits 10 acc n (h ++ r)).2 ≠ Some dot.
Proof.
  intros Hh Hr Hd. revert acc n. induction h as [|x h IH]; intros acc n; cbn.
  - destruct r as [|y r]; cbn in *; [done|]. by rewrite (Hd y).
  - destruct (to_digit 10 x) as [d|]; [apply IH; intros c Hc; apply Hh; by right|].
    cbn. intros [= ->]. by apply (Hh dot); [left|].
Qed.

Lemma no_ipv4 h r :
  (∀ c, c ∈ h -> c ≠ dot) -> head r ≠ Some dot -> (∀ c, head r = Some c -> to_digit 10 c = None) ->
  read_ipv4_addr (h ++ r) = None.
Proof.
  intros Hh Hr Hd. unfold read_ipv4_addr, read_octet, read_separator.
  change (0 <? 0)%nat with false. change (0 <? 1)%nat with true. cbv iota.
  unfold read_number at 1. pose proof (span_no_dot h r 0 0 Hh Hr Hd) as Hs.
  destruct (span_digits 10 0 0 (h ++ r)) as [[v k] rest]. cbn [snd] in Hs.
  assert (read_given_char dot rest = None) as Hg.
  { destruct rest as [|x rest]; [done|]. cbn. destruct (ascii_eqb x dot) eqn:E; [|done].
    apply ascii_eqb_eq in E as ->. by destruct Hs. }
  destruct (3 <? k)%nat; [done|]. destruct (k =? 0)%nat; [done|].
  destruct (_ && _); [done|]. destruct (v <=? 255); [|done]. by rewrite Hg.
Qed.

Lemma hex_digit_not_dot fuel z c : c ∈ hex_digits_of fuel z -> c ≠ dot.
Proof.
  intros Hc ->. destruct (proj1 (list_elem_of_lookup _ _) Hc) as [i Hi].
  destruct (Forall2_lookup_l _ _ _ _ _ (hex_digits_values fuel z) Hi) as (d & _ & Hd). by vm_compute in Hd.
Qed.

Lemma hex_not_decimal c : to_digit 16 c = None -> to_digit 10 c = None.
Proof.
  unfold to_digit. destruct (match _ with Some d => _ | None => _ end) eqn:E; [done|].
  intros _. revert E. repeat case_match; try done; intros _; simplify_eq;
    repeat match goal with H : (_ <? _) = _ |- _ => revert H end; intros;
    bool_to_prop; try done; lia.
Qed.

Lemma colon_no_ipv4 s : read_ipv4_addr (colon :: s) = None.
Proof. apply (no_ipv4 []); [set_solver|done|by intros c [= <-]]. Qed.

Lemma read_colon s : read_given_char colon (colon :: s) = Some (tt, s).
Proof. done. Qed.

(** ** Groups *)

(** Where groups end: at the end of the input or at a pair of colons. *)
Definition groups_end (s : str) : Prop := s = [] ∨ ∃ s', s = colon :: colon :: s'.

Lemma groups_end_not_hex s : groups_end s -> not_hex s.
Proof. intros [->|[s' ->]] c; cbn; [done|]. by intros [= <-]. Qed.

Lemma groups_end_stops left s i : groups_end s -> (0 < i)%nat -> read_groups left i s = ([], false, s).
Proof.
  intros Hs Hi. destruct left as [|left]; [done|]. cbn [read_groups]. unfold read_separator.
  rewrite (proj2 (Nat.ltb_lt _ _)) by done.
  destruct Hs as [->|[s' ->]].
  - cbn. by destruct left.
  - cbn [read_given_char]. change (ascii_eqb colon colon) with true. cbv iota.
    rewrite colon_no_ipv4.
    by destruct (1 <=? left)%nat.
Qed.

Definition tail_groups (gs : list Z) : str := concat (map (λ g, colon :: hex_digits_of 4 g) gs).

Lemma tail_groups_head gs s : groups_end s -> not_hex (tail_groups gs ++ s) ∧ head (tail_groups gs ++ s) ≠ Some dot.
Proof.
  intros Hs. destruct gs as [|g gs]; cbn.
  - split; [by apply groups_end_not_hex|]. by destruct Hs as [->|[? ->]].
  - split; [intros c [= <-]; done|done].
Qed.

(** The groups after the first. *)
Lemma read_tail_groups gs left i s :
  Forall is_group gs -> (length gs <= left)%nat -> (0 < i)%nat -> groups_end s ->
  read_groups left i (tail_groups gs ++ s) = (gs, false, s).
Proof.
  intros Hgs. revert left i. induction Hgs as [|g gs Hg Hgs IH]; intros left i Hl Hi Hs;
    [by apply groups_end_stops|].
  cbn [length] in Hl. destruct left as [|left]; [lia|].
  destruct (tail_groups_head gs s Hs) as [Hh Hdot].
  change (tail_groups (g :: gs)) with (colon :: hex_digits_of 4 g ++ tail_groups gs).
  cbn [read_groups]. unfold read_separator. rewrite (proj2 (Nat.ltb_lt _ _)) by done.
  cbn [app read_given_char]. change (ascii_eqb colon colon) with true. cbv iota.
  rewrite <- app_assoc, no_ipv4, read_group; [|done|done| |done|].
  - rewrite IH by (lia || done). by destruct (1 <=? left)%nat.
  - intros c Hc. by eapply hex_digit_not_dot.
  - intros c Hc. by apply hex_not_decimal, Hh.
Qed.

Lemma print_groups_cons g gs : print_groups (g :: gs) = hex_digits_of 4 g ++ tail_groups gs.
Proof. unfold print_groups, tail_groups. cbn [map]. by rewrite map_map. Qed.

Lemma read_print_groups gs left s :
  Forall is_group gs -> (length gs <= left)%nat -> groups_end s ->
  read_groups left 0 (print_groups gs ++ s) = (gs, false, s).
Proof.
  intros Hgs Hl Hs. destruct Hgs as [|g gs Hg Hgs].
  - cbn [print_groups map app]. destruct left as [|left]; [done|]. cbn [read_groups]. unfold read_separator.
    change (0 <? 0)%nat with false. cbv iota.
    assert (read_ipv4_addr s = None ∧ read_number 16 4 true 65535 s = None) as [-> ->].
    { destruct Hs as [->|[s' ->]]; [done|]. split; [apply colon_no_ipv4|done]. }
    by destruct (1 <=? left)%nat.
  - rewrite print_groups_cons, <- app_assoc. cbn [length] in Hl. destruct left as [|left]; [lia|].
    destruct (tail_groups_head gs s Hs) as [Hh Hdot].
    cbn [read_groups]. unfold read_separator. change (0 <? 0)%nat with false. cbv iota.
    rewrite no_ipv4, read_group, read_tail_groups by
      (lia || done || (intros c Hc; first [by eapply hex_digit_not_dot | by apply hex_not_decimal, Hh])).
    by destruct (1 <=? left)%nat.
Qed.

(** ** The whole address *)

Lemma groups_of_ok a : length (groups_of a) = 8%nat ∧ Forall is_group (groups_of a).
Proof.
  unfold groups_of. split; [by rewrite length_map, length_seq|].
  apply Forall_forall. intros g (i & -> & _)%list_elem_of_fmap. apply Z.mod_pos_bound. lia.
Qed.

Lemma ipv6_groups a : 0 <= a < 2 ^ 128 -> ipv6 (groups_of a) = a.
Proof.
  intros Ha.
  assert (∀ j k, 0 <= k -> j = k + 16 -> a / 2 ^ j * 65536 + a / 2 ^ k mod 65536 = a / 2 ^ k) as Hstep.
  { intros j k Hk ->. rewrite Z.pow_add_r, <- Z.div_div by lia. change (2 ^ 16) with 65536.
    rewrite (Z.div_mod (a / 2 ^ k) 65536) at 3 by lia. lia. }
  assert (0 * 65536 + a / 2 ^ 112 mod 65536 = a / 2 ^ 112) as H7.
  { apply Z.mod_small. split; [apply Z.div_pos; lia|]. apply Z.div_lt_upper_bound; lia. }
  unfold groups_of, ipv6. cbn [seq map fold_left].
  change (16 * (7 - Z.of_nat 0)) with 112. change (16 * (7 - Z.of_nat 1)) with 96.
  change (16 * (7 - Z.of_nat 2)) with 80. change (16 * (7 - Z.of_nat 3)) with 64.
  change (16 * (7 - Z.of_nat 4)) with 48. change (16 * (7 - Z.of_nat 5)) with 32.
  change (16 * (7 - Z.of_nat 6)) with 16. change (16 * (7 - Z.of_nat 7)) with 0.
  rewrite H7, !Hstep by lia. by rewrite Z.div_1_r.
Qed.

(** A run of zeros. *)
Definition zeros_at (gs : list Z) (run : nat * nat) : Prop :=
  ∀ j, (run.1 <= j < run.1 + run.2)%nat -> gs !! j = Some 0.

Definition runs_inv (gs : list Z) (i : nat) (st : (nat * nat) * (nat * nat)) : Prop :=
  zeros_at gs st.1 ∧ (st.1.1 + st.1.2 <= i)%nat ∧
  zeros_at gs st.2 ∧ (st.2.2 = 0%nat ∨ (st.2.1 + st.2.2)%nat = i).

Definition zeros_step : (nat * nat) * (nat * nat) -> nat * Z -> (nat * nat) * (nat * nat) :=
  λ '(longest, current) '(i, g),
  if g =? 0 then
    let current := (if (snd current =? 0)%nat then i else fst current, S (snd current)) in
    (if (snd longest <? snd current)%nat then current else longest, current)
  else (longest, (0, 0)%nat).

Lemma zeros_step_inv gs i g st :
  gs !! i = Some g -> runs_inv gs i st -> runs_inv gs (S i) (zeros_step st (i, g)).
Proof.
  destruct st as [[ls ll] [cs cl]]. intros Hg (Hl & Hle & Hc & He).
  unfold zeros_step, runs_inv in *. cbn [fst snd] in *.
  destruct (Z.eqb_spec g 0) as [->|].
  2:{ split_and!; [done|cbn; lia|intros j; cbn; lia|by left]. }
  assert (zeros_at gs (if (cl =? 0)%nat then i else cs, S cl) ∧
    ((if (cl =? 0)%nat then i else cs) + S cl)%nat = S i) as [Hz Hend].
  { destruct (Nat.eqb_spec cl 0) as [->|Hn]; (split; [|cbn in *; lia]); intros j Hj; cbn in Hj.
    - by replace j with i by lia.
    - destruct (decide (j = i)) as [->|]; [done|]. apply Hc. cbn. lia. }
  cbn [fst snd]. destruct (ll <? S cl)%nat; (split; [done|]; split; [cbn [fst snd]; lia|]; split; [done|by right]).
Qed.

Lemma zeros_fold_inv gs suffix i st :
  drop i gs = suffix -> runs_inv gs i st ->
  runs_inv gs (i + length suffix) (fold_left zeros_step (zip (seq i (length suffix)) suffix) st).
Proof.
  revert i st. induction suffix as [|g suffix IH]; intros i st Hs Hi; cbn.
  - by rewrite Nat.add_0_r.
  - rewrite Nat.add_succ_r, <- Nat.add_succ_l. apply IH.
    + rewrite <- Nat.add_1_r, <- drop_drop, Hs. done.
    + apply zeros_step_inv; [|done]. rewrite <- (Nat.add_0_r i), <- lookup_drop, Hs. done.
Qed.

(** The run that is left out. *)
Lemma longest_zeros_run gs start len :
  longest_zeros gs = (start, len) ->
  gs = take start gs ++ repeat 0 len ++ drop (start + len) gs ∧ (start + len <= length gs)%nat.
Proof.
  intros E. assert (runs_inv gs (length gs) (fold_left zeros_step (zip (seq 0 (length gs)) gs)
    ((0, 0)%nat, (0, 0)%nat))) as (Hz & Hle & _).
  { apply (zeros_fold_inv gs gs 0); [done|]. split_and!; [intros j; cbn; lia|cbn; lia|intros j; cbn; lia|by left]. }
  assert ((fold_left zeros_step (zip (seq 0 (length gs)) gs) ((0, 0)%nat, (0, 0)%nat)).1 = (start, len)) as Hf
    by (rewrite <- E; reflexivity).
  rewrite Hf in Hz, Hle. cbn in Hle. split; [|done].
  rewrite <- (take_drop start gs) at 1. f_equal.
  rewrite <- (take_drop len (drop start gs)) at 1. rewrite drop_drop. f_equal.
  replace (repeat 0 len) with (replicate len 0) by (clear; induction len; cbn; congruence).
  apply list_eq. intros j. destruct (decide (j < len)%nat) as [Hj|Hj].
  - rewrite lookup_take_lt, lookup_drop, (Hz (start + j)%nat) by (cbn; lia).
    symmetry. by apply lookup_replicate.
  - rewrite lookup_take_ge by lia. symmetry. apply lookup_ge_None_2. rewrite length_replicate. lia.
Qed.

Lemma ipv4_mapped_value a v4 :
  0 <= a < 2 ^ 128 -> to_ipv4_mapped a = Some v4 ->
  0 <= v4 < 2 ^ 32 ∧ a = ipv6 [0; 0; 0; 0; 0; 65535; v4 / 65536; v4 mod 65536].
Proof.
  intros Ha. unfold to_ipv4_mapped. destruct (Z.eqb_spec (Z.shiftr a 32) 65535) as [E|]; [|done].
  intros [= <-]. rewrite Z.shiftr_div_pow2 in E by lia.
  change (2 ^ 32 - 1) with (Z.ones 32). rewrite Z.land_ones by lia.
  pose proof (Z.mod_pos_bound a (2 ^ 32) ltac:(lia)) as Hb. split; [done|].
  pose proof (Z.div_mod a (2 ^ 32) ltac:(lia)) as Hd. rewrite E in Hd.
  set (v := a mod 2 ^ 32) in *. pose proof (Z.div_mod v 65536 ltac:(lia)).
  unfold ipv6. cbn [fold_left]. lia.
Qed.

Lemma read_ipv4_print a : 0 <= a < 2 ^ 32 -> read_ipv4_addr (print_ipv4 a) = Some (a, []).
Proof.
  intros Ha. pose proof (parse_print_ipv4 a Ha) as H. unfold parse_ipv4, whole in H.
  destruct (read_ipv4_addr (print_ipv4 a)) as [[b [|]]|]; by simplify_eq.
Qed.

Lemma read_mapped a v4 :
  0 <= a < 2 ^ 128 -> to_ipv4_mapped a = Some v4 ->
  read_ipv6_addr (lit "::ffff:" ++ print_ipv4 v4) = Some (a, []).
Proof.
  intros Ha Hm. destruct (ipv4_mapped_value a v4 Ha Hm) as [Hv ->].
  unfold read_ipv6_addr.
  change (lit "::ffff:" ++ print_ipv4 v4) with (print_groups [] ++ lit "::ffff:" ++ print_ipv4 v4).
  rewrite (read_print_groups [] 8 (lit "::ffff:" ++ print_ipv4 v4)); [|constructor|cbn; lia|by right; eexists].
  change ((length (@nil Z) =? 8)%nat) with false. cbv iota.
  set (mapped := hex_digits_of 4 65535 ++ colon :: print_ipv4 v4).
  change (lit "::ffff:" ++ print_ipv4 v4) with (colon :: colon :: mapped).
  rewrite !read_colon. cbv iota. change (8 - (length (@nil Z) + 1))%nat with 7%nat. cbn [read_groups].
  change (1 <=? 6)%nat with true. change (1 <=? 5)%nat with true. cbv iota.
  unfold read_separator. change (0 <? 0)%nat with false. change (0 <? 1)%nat with true. cbv iota.
  assert (read_ipv4_addr mapped = None) as ->
    by (apply no_ipv4; [intros c Hc; by eapply hex_digit_not_dot|done|by intros c [= <-]]).
  assert (read_number 16 4 true 65535 mapped = Some (65535, colon :: print_ipv4 v4)) as ->
    by (apply read_group; [done|by intros c [= <-]]).
  by rewrite read_colon, read_ipv4_print.
Qed.

Lemma read_print_ipv6 a : 0 <= a < 2 ^ 128 -> read_ipv6_addr (print_ipv6 a) = Some (a, []).
Proof.
  intros Ha. unfold print_ipv6. destruct (to_ipv4_mapped a) as [v4|] eqn:Em; [by apply read_mapped|].
  destruct (groups_of_ok a) as [Hl Hg]. pose proof (ipv6_groups a Ha) as Hv. cbn zeta.
  destruct (longest_zeros (groups_of a)) as [start len] eqn:El.
  destruct (longest_zeros_run _ _ _ El) as [Hrun Hle]. rewrite Hl in Hle.
  assert (groups_end []) as Hend by (by left).
  destruct (Nat.ltb_spec 1 len) as [Hlen|_]; unfold read_ipv6_addr.
  - set (front := take start (groups_of a)) in *. set (back := drop (start + len) (groups_of a)) in *.
    assert (length front = start) as Hf by (unfold front; rewrite length_take; lia).
    assert (length back = (8 - start - len)%nat) as Hb by (unfold back; rewrite length_drop; lia).
    rewrite read_print_groups; [|by apply Forall_take|lia|right; by eexists].
    rewrite Hf, (proj2 (Nat.eqb_neq _ _)) by lia.
    cbn [app]. rewrite !read_colon.
    rewrite <- (app_nil_r (print_groups back)), read_print_groups; [|by apply Forall_drop|lia|done].
    rewrite Hb. replace (8 - start - (8 - start - len))%nat with len by lia.
    by rewrite <- Hrun, Hv.
  - rewrite <- (app_nil_r (print_groups _)), read_print_groups; [|done|lia|done].
    rewrite Hl. cbn [Nat.eqb]. by rewrite Hv.
Qed.

Lemma print_groups_no_ipv4 gs s :
  Forall is_group gs -> groups_end s -> print_groups gs ++ s ≠ [] -> read_ipv4_addr (print_groups gs ++ s) = None.
Proof.
  intros Hgs Hs Hne. destruct Hgs as [|g gs Hg Hgs].
  - destruct Hs as [->|[s' ->]]; [done|]. apply colon_no_ipv4.
  - rewrite print_groups_cons, <- app_assoc. destruct (tail_groups_head gs s Hs) as [Hh Hdot].
    apply no_ipv4; [intros c Hc; by eapply hex_digit_not_dot|done|].
    intros c Hc. by apply hex_not_decimal, Hh.
Qed.

Lemma print_ipv6_no_ipv4 a : read_ipv4_addr (print_ipv6 a) = None.
Proof.
  unfold print_ipv6. destruct (to_ipv4_mapped a); [apply colon_no_ipv4|]. cbn zeta.
  destruct (groups_of_ok a) as [Hl Hg].
  destruct (longest_zeros (groups_of a)) as [start len]. destruct (1 <? len)%nat.
  - apply print_groups_no_ipv4; [by apply Forall_take|by right; eexists|].
    by destruct (print_groups (take start (groups_of a))).
  - rewrite <- (app_nil_r (print_groups _)). apply print_groups_no_ipv4; [done|by left|].
    destruct (groups_of a) as [|g gs]; [done|]. rewrite app_nil_r, print_groups_cons.
    pose proof (hex_digits_length 4 g ltac:(done)). by destruct (hex_digits_of 4 g); cbn in *; [lia|].
Qed.

(** An address of its family. *)
Definition addr_ok (a : IpAddr) : Prop :=
  match a with V4 a => 0 <= a < 2 ^ 32 | V6 a => 0 <= a < 2 ^ 128 end.

(** What is printed for an address is read back as that address: every IPv4 address, every
    IPv6 address with its longest run of zero groups left out, and IPv4-mapped ones in
    their mixed form. *)
Theorem parse_print_ip a : addr_ok a -> parse_ip (print_ip a) = Some a.
Proof.
  destruct a as [a|a]; cbn [print_ip addr_ok]; intros Ha.
  - by apply parse_ip_ipv4, parse_print_ipv4.
  - unfold parse_ip. by rewrite print_ipv6_no_ipv4, read_print_ipv6.
Qed.
