(* ===== verification/Storage.v ===== *)
(** * Persistent state

    [src/storage/mod.rs] and [src/storage/schema.rs]: the rows, the statements as
    operations on tables, the bounded queue in front of the writing thread, and the
    opening of the database with its migration and quarantine; the flush of
    [src/tasks/maintenance.rs] and the restore of [src/runtime/mod.rs].  SQLite is a
    parameter where SQL leaves an order open, and which of its calls fail is an input. *)

From Stdlib Require Import Ascii String Floats.SpecFloat.
From S2P Require Import Prelude.
From S2P Require Import Hashing.
From S2P Require Import Floats.
From S2P Require Import Names.
From S2P Require Import Net.
From S2P Require Import Text.
From S2P Require Import Addresses.
From S2P Require Import Config.
From S2P Require Import Dns.
From S2P Require Import Quality.
From S2P Require Import Evidence.
From S2P Require Import Health.
From S2P Require Import Cache.
From S2P Require Import HotSet.
From S2P Require Import Prefixes.
From S2P Require Import Candidates.

(** ** SQLite

    [ORDER BY] sorts and leaves the order of equal rows open; a [SELECT] without it may
    return the rows in any order. *)
Class Sqlite : Type := {
  sql_order : ∀ {A}, (A -> A -> bool) -> list A -> list A
}.

Class SqliteLaws {SQ : Sqlite} : Prop := {
  sql_order_perm A (leb : A -> A -> bool) l : sql_order leb l ≡ₚ l;
  sql_order_sorted A (leb : A -> A -> bool) l :
    (∀ x y, leb x y = true ∨ leb y x = true) -> (∀ x y z, leb x y = true -> leb y z = true -> leb x z = true) ->
    StronglySorted (λ x y, leb x y = true) (sql_order leb l)
}.

(** An [INTEGER] is signed: [x as i64] and back. *)
Definition as_i64 (z : Z) : Z := if z <? 2 ^ 63 then z else z - 2 ^ 64.
Definition i64_as_u64 (z : Z) : Z := z mod 2 ^ 64.

(** [LIMIT n]: none when negative. *)
Definition sql_limit {A} (n : Z) (l : list A) : list A := if n <? 0 then l else take (Z.to_nat n) l.

(** ** Rows *)

Record QualityRow : Type := mk_QualityRow {
  qr_addr : str;
  qr_profile : str;
  qr_port : Z;
  qr_quality : PersistedQuality;
  qr_updated_unix : Z
}.

Record CandidateRow : Type := mk_CandidateRow {
  cr_addr : str;
  cr_origin : str;
  cr_stage : str;
  cr_last_seen_unix : Z;
  cr_generation : Z
}.

Record HotRow : Type := mk_HotRow {
  hr_name : str;
  hr_qtype : Z;
  hr_score : f64;
  hr_last_seen_unix : Z
}.

Record UpstreamRow : Type := mk_UpstreamRow {
  ur_route : str;
  ur_ewma_ms : f64;
  ur_p95_ms : f64;
  ur_success_probability : f64;
  ur_samples : Z;
  ur_updated_unix : Z
}.

Record RowLimits : Type := mk_RowLimits {
  rl_quality : Z;
  rl_candidates : Z;
  rl_hot : Z
}.

Inductive WriteBatch : Type :=
| WbQuality (rows : list QualityRow)
| WbCandidates (rows : list CandidateRow)
| WbHot (rows : list HotRow)
| WbUpstream (rows : list UpstreamRow)
| WbGeneration (generation fingerprint published_unix : Z)
| WbPrune (max_age_secs : Z) (limits : RowLimits).

(** ** The database

    A table is a map from its primary key to its other columns. *)

Record QualityColumns : Type := mk_QualityColumns { qc_quality : PersistedQuality; qc_updated : Z }.
Record CandidateColumns : Type := mk_CandidateColumns {
  cc_origin : str; cc_stage : str; cc_last_seen : Z; cc_generation : Z }.
Record HotColumns : Type := mk_HotColumns { hc_score : f64; hc_last_seen : Z }.
Record UpstreamColumns : Type := mk_UpstreamColumns {
  uc_ewma_ms : f64; uc_p95_ms : f64; uc_success : f64; uc_samples : Z; uc_updated : Z }.

Record Database : Type := mk_Database {
  ip_quality : gmap (list ascii * list ascii * Z) QualityColumns;
  cf_candidates : gmap (list ascii) CandidateColumns;
  hot_domains : gmap (list ascii * Z) HotColumns;
  upstream_stats : gmap (list ascii) UpstreamColumns;
  network_generation : option (Z * Z * Z);
  schema_row : option Z
}.

Definition empty_database : Database := mk_Database ∅ ∅ ∅ ∅ None None.

Definition with_quality_table (d : Database) m : Database :=
  mk_Database m (cf_candidates d) (hot_domains d) (upstream_stats d) (network_generation d) (schema_row d).
Definition with_candidate_table (d : Database) m : Database :=
  mk_Database (ip_quality d) m (hot_domains d) (upstream_stats d) (network_generation d) (schema_row d).
Definition with_hot_table (d : Database) m : Database :=
  mk_Database (ip_quality d) (cf_candidates d) m (upstream_stats d) (network_generation d) (schema_row d).
Definition with_upstream_table (d : Database) m : Database :=
  mk_Database (ip_quality d) (cf_candidates d) (hot_domains d) m (network_generation d) (schema_row d).

(** ** Migration *)

Definition CURRENT_SCHEMA_VERSION : Z := 1.

Inductive StorageError : Type :=
| SeSqlite
| SeIo
| SeSchemaTooNew (found supported : Z)
| SeQuarantined
| SeWorkerStopped.

(** The tables are created when they do not exist. *)
Definition migrate (d : Database) : result StorageError Database :=
  let current := default 0 (schema_row d) in
  if CURRENT_SCHEMA_VERSION <? current then Err (SeSchemaTooNew current CURRENT_SCHEMA_VERSION)
  else Ok (mk_Database (ip_quality d) (cf_candidates d) (hot_domains d) (upstream_stats d)
             (network_generation d) (Some CURRENT_SCHEMA_VERSION)).

Definition schema_version (d : Database) : Z := default 0 (schema_row d).

(** ** Writing

    A [REAL NOT NULL] column takes any double but NaN, which SQLite stores as null; a
    statement that fails undoes its transaction. *)

Definition storable (l : list f64) : bool := forallb (λ x, negb (f64_is_nan x)) l.

Definition quality_key (r : QualityRow) : list ascii * list ascii * Z := (qr_addr r, qr_profile r, qr_port r).

Definition quality_reals (r : QualityRow) : list f64 :=
  let q := qr_quality r in [pq_alpha q; pq_beta q; pq_ewma_ms q; pq_p95_ms q; pq_jitter_ms q].

Definition quality_columns (r : QualityRow) : QualityColumns :=
  let q := qr_quality r in
  mk_QualityColumns
    (mk_PersistedQuality (pq_alpha q) (pq_beta q) (pq_ewma_ms q) (pq_p95_ms q) (pq_jitter_ms q)
       (pq_samples q) (pq_successes q) (as_i64 (pq_generation q)))
    (as_i64 (qr_updated_unix r)).

(** Whether SQLite carries out the statements of a batch, counted from 0: the disk may be
    full, the file locked, or an operation on it may fail. *)
Definition SqliteIo : Type := nat -> bool.

(** The rows of a batch, and the commit. *)
Fixpoint upsert_rows {R K C} `{Countable K} (key : R -> K) (columns : R -> C) (reals : R -> list f64)
    (io : SqliteIo) (k : nat) (rows : list R) (m : gmap K C) : option (gmap K C) :=
  match rows with
  | [] => if io k then Some m else None
  | r :: rows =>
      if io k && storable (reals r) then upsert_rows key columns reals io (S k) rows (<[key r := columns r]> m)
      else None
  end.

(** [INSERT .. ON CONFLICT DO UPDATE] for every row, in one transaction; the first statement
    begins it and prepares the other. *)
Definition upsert_all {R K C} `{Countable K} (key : R -> K) (columns : R -> C) (reals : R -> list f64)
    (io : SqliteIo) (rows : list R) (m : gmap K C) : option (gmap K C) :=
  if io 0%nat then upsert_rows key columns reals io 1 rows m else None.

Definition committed {M} (d : Database) (f : M -> Database) (m : option M) : bool * Database :=
  match m with Some m => (true, f m) | None => (false, d) end.

Section sqlite.
Context {SQ : Sqlite}.
Implicit Types (d : Database).

(** [DELETE .. WHERE rowid NOT IN (SELECT rowid .. ORDER BY .. DESC LIMIT n)]. *)
Definition keep_first {K C} `{Countable K} (leb : C -> C -> bool) (limit : Z) (m : gmap K C) : gmap K C :=
  list_to_map (sql_limit (as_i64 limit) (sql_order (λ a b, leb b.2 a.2) (map_to_list m))).

Definition not_older {K C} `{Countable K} (updated : C -> Z) (cutoff : Z) (m : gmap K C) : gmap K C :=
  filter (λ e, cutoff <= updated e.2) m.

Definition newest {C} (updated : C -> Z) (a b : C) : bool := updated a <=? updated b.
Definition hottest (a b : HotColumns) : bool := f64_leb (hc_score a) (hc_score b).

Definition i64_max : Z := 2 ^ 63 - 1.

(** The statements of [prune]; each is its own transaction. *)
Definition prune_statements (max_age_secs : Z) (limits : RowLimits) (now : Z) : list (Database -> Database) :=
  let cutoff := now - Z.min max_age_secs i64_max in
  [λ d, with_quality_table d (not_older qc_updated cutoff (ip_quality d));
   λ d, with_candidate_table d (not_older cc_last_seen cutoff (cf_candidates d));
   λ d, with_hot_table d (not_older hc_last_seen cutoff (hot_domains d));
   λ d, with_quality_table d (keep_first (newest qc_updated) (rl_quality limits) (ip_quality d));
   λ d, with_candidate_table d (keep_first (newest cc_last_seen) (rl_candidates limits) (cf_candidates d));
   λ d, with_hot_table d (keep_first hottest (rl_hot limits) (hot_domains d))].

(** The first that fails ends them; those before it stay in effect. *)
Fixpoint run_statements (io : SqliteIo) (k : nat) (statements : list (Database -> Database)) d : bool * Database :=
  match statements with
  | [] => (true, d)
  | f :: statements => if io k then run_statements io (S k) statements (f d) else (false, d)
  end.

Definition prune d (max_age_secs : Z) (limits : RowLimits) (now : Z) (io : SqliteIo) : bool * Database :=
  run_statements io 0 (prune_statements max_age_secs limits now) d.

(** [now] is the clock of the writing thread; the result is whether there was no error. *)
Definition apply d (batch : WriteBatch) (now : Z) (io : SqliteIo) : bool * Database :=
  match batch with
  | WbQuality rows =>
      committed d (with_quality_table d) (upsert_all quality_key quality_columns quality_reals io rows (ip_quality d))
  | WbCandidates rows =>
      committed d (with_candidate_table d)
        (upsert_all cr_addr (λ r, mk_CandidateColumns (cr_origin r) (cr_stage r)
                                    (as_i64 (cr_last_seen_unix r)) (as_i64 (cr_generation r)))
           (λ _, []) io rows (cf_candidates d))
  | WbHot rows =>
      committed d (with_hot_table d)
        (upsert_all (λ r, (hr_name r, hr_qtype r))
           (λ r, mk_HotColumns (hr_score r) (as_i64 (hr_last_seen_unix r))) (λ r, [hr_score r]) io rows
           (hot_domains d))
  | WbUpstream rows =>
      committed d (with_upstream_table d)
        (upsert_all ur_route (λ r, mk_UpstreamColumns (ur_ewma_ms r) (ur_p95_ms r) (ur_success_probability r)
                                     (as_i64 (ur_samples r)) (as_i64 (ur_updated_unix r)))
           (λ r, [ur_ewma_ms r; ur_p95_ms r; ur_success_probability r]) io rows (upstream_stats d))
  | WbGeneration generation fingerprint published =>
      if io 0%nat
      then (true, mk_Database (ip_quality d) (cf_candidates d) (hot_domains d) (upstream_stats d)
                    (Some (as_i64 generation, as_i64 fingerprint, as_i64 published)) (schema_row d))
      else (false, d)
  | WbPrune max_age_secs limits => prune d max_age_secs limits now io
  end.

(** ** Reading *)

Definition quality_row (e : (list ascii * list ascii * Z) * QualityColumns) : QualityRow :=
  let '(addr, profile, port, c) := e in
  let q := qc_quality c in
  mk_QualityRow addr profile port
    (mk_PersistedQuality (pq_alpha q) (pq_beta q) (pq_ewma_ms q) (pq_p95_ms q) (pq_jitter_ms q)
       (pq_samples q) (pq_successes q) (i64_as_u64 (pq_generation q)))
    (i64_as_u64 (qc_updated c)).

Definition load_quality d (limit : Z) : list QualityRow :=
  map quality_row
    (sql_limit (as_i64 limit) (sql_order (λ a b, newest qc_updated b.2 a.2) (map_to_list (ip_quality d)))).

Definition candidate_row (e : list ascii * CandidateColumns) : CandidateRow :=
  mk_CandidateRow e.1 (cc_origin e.2) (cc_stage e.2) (i64_as_u64 (cc_last_seen e.2))
    (i64_as_u64 (cc_generation e.2)).

Definition load_candidates d (limit : Z) : list CandidateRow :=
  map candidate_row
    (sql_limit (as_i64 limit) (sql_order (λ a b, newest cc_last_seen b.2 a.2) (map_to_list (cf_candidates d)))).

Definition hot_row (e : (list ascii * Z) * HotColumns) : HotRow :=
  mk_HotRow e.1.1 e.1.2 (hc_score e.2) (i64_as_u64 (hc_last_seen e.2)).

Definition load_hot d (limit : Z) : list HotRow :=
  map hot_row (sql_limit (as_i64 limit) (sql_order (λ a b, hottest b.2 a.2) (map_to_list (hot_domains d)))).

Definition load_upstream d : list UpstreamRow :=
  map (λ e : list ascii * UpstreamColumns,
         mk_UpstreamRow e.1 (uc_ewma_ms e.2) (uc_p95_ms e.2) (uc_success e.2) (i64_as_u64 (uc_samples e.2))
           (i64_as_u64 (uc_updated e.2)))
    (sql_order (λ _ _, true) (map_to_list (upstream_stats d))).

Definition load_generation d : option (Z * Z) :=
  match network_generation d with
  | Some (generation, fingerprint, _) => Some (i64_as_u64 generation, i64_as_u64 fingerprint)
  | None => None
  end.
End sqlite.

(** ** The handle *)

(** The database file: there is none, it is damaged, it cannot be opened or read for now, or
    it is sound. *)
Inductive DbFile : Type :=
| NoFile
| DamagedFile
| BusyFile (d : Database)
| SoundFile (d : Database).

(** The queue in front of the writing thread, when there is one: its capacity and the
    batches in it; and the database the thread has open. *)
Record Storage : Type := mk_Storage {
  sg_channel : option (nat * list WriteBatch);
  sg_healthy : bool;
  sg_dropped : Z;
  sg_quarantined : option DbFile;
  sg_db : Database
}.

Definition disabled : Storage := mk_Storage None false 0 None empty_database.

Definition open_and_migrate (f : DbFile) : result StorageError Database :=
  match f with
  | NoFile => migrate empty_database
  | DamagedFile => Err SeQuarantined
  | BusyFile _ => Err SeSqlite
  | SoundFile d => migrate d
  end.

(** What the file system and the system allow: the directory, the renaming, the thread. *)
Record OpenWorld : Type := mk_OpenWorld {
  ow_directory : bool;
  ow_rename : bool;
  ow_thread : bool
}.

(** A file that is moved aside leaves none. *)
Definition try_open (cfg : StorageConfig) (file : DbFile) (w : OpenWorld) : result StorageError Storage :=
  if negb (ow_directory w) then Err SeIo
  else
    match (match open_and_migrate file with
           | Ok d => Ok (None, d)
           | Err _ =>
               if negb (ow_rename w) then Err SeIo
               else match open_and_migrate NoFile with Ok d => Ok (Some file, d) | Err e => Err e end
           end) with
    | Err e => Err e
    | Ok (quarantined, d) =>
        if negb (ow_thread w) then Err SeIo
        else Ok (mk_Storage (Some (Z.to_nat (storage_queue_size cfg), [])) true 0 quarantined d)
    end.

Definition open (cfg : StorageConfig) (file : DbFile) (w : OpenWorld) : Storage :=
  if negb (storage_enabled cfg) then disabled
  else match try_open cfg file w with Ok s => s | Err _ => disabled end.

Definition enqueue (s : Storage) (batch : WriteBatch) : Storage :=
  match sg_channel s with
  | None => s
  | Some (capacity, queue) =>
      if (length queue <? capacity)%nat
      then mk_Storage (Some (capacity, queue ++ [batch])) (sg_healthy s) (sg_dropped s) (sg_quarantined s) (sg_db s)
      else mk_Storage (sg_channel s) (sg_healthy s) (as_u64 (sg_dropped s + 1)) (sg_quarantined s) (sg_db s)
  end.

Definition storage_queue (s : Storage) : list WriteBatch :=
  match sg_channel s with Some (_, queue) => queue | None => [] end.

Definition queue_depth (s : Storage) : nat := length (storage_queue s).

Section handle.
Context {SQ : Sqlite}.

(** One turn of [worker]; an error is logged and not counted as a dropped batch. *)
Definition work_one (s : Storage) (now : Z) (io : SqliteIo) : Storage :=
  match sg_channel s with
  | Some (capacity, batch :: queue) =>
      mk_Storage (Some (capacity, queue)) (sg_healthy s) (sg_dropped s) (sg_quarantined s)
        (apply (sg_db s) batch now io).2
  | _ => s
  end.

(** [with_reader]: a second connection sees what has been written. *)
Definition read_quality (s : Storage) (limit : Z) : list QualityRow :=
  match sg_channel s with Some _ => load_quality (sg_db s) limit | None => [] end.

(** [restore_persisted_state]. *)
Definition restored_entries (rows : list QualityRow) : list (ProbeKey * PersistedQuality) :=
  omap (λ r, match parse_ip (qr_addr r) with
             | Some addr => Some (mk_ProbeKey addr (qr_port r) (qr_profile r), qr_quality r)
             | None => None
             end) rows.

Definition restore_persisted_state (s : Storage) (quality_max_entries : Z) (store : QualityStore) : QualityStore :=
  if negb (sg_healthy s) then store
  else store_import store (restored_entries (read_quality s quality_max_entries)).
End handle.

(** ** The flush *)

Definition origin_label (o : CandidateOrigin) : str :=
  match o with
  | DnsAnswer => lit "dns_answer" | Seed => lit "seed" | Sampling => lit "sampling"
  | FromConfig => lit "config" | Persisted => lit "persisted"
  end.

Definition stage_label (s : CandidateStage) : str :=
  match s with
  | StageNew => lit "new" | TcpOk => lit "tcp_ok" | TlsOk => lit "tls_ok" | HttpOk => lit "http_ok"
  end.

Section flush.
Context {FL : FloatLib} {HK : HashOrder ProbeKey} {HA : HashOrder IpAddr} {HC : HashOrder CacheKey}.
Context (type_code : RecordType -> Z).

Definition quality_rows (store : QualityStore) (limit : Z) (now_unix : Z) : list QualityRow :=
  map (λ e : ProbeKey * PersistedQuality,
         mk_QualityRow (print_ip (pk_addr e.1)) (pk_profile e.1) (pk_port e.1) e.2 now_unix)
    (take (Z.to_nat limit) (store_export store)).

Definition pool_list (p : CandidatePool) (ipv4 : bool) : list Candidate :=
  map snd (hash_iter (if ipv4 then p_v4 p else p_v6 p)).

Definition candidate_rows (p : CandidatePool) (limit : Z) (now_unix : Z) : list CandidateRow :=
  take (Z.to_nat limit)
    (map (λ c, mk_CandidateRow (print_ip (cd_addr c)) (origin_label (cd_origin c)) (stage_label (cd_stage c))
                 now_unix (cd_generation c))
       (pool_list p true ++ pool_list p false)).

Definition hot_rows (hot : HotSet) (limit : Z) (now_unix : Z) : list HotRow :=
  map (λ e : CacheKey * HotEntry,
         mk_HotRow (key_name e.1) (type_code (key_qtype e.1)) (f64_from_f32 (he_score e.2)) now_unix)
    (top hot (Z.to_nat limit)).

Definition upstream_rows (routes : list (str * RouteHealth)) (now_unix : Z) : list UpstreamRow :=
  map (λ e, mk_UpstreamRow e.1 (h_ewma_ms e.2) (Health.p95_ms e.2) (Health.success_probability e.2)
              (h_samples e.2) now_unix) routes.

Definition non_empty {A} (rows : list A) (batch : list A -> WriteBatch) : list WriteBatch :=
  match rows with [] => [] | _ => [batch rows] end.

(** What one round of [run_persistence] queues; [rounds] counts the rounds with this one. *)
Definition flush_batches (cfg : StorageConfig) (rounds : Z) (now_unix : Z) (store : QualityStore)
    (pool : CandidatePool) (hot : HotSet) (routes : list (str * RouteHealth))
    (generation fingerprint published : Z) : list WriteBatch :=
  non_empty (quality_rows store (max_quality_rows cfg) now_unix) WbQuality
  ++ non_empty (candidate_rows pool (max_candidate_rows cfg) now_unix) WbCandidates
  ++ non_empty (hot_rows hot (max_hot_rows cfg) now_unix) WbHot
  ++ non_empty (upstream_rows routes now_unix) WbUpstream
  ++ [WbGeneration generation fingerprint published]
  ++ (if rounds mod 20 =? 0
      then [WbPrune (as_secs (row_max_age cfg))
              (mk_RowLimits (max_quality_rows cfg) (max_candidate_rows cfg) (max_hot_rows cfg))]
      else []).

Definition flush_round (cfg : StorageConfig) (batches : list WriteBatch) (s : Storage) : Storage :=
  if storage_enabled cfg then fold_left enqueue batches s else s.
End flush.

(** ** The queue *)

Section queue.
Context {SQ : Sqlite}.

(** The threads that queue and the one that writes, interleaved. *)
Inductive StorageStep : Type :=
| SsEnqueue (batch : WriteBatch)
| SsWork (now : Z) (io : SqliteIo).

Definition storage_step (s : Storage) (l : StorageStep) : Storage :=
  match l with SsEnqueue b => enqueue s b | SsWork now io => work_one s now io end.

Definition storage_run (s : Storage) (ls : list StorageStep) : Storage := fold_left storage_step ls s.

Definition offered_batches (ls : list StorageStep) : list WriteBatch :=
  omap (λ l, match l with SsEnqueue b => Some b | SsWork _ _ => None end) ls.

(** What the writing thread makes of the batches it takes, each with its clock and its luck. *)
Definition apply_all (d : Database) (bs : list (WriteBatch * (Z * SqliteIo))) : Database :=
  fold_left (λ d b, (apply d b.1 b.2.1 b.2.2).2) bs d.

Definition is_prune (b : WriteBatch) : bool := match b with WbPrune _ _ => true | _ => false end.

(** What has been taken and what waits is, in order, what was accepted of what was
    offered; the rest is counted. *)
Definition queue_inv (d0 : Database) (capacity : nat) (offered : list WriteBatch) (s : Storage) : Prop :=
  ∃ taken queue, sg_channel s = Some (capacity, queue) ∧ sg_db s = apply_all d0 taken ∧
    sublist (taken.*1 ++ queue) offered ∧ (length queue <= capacity)%nat ∧
    sg_dropped s = as_u64 (Z.of_nat (length offered - (length taken + length queue))).

Lemma storage_step_inv d0 capacity offered s l :
  queue_inv d0 capacity offered s ->
  queue_inv d0 capacity (offered ++ offered_batches [l]) (storage_step s l).
Proof.
  intros (taken & queue & Hc & Hd & Hs & Hq & Hn).
  pose proof (sublist_length _ _ Hs) as Hl. rewrite length_app, length_fmap in Hl.
  destruct l as [b|now io]; cbn [storage_step offered_batches omap list_omap].
  - unfold enqueue. rewrite Hc. destruct (Nat.ltb_spec (length queue) capacity) as [Hlt|Hge].
    + exists taken, (queue ++ [b]). cbn. rewrite !length_app, app_assoc. cbn [length].
      split_and!; [done|done|by apply sublist_app|lia|]. rewrite Hn. f_equal. lia.
    + exists taken, queue. cbn. rewrite length_app. cbn [length].
      split_and!; [done|done|by apply sublist_inserts_r|done|].
      rewrite Hn. unfold as_u64. rewrite Zplus_mod_idemp_l. f_equal. lia.
  - rewrite app_nil_r. unfold work_one. rewrite Hc. destruct queue as [|b queue].
    { by exists taken, []. }
    exists (taken ++ [(b, (now, io))]), queue. cbn in Hq |- *.
    rewrite fmap_app, <- app_assoc, length_app. cbn [length].
    split_and!; [done| |done|lia|rewrite Hn; cbn [length]; f_equal; lia].
    unfold apply_all. rewrite fold_left_app, Hd. done.
Qed.

(** A batch is one transaction, but for a prune. *)
Lemma failed_batch_undone d b now io :
  is_prune b = false -> (apply d b now io).1 = false -> (apply d b now io).2 = d.
Proof. destruct b; cbn; try done; intros _; unfold committed; repeat case_match; done. Qed.

(** C38. Queueing never waits, and the writing thread keeps the order.  However the threads
    interleave, and whichever statements SQLite fails to carry out, the database is the
    result of what the thread made, one after the other, of some of the batches that were
    offered, in the order they were offered; at most the configured number wait; and the
    batches it has not been given are exactly those counted as dropped.  A batch it was
    given and could not write is not among these, and leaves the database as it was unless
    it is a prune, of which the statements before the failed one remain. *)
Theorem batches_are_applied_in_order s capacity ls
    (Hnew : sg_channel s = Some (capacity, [])) (Hzero : sg_dropped s = 0) :
  queue_inv (sg_db s) capacity (offered_batches ls) (storage_run s ls) ∧
  ∀ d b now io, (apply d b now io).1 = false ->
    (apply d b now io).2 = d ∨
    ∃ age limits k, b = WbPrune age limits ∧
      (apply d b now io).2 = fold_left (λ d f, f d) (take k (prune_statements age limits now)) d.
Proof.
  split.
  - assert (∀ offered s', queue_inv (sg_db s) capacity offered s' ->
      queue_inv (sg_db s) capacity (offered ++ offered_batches ls) (storage_run s' ls)) as Hgen.
    { clear Hnew Hzero. induction ls as [|l ls IH]; intros offered s' Hi.
      - by rewrite app_nil_r.
      - cbn [storage_run fold_left]. apply storage_step_inv with (l := l) in Hi. apply IH in Hi.
        rewrite <- app_assoc in Hi. by destruct l. }
    apply (Hgen []). exists [], []. split_and!; try done. cbn. lia.
  - intros d b now io Hf. destruct (is_prune b) eqn:Hp; [|left; by apply failed_batch_undone].
    right. destruct b as [| | | | |age limits]; try done. clear Hf. exists age, limits. cbn [apply]. unfold prune.
    generalize (prune_statements age limits now), 0%nat. intros fs k. revert d k.
    induction fs as [|f fs IH]; intros d k; cbn [run_statements]; [by exists 0%nat|].
    destruct (io k); [|by exists 0%nat]. destruct (IH (f d) (S k)) as (n & Hd & ->). by exists (S n).
Qed.
End queue.

(** ** Pruning *)

Section pruning.
Context {SQ : Sqlite} {SL : SqliteLaws}.

(** What [keep_first] may keep: at most [limit] rows, and none while a greater one goes. *)
Definition kept_newest {K C} `{Countable K} (updated : C -> Z) (limit : nat) (m m' : gmap K C) : Prop :=
  m' ⊆ m ∧ (size m' <= limit)%nat ∧ ((size m <= limit)%nat -> m' = m) ∧
  ∀ k c k' c', m !! k = Some c -> m' !! k = None -> m' !! k' = Some c' -> updated c <= updated c'.

Lemma sql_limit_take {A} limit (l : list A) :
  0 <= limit < 2 ^ 63 -> sql_limit (as_i64 limit) l = take (Z.to_nat limit) l.
Proof.
  intros H. unfold as_i64. rewrite (proj2 (Z.ltb_lt _ _)) by lia. unfold sql_limit.
  by rewrite (proj2 (Z.ltb_ge _ _)) by lia.
Qed.

Lemma take_NoDup_keys {K C} `{Countable K} n (m : gmap K C) (l : list (K * C)) :
  l ≡ₚ map_to_list m -> NoDup (take n l).*1.
Proof.
  intros Hl. rewrite fmap_take. eapply sublist_NoDup; [|apply sublist_take].
  rewrite Hl. apply NoDup_fst_map_to_list.
Qed.

Lemma keep_first_newest {K C} `{Countable K} (updated : C -> Z) (limit : Z) (m : gmap K C) :
  0 <= limit < 2 ^ 63 ->
  kept_newest updated (Z.to_nat limit) m (keep_first (newest updated) limit m).
Proof.
  intros Hlim. unfold keep_first. rewrite sql_limit_take by done.
  set (leb := λ a b : K * C, newest updated b.2 a.2). set (l := sql_order leb (map_to_list m)).
  assert (l ≡ₚ map_to_list m) as Hp by apply sql_order_perm.
  assert (StronglySorted (λ x y, leb x y = true) l) as Hs.
  { apply sql_order_sorted; unfold leb, newest; intros *; rewrite !Z.leb_le; lia. }
  assert (∀ k c, (list_to_map (take (Z.to_nat limit) l) : gmap K C) !! k = Some c <->
    (k, c) ∈ take (Z.to_nat limit) l) as Hin.
  { intros k c. symmetry. apply elem_of_list_to_map. by eapply take_NoDup_keys. }
  assert (∀ k c, (k, c) ∈ l <-> m !! k = Some c) as Hm by (intros; by rewrite Hp, elem_of_map_to_list).
  split_and!.
  - apply map_subseteq_spec. intros k c Hk%Hin. apply Hm.
    apply elem_of_take in Hk as (i & Hi & _). by eapply list_elem_of_lookup_2.
  - rewrite <- length_map_to_list, map_to_list_to_map by (by eapply take_NoDup_keys).
    rewrite length_take. lia.
  - intros Hsz. rewrite take_ge; [|rewrite Hp, length_map_to_list; lia].
    rewrite (list_to_map_proper l (map_to_list m)) by (done || rewrite Hp; apply NoDup_fst_map_to_list).
    by rewrite list_to_map_to_list.
  - intros k c k' c' Hk Hnone Hk'%Hin. apply Hm in Hk.
    rewrite <- (take_drop (Z.to_nat limit) l) in Hk, Hs. apply elem_of_app in Hk as [Hk|Hk].
    { apply Hin in Hk. by rewrite Hk in Hnone. }
    apply (StronglySorted_app_1_elem_of _ _ _ _ _ Hs Hk') in Hk. unfold leb, newest in Hk.
    by apply Z.leb_le in Hk.
Qed.

Lemma prune_done d max_age limits now io d' :
  prune d max_age limits now io = (true, d') ->
  let cutoff := now - Z.min max_age i64_max in
  d' = mk_Database
    (keep_first (newest qc_updated) (rl_quality limits) (not_older qc_updated cutoff (ip_quality d)))
    (keep_first (newest cc_last_seen) (rl_candidates limits) (not_older cc_last_seen cutoff (cf_candidates d)))
    (keep_first hottest (rl_hot limits) (not_older hc_last_seen cutoff (hot_domains d)))
    (upstream_stats d) (network_generation d) (schema_row d).
Proof.
  unfold prune, prune_statements. cbn zeta. cbn [run_statements].
  repeat match goal with |- context [io ?k] => destruct (io k); [|done] end. by intros [= <-].
Qed.

(** Pruning bounds the tables and loses the least.  When no statement fails, each of the pruned tables has
    afterwards at most its configured number of rows, all unchanged and none older than the age
    limit; of the rows that were not too old, measurements and candidates lose only rows
    that are no newer than every one that stays, and none while there is room. *)
Theorem pruning_keeps_the_newest d max_age limits now io d'
    (Hprune : prune d max_age limits now io = (true, d'))
    (Hq : 0 <= rl_quality limits < 2 ^ 63) (Hc : 0 <= rl_candidates limits < 2 ^ 63)
    (Hh : 0 <= rl_hot limits < 2 ^ 63) :
  let cutoff := now - Z.min max_age i64_max in
  kept_newest qc_updated (Z.to_nat (rl_quality limits)) (not_older qc_updated cutoff (ip_quality d)) (ip_quality d') ∧
  kept_newest cc_last_seen (Z.to_nat (rl_candidates limits))
    (not_older cc_last_seen cutoff (cf_candidates d)) (cf_candidates d') ∧
  (size (hot_domains d') <= Z.to_nat (rl_hot limits))%nat ∧
  hot_domains d' ⊆ not_older hc_last_seen cutoff (hot_domains d).
Proof.
  intros cutoff. apply prune_done in Hprune as ->.
  split; [by apply keep_first_newest|]. split; [by apply keep_first_newest|].
  cbn [hot_domains]. unfold keep_first. fold cutoff. rewrite sql_limit_take by done.
  set (m := not_older hc_last_seen cutoff (hot_domains d)).
  set (l := sql_order _ (map_to_list m)). assert (l ≡ₚ map_to_list m) as Hp by apply sql_order_perm.
  pose proof (take_NoDup_keys (Z.to_nat (rl_hot limits)) m l Hp) as Hnd. split.
  - rewrite <- length_map_to_list, map_to_list_to_map, length_take by done. lia.
  - apply map_subseteq_spec. intros k c Hk%elem_of_list_to_map_2.
    apply elem_of_take in Hk as (i & Hi%list_elem_of_lookup_2 & _).
    rewrite Hp in Hi. by apply elem_of_map_to_list in Hi.
Qed.
End pruning.

(** ** Starting *)

(** The daemon starts whatever state the database is in: with a store, which then is at the
    current version and has every row of a sound file of a supported version, or without
    one.  A file that is not taken over is kept aside. *)
Theorem storage_never_stops_the_daemon cfg file w :
  let s := open cfg file w in
  s = disabled ∨
  (sg_healthy s = true ∧ storage_queue s = [] ∧ schema_version (sg_db s) = CURRENT_SCHEMA_VERSION ∧
   match file with
   | NoFile => sg_quarantined s = None
   | SoundFile d =>
       if schema_version d <=? CURRENT_SCHEMA_VERSION
       then sg_quarantined s = None ∧ ip_quality (sg_db s) = ip_quality d ∧
            cf_candidates (sg_db s) = cf_candidates d ∧ hot_domains (sg_db s) = hot_domains d
       else sg_quarantined s = Some file
   | DamagedFile | BusyFile _ => sg_quarantined s = Some file
   end).
Proof.
  intros s. unfold s, open. destruct (storage_enabled cfg); [|by left]. cbn [negb].
  unfold try_open. destruct (ow_directory w); [|by left]. cbn [negb].
  destruct (ow_rename w), (ow_thread w), file as [| |d|d]; cbn [open_and_migrate negb];
    first [by left|by right|idtac].
  all: pose proof (eq_refl : migrate d = if CURRENT_SCHEMA_VERSION <? schema_version d then _ else _) as Hm;
    rewrite Hm; destruct (Z.ltb_spec CURRENT_SCHEMA_VERSION (schema_version d)) as [H|H];
    [rewrite (proj2 (Z.leb_gt _ _)) by done|rewrite (proj2 (Z.leb_le _ _)) by done];
    first [by left|by right].
Qed.

(** ** A restart *)

Section restart.
Context {SQ : Sqlite} {SL : SqliteLaws} {FL : FloatLib} {HK : HashOrder ProbeKey}.
Implicit Types (d : Database) (store : QualityStore).

Lemma i64_round_trip z : 0 <= z < 2 ^ 64 -> i64_as_u64 (as_i64 z) = z.
Proof.
  intros Hz. unfold i64_as_u64, as_i64. destruct (Z.ltb_spec z (2 ^ 63)).
  - apply Z.mod_small. lia.
  - rewrite <- (Z.mod_add _ 1) by lia. replace (z - 2 ^ 64 + 1 * 2 ^ 64) with z by lia.
    apply Z.mod_small. lia.
Qed.

(** Inserting rows whose keys differ. *)
Lemma upserted_lookup {R K C} `{Countable K} (key : R -> K) (columns : R -> C) rows (m : gmap K C) k c :
  NoDup (key <$> rows) ->
  fold_left (λ m r, <[key r := columns r]> m) rows m !! k = Some c <->
  (∃ r, (r ∈ rows) ∧ key r = k ∧ columns r = c) ∨ ((k ∉ (key <$> rows)) ∧ m !! k = Some c).
Proof.
  revert m. induction rows as [|r rows IH]; intros m Hnd; cbn [fold_left].
  - split; [right; split; [apply not_elem_of_nil|done]|]. by intros [(r & Hr%elem_of_nil & _)|[_ ?]].
  - rewrite fmap_cons in Hnd. apply NoDup_cons in Hnd as [Hr Hnd]. rewrite (IH _ Hnd), fmap_cons, not_elem_of_cons.
    destruct (decide (k = key r)) as [->|Hne].
    + rewrite lookup_insert_eq. split.
      * intros [(r' & Hr' & Hk & Hc)|[_ [= <-]]].
        { left. exists r'. split; [by right|done]. }
        left. exists r. split; [by left|done].
      * intros [(r' & Hr' & Hk & Hc)|[[? _] _]]; [|done].
        apply elem_of_cons in Hr' as [->|Hr']; [right; by rewrite Hc|].
        left. by exists r'.
    + rewrite lookup_insert_ne by done. split.
      * intros [(r' & Hr' & Hk & Hc)|[? ?]]; [|by right]. left. exists r'. split; [by right|done].
      * intros [(r' & Hr' & Hk & Hc)|[[_ ?] ?]]; [|by right].
        apply elem_of_cons in Hr' as [->|Hr']; [by rewrite Hk in Hne|]. left. by exists r'.
Qed.

(** The addresses of a table were printed by the flush. *)
Definition canonical d : Prop :=
  ∀ k c, ip_quality d !! k = Some c -> ∃ a, addr_ok a ∧ k.1.1 = print_ip a.

(** A store as the program has it: addresses of their family, 64-bit generations. *)
Definition representable store : Prop :=
  ∀ key q, store_get store key = Some q -> addr_ok (pk_addr key) ∧ 0 <= q_generation q < 2 ^ 64.

Lemma print_ip_inj a b : addr_ok a -> addr_ok b -> print_ip a = print_ip b -> a = b.
Proof.
  intros Ha Hb E. apply parse_print_ip in Ha, Hb. rewrite E in Ha. by simplify_eq.
Qed.

Definition row_of now_unix (key : ProbeKey) (q : QualityStats) : QualityRow :=
  mk_QualityRow (print_ip (pk_addr key)) (pk_profile key) (pk_port key) (to_persisted q) now_unix.

Lemma quality_rows_from store limit now_unix r :
  r ∈ quality_rows store limit now_unix -> ∃ key q, store_get store key = Some q ∧ r = row_of now_unix key q.
Proof.
  unfold quality_rows. intros ([key p] & -> & (i & Hi & _)%elem_of_take)%list_elem_of_fmap.
  apply list_elem_of_lookup_2 in Hi. unfold store_export in Hi.
  apply list_elem_of_fmap in Hi as ([key' q] & E & Hin%hash_iter_elem). injection E as -> ->. by exists key', q.
Qed.

(** Within the limit every series is written. *)
Lemma quality_rows_all store limit now_unix key q :
  (size (qs_inner store) <= Z.to_nat limit)%nat -> store_get store key = Some q ->
  row_of now_unix key q ∈ quality_rows store limit now_unix.
Proof.
  intros Hl Hq. unfold quality_rows. rewrite take_ge.
  2:{ unfold store_export. rewrite length_map, hash_iter_length. lia. }
  unfold store_export. rewrite map_map. apply list_elem_of_fmap. exists (key, q). split; [done|].
  by apply hash_iter_elem.
Qed.

Lemma quality_rows_NoDup store limit now_unix :
  representable store -> NoDup (quality_key <$> quality_rows store limit now_unix).
Proof.
  intros Hw. unfold quality_rows. change (map ?f ?l) with (f <$> l). rewrite !fmap_take.
  eapply sublist_NoDup; [|apply sublist_take]. unfold store_export.
  change (map ?f ?l) with (f <$> l). rewrite <- !list_fmap_compose.
  assert (NoDup (hash_iter (qs_inner store))) as Hnd.
  { rewrite hash_iter_perm. apply NoDup_map_to_list. }
  apply NoDup_fmap_2_strong; [|done].
  intros [k1 q1] [k2 q2] H1%hash_iter_elem H2%hash_iter_elem. cbn.
  destruct (Hw k1 q1 H1) as [A1 _], (Hw k2 q2 H2) as [A2 _].
  intros [= Ea Ep Eo]. apply print_ip_inj in Ea; [|done|done].
  assert (k1 = k2) as <- by (destruct k1, k2; cbn in *; congruence).
  unfold store_get in *. rewrite H1 in H2. by simplify_eq.
Qed.

Lemma upsert_rows_done {R K C} `{Countable K} (key : R -> K) (columns : R -> C) reals io k rows (m m' : gmap K C) :
  upsert_rows key columns reals io k rows m = Some m' ->
  m' = fold_left (λ m r, <[key r := columns r]> m) rows m.
Proof.
  revert k m. induction rows as [|r rows IH]; intros k m; cbn; [by case_match; [intros [= <-]|]|].
  destruct (_ && _); [apply IH|done].
Qed.

(** The table after a flush that was written. *)
Lemma flushed_table d store limit now_unix now io :
  (apply d (WbQuality (quality_rows store limit now_unix)) now io).1 = true ->
  (apply d (WbQuality (quality_rows store limit now_unix)) now io).2 =
  with_quality_table d
    (fold_left (λ m r, <[quality_key r := quality_columns r]> m) (quality_rows store limit now_unix) (ip_quality d)).
Proof.
  cbn [apply]. unfold committed. destruct (upsert_all _ _ _ _ _ _) as [m|] eqn:E; [|done]. intros _. cbn [snd].
  unfold upsert_all in E. destruct (io 0%nat); [|done]. by apply upsert_rows_done in E as ->.
Qed.

Lemma flushed_canonical d store limit now_unix now io :
  (apply d (WbQuality (quality_rows store limit now_unix)) now io).1 = true ->
  representable store -> canonical d ->
  canonical (apply d (WbQuality (quality_rows store limit now_unix)) now io).2.
Proof.
  intros Hok Hw Hc k c. rewrite flushed_table by done. cbn [ip_quality with_quality_table].
  rewrite upserted_lookup by (by apply quality_rows_NoDup).
  intros [(r & (key & q & Hq & ->)%quality_rows_from & <- & _)|[_ Hk]]; [|by eapply Hc].
  exists (pk_addr key). split; [by apply (Hw key q)|done].
Qed.

(** A row of the table as an entry of the store. *)
Definition entry_of (e : (list ascii * list ascii * Z) * QualityColumns) : option (ProbeKey * PersistedQuality) :=
  match parse_ip (qr_addr (quality_row e)) with
  | Some addr => Some (mk_ProbeKey addr (qr_port (quality_row e)) (qr_profile (quality_row e)),
                       qr_quality (quality_row e))
  | None => None
  end.

Lemma restored_entries_map l : restored_entries (map quality_row l) = omap entry_of l.
Proof. induction l as [|e l IH]; [done|]. cbn. unfold restored_entries in IH. by rewrite IH. Qed.

Lemma entries_keys_NoDup d l :
  canonical d -> l ≡ₚ map_to_list (ip_quality d) -> NoDup (omap entry_of l).*1.
Proof.
  intros Hc Hl.
  assert (NoDup l.*1) as Hnd by (rewrite Hl; apply NoDup_fst_map_to_list).
  assert (∀ k c, (k, c) ∈ l -> ∃ a, addr_ok a ∧ k.1.1 = print_ip a) as Hcan
    by (intros k c Hin; rewrite Hl in Hin; apply elem_of_map_to_list in Hin; by eapply Hc).
  clear Hl Hc. induction l as [|[[[addr prof] port] c] l IH]; [constructor|].
  rewrite fmap_cons in Hnd. apply NoDup_cons in Hnd as [Hn Hnd].
  destruct (Hcan _ _ ltac:(left)) as (a & Ha & Ea). cbn in Ea. subst addr.
  cbn [omap list_omap]. unfold entry_of at 1. cbn [quality_row qr_addr].
  rewrite parse_print_ip by done. rewrite fmap_cons. constructor.
  - intros ([k p] & Ek & (e & He & Hin)%list_elem_of_omap)%list_elem_of_fmap. cbn in Ek. subst k.
    destruct e as [[[addr' prof'] port'] c']. destruct (Hcan _ _ ltac:(by right)) as (b & Hb & Eb).
    cbn in Eb. subst addr'. unfold entry_of in Hin. cbn [quality_row qr_addr] in Hin.
    rewrite parse_print_ip in Hin by done. cbn in Hin. simplify_eq.
    apply Hn. apply list_elem_of_fmap. by eexists (_, _, _, c').
  - apply IH; [done|]. intros k c' Hin. eapply Hcan. by right.
Qed.

Lemma fold_revived (rows : list (ProbeKey * PersistedQuality)) key p (s : option QualityStats) :
  NoDup rows.*1 -> (key, p) ∈ rows ->
  fold_left (λ s e, if decide (e.1 = key) then Some (revived e.2) else s) rows s = Some (revived p).
Proof.
  revert s. induction rows as [|[k q] rows IH]; intros s Hnd Hin; [by apply elem_of_nil in Hin|].
  rewrite fmap_cons in Hnd. apply NoDup_cons in Hnd as [Hn Hnd]. cbn [fold_left fst snd].
  apply elem_of_cons in Hin as [[= <- <-]|Hin].
  - rewrite decide_True by done. clear IH Hnd.
    induction rows as [|[k' q'] rows IH]; [done|]. cbn [fold_left fst].
    rewrite fmap_cons, not_elem_of_cons in Hn. destruct Hn as [Hne Hn].
    rewrite decide_False by (cbn in *; congruence). by apply IH.
  - by apply IH.
Qed.

Lemma omap_shorter {A B} (f : A -> option B) l : (length (omap f l) <= length l)%nat.
Proof. induction l as [|x l IH]; cbn; [done|]. destruct (f x); cbn; lia. Qed.

Lemma import_all rows capacity key p :
  NoDup rows.*1 -> (length rows < capacity)%nat -> (key, p) ∈ rows ->
  import_rows capacity rows ∅ !! key = Some (revived p).
Proof.
  intros Hnd Hl Hin.
  destruct (import_rows_lookup (list_to_set rows.*1) capacity rows ∅ key) as [-> _].
  - rewrite dom_empty. set_solver.
  - intros k Hk. by apply elem_of_list_to_set.
  - rewrite size_list_to_set by done. by rewrite length_fmap.
  - by apply fold_revived.
Qed.

(** What a series keeps of itself: its counts and its generation; its averages and what it
    knows of its success, unless they lie below the least a new series has; and of its
    window, when there was a measurement, two values that have the average and the
    percentile.  It starts without a streak of failures and without a last update. *)
Record kept (q r : QualityStats) : Prop := {
  kp_samples : q_samples r = q_samples q;
  kp_successes : q_successes r = q_successes q;
  kp_generation : q_generation r = q_generation q;
  kp_alpha : f64_leb f64_one (q_alpha q) = true -> q_alpha r = q_alpha q;
  kp_beta : f64_leb f64_one (q_beta q) = true -> q_beta r = q_beta q;
  kp_ewma : f64_leb f64_zero (q_ewma_ms q) = true -> q_ewma_ms r = q_ewma_ms q;
  kp_jitter : f64_leb f64_zero (q_jitter_ms q) = true -> q_jitter_ms r = q_jitter_ms q;
  kp_window : f64_ltb f64_zero (q_ewma_ms q) = true ->
    q_window_len r = 2%nat ∧ q_window r !! 0%nat = Some (f64_to_f32 (q_ewma_ms q)) ∧
    q_window r !! 1%nat = Some (f64_to_f32 (f64_max (Quality.p95_ms q) (q_ewma_ms q)));
  kp_fresh : q_consecutive_failures r = 0 ∧ q_last_update r = None ∧ q_last_success r = None
}.

Lemma f64_max_leb x y : f64_leb y x = true -> f64_max x y = x.
Proof.
  unfold f64_leb, f64_max, f64_ltb, f64_is_nan, SFleb, SFltb, SFcompare.
  destruct x as [a|a| |a m e], y as [b|b| |b n f]; try done;
    try (destruct a); try (destruct b); try done.
  all: change (PosDef.Pos.compare_cont Eq ?p ?q) with (p ?= q)%positive in *.
  all: rewrite (Z.compare_antisym f e), (Pos.compare_antisym n m).
  all: destruct (f ?= e); cbn; try done.
  all: by destruct (n ?= m)%positive.
Qed.

Lemma revived_keeps q : kept q (revived (to_persisted q)).
Proof.
  split; try done; try (by intros ?; apply f64_max_leb).
  intros Hw. cbn. rewrite Hw. done.
Qed.

(** C40. What was measured survives a restart.  When a flush is queued with room in the queue and
    the batch is written without an error, and the table then is within the limit of the
    next load and below the capacity of the next store, the store of the next process
    holds every series of which the flush wrote a row, under the same address, port and
    profile, with what a series keeps of itself.  A flush writes a row of every series as
    long as there are no more of them than its row limit. *)
Theorem series_survive_a_restart s capacity store rows_limit now_unix now io load_limit capacity'
    (Hq : sg_channel s = Some (capacity, [])) (Hroom : (0 < capacity)%nat) (Hhealthy : sg_healthy s = true)
    (Hcan : canonical (sg_db s)) (Hw : representable store)
    (Hwritten : (apply (sg_db s) (WbQuality (quality_rows store rows_limit now_unix)) now io).1 = true) :
  let s' := work_one (enqueue s (WbQuality (quality_rows store rows_limit now_unix))) now io in
  (Z.of_nat (size (ip_quality (sg_db s'))) <= load_limit < 2 ^ 63) ->
  (size (ip_quality (sg_db s')) < Nat.max capacity' 1)%nat ->
  (∀ key q, store_get store key = Some q -> row_of now_unix key q ∈ quality_rows store rows_limit now_unix ->
     ∃ r, store_get (restore_persisted_state s' load_limit (store_new capacity')) key = Some r ∧ kept q r) ∧
  ((size (qs_inner store) <= Z.to_nat rows_limit)%nat ->
   ∀ key q, store_get store key = Some q -> row_of now_unix key q ∈ quality_rows store rows_limit now_unix).
Proof.
  intros s' Hload Hcap. split; [|intros Hl key q; by apply quality_rows_all].
  intros key q Hkey Hrow. exists (revived (to_persisted q)). split; [|apply revived_keeps].
  assert (sg_db s' = (apply (sg_db s) (WbQuality (quality_rows store rows_limit now_unix)) now io).2 ∧
    sg_channel s' = Some (capacity, []) ∧ sg_healthy s' = true) as (Hdb & Hch & Hh).
  { unfold s', enqueue. rewrite Hq. destruct (Nat.ltb_spec (length (@nil WriteBatch)) capacity); [done|cbn in *; lia]. }
  unfold restore_persisted_state, read_quality. rewrite Hh, Hch. cbn [negb].
  unfold load_quality. rewrite sql_limit_take by lia.
  set (l := sql_order _ _). assert (l ≡ₚ map_to_list (ip_quality (sg_db s'))) as Hp by apply sql_order_perm.
  rewrite take_ge by (rewrite Hp, length_map_to_list; lia). rewrite restored_entries_map.
  assert (canonical (sg_db s')) as Hcan' by (rewrite Hdb; by apply flushed_canonical).
  unfold store_get, store_import, store_new. cbn [qs_inner qs_capacity]. apply import_all.
  - by eapply entries_keys_NoDup.
  - eapply Nat.le_lt_trans; [apply omap_shorter|]. rewrite Hp, length_map_to_list. done.
  - apply list_elem_of_omap. exists (quality_key (row_of now_unix key q), quality_columns (row_of now_unix key q)).
    split.
    + rewrite Hp. apply elem_of_map_to_list. rewrite Hdb, flushed_table by done.
      cbn [ip_quality with_quality_table]. apply upserted_lookup; [by apply quality_rows_NoDup|].
      left. by exists (row_of now_unix key q).
    + destruct (Hw key q Hkey) as (Ha & Hg). unfold entry_of. cbn -[print_ip parse_ip].
      rewrite parse_print_ip by done. rewrite i64_round_trip by done. by destruct key.
Qed.

(** A flush stamps every row with the present time, whenever the series was last observed,
    so a row of a series that is in memory never gets old enough to be pruned. *)
Theorem unused_series_never_expire d store limit now_unix now io age
    (Hok : (apply d (WbQuality (quality_rows store limit now_unix)) now io).1 = true) (Hw : representable store)
    (Hnow : 0 <= now_unix < 2 ^ 63) (Hage : 0 <= age) key q :
  row_of now_unix key q ∈ quality_rows store limit now_unix ->
  not_older qc_updated (now_unix - age)
    (ip_quality (apply d (WbQuality (quality_rows store limit now_unix)) now io).2)
    !! quality_key (row_of now_unix key q) = Some (quality_columns (row_of now_unix key q)).
Proof.
  intros Hq. apply map_lookup_filter_Some. rewrite flushed_table by done. split.
  - apply upserted_lookup; [by apply quality_rows_NoDup|]. left. by exists (row_of now_unix key q).
  - cbn. unfold as_i64. rewrite (proj2 (Z.ltb_lt _ _)) by lia. lia.
Qed.
End restart.

(** ** Concrete databases *)

Section witnesses.
#[local] Existing Instance evidence_floats.
#[local] Existing Instance series_order.

#[local] Instance sorting_sqlite : Sqlite := { sql_order A leb l := stable_sort leb l }.

#[local] Instance sorting_sqlite_laws : SqliteLaws.
Proof.
  split; intros A leb l; [apply stable_sort_perm|]. intros Ht Htr.
  by apply (stable_sort_sorted leb Ht Htr).
Qed.

Definition all_well : OpenWorld := mk_OpenWorld true true true.

Definition fresh : Storage := open default_StorageConfig NoFile all_well.

Definition measured : QualityStore :=
  store_run default_RankingConfig [hit (site 1) 1; hit (site 1) 1; hit (site 2) 1] (store_new 8).

(** A row for [104.16.0.n] written at [updated]. *)
Definition stamped (n updated : Z) : QualityRow :=
  mk_QualityRow (print_ip (V4 (ipv4 104 16 0 n))) (lit "generic") 443 (to_persisted (quality_new 1)) updated.

(** A newer version of the program leaves a database of a newer version.  It is sound, and
    is moved aside like a damaged one; so is one that is only locked for the moment. *)
Definition from_the_future : Database := mk_Database ∅ ∅ ∅ ∅ (Some (3, 4, 5)) (Some 2).

Theorem sound_databases_are_set_aside :
  migrate from_the_future = Err (SeSchemaTooNew 2 1) ∧
  sg_quarantined (open default_StorageConfig (SoundFile from_the_future) all_well) = Some (SoundFile from_the_future) ∧
  sg_quarantined (open default_StorageConfig (BusyFile empty_database) all_well) = Some (BusyFile empty_database).
Proof. done. Qed.

(** A single value SQLite cannot store in a row undoes the whole batch. *)
Definition unmeasurable : QualityRow :=
  mk_QualityRow (lit "104.16.0.9") (lit "generic") 443
    (mk_PersistedQuality f64_one f64_one (f64_div f64_zero f64_zero) f64_one f64_one 1 1 1) 7.

Theorem one_nan_undoes_the_batch io :
  apply empty_database (WbQuality [stamped 1 7; unmeasurable]) 7 io = (false, empty_database).
Proof.
  unfold apply, upsert_all. cbn [upsert_rows].
  by destruct (io 0%nat), (io 1%nat), (io 2%nat).
Qed.

(** Nothing fails. *)
Definition sound_disk : SqliteIo := λ _, true.

(** A disk that is full at the fourth statement: of a prune three statements have taken
    effect, and the batch, like any that cannot be written, is not counted as dropped. *)
Definition full_disk : SqliteIo := λ k, (k <? 3)%nat.

Theorem failed_writes_are_not_counted :
  let s := storage_run fresh
    [SsEnqueue (WbQuality [stamped 1 7; stamped 2 9]); SsWork 9 sound_disk;
     SsEnqueue (WbPrune 1 (mk_RowLimits 0 0 0)); SsWork 9 full_disk;
     SsEnqueue (WbQuality [stamped 3 9; stamped 4 9]); SsWork 9 full_disk] in
  size (ip_quality (sg_db s)) = 1%nat ∧ storage_queue s = [] ∧ sg_dropped s = 0.
Proof. split_and!; vm_compute; reflexivity. Qed.

(** Routes that a reload has removed keep their row: pruning passes over that table. *)
Theorem upstream_rows_are_never_pruned d age limits now io :
  upstream_stats (prune d age limits now io).2 = upstream_stats d.
Proof. unfold prune. cbn. by repeat case_match. Qed.

Definition two_writes : list StorageStep :=
  [SsEnqueue (WbQuality [stamped 1 7]); SsEnqueue (WbGeneration 2 3 4); SsWork 7 sound_disk].

Lemma batches_are_applied_in_order_witness :
  ∃ applied queue, storage_queue (storage_run fresh two_writes) = queue ∧
    sg_db (storage_run fresh two_writes) = apply_all (sg_db fresh) applied ∧ length queue = 1%nat.
Proof.
  destruct (batches_are_applied_in_order fresh (Z.to_nat (storage_queue_size default_StorageConfig)) two_writes
              eq_refl eq_refl) as [(applied & queue & Hc & Hd & _) _].
  exists applied, queue. assert (storage_queue (storage_run fresh two_writes) = queue) as Hq
    by (unfold storage_queue; rewrite Hc; reflexivity).
  split; [exact Hq|]. split; [exact Hd|]. rewrite <- Hq. vm_compute. reflexivity.
Defined.

Definition two_rows : Database :=
  (apply empty_database (WbQuality [stamped 1 7; stamped 2 9]) 9 sound_disk).2.

Lemma pruning_keeps_the_newest_witness :
  kept_newest qc_updated 1 (not_older qc_updated 0 (ip_quality two_rows))
    (ip_quality (prune two_rows 9 (mk_RowLimits 1 1 1) 9 sound_disk).2).
Proof.
  apply (pruning_keeps_the_newest two_rows 9 (mk_RowLimits 1 1 1) 9 sound_disk
    (prune two_rows 9 (mk_RowLimits 1 1 1) 9 sound_disk).2); [reflexivity|cbn; lia..].
Defined.

Lemma measured_representable : representable measured.
Proof.
  intros key q Hq. unfold store_get in Hq. apply elem_of_map_to_list in Hq.
  assert (forallb (λ e : ProbeKey * QualityStats,
    match pk_addr e.1 with V4 a => (0 <=? a) && (a <? 2 ^ 32) | V6 _ => false end
    && (0 <=? q_generation e.2) && (q_generation e.2 <? 2 ^ 64))
    (map_to_list (qs_inner measured)) = true) as H by (vm_compute; reflexivity).
  rewrite forallb_elem in H. apply H in Hq. cbn [fst snd] in Hq.
  destruct (pk_addr key); [|done]. bool_to_prop. cbn [addr_ok]. split; [lia|]. split; [lia|done].
Qed.

Lemma fresh_canonical : canonical (sg_db fresh).
Proof. intros k c Hk. change (ip_quality (sg_db fresh)) with (∅ : gmap (list ascii * list ascii * Z) QualityColumns) in Hk.
  by rewrite lookup_empty in Hk. Qed.

Lemma series_survive_a_restart_witness :
  let s := work_one (enqueue fresh (WbQuality (quality_rows measured 10 7))) 7 sound_disk in
  (q_samples <$> store_get (restore_persisted_state s 10 (store_new 8)) (site 1)) = Some 2.
Proof.
  intros s.
  destruct (store_get measured (site 1)) as [q|] eqn:Hq; [|vm_compute in Hq; discriminate Hq].
  assert (∃ r, store_get (restore_persisted_state s 10 (store_new 8)) (site 1) = Some r ∧ kept q r) as (r & -> & Hk).
  { destruct (series_survive_a_restart fresh (Z.to_nat (storage_queue_size default_StorageConfig)) measured 10 7 7
      sound_disk 10 8) as [H Hall];
      [reflexivity|vm_compute; lia|reflexivity|exact fresh_canonical
      |exact measured_representable|vm_compute; reflexivity| | |].
    - vm_compute. split; [intros H; discriminate H|reflexivity].
    - vm_compute. lia.
    - apply (H _ _ Hq). apply Hall; [vm_compute; lia|exact Hq]. }
  cbn. rewrite (kp_samples _ _ Hk). vm_compute in Hq. injection Hq as <-. reflexivity.
Defined.
End witnesses.
