(* ===== verification/Monitor.v ===== *)
(** * The network monitor

    [src/tasks/network.rs]: the loop that samples the host's routes, waits until a
    change has been stable for the debounce time, and then publishes a new network
    generation, demotes everything learned on the old one and queues the generation to
    be stored.  One turn of the loop is [monitor_step]; the sampling itself and the
    clock are its input. *)

From Stdlib Require Import Ascii String.
From S2P Require Import Prelude.
From S2P Require Import Hashing.
From S2P Require Import Floats.
From S2P Require Import Names.
From S2P Require Import Net.
From S2P Require Import Config.
From S2P Require Import Util.
From S2P Require Import Network.
From S2P Require Import Prefixes.
From S2P Require Import Quality.
From S2P Require Import AnswerPolicy.
From S2P Require Import Evidence.
From S2P Require Import Candidates.
From S2P Require Import Storage.

Record Monitor : Type := mk_Monitor {
  mo_pending : option (Z * Instant);
  mo_network : NetworkSnapshot;
  mo_quality : QualityStore;
  mo_cloudflare : CloudflareState;
  mo_storage : Storage.Storage
}.

(** What one turn finds: the configuration in force, and the sample with the time it
    was taken and the wall clock, unless sampling failed. *)
Record Poll : Type := mk_Poll {
  po_config : NetworkConfig;
  po_sample : option (RawNetworkState * Instant * Z)
}.

Section monitor.
Context {IPL : IpNetLib} {HA : HashOrder IpAddr} {HV : HashOrder (list ascii * IpAddr)}.
Implicit Types (m : Monitor) (p : Poll) (hist : list Poll).

Definition apply_change m (sample : RawNetworkState) (cfg : NetworkConfig) (now_unix : Z) : Monitor :=
  let '(network, changed) := publish_network (mo_network m) sample now_unix in
  if negb changed then mk_Monitor (mo_pending m) network (mo_quality m) (mo_cloudflare m) (mo_storage m)
  else
    let generation := net_generation network in
    mk_Monitor (mo_pending m) network
      (store_generation_change (mo_quality m) generation (nc_confidence_decay_on_change cfg))
      (on_generation_change (mo_cloudflare m) generation)
      (enqueue (mo_storage m) (WbGeneration generation (fingerprint sample) now_unix)).

Definition with_pending m (pending : option (Z * Instant)) : Monitor :=
  mk_Monitor pending (mo_network m) (mo_quality m) (mo_cloudflare m) (mo_storage m).

Definition monitor_step m p : Monitor :=
  if negb (nc_enabled (po_config p)) then with_pending m None
  else
    match po_sample p with
    | None => m
    | Some (sample, now, now_unix) =>
        let fp := fingerprint sample in
        if fingerprint (net_raw (mo_network m)) =? fp then with_pending m None
        else
          match mo_pending m with
          | Some (fp', first_seen) =>
              if fp' =? fp then
                if nc_debounce (po_config p) <=? since now first_seen
                then with_pending (apply_change m sample (po_config p) now_unix) None
                else m
              else with_pending m (Some (fp, now))
          | None => with_pending m (Some (fp, now))
          end
    end.

(** A run of the loop, the most recent turn first. *)
Definition monitor_run m hist : Monitor := foldr (λ p m, monitor_step m p) m hist.

(** [p] does not contradict a path with fingerprint [fp]; it saw the path at [t]. *)
Definition consistent (fp : Z) p : Prop :=
  nc_enabled (po_config p) = true ∧
  ∀ s t u, po_sample p = Some (s, t, u) -> fingerprint s = fp.

Definition saw (fp : Z) (t : Instant) p : Prop :=
  consistent fp p ∧ ∃ s u, po_sample p = Some (s, t, u).

(** The turns up to now have seen nothing but the path since [t]. *)
Definition stable_since hist (fp : Z) (t : Instant) : Prop :=
  ∃ recent first older, hist = recent ++ first :: older ∧ saw fp t first ∧
    Forall (consistent fp) recent.

Lemma stable_since_cons p hist fp t :
  consistent fp p -> stable_since hist fp t -> stable_since (p :: hist) fp t.
Proof.
  intros Hp (recent & first & older & -> & Hf & Hr). exists (p :: recent), first, older.
  split_and!; [done|done|by constructor].
Qed.

Lemma stable_since_here p hist fp t : saw fp t p -> stable_since (p :: hist) fp t.
Proof. intros Hp. exists [], p, hist. split_and!; [done|done|constructor]. Qed.

Lemma apply_change_pending m sample cfg now_unix : mo_pending (apply_change m sample cfg now_unix) = mo_pending m.
Proof. unfold apply_change. destruct (publish_network _ _ _) as [? []]; done. Qed.

Lemma monitor_step_pending m p fp t :
  mo_pending (monitor_step m p) = Some (fp, t) ->
  (mo_pending m = Some (fp, t) ∧ consistent fp p) ∨ saw fp t p.
Proof.
  unfold monitor_step. destruct (nc_enabled (po_config p)) eqn:Ee; [|done]. cbn [negb].
  destruct (po_sample p) as [[[s now] u]|] eqn:Es.
  2:{ intros H. left. split; [done|]. split; [done|]. intros s t' u. by rewrite Es. }
  assert (consistent (fingerprint s) p) as Hc.
  { split; [done|]. intros s' t' u'. rewrite Es. by intros [= <- <- <-]. }
  destruct (Z.eqb_spec (fingerprint (net_raw (mo_network m))) (fingerprint s)); [done|].
  assert (Some (fingerprint s, now) = Some (fp, t) -> saw fp t p) as Hn.
  { intros [= <- <-]. split; [done|]. by exists s, u. }
  destruct (mo_pending m) as [[fp' first]|] eqn:Ep; cbn [with_pending mo_pending]; [|by right; apply Hn].
  destruct (Z.eqb_spec fp' (fingerprint s)) as [->|]; [|by right; apply Hn].
  destruct (_ <=? _); [done|]. rewrite Ep. intros [= <- <-]. by left.
Qed.

Lemma monitor_pending_stable m hist fp t :
  mo_pending m = None -> mo_pending (monitor_run m hist) = Some (fp, t) -> stable_since hist fp t.
Proof.
  intros Hm. revert fp t. induction hist as [|p hist IH]; intros fp t; cbn; [by rewrite Hm|].
  intros [[Hp Hc]|Hs]%monitor_step_pending; [|by apply stable_since_here].
  apply stable_since_cons; [done|]. by apply IH.
Qed.

(** What a turn can do besides the bookkeeping. *)
Lemma monitor_step_cases m p :
  (mo_network (monitor_step m p) = mo_network m ∧ mo_quality (monitor_step m p) = mo_quality m ∧
   mo_cloudflare (monitor_step m p) = mo_cloudflare m) ∨
  ∃ s now u t,
    po_sample p = Some (s, now, u) ∧ consistent (fingerprint s) p ∧
    mo_pending m = Some (fingerprint s, t) ∧ nc_debounce (po_config p) <= since now t ∧
    fingerprint (net_raw (mo_network m)) ≠ fingerprint s ∧
    monitor_step m p = with_pending (apply_change m s (po_config p) u) None.
Proof.
  unfold monitor_step. destruct (nc_enabled (po_config p)) eqn:Ee; [|by left]. cbn [negb].
  destruct (po_sample p) as [[[s now] u]|] eqn:Es; [|by left].
  destruct (Z.eqb_spec (fingerprint (net_raw (mo_network m))) (fingerprint s)); [by left|].
  destruct (mo_pending m) as [[fp' first]|] eqn:Ep; [|by left].
  destruct (Z.eqb_spec fp' (fingerprint s)) as [->|]; [|by left].
  destruct (Z.leb_spec (nc_debounce (po_config p)) (since now first)); [|by left].
  assert (consistent (fingerprint s) p) as Hc.
  { split; [done|]. intros s' t' u'. rewrite Es. by intros [= <- <- <-]. }
  right. exists s, now, u, first. by split_and!.
Qed.

(** C36. Flaps are ignored and real changes take everything with them: from any start
    without a change pending, a turn of the monitor touches the published network
    only when the sampled path differs from the published one and no turn has seen
    anything else since a moment at least the debounce time ago.  It then publishes
    that path under the next generation, moves every measurement series and every
    candidate to it, and no address counts as validated and no site as reached
    until that is shown again. *)
Theorem only_stable_changes_count m hist p
    (Hstart : mo_pending m = None)
    (Hchange : net_raw (mo_network (monitor_step (monitor_run m hist) p))
               ≠ net_raw (mo_network (monitor_run m hist)) ∨
               net_generation (mo_network (monitor_step (monitor_run m hist) p))
               ≠ net_generation (mo_network (monitor_run m hist))) :
  let before := monitor_run m hist in
  let after := monitor_step before p in
  ∃ s now u t,
    po_sample p = Some (s, now, u) ∧
    stable_since hist (fingerprint s) t ∧ nc_debounce (po_config p) <= since now t ∧
    fingerprint (net_raw (mo_network before)) ≠ fingerprint s ∧
    net_raw (mo_network after) = s ∧ net_published_unix (mo_network after) = u ∧
    net_generation (mo_network after) = sat_add u64_max (net_generation (mo_network before)) 1 ∧
    (∀ key q, store_get (mo_quality after) key = Some q -> q_generation q = net_generation (mo_network after)) ∧
    (∀ a c, family (cs_pool (mo_cloudflare after)) a !! a = Some c ->
       cd_generation c = net_generation (mo_network after) ∧ cd_stage c = StageNew) ∧
    (∀ host ipv4 required window now' cost,
       verified_for (mo_cloudflare after) host ipv4 required window now' cost = []) ∧
    (∀ host, baseline (mo_cloudflare after) host = false).
Proof.
  intros before after. fold before after in Hchange.
  destruct (monitor_step_cases before p) as [(E & _)|(s & now & u & t & Hs & Hc & Hp & Hd & Hne & E)].
  { unfold after in Hchange. rewrite E in Hchange. by destruct Hchange. }
  exists s, now, u, t. unfold after. rewrite E. unfold apply_change, publish_network.
  rewrite (proj2 (Z.eqb_neq _ _) Hne). cbn [negb with_pending mo_network mo_quality mo_cloudflare
    net_generation net_raw net_published_unix].
  split_and!; try done.
  - by apply (monitor_pending_stable m).
  - intros key q. unfold store_get, store_generation_change. cbn [qs_inner].
    by intros (q0 & <- & _)%lookup_fmap_Some.
  - intros a c. unfold family. cbn [cs_pool on_generation_change pool_generation_change p_v4 p_v6].
    destruct (ipv4_addr a); intros (c0 & <- & _)%lookup_fmap_Some; done.
  - intros host ipv4 required window now' cost. unfold verified_for. cbn [cs_validations on_generation_change].
    assert (hash_iter (∅ : gmap (list ascii * IpAddr) DomainValidation) = []) as ->; [|done].
    apply Permutation_nil_r. by rewrite hash_iter_perm, map_to_list_empty.
Qed.

(** The path is the published one, or it has been pending since [t] at the latest. *)
Definition under_way m (fp : Z) (t : Instant) : Prop :=
  fingerprint (net_raw (mo_network m)) = fp ∨ ∃ t', mo_pending m = Some (fp, t') ∧ t' <= t.

Lemma monitor_step_saw m p fp t :
  (∀ fp' t', mo_pending m = Some (fp', t') -> t' <= t) -> saw fp t p -> under_way (monitor_step m p) fp t.
Proof.
  intros Hle ((He & Hc) & s & u & Hs). specialize (Hc s t u Hs) as <-.
  unfold monitor_step. rewrite He, Hs. cbn [negb].
  destruct (Z.eqb_spec (fingerprint (net_raw (mo_network m))) (fingerprint s)) as [E|E]; [by left|].
  destruct (mo_pending m) as [[fp' first]|] eqn:Ep; [|right; by exists t].
  destruct (Z.eqb_spec fp' (fingerprint s)) as [->|]; [|right; by exists t].
  destruct (_ <=? _); [left|right; exists first; split; [done|by eapply Hle]].
  unfold apply_change, publish_network. by rewrite (proj2 (Z.eqb_neq _ _) E).
Qed.

Lemma monitor_step_under_way m p fp t : consistent fp p -> under_way m fp t -> under_way (monitor_step m p) fp t.
Proof.
  intros (He & Hc) Hw. unfold monitor_step. rewrite He. cbn [negb].
  destruct (po_sample p) as [[[s now] u]|]; [|done]. specialize (Hc s now u eq_refl) as <-.
  destruct (Z.eqb_spec (fingerprint (net_raw (mo_network m))) (fingerprint s)) as [E|E]; [by left|].
  destruct Hw as [|(t' & Hp & Ht)]; [done|]. rewrite Hp, Z.eqb_refl.
  destruct (_ <=? _); [left|right; by exists t'].
  unfold apply_change, publish_network. by rewrite (proj2 (Z.eqb_neq _ _) E).
Qed.

Lemma pending_was_sampled m hist fp t :
  mo_pending m = None -> mo_pending (monitor_run m hist) = Some (fp, t) ->
  ∃ p s u, p ∈ hist ∧ po_sample p = Some (s, t, u).
Proof.
  intros Hm Hp. destruct (monitor_pending_stable m hist fp t Hm Hp)
    as (recent & first & older & -> & (_ & s & u & Hs) & _).
  exists first, s, u. split; [apply elem_of_app; right; left|done].
Qed.

(** A change that lasts is published: when a path has been seen at [t], nothing
    else has been seen since, and it is sampled again once the debounce time has
    passed, it is the published path from then on. *)
Theorem stable_change_is_published m recent first older p fp t s now u
    (Hstart : mo_pending m = None)
    (Hclock : ∀ p' s' t' u', p' ∈ older -> po_sample p' = Some (s', t', u') -> t' <= t)
    (Hfirst : saw fp t first) (Hrecent : Forall (consistent fp) recent)
    (Hp : consistent fp p) (Hsample : po_sample p = Some (s, now, u))
    (Hdebounce : nc_debounce (po_config p) <= since now t) :
  fingerprint (net_raw (mo_network (monitor_run m (p :: recent ++ first :: older)))) = fp.
Proof.
  assert (under_way (monitor_run m (recent ++ first :: older)) fp t) as Hw.
  { induction Hrecent as [|p' recent Hp' _ IH]; cbn [app monitor_run foldr].
    - apply monitor_step_saw; [|done]. intros fp' t' Hpend.
      destruct (pending_was_sampled m older fp' t' Hstart Hpend) as (p' & s' & u' & Hin & Hs').
      by eapply Hclock.
    - by apply monitor_step_under_way. }
  cbn [monitor_run foldr]. fold (monitor_run m (recent ++ first :: older)).
  set (m' := monitor_run m (recent ++ first :: older)) in *. destruct Hp as (He & Hc).
  specialize (Hc s now u Hsample) as <-. unfold monitor_step. rewrite He, Hsample. cbn [negb].
  destruct (Z.eqb_spec (fingerprint (net_raw (mo_network m'))) (fingerprint s)) as [E|E]; [done|].
  destruct Hw as [|(t' & Hpend & Ht)]; [done|]. rewrite Hpend, Z.eqb_refl.
  assert ((nc_debounce (po_config p) <=? since now t') = true) as ->.
  { apply Z.leb_le. unfold since in *. unfold sat_sub in *. lia. }
  unfold apply_change, publish_network. by rewrite (proj2 (Z.eqb_neq _ _) E).
Qed.

End monitor.

(** ** Concrete runs *)

Section witnesses.
#[local] Existing Instance ipnet_reference.
#[local] Existing Instance addr_order.
#[local] Existing Instance validation_order.

Definition uplink (gateway : Z) : RawNetworkState :=
  mk_RawNetworkState (Some (lit "eth0")) (Some (ipv4 10 0 0 gateway)) None None (Some (ipv4 10 0 0 53)) None
    [lit "10.0.0.53"].

Definition poll (s : RawNetworkState) (secs : Z) : Poll :=
  mk_Poll default_NetworkConfig (Some (s, from_secs secs, 1000 + secs)).

Definition fresh_monitor : Monitor :=
  mk_Monitor None unknown_network (store_new 8) (state_new 8 official) disabled.

(** A host that starts without any route is never found to be offline: what it
    samples has the fingerprint of the snapshot that was never determined, so the
    families stay unknown instead of unusable. *)
Theorem offline_start_stays_unknown n :
  net_v4 (mo_network (monitor_run fresh_monitor (repeat (poll no_network 5) n))) = FamilyUnknown ∧
  v4_state no_network = FamilyUnusable.
Proof.
  split; [|done].
  assert (mo_network (monitor_run fresh_monitor (repeat (poll no_network 5) n)) = unknown_network) as ->;
    [|done].
  induction n as [|n IH]; [done|]. cbn [repeat monitor_run foldr] in *.
  fold (monitor_run fresh_monitor (repeat (poll no_network 5) n)) in *. unfold monitor_step.
  cbn [poll po_config po_sample nc_enabled default_NetworkConfig negb]. by rewrite IH.
Qed.

(** One flap, then the new gateway for good. *)
Definition settled : list Poll := [poll (uplink 2) 15; poll (uplink 1) 10; poll (uplink 2) 5].

Lemma only_stable_changes_count_witness :
  net_generation (mo_network (monitor_run fresh_monitor settled)) = 1 ∧
  ∃ t, stable_since settled (fingerprint (uplink 2)) t ∧ from_secs 3 <= since (from_secs 20) t.
Proof.
  split; [vm_compute; reflexivity|].
  destruct (only_stable_changes_count fresh_monitor settled (poll (uplink 2) 20) eq_refl
    ltac:(right; vm_compute; discriminate)) as (s & now & u & t & Hs & Hst & Hd & _).
  injection Hs as <- <- <-. exists t. split; [exact Hst|exact Hd].
Defined.

Lemma stable_change_is_published_witness :
  fingerprint (net_raw (mo_network (monitor_run fresh_monitor (poll (uplink 2) 20 :: settled))))
  = fingerprint (uplink 2).
Proof.
  assert (∀ secs, consistent (fingerprint (uplink 2)) (poll (uplink 2) secs)) as Hc
    by (intros secs; split; [done|]; by intros s t u [= <- <- <-]).
  refine (stable_change_is_published fresh_monitor [] (poll (uplink 2) 15)
    [poll (uplink 1) 10; poll (uplink 2) 5] (poll (uplink 2) 20) (fingerprint (uplink 2)) (from_secs 15)
    (uplink 2) (from_secs 20) 1020 eq_refl _ _ _ (Hc _) eq_refl _).
  - intros p s t u. rewrite elem_of_cons, list_elem_of_singleton.
    intros [->| ->] [= <- <- <-]; vm_compute; discriminate.
  - split; [apply Hc|]. by eexists _, _.
  - constructor.
  - vm_compute. discriminate.
Defined.

End witnesses.
