(* ===== verification/Maintenance.v ===== *)
(** * Supervision and the publication of local data

    [src/tasks/mod.rs]: the supervisor of a background task, with its back-off, and the
    jitter of intervals.  [run_datasets] of [src/tasks/maintenance.rs] and the build that a
    reload starts ([reload] of [src/runtime/mod.rs]): who publishes local data, and from
    which configuration. *)

From Stdlib Require Import Ascii String.
From S2P Require Import Prelude.
From S2P Require Import Hashing.
From S2P Require Import Floats.
From S2P Require Import Names.
From S2P Require Import Net.
From S2P Require Import Text.
From S2P Require Import Config.
From S2P Require Import Util.
From S2P Require Import Ranking.
From S2P Require Import Datasets.

(** ** A supervised task *)

(** How an attempt ended. *)
Inductive TaskEnd : Set := EndReturned | EndCancelled | EndPanicked.

Inductive Phase : Type :=
| PhStart
| PhRunning (started : Instant)
| PhWaiting (wake : Instant)
| PhStopped.

Record Supervised : Type := mk_Supervised {
  sv_attempt : Z;
  sv_restarts : Z;
  sv_phase : Phase
}.

Definition supervised_new : Supervised := mk_Supervised 0 0 PhStart.

Definition STABLE_AFTER : Duration := from_secs 120.

Definition restart_backoff : Backoff := backoff_new (from_millis 500) (from_secs 60) (f64_lit 3 10).

Definition restart_delay (attempt : Z) : Duration :=
  backoff_delay restart_backoff attempt (Z.lxor attempt 0x9e3779b9).

(** What happens to the supervisor, with the time and whether it has been cancelled: the
    scheduler gives it a turn, or the attempt ends. *)
Inductive SuperviseStep : Type :=
| SvTurn (cancelled : bool) (now : Instant)
| SvEnds (cancelled : bool) (how : TaskEnd) (now : Instant).

Definition supervise (s : Supervised) (l : SuperviseStep) : Supervised :=
  match sv_phase s, l with
  | PhStart, SvTurn cancelled now =>
      mk_Supervised (sv_attempt s) (sv_restarts s) (if cancelled then PhStopped else PhRunning now)
  | PhRunning started, SvTurn true _ => mk_Supervised (sv_attempt s) (sv_restarts s) PhStopped
  | PhRunning started, SvEnds true _ _ => mk_Supervised (sv_attempt s) (sv_restarts s) PhStopped
  | PhRunning started, SvEnds false how now =>
      let attempt := if STABLE_AFTER <=? since now started then 0 else sv_attempt s in
      match how with
      | EndReturned | EndCancelled => mk_Supervised attempt (sv_restarts s) PhStopped
      | EndPanicked =>
          mk_Supervised (sat_add u32_max attempt 1) (sv_restarts s + 1)
            (PhWaiting (now + restart_delay attempt))
      end
  | PhWaiting wake, SvTurn true _ => mk_Supervised (sv_attempt s) (sv_restarts s) PhStopped
  | PhWaiting wake, SvTurn false now =>
      if wake <=? now then mk_Supervised (sv_attempt s) (sv_restarts s) PhStart else s
  | _, _ => s
  end.

Definition supervise_run (s : Supervised) (ls : list SuperviseStep) : Supervised := fold_left supervise ls s.

(** [jittered] of the tasks. *)
Definition jittered_interval (period : Duration) (seed : Z) : Duration :=
  mul_f64 period (f64_add (f64_lit 85 100) (f64_mul (f64_lit 3 10) (unit_from_seed seed))).

(** ** Local data *)

(** What a build reads of a configuration. *)
Record DataConfig : Type := mk_DataConfig {
  dc_datasets : DatasetsConfig;
  dc_local : Snapshot.LocalConfig
}.

Section local_data.
Context {Name : Type} (name_from_str : str -> option Name) (digest : Snapshot.ContentView Name -> Z).

(** [build]: [disk] is what reading a file gives. *)
Definition build_data (c : DataConfig) (disk : str -> option str) (now_unix : Z)
    : result Zones.ZoneError (Snapshot.DatasetSnapshot Name) :=
  Snapshot.build_snapshot name_from_str
    (Snapshot.mk_DatasetFiles (map disk (hosts_files (dc_datasets c)))
       (map disk (domain_category_files (dc_datasets c))) (max_records (dc_datasets c)))
    (dc_local c) now_unix.

(** The data in force, the configuration in force, the builds that reloads have started and
    the configuration the periodic task holds while it waits. *)
Record DataState : Type := mk_DataState {
  da_published : Snapshot.DatasetSnapshot Name;
  da_config : DataConfig;
  da_builds : list DataConfig;
  da_sleeping : option DataConfig
}.

Inductive DataStep : Type :=
| DsReload (c : DataConfig)
| DsBuilt (i : nat) (disk : str -> option str) (now_unix : Z)
| DsSleep
| DsWake (disk : str -> option str) (now_unix : Z).

Definition data_step (s : DataState) (l : DataStep) : DataState :=
  match l with
  | DsReload c => mk_DataState (da_published s) c (da_builds s ++ [c]) (da_sleeping s)
  | DsBuilt i disk now_unix =>
      match da_builds s !! i with
      | None => s
      | Some c =>
          mk_DataState
            (match build_data c disk now_unix with Ok snapshot => snapshot | Err _ => da_published s end)
            (da_config s) (delete i (da_builds s)) (da_sleeping s)
      end
  | DsSleep =>
      match da_sleeping s with
      | Some _ => s
      | None =>
          if reload_interval (dc_datasets (da_config s)) =? 0 then s
          else mk_DataState (da_published s) (da_config s) (da_builds s) (Some (da_config s))
      end
  | DsWake disk now_unix =>
      match da_sleeping s with
      | None => s
      | Some c =>
          mk_DataState
            (match build_data c disk now_unix with
             | Ok snapshot => (Snapshot.publish_if_changed digest (da_published s) snapshot).1
             | Err _ => da_published s
             end) (da_config s) (da_builds s) None
      end
  end.

Definition data_run (s : DataState) (ls : list DataStep) : DataState := fold_left data_step ls s.

(** The configurations that have been in force. *)
Definition data_configs (c : DataConfig) (ls : list DataStep) : list DataConfig :=
  c :: omap (λ l, match l with DsReload c => Some c | _ => None end) ls.
End local_data.

(** ** Supervision *)

(** Nobody stops the task: it is not cancelled and never returns. *)
Definition only_panics (l : SuperviseStep) : Prop :=
  match l with SvTurn cancelled _ => cancelled = false | SvEnds cancelled how _ => cancelled = false ∧ how = EndPanicked end.

Lemma supervise_goes_on s l :
  sv_phase s ≠ PhStopped -> only_panics l -> sv_phase (supervise s l) ≠ PhStopped.
Proof.
  intros Hs Hl. unfold supervise. destruct l as [c now|c how now]; cbn in Hl; [subst c|destruct Hl as [-> ->]];
    destruct (sv_phase s) as [|started|wake|] eqn:E; try done; try (by rewrite E).
  case_match; [done|]. by rewrite E.
Qed.

(** A panic does not end a background task.  However often and whenever its attempts panic,
    the supervisor goes on: it is running an attempt, or about to start one, or waiting
    for a time that was fixed when the last attempt ended, and the turn it gets once that
    time has come lets the next attempt start. *)
Theorem panics_do_not_end_a_task ls (Hls : Forall only_panics ls) :
  let s := supervise_run supervised_new ls in
  sv_phase s ≠ PhStopped ∧
  ∀ wake now now', sv_phase s = PhWaiting wake -> wake <= now ->
    sv_phase (supervise (supervise s (SvTurn false now)) (SvTurn false now')) = PhRunning now'.
Proof.
  intros s. split.
  - unfold s. assert (sv_phase supervised_new ≠ PhStopped) as H by done. revert H.
    generalize supervised_new. induction Hls as [|l ls Hl Hls IH]; intros s0 H0; cbn; [done|].
    apply IH. by apply supervise_goes_on.
  - intros wake now now' Hp Hle. unfold supervise at 2. rewrite Hp.
    by rewrite (proj2 (Z.leb_le _ _)) by done.
Qed.

(** The waiting time after [k] quick panics: within fifteen per cent of half a second doubled
    [k] times, up to a minute. *)
Definition delay_okb (k : Z) : bool :=
  let nominal := Z.min (500 * 2 ^ Z.min k 20) 60000 in
  (from_millis (nominal * 85 / 100) <=? restart_delay k) && (restart_delay k <=? from_millis (nominal * 115 / 100 + 1)).

Lemma delays_ok k : 0 <= k < 256 -> delay_okb k = true.
Proof.
  intros Hk. assert (forallb delay_okb (seqZ 0 256) = true) as H by (vm_compute; reflexivity).
  rewrite forallb_elem in H. apply H. by apply elem_of_seqZ.
Qed.

(** Restarts are spaced out.  An attempt that panics before it was stable is followed, for the
    first 256 in a row, by a wait that doubles from half a second to a minute, give or
    take fifteen per cent; one that ran for two minutes starts the doubling over. *)
Theorem restarts_are_spaced s started now
    (Hrun : sv_phase s = PhRunning started) (Hk : 0 <= sv_attempt s < 256) :
  let k := if STABLE_AFTER <=? since now started then 0 else sv_attempt s in
  let s' := supervise s (SvEnds false EndPanicked now) in
  let nominal := Z.min (500 * 2 ^ Z.min k 20) 60000 in
  sv_attempt s' = k + 1 ∧
  ∃ wake, sv_phase s' = PhWaiting wake ∧
    now + from_millis (nominal * 85 / 100) <= wake <= now + from_millis (nominal * 115 / 100 + 1).
Proof.
  intros k s' nominal. unfold s', supervise. rewrite Hrun. fold k.
  assert (0 <= k < 256) as Hk' by (unfold k; case_match; lia).
  split; [cbn; unfold sat_add, u32_max; lia|]. eexists. split; [done|].
  pose proof (delays_ok k Hk') as H. unfold delay_okb in H. fold nominal in H. bool_to_prop. lia.
Qed.

(** ** Local data *)

Section published.
Context {Name : Type} (name_from_str : str -> option Name) (digest : Snapshot.ContentView Name -> Z).

Definition data_inv (first : Snapshot.DatasetSnapshot Name) (cs : list DataConfig) (s : DataState) : Prop :=
  (da_published s = first ∨ ∃ c disk now_unix, c ∈ cs ∧ build_data name_from_str c disk now_unix = Ok (da_published s)) ∧
  da_config s ∈ cs ∧ (∀ c, c ∈ da_builds s -> c ∈ cs) ∧ (∀ c, da_sleeping s = Some c -> c ∈ cs).

Lemma data_step_inv first cs s l :
  data_inv first cs s -> (∀ c, l = DsReload c -> c ∈ cs) -> data_inv first cs (data_step name_from_str digest s l).
Proof.
  intros Hinv Hl. pose proof Hinv as (Hp & Hc & Hb & Hs).
  assert (∀ c disk now_unix d, c ∈ cs -> build_data name_from_str c disk now_unix = Ok d ->
    d = first ∨ ∃ c disk now_unix, c ∈ cs ∧ build_data name_from_str c disk now_unix = Ok d) as Hok by eauto 8.
  destruct l as [c|i disk now_unix| |disk now_unix]; cbn.
  - split_and!; cbn; [done|by apply Hl| |done]. intros c' [?|H%list_elem_of_singleton]%elem_of_app; [auto|subst c'; by apply Hl].
  - destruct (da_builds s !! i) as [c|] eqn:Ei; [|done].
    split_and!; cbn; [|done| |done].
    + destruct (build_data _ _ _ _) as [d|] eqn:E; [|done]. eapply Hok; [|exact E].
      eapply Hb, list_elem_of_lookup_2, Ei.
    + intros c' Hc'. apply Hb. rewrite delete_take_drop in Hc'.
      apply elem_of_app in Hc' as [(j & Hj & _)%elem_of_take|(j & Hj)%list_elem_of_lookup_1];
        [|rewrite lookup_drop in Hj]; by eapply list_elem_of_lookup_2.
  - repeat case_match; [done|done|]. split_and!; cbn; [done|done|done|by intros c [= <-]].
  - destruct (da_sleeping s) as [c|] eqn:Ec; [|done]. split_and!; cbn; [|done|done|done].
    destruct (build_data _ _ _ _) as [d|] eqn:E; [|done].
    unfold Snapshot.publish_if_changed. case_match; [done|]. cbn. eapply Hok; [|exact E]. by apply Hs.
Qed.

(** What a build of [c] makes of the files [disk] gives: the configured hosts and then, file
    by file, those of the hosts files that can be read, the zones and rules of [c], and
    the number of files that were left out. *)
Definition built (c : DataConfig) (disk : str -> option str) (d : Snapshot.DatasetSnapshot Name) : Prop :=
  let sets := dc_datasets c in
  Snapshot.ds_hosts d =
    fold_left (λ t text, (Hosts.load_hosts_format t text (max_records sets)).1) (omap disk (hosts_files sets))
      (fold_left (λ t e, Hosts.insert t (Snapshot.he_name e) (Snapshot.he_addresses e))
         (Snapshot.lc_hosts (dc_local c)) ∅) ∧
  Zones.build name_from_str (Snapshot.lc_zones (dc_local c)) (Snapshot.lc_local_ttl (dc_local c))
    = Ok (Snapshot.ds_zones d) ∧
  Snapshot.ds_suffix_rules d = Snapshot.build_suffix_rules (Snapshot.lc_suffix_rules (dc_local c)) ∧
  Snapshot.st_skipped_files (Snapshot.ds_stats d) =
    Z.of_nat (length (hosts_files sets ++ domain_category_files sets))
    - Z.of_nat (length (omap disk (hosts_files sets ++ domain_category_files sets))).

Lemma load_files_readable max (disk : str -> option str) paths acc :
  (fold_left (Snapshot.load_hosts_files max) (map disk paths) acc).1 =
  fold_left (λ t text, (Hosts.load_hosts_format t text max).1) (omap disk paths) acc.1.
Proof.
  revert acc. induction paths as [|p paths IH]; intros [t n]; cbn; [done|].
  destruct (disk p) as [text|]; cbn [fst snd fold_left]; [|apply IH].
  rewrite IH. cbn [Snapshot.load_hosts_files fst]. by destruct (Hosts.load_hosts_format t text max).
Qed.

Lemma skipped_count (disk : str -> option str) paths :
  Snapshot.skipped (map disk paths) = Z.of_nat (length paths) - Z.of_nat (length (omap disk paths)).
Proof.
  unfold Snapshot.skipped. induction paths as [|p paths IH]; [done|]. cbn [map List.filter length omap list_omap].
  destruct (disk p); cbn [length] in *; lia.
Qed.

Lemma build_data_built c disk now_unix d :
  build_data name_from_str c disk now_unix = Ok d -> built c disk d.
Proof.
  unfold build_data, Snapshot.build_snapshot, built. cbn zeta.
  cbn [Snapshot.df_hosts Snapshot.df_categories Snapshot.df_max_records].
  pose proof (load_files_readable (max_records (dc_datasets c)) disk (hosts_files (dc_datasets c))
    (fold_left (λ t e, Hosts.insert t (Snapshot.he_name e) (Snapshot.he_addresses e))
       (Snapshot.lc_hosts (dc_local c)) ∅, 0)) as Hh.
  destruct (fold_left (Snapshot.load_hosts_files _) _ _) as [hosts dropped].
  destruct (Zones.build _ _ _) as [zones|]; [|done]. intros [= <-].
  split_and!; [exact Hh|done|done|].
  cbn [Snapshot.ds_stats Snapshot.st_skipped_files]. rewrite !skipped_count, omap_app, !length_app. lia.
Qed.

(** What finishes a build of [c], reading [disk]. *)
Definition finishes (s : DataState (Name := Name)) (l : DataStep) (c : DataConfig) (disk : str -> option str) : Prop :=
  (∃ i now_unix, l = DsBuilt i disk now_unix ∧ da_builds s !! i = Some c) ∨
  (∃ now_unix, l = DsWake disk now_unix ∧ da_sleeping s = Some c).

Lemma data_step_changes s l :
  da_published (data_step name_from_str digest s l) ≠ da_published s ->
  ∃ c disk, finishes s l c disk ∧ built c disk (da_published (data_step name_from_str digest s l)).
Proof.
  destruct l as [c|i disk now_unix| |disk now_unix]; cbn; try done.
  - destruct (da_builds s !! i) as [c|] eqn:Ei; [|done]. cbn.
    destruct (build_data _ _ _ _) as [d|] eqn:E; [|done]. intros _. exists c, disk.
    split; [left; by exists i, now_unix|by eapply build_data_built].
  - repeat case_match; done.
  - destruct (da_sleeping s) as [c|] eqn:Ec; [|done]. cbn.
    destruct (build_data _ _ _ _) as [d|] eqn:E; [|done]. unfold Snapshot.publish_if_changed.
    case_match; [done|]. intros _. exists c, disk.
    split; [right; by exists now_unix|by eapply build_data_built].
Qed.

Lemma data_run_inv first c ls :
  data_inv first (data_configs c ls) (data_run name_from_str digest (mk_DataState first c [] None) ls).
Proof.
  unfold data_run. set (cs := data_configs c ls).
  assert (∀ l c', l ∈ ls -> l = DsReload c' -> c' ∈ cs) as Hcs.
  { intros l c' Hl ->. right. apply list_elem_of_omap. by exists (DsReload c'). }
  assert (data_inv first cs (mk_DataState first c [] None)) as Hi.
  { split_and!; cbn; [by left|left|by intros ? ?%elem_of_nil|done]. }
  clearbody cs. revert Hi. generalize (mk_DataState first c [] None).
  induction ls as [|l ls IH]; intros s Hi; cbn; [done|]. apply IH.
  - intros l' c' Hl'. apply Hcs. by right.
  - apply data_step_inv; [done|]. intros c'. apply Hcs. left.
Qed.

End published.

(** ** Concrete runs *)

Section witnesses.

Definition crash (secs : Z) : list SuperviseStep :=
  [SvTurn false (from_secs secs); SvEnds false EndPanicked (from_secs (secs + 1))].

Lemma panics_do_not_end_a_task_witness :
  sv_phase (supervise_run supervised_new (crash 0 ++ [SvTurn false (from_secs 5)] ++ crash 6)) ≠ PhStopped.
Proof.
  apply (panics_do_not_end_a_task (crash 0 ++ [SvTurn false (from_secs 5)] ++ crash 6)).
  repeat (constructor; [cbn; tauto|]). constructor.
Defined.

Lemma restarts_are_spaced_witness :
  sv_attempt (supervise (mk_Supervised 3 3 (PhRunning 0)) (SvEnds false EndPanicked (from_secs 1))) = 4.
Proof. apply (restarts_are_spaced (mk_Supervised 3 3 (PhRunning 0)) 0 (from_secs 1) eq_refl). cbn. lia. Defined.

(** A configuration whose only local data is one host. *)
Definition one_host (name : str) : DataConfig :=
  mk_DataConfig default_DatasetsConfig
    (Snapshot.mk_LocalConfig [Snapshot.mk_HostEntry name [V4 (ipv4 192 0 2 1)]] [] [] 60).

Definition no_files (path : str) : option str := None.

Definition as_written (s : str) : option str := Some s.

(** A digest that tells the tables of hosts apart. *)
Definition hosts_digest (v : Snapshot.ContentView str) : Z :=
  fnv1a64 (concat (map (λ e, map code e.1) (Snapshot.cv_hosts v))).

Definition host_names (s : @DataState str) : list str :=
  fst <$> map_to_list (Snapshot.ds_hosts (da_published s)).

#[local] Abbreviation data ls :=
  (data_run as_written hosts_digest (mk_DataState Snapshot.empty (one_host (lit "old.test")) [] None) ls).

(** A reload is undone.  The periodic task holds the configuration it read before it waited:
    a reload in between publishes the data of the new configuration, and when the task
    wakes it builds from the old one and puts its data back in force. *)
Theorem sleeping_task_undoes_a_reload :
  let before := [DsSleep; DsReload (one_host (lit "new.test")); DsBuilt 0 no_files 1] in
  host_names (data before) = [lit "new.test."] ∧
  host_names (data (before ++ [DsWake no_files 2])) = [lit "old.test."] ∧
  dc_local (da_config (data (before ++ [DsWake no_files 2]))) = dc_local (one_host (lit "new.test")).
Proof. split_and!; vm_compute; reflexivity. Qed.

(** A file that cannot be read empties what came from it.  The comments say that the previous
    data is kept; the build leaves the file out, does not fail, and is published. *)
Theorem unreadable_file_is_left_out :
  let c := mk_DataConfig (mk_DatasetsConfig [lit "/etc/lan.hosts"] [] None None (from_secs 60) 4096 16)
             (Snapshot.mk_LocalConfig [] [] [] 60) in
  let readable := λ path, Some (lit "192.0.2.1 nas.lan") in
  let s := data_run as_written hosts_digest (mk_DataState Snapshot.empty c [] None) [DsSleep; DsWake readable 1] in
  host_names s = [lit "nas.lan."] ∧
  host_names (data_run as_written hosts_digest s [DsSleep; DsWake no_files 2]) = [].
Proof. split; vm_compute; reflexivity. Qed.

(** Each reload starts a build of its own and nothing orders them: when the first of two is
    the last to finish, its data stays. *)
Theorem older_build_may_win :
  host_names (data [DsReload (one_host (lit "first.test")); DsReload (one_host (lit "second.test"));
                    DsBuilt 1 no_files 1; DsBuilt 0 no_files 2]) = [lit "first.test."].
Proof. vm_compute. reflexivity. Qed.
End witnesses.
