(* ===== verification/Admin.v ===== *)
(** * Administration

    [src/admin/mod.rs] and [src/admin/server.rs]: the parsing of a request line, the
    commands, and what each does to the process.  The JSON decoder is a parameter; of the
    commands that only report, the figures they print are left out. *)

From Stdlib Require Import Ascii String.
From S2P Require Import Prelude.
From S2P Require Import Hashing.
From S2P Require Import Floats.
From S2P Require Import Names.
From S2P Require Import Net.
From S2P Require Import Text.
From S2P Require Import Config.
From S2P Require Import Urls.
From S2P Require Import Errors.
From S2P Require Import EdnsOptions.
From S2P Require Import Cache.
From S2P Require Import Prefixes.
From S2P Require Import CloudflarePolicy.
From S2P Require Import Candidates.
From S2P Require Import Sampler.
From S2P Require Import Probing.
From S2P Require Import RateLimit.
From S2P Require Import Validate.
From S2P Require Import Scheduler.
From S2P Require Import Registry.
From S2P Require Import Reload.
From S2P Require Import Runtime.
From S2P Require Import CloudflareTasks.

Record Request : Type := mk_Request { rq_command : str; rq_args : list str }.

Inductive AdminError : Type :=
| AeIo (error : str)
| AeMalformed (what : str)
| AeUnknownCommand (command : str)
| AeInvalidArguments (what : str)
| AeRefused (what : str).

Definition show_admin (e : AdminError) : str :=
  match e with
  | AeIo s => lit "admin io error: " ++ s
  | AeMalformed s => lit "malformed admin request: " ++ s
  | AeUnknownCommand s => lit "unknown command `" ++ s ++ lit "`"
  | AeInvalidArguments s => lit "invalid arguments: " ++ s
  | AeRefused s => lit "operation refused: " ++ s
  end.

(** What a successful command reports. *)
Inductive AdminData : Type :=
| DataView (command : str)
| DataValid
| DataReloaded (count : Z)
| DataFlushed (what : str)
| DataDisabled
| DataQueued (jobs : nat)
| DataMode (mode configured : CloudflareMode).

Inductive Response : Type :=
| RespOk (data : AdminData)
| RespErr (error : str).

Definition COMMANDS : list str :=
  map lit ["status"; "check-config"; "reload"; "upstreams"; "network"; "cache-stats"; "flush-name";
           "flush-all"; "cloudflare"; "dump-effective-config"]%string.

Definition CLOUDFLARE_SUBCOMMANDS : list str :=
  map lit ["status"; "sources"; "candidates"; "scan-now"; "verify-domain"; "set-mode";
           "clear-mode-override"]%string.

(** [from_str] is the JSON decoder. *)
Definition parse_request (from_str : str -> option Request) (line : str) (max_bytes : Z)
    : result AdminError Request :=
  if max_bytes <? Z.of_nat (length line)
  then Err (AeMalformed (lit "request exceeds the configured size limit"))
  else
    match from_str line with
    | None => Err (AeMalformed (lit "request was not a valid JSON object"))
    | Some request =>
        if is_empty (rq_command request) || (64 <? length (rq_command request))%nat
        then Err (AeMalformed (lit "command name is missing or implausible"))
        else if (8 <? length (rq_args request))%nat then Err (AeInvalidArguments (lit "too many arguments"))
        else if existsb (λ arg, (512 <? length arg)%nat) (rq_args request)
        then Err (AeInvalidArguments (lit "argument is too long"))
        else if negb (existsb (str_eqb (rq_command request)) COMMANDS)
        then Err (AeUnknownCommand (bounded_octets (rq_command request) 64))
        else Ok request
    end.

Definition mode_parse (raw : str) : option CloudflareMode :=
  if str_eqb raw (lit "off") then Some CfOff
  else if str_eqb raw (lit "preserve") then Some CfPreserve
  else if str_eqb raw (lit "verified-augment") || str_eqb raw (lit "verified_augment") then Some CfVerifiedAugment
  else None.

(** The parts of the process a command can reach. *)
Record Admin {Name : Type} {ML : MokaLib CacheKey} {GL : GovernorLib} : Type := mk_Admin {
  ad_app : App;
  ad_cache : DnsCache Name;
  ad_cloudflare : CloudflareState;
  ad_sampler : StratifiedSampler
}.
Arguments Admin Name {ML GL}.
Arguments mk_Admin {Name ML GL}.

Section admin.
Context {Name : Type} {ML : MokaLib CacheKey}.
Context {IPL : IpNetLib} {UL : UrlLib} {TL : TomlLib} {GL : GovernorLib} {HO : HashOrder str}.
Context {HA : HashOrder IpAddr} {HV : HashOrder (list ascii * IpAddr)}.
Context (sha256 : list Z -> list Z) (random : RouteKey -> Z).
Context (root_store : UpstreamTlsConfig -> result str unit) (trust_anchors : str -> result str unit).
Context (show : ConfigError -> str) (from_str : str -> option Request).
Implicit Types (a : Admin Name).

Definition with_app a (app : App) : Admin Name := mk_Admin app (ad_cache a) (ad_cloudflare a) (ad_sampler a).
Definition with_admin_cache a (c : DnsCache Name) : Admin Name :=
  mk_Admin (ad_app a) c (ad_cloudflare a) (ad_sampler a).

Definition with_probe_queue (app : App) (q : ProbeQueue) : App :=
  mk_App (app_state app) (app_startup app) q (app_prefetch app) (app_mode app) (app_ready app)
    (app_reloads app) (app_last_reload_error app).

Definition with_mode (app : App) (m : ModeOverride.ModeState) : App :=
  mk_App (app_state app) (app_startup app) (app_probes app) (app_prefetch app) m (app_ready app)
    (app_reloads app) (app_last_reload_error app).

Definition admin_config a : Config := rs_config (app_state (ad_app a)).

(** The clock, the network generation, and what reading the configuration file gives. *)
Record AdminWorld : Type := mk_AdminWorld {
  aw_now : Instant;
  aw_generation : Z;
  aw_file : result str str
}.

(** Jobs offered one after the other: how many the queue took. *)
Definition offer_jobs (jobs : list ProbeJob) (q : ProbeQueue) : nat * ProbeQueue :=
  fold_left (λ acc job, let '(taken, q) := offer acc.2 job in
                        (if taken : bool then S acc.1 else acc.1, q)) jobs (0%nat, q).

(** [scan-now]: every address of a round is proposed and offered. *)
Definition scan_now (w : AdminWorld) a : Response * Admin Name :=
  match cs_prefixes (ad_cloudflare a) with
  | None => (RespErr (lit "no official prefix snapshot is loaded yet"), a)
  | Some prefixes =>
      let '(addrs, sampler) :=
        next_round (ad_sampler a) prefixes
          (Z.to_nat (sampling_addresses_per_round (cf_sampling (cloudflare (admin_config a))))) in
      let cf := fold_left (λ cf addr, apply_event cf (EvAdmit (V4 addr) Sampling (aw_generation w) (aw_now w) None))
                  addrs (ad_cloudflare a) in
      let '(queued, q) :=
        offer_jobs (map (λ addr, JobCandidate (V4 addr) 443 (aw_generation w)) addrs) (app_probes (ad_app a)) in
      (RespOk (DataQueued queued), mk_Admin (with_probe_queue (ad_app a) q) (ad_cache a) cf sampler)
  end.

Definition verify_jobs (w : AdminWorld) a (host : str) : list ProbeJob :=
  concat (map (λ ipv4, map (λ c, JobValidate host (cd_addr c) 443 (aw_generation w))
                         (take 4 (eligible_candidates (cs_pool (ad_cloudflare a)) ipv4 1))) [true; false]).

Definition verify_domain (w : AdminWorld) a (host : str) : Response * Admin Name :=
  let '(queued, q) := offer_jobs (verify_jobs w a host) (app_probes (ad_app a)) in
  (RespOk (DataQueued queued), with_app a (with_probe_queue (ad_app a) q)).

Definition set_mode a (raw : option str) : Response * Admin Name :=
  match raw with
  | None => (RespErr (lit "set-mode requires off|preserve|verified-augment"), a)
  | Some raw =>
      match mode_parse raw with
      | None =>
          (RespErr (lit "unknown mode `" ++ raw ++ lit "`; expected off, preserve or verified-augment"), a)
      | Some requested =>
          match ModeOverride.set_mode_override (app_mode (ad_app a)) requested with
          | Ok m => (RespOk (DataMode (ModeOverride.mode m) (ModeOverride.configured_mode m)),
                     with_app a (with_mode (ad_app a) m))
          | Err _ =>
              (RespErr (lit "a runtime override may only weaken the configured mode; edit the configuration and reload to strengthen it"), a)
          end
      end
  end.

Definition admin_cloudflare (w : AdminWorld) a (args : list str) : Response * Admin Name :=
  let sub := match args with s :: _ => s | [] => lit "status" end in
  if negb (existsb (str_eqb sub) CLOUDFLARE_SUBCOMMANDS)
  then (RespErr (lit "unknown cloudflare sub-command `" ++ sub ++ lit "`"), a)
  else if negb (cf_enabled (cloudflare (admin_config a))) then (RespOk DataDisabled, a)
  else if str_eqb sub (lit "scan-now") then scan_now w a
  else if str_eqb sub (lit "set-mode") then set_mode a (args !! 1%nat)
  else if str_eqb sub (lit "clear-mode-override") then
    let m := ModeOverride.clear_mode_override (app_mode (ad_app a)) in
    (RespOk (DataMode (ModeOverride.mode m) (ModeOverride.configured_mode m)), with_app a (with_mode (ad_app a) m))
  else if str_eqb sub (lit "verify-domain") then
    match args !! 1%nat with
    | None => (RespErr (lit "verify-domain requires a hostname"), a)
    | Some host => verify_domain w a host
    end
  else (RespOk (DataView sub), a).

Definition flush_command a (args : list str) : Response * Admin Name :=
  match args with
  | [] => (RespErr (lit "flush-name requires a domain name"), a)
  | name :: rest =>
      let c := if (match rest with flag :: _ => str_eqb flag (lit "--suffix") | [] => false end)
               then flush_suffix (ad_cache a) name else flush_name (ad_cache a) name in
      (RespOk (DataFlushed name), with_admin_cache a (run_maintenance c))
  end.

Definition reload_command (w : AdminWorld) a : Response * Admin Name :=
  let '(app, r) := reload sha256 random root_store trust_anchors show (aw_file w) (ad_app a) in
  (match r with Ok _ => RespOk (DataReloaded (app_reloads app)) | Err e => RespErr e end, with_app a app).

Definition dispatch (w : AdminWorld) a (r : Request) : Response * Admin Name :=
  let command := rq_command r in
  if str_eqb command (lit "check-config") then
    (match load_config (aw_file w) with Ok _ => RespOk DataValid | Err e => RespErr (show e) end, a)
  else if str_eqb command (lit "reload") then reload_command w a
  else if str_eqb command (lit "flush-name") then flush_command a (rq_args r)
  else if str_eqb command (lit "flush-all") then
    (RespOk (DataFlushed (lit "all")), with_admin_cache a (run_maintenance (flush_all (ad_cache a))))
  else if str_eqb command (lit "cloudflare") then admin_cloudflare w a (rq_args r)
  else if existsb (str_eqb command) COMMANDS then (RespOk (DataView command), a)
  else (RespErr (lit "unknown command `" ++ command ++ lit "`"), a).

(** One line of a connection: no answer to an empty one. *)
Definition handle_line (max_bytes : Z) (w : AdminWorld) a (line : str) : option Response * Admin Name :=
  if is_empty (trim line) then (None, a)
  else
    match parse_request from_str line max_bytes with
    | Ok r => let '(resp, a) := dispatch w a r in (Some resp, a)
    | Err e => (Some (RespErr (show_admin e)), a)
    end.

(** A connection: the bound is the one of the configuration it was opened under. *)
Definition handle_connection a (ls : list (AdminWorld * str)) : list Response * Admin Name :=
  let max_bytes := admin_max_request_bytes (admin (admin_config a)) in
  fold_left (λ acc l, let '(resp, a) := handle_line max_bytes l.1 acc.2 l.2 in
                      (acc.1 ++ from_option (λ r, [r]) [] resp, a)) ls ([], a).
End admin.

(** ** Jobs and the queue *)

(** No more jobs wait than the channel holds. *)
Definition queue_bound (q : ProbeQueue) : Prop :=
  match pq_channel q with Some (capacity, jobs) => (length jobs <= capacity)%nat | None => True end.

Lemma offer_spec q job taken q' :
  offer q job = (taken, q') -> queue_bound q ->
  queue_bound q' ∧ waiting q' = waiting q ++ (if taken then [job] else []).
Proof.
  unfold offer. intros H Hb.
  destruct (pq_enabled q); cbn [negb] in H; [|injection H as <- <-; by rewrite app_nil_r].
  unfold queue_bound, waiting in *.
  destruct (pq_channel q) as [[cap jobs]|] eqn:E; [|injection H as <- <-; by rewrite E].
  destruct (Nat.ltb_spec (length jobs) cap); injection H as <- <-; cbn; [|by rewrite E, app_nil_r].
  rewrite length_app. cbn. split; [lia|done].
Qed.

(** The number reported is the number of jobs added, and nothing else is added. *)
Lemma offer_jobs_spec jobs q n q' :
  offer_jobs jobs q = (n, q') -> queue_bound q ->
  queue_bound q' ∧ ∃ taken, taken `sublist_of` jobs ∧ waiting q' = waiting q ++ taken ∧ length taken = n.
Proof.
  revert n q'. induction jobs as [|job jobs IH] using rev_ind; intros n q' H Hb.
  { cbn in H. simplify_eq. split; [done|]. exists []. by rewrite app_nil_r. }
  unfold offer_jobs in *. rewrite fold_left_app in H. cbn in H.
  destruct (fold_left _ jobs _) as [m q1]. cbn in H.
  destruct (IH _ _ eq_refl Hb) as (Hb1 & taken & Hs & Hw & Hl).
  destruct (offer q1 job) as [t q2] eqn:Eo. destruct (offer_spec _ _ _ _ Eo Hb1) as [Hb2 Hw2].
  simplify_eq. split; [done|]. exists (taken ++ if t then [job] else []).
  split; [apply sublist_app; [done|]; destruct t; [done|apply sublist_nil_l]|].
  rewrite Hw2, Hw, app_assoc, length_app. split; [done|]. destruct t; cbn; lia.
Qed.

(** ** What a command may do *)

#[local] Existing Instance unearned_preorder.

Record admin_inv {Name : Type} {ML : MokaLib CacheKey} {IPL : IpNetLib} {GL : GovernorLib} (a : Admin Name) : Prop := {
  ai_mode : ModeOverride.mode_inv (app_mode (ad_app a));
  ai_cloudflare : state_inv (ad_cloudflare a);
  ai_queue : queue_bound (app_probes (ad_app a))
}.

Section commands.
Context {Name : Type} {ML : MokaLib CacheKey} {MLW : MokaLaws CacheKey}.
Context {IPL : IpNetLib} {UL : UrlLib} {TL : TomlLib} {GL : GovernorLib} {HO : HashOrder str}.
Context {HA : HashOrder IpAddr} {HV : HashOrder (list ascii * IpAddr)}.
Context (sha256 : list Z -> list Z) (random : RouteKey -> Z).
Context (root_store : UpstreamTlsConfig -> result str unit) (trust_anchors : str -> result str unit).
Context (show : ConfigError -> str) (from_str : str -> option Request).
Implicit Types (a : Admin Name).

#[local] Notation dispatch' := (dispatch sha256 random root_store trust_anchors show).
#[local] Notation handle_connection' :=
  (handle_connection sha256 random root_store trust_anchors show from_str).

(** A step that keeps the invariant and learns nothing. *)
Definition proposes a a' : Prop :=
  (admin_inv a -> admin_inv a') ∧ unearned (ad_cloudflare a) (ad_cloudflare a').

Lemma proposes_refl a : proposes a a.
Proof. by split. Qed.

Lemma proposes_trans a b c : proposes a b -> proposes b c -> proposes a c.
Proof. intros [H1 U1] [H2 U2]. split; [auto|by etrans]. Qed.

Lemma proposes_cache a c : proposes a (with_admin_cache a c).
Proof. split; [|done]. by intros [? ? ?]. Qed.

Lemma proposes_mode a m : ModeOverride.step (app_mode (ad_app a)) m -> proposes a (with_app a (with_mode (ad_app a) m)).
Proof. intros Hs. split; [|done]. intros [Hm ? ?]. split; [by eapply ModeOverride.mode_inv_step|done|done]. Qed.

Lemma proposes_jobs a jobs n q :
  offer_jobs jobs (app_probes (ad_app a)) = (n, q) -> proposes a (with_app a (with_probe_queue (ad_app a) q)).
Proof. intros Hq. split; [|done]. intros [? ? Hb]. split; [done|done|]. by apply (offer_jobs_spec _ _ _ _ Hq). Qed.

Lemma admissions_propose g now cf addrs :
  let cf' := fold_left (λ cf addr, apply_event cf (EvAdmit (V4 addr) Sampling g now None)) addrs cf in
  (state_inv cf -> state_inv cf') ∧ unearned cf cf'.
Proof.
  cbn. revert cf. induction addrs as [|x addrs IH]; intros cf; cbn [fold_left]; [done|].
  destruct (IH (apply_event cf (EvAdmit (V4 x) Sampling g now None))) as [Hi Hu].
  split; [intros ?; by apply Hi, apply_event_inv|]. etrans; [apply admit_unearned|done].
Qed.

Lemma scan_proposes w a : proposes a (scan_now w a).2.
Proof.
  unfold scan_now. destruct (cs_prefixes _); [|apply proposes_refl].
  destruct (next_round _ _ _) as [addrs sampler]. destruct (offer_jobs _ _) as [n q] eqn:Eq.
  destruct (admissions_propose (aw_generation w) (aw_now w) (ad_cloudflare a) addrs) as [Hi Hu].
  split; [|done]. intros [? ? Hb]. split; [done|by apply Hi|]. by apply (offer_jobs_spec _ _ _ _ Eq).
Qed.

Lemma set_mode_proposes a raw : proposes a (set_mode a raw).2.
Proof.
  unfold set_mode. destruct raw as [raw|]; [|apply proposes_refl].
  destruct (mode_parse raw) as [m|]; [|apply proposes_refl].
  destruct (ModeOverride.set_mode_override _ m) eqn:E; [|apply proposes_refl].
  eapply proposes_mode, ModeOverride.step_set, E.
Qed.

Lemma cloudflare_proposes w a args : proposes a (admin_cloudflare w a args).2.
Proof.
  unfold admin_cloudflare. repeat (case_match; try apply proposes_refl); cbn [snd].
  all: first [apply scan_proposes | apply set_mode_proposes
             | apply proposes_mode, ModeOverride.step_clear | idtac].
  unfold verify_domain. destruct (offer_jobs _ _) eqn:E. by eapply proposes_jobs.
Qed.

Lemma reload_proposes w a : proposes a (reload_command sha256 random root_store trust_anchors show w a).2.
Proof.
  unfold reload_command, reload. split; [|by repeat case_match; simplify_eq].
  intros [Hm ? Hq]. repeat case_match; simplify_eq; cbn [snd]; (split; [|done|done]); try done.
  cbn. eapply ModeOverride.mode_inv_step; [done|constructor].
Qed.

Lemma dispatch_proposes w a r : proposes a (dispatch' w a r).2.
Proof.
  unfold dispatch. repeat (case_match; try apply proposes_refl); cbn [snd].
  - apply reload_proposes.
  - unfold flush_command. destruct (rq_args r); [apply proposes_refl|apply proposes_cache].
  - apply proposes_cache.
  - apply cloudflare_proposes.
Qed.

Lemma line_proposes max_bytes w a line :
  proposes a (handle_line sha256 random root_store trust_anchors show from_str max_bytes w a line).2.
Proof.
  unfold handle_line. destruct (is_empty (trim line)); [apply proposes_refl|].
  destruct (parse_request _ _ _) as [r|e]; [|apply proposes_refl].
  pose proof (dispatch_proposes w a r) as H. by destruct (dispatch' w a r).
Qed.

Lemma connection_proposes a ls : proposes a (handle_connection' a ls).2.
Proof.
  unfold handle_connection. set (max_bytes := admin_max_request_bytes _). clearbody max_bytes.
  induction ls as [|l ls IH] using rev_ind; [apply proposes_refl|].
  rewrite fold_left_app. cbn [fold_left]. eapply proposes_trans; [apply IH|].
  destruct (fold_left _ ls _) as [out b]. cbn [snd].
  pose proof (line_proposes max_bytes l.1 b l.2) as H.
  by destruct (handle_line _ _ _ _ _ _ _ _ _ _).
Qed.

(** C26. An operator can only propose: whatever lines a connection sends, no address becomes
    validated for a host, no candidate advances, no host's baseline changes; the pool
    stays within its capacity and the official prefixes, the probe queue within its
    capacity, and the mode in force is never stronger than the configured one. *)
Theorem operators_only_propose a ls a' :
  admin_inv a -> (handle_connection' a ls).2 = a' ->
  admin_inv a' ∧ unearned (ad_cloudflare a) (ad_cloudflare a') ∧
  ModeOverride.mode_rank (ModeOverride.mode (app_mode (ad_app a')))
    <= ModeOverride.mode_rank (ModeOverride.configured_mode (app_mode (ad_app a'))).
Proof.
  intros Hi <-. destruct (connection_proposes a ls) as [Hk Hu]. specialize (Hk Hi).
  split; [done|]. split; [done|]. destruct Hk as [[_ Ho] _ _]. unfold ModeOverride.mode.
  unfold ModeOverride.mode_override in Ho. destruct (ModeOverride.mode_from_u8 _); [by apply Ho|done].
Qed.

(** A command that is refused changes nothing; of a failed reload the process keeps only
    the error it reports. *)
Theorem failed_commands_change_nothing w a r e :
  (dispatch' w a r).1 = RespErr e ->
  (dispatch' w a r).2 = a ∨
  (rq_command r = lit "reload" ∧ (dispatch' w a r).2 = with_app a (reload_failed (ad_app a) e)).
Proof.
  unfold dispatch. destruct (str_eqb _ (lit "check-config")); [by left|].
  destruct (str_eqb _ (lit "reload")) eqn:Er.
  { apply str_eqb_eq in Er. unfold reload_command, reload. intros H. right.
    split; [done|]. repeat case_match; cbn in *; simplify_eq; done. }
  unfold flush_command, admin_cloudflare, set_mode, scan_now, verify_domain.
  repeat case_match; cbn [fst snd]; intros H'; try done; by left.
Qed.

(** After a name has been flushed, in whatever letter case it was given and with or
    without the trailing dot, the cache holds nothing for it: no answer, no remembered
    failure and no variants, of any type. *)
Theorem flushed_names_are_gone w a ls text k :
  Forall label_ok ls -> ls ≠ [] -> key_name k = dotted (map to_ascii_lowercase ls) ->
  text = join_with dot ls ∨ text = dotted ls ->
  let '(resp, a') := dispatch' w a (mk_Request (lit "flush-name") [text]) in
  resp = RespOk (DataFlushed text) ∧ m_get (c_answers (ad_cache a')) k = None ∧
  m_get (c_failures (ad_cache a')) k = None ∧ m_get (c_variants (ad_cache a')) k = None.
Proof.
  intros Hl Hn Hk Ht. cbn -[flush_name]. split; [done|].
  assert (str_eqb (key_name k) (normalize_name text) = true) as He
    by (rewrite (normalize_name_dotted ls), Hk by done; by apply str_eqb_eq).
  split_and!; apply eq_None_not_Some; intros [x Hx%m_get_maintain];
    apply m_get_invalidate_if in Hx as [_ Hx]; congruence.
Qed.

(** [scan-now] asks for a probe of every sampled address whatever the pool said of it:
    what it reports and what it queues do not depend on the pool. *)
Theorem scan_ignores_admission w a p :
  let b := mk_Admin (ad_app a) (ad_cache a) (with_pool (ad_cloudflare a) p) (ad_sampler a) in
  (scan_now w b).1 = (scan_now w a).1 ∧
  app_probes (ad_app (scan_now w b).2) = app_probes (ad_app (scan_now w a).2).
Proof.
  unfold scan_now, admin_config. cbn. destruct (cs_prefixes (ad_cloudflare a)); [|done].
  destruct (next_round _ _ _). by destruct (offer_jobs _ _).
Qed.
End commands.

(** ** A concrete process *)

Section witnesses.
#[local] Existing Instance ipnet_reference.
#[local] Existing Instance plain_urls.
#[local] Existing Instance plain_toml.
#[local] Existing Instance open_governor.
#[local] Existing Instance group_order.
#[local] Existing Instance moka_assoc.
#[local] Existing Instance moka_assoc_laws.
#[local] Existing Instance addr_order.
#[local] Existing Instance validation_order.

(** A decoder for requests written as words. *)
Definition word_request (line : str) : option Request :=
  match split_whitespace line with [] => None | command :: args => Some (mk_Request command args) end.

(** A process that augments answers, its probes enabled. *)
Definition augmenting_admin : Admin str :=
  mk_Admin
    (mk_App (let s := app_state plain_app in
             mk_RuntimeState (on_cloudflare (λ _, augmenting) (rs_config s)) (rs_acl s) (rs_limiter s)
               (rs_registry s) (rs_query_timeout s) (rs_relearn_window s))
       (app_startup plain_app) (queue_new 8 true) (app_prefetch plain_app)
       (ModeOverride.mode_new true CfVerifiedAugment) true 0 None)
    filled_cache (state_new 8 official) (sampler_new 7 4 f64_zero).

(** The file is as it was; the clock stands at [secs]. *)
Definition admin_at (secs : Z) : AdminWorld := mk_AdminWorld (from_secs secs) 1 (Ok (lit "9.9.9.9")).

#[local] Abbreviation run_lines ls :=
  (handle_connection no_digest no_random fine fine show_error word_request augmenting_admin
     (map (λ l, (admin_at 0, lit l)) ls)).

#[local] Abbreviation run_dispatch r :=
  (dispatch no_digest no_random fine fine show_error (admin_at 0) augmenting_admin r).

Lemma augmenting_admin_inv : admin_inv augmenting_admin.
Proof.
  split; [apply ModeOverride.reachable_mode_inv, ModeOverride.reach_new|apply state_new_inv|].
  vm_compute. lia.
Qed.

(** The mode is weakened and restored, a scan queues a probe in each bucket of the prefix,
    and an unknown command is refused. *)
Example session_answers :
  (run_lines ["cloudflare set-mode preserve"; ""; "cloudflare clear-mode-override"; "cloudflare scan-now";
              "reboot"; "flush-all"]%string).1
  = [RespOk (DataMode CfPreserve CfVerifiedAugment); RespOk (DataMode CfVerifiedAugment CfVerifiedAugment);
     RespOk (DataQueued 4); RespErr (lit "unknown command `reboot`"); RespOk (DataFlushed (lit "all"))].
Proof. vm_compute. reflexivity. Qed.

Lemma operators_only_propose_witness :
  let a' := (run_lines ["cloudflare scan-now"; "cloudflare set-mode off"]%string).2 in
  admin_inv a' ∧ cs_validations (ad_cloudflare a') = ∅.
Proof.
  destruct (operators_only_propose no_digest no_random fine fine show_error word_request
    augmenting_admin _ _ augmenting_admin_inv
    (eq_refl (run_lines ["cloudflare scan-now"; "cloudflare set-mode off"]%string).2)) as (Hi & Hu & _).
  split; [exact Hi|]. exact (un_validations _ _ Hu).
Defined.

Lemma failed_commands_change_nothing_witness :
  let r := mk_Request (lit "cloudflare") [lit "set-mode"; lit "always"] in
  (run_dispatch r).2 = augmenting_admin ∨
  (rq_command r = lit "reload" ∧
   (run_dispatch r).2 = with_app augmenting_admin (reload_failed (ad_app augmenting_admin)
     (lit "unknown mode `always`; expected off, preserve or verified-augment"))).
Proof. apply failed_commands_change_nothing. vm_compute. reflexivity. Defined.

Lemma flushed_names_are_gone_witness :
  let '(resp, a') := run_dispatch (mk_Request (lit "flush-name") [lit "WWW.example.com"]) in
  resp = RespOk (DataFlushed (lit "WWW.example.com")) ∧ m_get (c_answers (ad_cache a')) sample_key = None ∧
  m_get (c_failures (ad_cache a')) sample_key = None ∧ m_get (c_variants (ad_cache a')) sample_key = None.
Proof.
  apply (flushed_names_are_gone no_digest no_random fine fine show_error (admin_at 0) augmenting_admin
    [lit "WWW"; lit "example"; lit "com"]).
  - repeat (apply Forall_cons_2; [split; [done|by apply (bool_decide_unpack _)]|]). apply Forall_nil_2.
  - done.
  - vm_compute. reflexivity.
  - left. vm_compute. reflexivity.
Defined.
End witnesses.
