(* ===== verification/Detect.v ===== *)
(** * Detection of the network

    [src/network/detect.rs] on Linux: the default routes of the tables under [/proc/net],
    the addresses of the interfaces, and the observation made of them.  The contents of
    the two files, the interfaces and the kernel's choice of a source address are
    arguments; the host is little-endian. *)

From Stdlib Require Import Ascii String.
From S2P Require Import Prelude.
From S2P Require Import Names.
From S2P Require Import Net.
From S2P Require Import Text.
From S2P Require Import Util.
From S2P Require Import Addresses.
From S2P Require Import Prefixes.
From S2P Require Import Network.
From S2P Require Import Datasets.

(** ** Numbers *)

Fixpoint radix_digits (radix max acc : Z) (s : str) : option Z :=
  match s with
  | [] => Some acc
  | c :: s' =>
      match to_digit radix c with
      | Some d => let acc := acc * radix + d in if acc <=? max then radix_digits radix max acc s' else None
      | None => None
      end
  end.

(** [from_str_radix] at an unsigned type with the given maximum. *)
Definition from_str_radix (radix max : Z) (s : str) : option Z :=
  let digits := match s with
                | c :: s' => if ascii_eqb c (chr 43) then s' else s
                | [] => []
                end in
  if is_empty digits then None else radix_digits radix max 0 digits.

(** [u32::to_be] of a little-endian host. *)
Definition swap_bytes (x : Z) : Z :=
  x mod 256 * 2 ^ 24 + x / 2 ^ 8 mod 256 * 2 ^ 16 + x / 2 ^ 16 mod 256 * 2 ^ 8 + x / 2 ^ 24.

(** ** Route tables *)

(** The best route so far, under its metric, and the next one. *)
Definition keep_best {A} (best next : option (Z * A)) : option (Z * A) :=
  match next with
  | None => best
  | Some (metric, _) =>
      match best with
      | None => next
      | Some (m, _) => if metric <? m then next else best
      end
  end.

Definition chosen {A} (best : option (Z * (str * option A))) : option str * option A :=
  match best with Some (_, (iface, gw)) => (Some iface, gw) | None => (None, None) end.

(** What a line of [/proc/net/route] says of a default route, from its columns. *)
Definition row_v4 (cols : list str) : option (Z * (str * option Z)) :=
  match cols with
  | c0 :: c1 :: c2 :: _ :: _ :: _ :: c6 :: c7 :: _ =>
      let dest := default u32_max (from_str_radix 16 u32_max c1) in
      let mask := default u32_max (from_str_radix 16 u32_max c7) in
      if negb (dest =? 0) || negb (mask =? 0) then None
      else
        let metric := default u32_max (parse_uint u32_max c6) in
        let gw := match from_str_radix 16 u32_max c2 with
                  | Some g => if g =? 0 then None else Some (swap_bytes g)
                  | None => None
                  end in
        Some (metric, (c0, gw))
  | _ => None
  end.

Definition parse_route_v4 (text : str) : option str * option Z :=
  chosen (fold_left (λ best line, keep_best best (row_v4 (split_whitespace line))) (tail (lines text)) None).

(** [s.is_char_boundary(i)]. *)
Definition is_char_boundary (s : str) (i : nat) : bool :=
  match s !! i with
  | Some c => (code c <? 128) || (192 <=? code c)
  | None => (i =? length s)%nat
  end.

(** The octets of an address two digits at a time; no result where the slice panics. *)
Fixpoint hex_octets (s : str) (i n : nat) (acc : Z) : option (option Z) :=
  match n with
  | O => Some (Some acc)
  | S n =>
      if negb (is_char_boundary s (2 * i)) || negb (is_char_boundary s (2 * i + 2)) then None
      else
        match from_str_radix 16 u8_max (take 2 (drop (2 * i) s)) with
        | None => Some None
        | Some b => hex_octets s (S i) n (acc * 256 + b)
        end
  end.

Definition parse_hex_v6 (s : str) : option (option Z) :=
  if negb (length s =? 32)%nat then Some None else hex_octets s 0 16 0.

Definition zeros_v6 : str := lit "00000000000000000000000000000000".

Definition row_v6 (cols : list str) : option (option (Z * (str * option Z))) :=
  match cols with
  | c0 :: c1 :: _ :: _ :: c4 :: c5 :: _ :: _ :: _ :: c9 :: _ =>
      if negb (str_eqb c0 zeros_v6) || negb (str_eqb c1 (lit "00")) then Some None
      else if str_eqb c9 (lit "lo") then Some None
      else
        let metric := default u32_max (from_str_radix 16 u32_max c5) in
        match parse_hex_v6 c4 with
        | None => None
        | Some gw =>
            let gw := match gw with Some a => if a =? 0 then None else Some a | None => None end in
            Some (Some (metric, (c9, gw)))
        end
  | _ => Some None
  end.

(** No result where the code panics. *)
Definition parse_route_v6 (text : str) : option (option str * option Z) :=
  chosen <$> fold_left (λ acc line,
      match acc with
      | None => None
      | Some best => keep_best best <$> row_v6 (split_whitespace line)
      end) (lines text) (Some None).

(** ** Interfaces *)

Section interfaces.
Context {NL : IpNetLib}.

Definition reportable (ip : IpAddr) : bool :=
  IpClass.is_global_unicast ip ||
  match IpClass.classify ip with
  | Some IpClass.Private | Some IpClass.SharedAddressSpace => true
  | _ => false
  end.

(** [getifaddrs] gives interface names with their addresses, if they have one of a known
    family; nothing when it fails. *)
Definition global_interface_addresses (ifaddrs : option (list (str * option IpAddr))) : list str :=
  match ifaddrs with
  | None => []
  | Some l =>
      dedup (stable_sort Snapshot.str_leb
        (omap (λ e : str * option IpAddr,
           match e.2 with
           | Some ip => if reportable ip then Some (print_ip ip ++ lit "%" ++ e.1) else None
           | None => None
           end) l))
  end.

(** The observation; a file that cannot be read is empty.  No result where parsing panics. *)
Definition sample (route_v4 route_v6 : option str) (select_source : IpAddr -> option IpAddr)
    (ifaddrs : option (list (str * option IpAddr))) (reference_v4 reference_v6 : IpAddr)
    : option RawNetworkState :=
  let '(iface4, gw4) := parse_route_v4 (default [] route_v4) in
  '(iface6, gw6) ← parse_route_v6 (default [] route_v6);
  Some (mk_RawNetworkState iface4 gw4 iface6 gw6
          (match select_source reference_v4 with Some (V4 a) => Some a | _ => None end)
          (match select_source reference_v6 with Some (V6 a) => Some a | _ => None end)
          (global_interface_addresses ifaddrs)).
End interfaces.

(** ** The best route *)

Lemma keep_best_spec {A} (cs : list (option (Z * A))) :
  match fold_left keep_best cs None with
  | None => ∀ c, c ∈ cs -> c = None
  | Some (m, x) =>
      ∃ i, cs !! i = Some (Some (m, x)) ∧
        ∀ j m' x', cs !! j = Some (Some (m', x')) -> m <= m' ∧ ((j < i)%nat -> m < m')
  end.
Proof.
  induction cs as [|c cs IH] using rev_ind; [intros c Hc; by apply not_elem_of_nil in Hc|].
  rewrite fold_left_app. cbn [fold_left]. destruct (fold_left keep_best cs None) as [[m x]|]; cbn.
  - destruct IH as (i & Hi & Hmin). pose proof (lookup_lt_Some _ _ _ Hi) as Hlt.
    destruct c as [[metric y]|]; cbn [keep_best].
    2: { exists i. split; [by apply lookup_app_l_Some|]. intros j m' x' Hj.
         apply lookup_app_Some in Hj as [Hj|[_ Hj]]; [by eapply Hmin|].
         by apply list_lookup_singleton_Some in Hj as [_ ?]. }
    destruct (Z.ltb_spec metric m).
    + exists (length cs). split; [by apply list_lookup_middle|]. intros j m' x' Hj.
      apply lookup_app_Some in Hj as [Hj|[Hl Hj]]; [destruct (Hmin _ _ _ Hj); lia|].
      apply list_lookup_singleton_Some in Hj as [? ?]. simplify_eq. lia.
    + exists i. split; [by apply lookup_app_l_Some|]. intros j m' x' Hj.
      apply lookup_app_Some in Hj as [Hj|[Hl Hj]]; [by eapply Hmin|].
      apply list_lookup_singleton_Some in Hj as [? ?]. simplify_eq. lia.
  - destruct c as [[metric y]|]; cbn [keep_best].
    + exists (length cs). split; [by apply list_lookup_middle|]. intros j m' x' Hj.
      apply lookup_app_Some in Hj as [Hj|[Hl Hj]]; [apply list_elem_of_lookup_2, IH in Hj; done|].
      apply list_lookup_singleton_Some in Hj as [? ?]. simplify_eq. lia.
    + intros c [Hc|Hc]%elem_of_app; [by apply IH|]. by apply list_elem_of_singleton in Hc.
Qed.

(** ** Printed numbers *)

Lemma radix_digits_value radix max s v acc :
  0 <= radix -> Forall2 (λ c d, to_digit radix c = Some d) s v -> Forall (λ d, 0 <= d) v ->
  1 <= radix -> 0 <= acc -> fold_left (λ a d, a * radix + d) v acc <= max ->
  radix_digits radix max acc s = Some (fold_left (λ a d, a * radix + d) v acc).
Proof.
  intros Hr Hs Hv Hr1. revert acc. induction Hs as [|c d s v Hc Hs IH]; intros acc Ha Hm; cbn in *; [done|].
  apply Forall_cons in Hv as [Hd Hv]. rewrite Hc.
  assert (∀ a, 0 <= a -> a <= fold_left (λ a d, a * radix + d) v a) as Hge.
  { clear -Hv Hr1. induction v as [|d v IHv]; cbn; [lia|]. apply Forall_cons in Hv as [? ?].
    intros a Ha. etrans; [|apply IHv; [done|nia]]. nia. }
  specialize (Hge (acc * radix + d) ltac:(nia)).
  destruct (Z.leb_spec (acc * radix + d) max); [|lia]. apply IH; [done|nia|done].
Qed.

Lemma from_str_radix_value radix max s v :
  1 <= radix <= 36 -> s ≠ [] -> Forall2 (λ c d, to_digit radix c = Some d) s v -> Forall (λ d, 0 <= d) v ->
  fold_left (λ a d, a * radix + d) v 0 <= max ->
  from_str_radix radix max s = Some (fold_left (λ a d, a * radix + d) v 0).
Proof.
  intros Hr Hs Hv Hd Hm. unfold from_str_radix.
  assert (match s with c :: s' => if ascii_eqb c (chr 43) then s' else s | [] => [] end = s) as ->.
  { destruct Hv as [|c d s v Hc _]; [done|]. destruct (ascii_eqb c (chr 43)) eqn:E; [|done].
    apply ascii_eqb_eq in E as ->. done. }
  destruct s as [|c s]; [done|]. cbn [is_empty]. apply radix_digits_value; auto; lia.
Qed.

Lemma parse_uint_radix max s : parse_uint max s = from_str_radix 10 max s.
Proof.
  unfold parse_uint, from_str_radix. destruct (is_empty _); [done|].
  generalize (match s with c :: s' => if ascii_eqb c (chr 43) then s' else s | [] => [] end). clear s.
  generalize 0. intros acc s. revert acc. induction s as [|c s IH]; intros acc; cbn; [done|].
  destruct (to_digit 10 c); [|done]. by destruct (_ <=? max).
Qed.

(** The digits of [z] to [n] places, as the kernel prints them. *)
Fixpoint places (radix : Z) (n : nat) (z : Z) : list Z :=
  match n with O => [] | S n => places radix n (z / radix) ++ [z mod radix] end.

Definition upper_digit (d : Z) : ascii := chr (if d <? 10 then 48 + d else 55 + d).
Definition lower_digit (d : Z) : ascii := chr (if d <? 10 then 48 + d else 87 + d).

Definition hex_upper (n : nat) (z : Z) : str := map upper_digit (places 16 n z).
Definition hex_lower (n : nat) (z : Z) : str := map lower_digit (places 16 n z).

Lemma places_length radix n z : length (places radix n z) = n.
Proof. revert z. induction n as [|n IH]; intros z; cbn; [done|]. rewrite length_app, IH. cbn. lia. Qed.

Lemma places_range radix n z : 0 < radix -> Forall (λ d, 0 <= d < radix) (places radix n z).
Proof.
  intros Hr. revert z. induction n as [|n IH]; intros z; cbn; [constructor|].
  apply Forall_app. split; [done|]. constructor; [by apply Z.mod_pos_bound|constructor].
Qed.

Lemma places_fold radix n z :
  0 < radix -> 0 <= z < radix ^ Z.of_nat n -> fold_left (λ a d, a * radix + d) (places radix n z) 0 = z.
Proof.
  intros Hr. revert z. induction n as [|n IH]; intros z Hz; [cbn in *; lia|].
  cbn [places]. rewrite fold_left_app. cbn [fold_left].
  rewrite Nat2Z.inj_succ, Z.pow_succ_r in Hz by lia.
  rewrite IH; [pose proof (Z.div_mod z radix ltac:(lia)); lia|].
  split; [apply Z.div_pos; lia|apply Z.div_lt_upper_bound; lia].
Qed.

Lemma digit_values (digit : Z -> ascii) ds :
  (∀ d, 0 <= d < 16 -> to_digit 16 (digit d) = Some d) -> Forall (λ d, 0 <= d < 16) ds ->
  Forall2 (λ c d, to_digit 16 c = Some d) (map digit ds) ds.
Proof. intros Hd. induction 1; cbn; constructor; auto. Qed.

Lemma upper_digit_value d : 0 <= d < 16 -> to_digit 16 (upper_digit d) = Some d.
Proof.
  intros Hd.
  assert (forallb (λ d, bool_decide (to_digit 16 (upper_digit d) = Some d)) (seqZ 0 16) = true) as H
    by (vm_compute; reflexivity).
  rewrite forallb_elem in H. specialize (H d). rewrite bool_decide_eq_true in H. apply H.
  by apply elem_of_seqZ.
Qed.

Lemma from_str_radix_digits (digit : Z -> ascii) max n z :
  (∀ d, 0 <= d < 16 -> to_digit 16 (digit d) = Some d) -> n ≠ 0%nat -> 0 <= z < 16 ^ Z.of_nat n -> z <= max ->
  from_str_radix 16 max (map digit (places 16 n z)) = Some z.
Proof.
  intros Hd Hn Hz Hm. pose proof (places_range 16 n z ltac:(lia)) as Hr.
  rewrite (from_str_radix_value _ _ _ (places 16 n z)); rewrite ?places_fold; try done; try lia.
  - intros E%(f_equal length). rewrite length_map, places_length in E. done.
  - by apply digit_values.
  - eapply Forall_impl; [exact Hr|]. cbn. lia.
Qed.

(** ** Octets of an address *)

Lemma digit_boundary c d : to_digit 16 c = Some d -> code c <? 128 = true.
Proof.
  unfold to_digit. destruct ((48 <=? code c) && (code c <=? 57)) eqn:E1; [bool_to_prop; intros _; lia|].
  destruct ((97 <=? code c) && (code c <=? 122)) eqn:E2; [bool_to_prop; intros _; lia|].
  destruct ((65 <=? code c) && (code c <=? 90)) eqn:E3; [bool_to_prop; intros _; lia|done].
Qed.

Lemma hex_octets_value s v i n acc :
  Forall2 (λ c d, to_digit 16 c = Some d) s v -> Forall (λ d, 0 <= d < 16) v -> (2 * (i + n) = length s)%nat ->
  hex_octets s i n acc = Some (Some (fold_left (λ a d, a * 16 + d) (drop (2 * i) v) acc)).
Proof.
  intros Hs Hv. revert i acc. induction n as [|n IH]; intros i acc Hl.
  { cbn. rewrite drop_ge; [done|]. apply Forall2_length in Hs. lia. }
  destruct (lookup_lt_is_Some_2 s (2 * i)) as [c1 E1]; [lia|].
  destruct (lookup_lt_is_Some_2 s (S (2 * i))) as [c2 E2]; [lia|].
  destruct (Forall2_lookup_l _ _ _ _ _ Hs E1) as (d1 & F1 & H1).
  destruct (Forall2_lookup_l _ _ _ _ _ Hs E2) as (d2 & F2 & H2).
  assert (∀ k, (k <= length s)%nat -> is_char_boundary s k = true) as Hb.
  { intros k Hk. unfold is_char_boundary. destruct (s !! k) as [c|] eqn:E.
    - destruct (Forall2_lookup_l _ _ _ _ _ Hs E) as (d & _ & Hd). by rewrite (digit_boundary _ _ Hd).
    - apply lookup_ge_None in E. apply Nat.eqb_eq. lia. }
  cbn [hex_octets]. rewrite !Hb by lia. cbn [negb orb].
  rewrite (drop_S _ _ _ E1), (drop_S _ _ _ E2). rewrite !firstn_cons, take_0.
  rewrite Forall_lookup in Hv. pose proof (Hv _ _ F1). pose proof (Hv _ _ F2).
  rewrite (from_str_radix_value 16 u8_max [c1; c2] [d1; d2]); [|lia|done|by repeat constructor| |].
  2: { repeat constructor; lia. }
  2: { cbn. unfold u8_max. lia. }
  rewrite IH by lia. rewrite (drop_S _ _ _ F1), (drop_S _ _ _ F2). cbn [fold_left].
  replace (S (S (2 * i))) with (2 * S i)%nat by lia. do 3 f_equal. lia.
Qed.

Lemma parse_hex_v6_lower a : 0 <= a < 2 ^ 128 -> parse_hex_v6 (hex_lower 32 a) = Some (Some a).
Proof.
  intros Ha. unfold parse_hex_v6, hex_lower. rewrite length_map, places_length. cbn [Nat.eqb negb].
  pose proof (places_range 16 32 a ltac:(lia)) as Hr.
  rewrite (hex_octets_value _ (places 16 32 a)); [|by apply digit_values; [apply hex_digit_value|]|done|].
  - rewrite drop_0, places_fold; [done|lia|exact Ha].
  - by rewrite length_map, places_length.
Qed.

Lemma decimal_value c d : 0 <= d < 10 -> c = chr (48 + d) -> to_digit 10 c = Some d.
Proof.
  intros Hd ->.
  assert (forallb (λ d, bool_decide (to_digit 10 (chr (48 + d)) = Some d)) (seqZ 0 10) = true) as H
    by (vm_compute; reflexivity).
  rewrite forallb_elem in H. specialize (H d). rewrite bool_decide_eq_true in H. apply H.
  by apply elem_of_seqZ.
Qed.

Lemma decimal_values fuel z :
  0 <= z < 10 ^ Z.of_nat fuel ->
  ∃ v, Forall2 (λ c d, to_digit 10 c = Some d) (digits_of fuel z) v ∧ Forall (λ d, 0 <= d) v ∧
    fold_left (λ a d, a * 10 + d) v 0 = z.
Proof.
  revert z. induction fuel as [|fuel IH]; intros z Hz.
  { exists []. split; [constructor|]. split; [constructor|]. cbn in *. lia. }
  cbn [digits_of]. pose proof (Z.mod_pos_bound z 10 ltac:(lia)) as Hm.
  rewrite Nat2Z.inj_succ, Z.pow_succ_r in Hz by lia. destruct (Z.ltb_spec z 10) as [Hlt|Hge].
  - exists [z]. rewrite Z.mod_small by lia. split; [|split; [by repeat constructor; lia|done]].
    constructor; [by eapply decimal_value; [lia|]|constructor].
  - destruct (IH (z / 10)) as (v & Hv & Hr & Hf).
    { split; [apply Z.div_pos; lia|apply Z.div_lt_upper_bound; lia]. }
    exists (v ++ [z mod 10]). split; [apply Forall2_app; [done|]; constructor; [by eapply decimal_value; [lia|]|constructor]|].
    split; [apply Forall_app; split; [done|]; by repeat constructor; lia|].
    rewrite fold_left_app, Hf. cbn. pose proof (Z.div_mod z 10 ltac:(lia)). lia.
Qed.

Lemma parse_uint_decimal z : is_u32 z -> parse_uint u32_max (digits_of 10 z) = Some z.
Proof.
  intros Hz. rewrite parse_uint_radix. unfold is_u32, u32_max in Hz.
  destruct (decimal_values 10 z) as (v & Hv & Hr & Hf); [cbn; lia|].
  rewrite (from_str_radix_value 10 u32_max _ v); [by rewrite Hf|lia| |done|done|rewrite Hf; unfold u32_max; lia].
  cbn [digits_of]. intros E%app_eq_nil. by destruct E.
Qed.

Lemma swap_bytes_involutive x : is_u32 x -> swap_bytes (swap_bytes x) = x.
Proof.
  unfold is_u32, u32_max. intros Hx. unfold swap_bytes.
  set (a := x mod 256). set (b := x / 2 ^ 8 mod 256). set (c := x / 2 ^ 16 mod 256). set (d := x / 2 ^ 24).
  assert (x = d * 2 ^ 24 + c * 2 ^ 16 + b * 2 ^ 8 + a) as Ex.
  { unfold a, b, c, d. clear. change (2 ^ 16) with (2 ^ 8 * 256). change (2 ^ 24) with (2 ^ 8 * 256 * 256).
    rewrite <- !Z.div_div by lia. change (2 ^ 8) with 256.
    pose proof (Z.div_mod x 256 ltac:(lia)). pose proof (Z.div_mod (x / 256) 256 ltac:(lia)).
    pose proof (Z.div_mod (x / 256 / 256) 256 ltac:(lia)). lia. }
  pose proof (Z.mod_pos_bound x 256 ltac:(lia)) as Ha. fold a in Ha.
  pose proof (Z.mod_pos_bound (x / 2 ^ 8) 256 ltac:(lia)) as Hb. fold b in Hb.
  pose proof (Z.mod_pos_bound (x / 2 ^ 16) 256 ltac:(lia)) as Hc. fold c in Hc.
  assert (0 <= d < 256) as Hd by (unfold d; split; [apply Z.div_pos|apply Z.div_lt_upper_bound]; lia).
  clearbody a b c d. rewrite Ex. clear Hx Ex x.
  set (y := a * 2 ^ 24 + b * 2 ^ 16 + c * 2 ^ 8 + d).
  assert (y mod 256 = d) as -> by (symmetry; apply (Z.mod_unique _ _ (a * 2 ^ 16 + b * 2 ^ 8 + c)); unfold y; lia).
  assert (y / 2 ^ 8 = a * 2 ^ 16 + b * 2 ^ 8 + c) as ->
    by (symmetry; apply (Z.div_unique _ _ _ d); unfold y; lia).
  assert (y / 2 ^ 16 = a * 2 ^ 8 + b) as -> by (symmetry; apply (Z.div_unique _ _ _ (c * 2 ^ 8 + d)); unfold y; lia).
  assert (y / 2 ^ 24 = a) as ->
    by (symmetry; apply (Z.div_unique _ _ _ (b * 2 ^ 16 + c * 2 ^ 8 + d)); unfold y; lia).
  rewrite <- (Z.mod_unique (a * 2 ^ 16 + b * 2 ^ 8 + c) 256 (a * 2 ^ 8 + b) c) by lia.
  rewrite <- (Z.mod_unique (a * 2 ^ 8 + b) 256 a b) by lia. lia.
Qed.

Lemma swap_bytes_range x : is_u32 x -> is_u32 (swap_bytes x).
Proof.
  unfold is_u32, u32_max, swap_bytes. intros Hx.
  pose proof (Z.mod_pos_bound x 256 ltac:(lia)). pose proof (Z.mod_pos_bound (x / 2 ^ 8) 256 ltac:(lia)).
  pose proof (Z.mod_pos_bound (x / 2 ^ 16) 256 ltac:(lia)).
  assert (0 <= x / 2 ^ 24 < 256) by (split; [apply Z.div_pos|apply Z.div_lt_upper_bound]; lia). lia.
Qed.

Lemma swap_bytes_zero x : is_u32 x -> swap_bytes x =? 0 = (x =? 0).
Proof.
  intros Hx. destruct (Z.eqb_spec x 0) as [->|Hn]; [done|]. apply Z.eqb_neq. intros E.
  apply Hn. by rewrite <- (swap_bytes_involutive x), E.
Qed.

(** ** Tables as the kernel prints them *)

Record RouteV4 : Type := mk_RouteV4 {
  r4_iface : str;
  r4_dest : Z;
  r4_gateway : Z;
  r4_flags : list str;
  r4_metric : Z;
  r4_mask : Z;
  r4_rest : list str
}.

Definition route4_ok (r : RouteV4) : Prop :=
  is_u32 (r4_dest r) ∧ is_u32 (r4_gateway r) ∧ is_u32 (r4_metric r) ∧ is_u32 (r4_mask r) ∧
  length (r4_flags r) = 3%nat.

(** The columns of a route: addresses as the integer a little-endian host reads, the
    metric in decimal. *)
Definition columns_v4 (r : RouteV4) : list str :=
  [r4_iface r; hex_upper 8 (swap_bytes (r4_dest r)); hex_upper 8 (swap_bytes (r4_gateway r))] ++ r4_flags r ++
  [digits_of 10 (r4_metric r); hex_upper 8 (swap_bytes (r4_mask r))] ++ r4_rest r.

Definition default_v4 (r : RouteV4) : Prop := r4_dest r = 0 ∧ r4_mask r = 0.

Definition via (gateway : Z) : option Z := if gateway =? 0 then None else Some gateway.

Lemma hex_upper_value x : is_u32 x -> from_str_radix 16 u32_max (hex_upper 8 x) = Some x.
Proof.
  intros Hx. unfold is_u32, u32_max in Hx. apply from_str_radix_digits;
    [apply upper_digit_value|done|cbn; lia|unfold u32_max; lia].
Qed.

Lemma row_v4_columns r :
  route4_ok r ->
  row_v4 (columns_v4 r)
  = if bool_decide (r4_dest r = 0) && bool_decide (r4_mask r = 0)
    then Some (r4_metric r, (r4_iface r, via (r4_gateway r))) else None.
Proof.
  intros (Hd & Hg & Hm & Hk & Hf). unfold columns_v4.
  destruct (r4_flags r) as [|f1 [|f2 [|f3 [|]]]]; try done. cbn [app row_v4].
  rewrite !hex_upper_value by by apply swap_bytes_range. cbn [default from_option]. unfold id.
  rewrite !swap_bytes_zero, parse_uint_decimal, swap_bytes_involutive by done.
  destruct (Z.eqb_spec (r4_dest r) 0), (Z.eqb_spec (r4_mask r) 0); repeat case_bool_decide; done.
Qed.

(** The interface and next hop reported are those of the default route with the least
    metric, the first one listed of several; without a default route nothing is reported. *)
Definition cheapest {R A} (is_default : R -> Prop) (metric : R -> Z) (name : R -> str) (hop : R -> option A)
    (rows : list R) (found : option str * option A) : Prop :=
  match found with
  | (Some iface, gw) =>
      ∃ i r, rows !! i = Some r ∧ is_default r ∧ iface = name r ∧ gw = hop r ∧
        ∀ j r', rows !! j = Some r' -> is_default r' -> metric r <= metric r' ∧ ((j < i)%nat -> metric r < metric r')
  | (None, gw) => gw = None ∧ ∀ r, r ∈ rows -> ~ is_default r
  end.

Lemma cheapest_chosen {R A} (is_default : R -> Prop) `{∀ r, Decision (is_default r)} metric name
    (hop : R -> option A) rows :
  cheapest is_default metric name hop rows
    (chosen (fold_left keep_best
      (map (λ r, if bool_decide (is_default r) then Some (metric r, (name r, hop r)) else None) rows) None)).
Proof.
  pose proof (keep_best_spec
    (map (λ r, if bool_decide (is_default r) then Some (metric r, (name r, hop r)) else None) rows)) as Hk.
  destruct (fold_left keep_best _ None) as [[m [iface gw]]|]; cbn.
  - destruct Hk as (i & Hi & Hmin). apply list_lookup_fmap_Some in Hi as (r & Hc & Hr).
    case_bool_decide; [|done]. simplify_eq. exists i, r. split_and!; try done.
    intros j r' Hj Hd. apply (Hmin j (metric r') (name r', hop r')).
    rewrite list_lookup_fmap, Hj. cbn. by rewrite bool_decide_true.
  - split; [done|]. intros r Hr Hd.
    specialize (Hk _ (proj2 (list_elem_of_fmap _ _ _) (ex_intro _ r (conj eq_refl Hr)))).
    cbv beta in Hk. by rewrite bool_decide_true in Hk.
Qed.

(** From a table as the kernel prints it, whatever white space separates the columns, the
    interface and the next hop of the cheapest default route are read. *)
Theorem default_route_v4_is_found text rows :
  map split_whitespace (tail (lines text)) = map columns_v4 rows -> Forall route4_ok rows ->
  cheapest default_v4 r4_metric r4_iface (λ r, via (r4_gateway r)) rows (parse_route_v4 text).
Proof.
  intros Ht Hok. unfold parse_route_v4.
  assert (∀ ls best, fold_left (λ best line, keep_best best (row_v4 (split_whitespace line))) ls best
    = fold_left keep_best (map row_v4 (map split_whitespace ls)) best) as ->
    by (intros ls; induction ls as [|l ls IH]; intros best; cbn; auto).
  rewrite Ht, map_map. unfold default_v4.
  rewrite (map_ext_Forall _ (λ r, if bool_decide (r4_dest r = 0 ∧ r4_mask r = 0)
     then Some (r4_metric r, (r4_iface r, via (r4_gateway r))) else None)).
  - apply (cheapest_chosen (λ r, r4_dest r = 0 ∧ r4_mask r = 0)).
  - eapply Forall_impl; [exact Hok|]. intros r Hr. cbv beta. rewrite row_v4_columns by done.
    by rewrite bool_decide_and.
Qed.

Record RouteV6 : Type := mk_RouteV6 {
  r6_dest : Z;
  r6_prefix_len : Z;
  r6_source : list str;
  r6_gateway : Z;
  r6_metric : Z;
  r6_flags : list str;
  r6_iface : str
}.

Definition route6_ok (r : RouteV6) : Prop :=
  0 <= r6_dest r < 2 ^ 128 ∧ 0 <= r6_prefix_len r <= 128 ∧ 0 <= r6_gateway r < 2 ^ 128 ∧ is_u32 (r6_metric r) ∧
  length (r6_source r) = 2%nat ∧ length (r6_flags r) = 3%nat.

Definition columns_v6 (r : RouteV6) : list str :=
  [hex_lower 32 (r6_dest r); hex_lower 2 (r6_prefix_len r)] ++ r6_source r ++
  [hex_lower 32 (r6_gateway r); hex_lower 8 (r6_metric r)] ++ r6_flags r ++ [r6_iface r].

(** The routes on [lo] are the ones that reject. *)
Definition default_v6 (r : RouteV6) : Prop :=
  (r6_dest r = 0 ∧ r6_prefix_len r = 0) ∧ r6_iface r ≠ lit "lo".

#[global] Instance default_v6_dec r : Decision (default_v6 r).
Proof. unfold default_v6. apply _. Defined.

Lemma hex_lower_value x : is_u32 x -> from_str_radix 16 u32_max (hex_lower 8 x) = Some x.
Proof.
  intros Hx. unfold is_u32, u32_max in Hx. apply from_str_radix_digits;
    [apply hex_digit_value|done|cbn; lia|unfold u32_max; lia].
Qed.

Lemma hex_lower_inj n x y :
  0 <= x < 16 ^ Z.of_nat n -> 0 <= y < 16 ^ Z.of_nat n -> hex_lower n x = hex_lower n y -> x = y.
Proof.
  intros Hx Hy E. destruct n as [|n]; [cbn in *; lia|].
  assert (∀ z, 0 <= z < 16 ^ Z.of_nat (S n) ->
    from_str_radix 16 (16 ^ Z.of_nat (S n)) (hex_lower (S n) z) = Some z) as H
    by (intros z Hz; apply from_str_radix_digits; [apply hex_digit_value|done|done|lia]).
  pose proof (H x Hx) as H1. rewrite E, H in H1 by done. congruence.
Qed.

Lemma row_v6_columns r :
  route6_ok r ->
  row_v6 (columns_v6 r)
  = Some (if bool_decide (default_v6 r) then Some (r6_metric r, (r6_iface r, via (r6_gateway r))) else None).
Proof.
  intros (Hd & Hp & Hg & Hm & Hs & Hf). unfold columns_v6, default_v6.
  destruct (r6_source r) as [|s1 [|s2 [|]]]; try done. destruct (r6_flags r) as [|f1 [|f2 [|f3 [|]]]]; try done.
  cbn [app row_v6]. rewrite parse_hex_v6_lower by done.
  rewrite hex_lower_value by done. cbn [default from_option]. unfold id.
  assert (str_eqb (hex_lower 32 (r6_dest r)) zeros_v6 = bool_decide (r6_dest r = 0)) as ->.
  { apply eq_true_iff_eq. rewrite str_eqb_eq, bool_decide_eq_true. change zeros_v6 with (hex_lower 32 0).
    split; [apply hex_lower_inj; [exact Hd|done]|by intros ->]. }
  assert (str_eqb (hex_lower 2 (r6_prefix_len r)) (lit "00") = bool_decide (r6_prefix_len r = 0)) as ->.
  { apply eq_true_iff_eq. rewrite str_eqb_eq, bool_decide_eq_true. change (lit "00") with (hex_lower 2 0).
    split; [apply hex_lower_inj; cbn; lia|by intros ->]. }
  assert (str_eqb (r6_iface r) (lit "lo") = bool_decide (r6_iface r = lit "lo")) as ->
    by (apply eq_true_iff_eq; by rewrite str_eqb_eq, bool_decide_eq_true).
  repeat case_bool_decide; try done; naive_solver.
Qed.

(** The same of the IPv6 table, which in this form never stops the parser. *)
Theorem default_route_v6_is_found text rows :
  map split_whitespace (lines text) = map columns_v6 rows -> Forall route6_ok rows ->
  ∃ found, parse_route_v6 text = Some found ∧
    cheapest default_v6 r6_metric r6_iface (λ r, via (r6_gateway r)) rows found.
Proof.
  intros Ht Hok. unfold parse_route_v6.
  set (row r := if bool_decide (default_v6 r) then Some (r6_metric r, (r6_iface r, via (r6_gateway r))) else None).
  assert (∀ ls rows best, map split_whitespace ls = map columns_v6 rows -> Forall route6_ok rows ->
    fold_left (λ acc line, match acc with
      | None => None | Some best => keep_best best <$> row_v6 (split_whitespace line) end) ls (Some best)
    = Some (fold_left keep_best (map row rows) best)) as Hf.
  { clear. intros ls. induction ls as [|l ls IH]; intros [|r rows] best Ht Hok; try done.
    cbn [map] in Ht. injection Ht as Hl Ht. apply Forall_cons in Hok as [Hr Hok].
    cbn [fold_left map]. rewrite Hl, row_v6_columns by done. by apply IH. }
  rewrite (Hf _ rows None) by done. eexists. split; [done|]. apply cheapest_chosen.
Qed.

(** ** Interfaces *)

Lemma code_inj c d : code c = code d -> c = d.
Proof. unfold code. intros E%N2Z.inj. by rewrite <- (ascii_N_embedding c), E, ascii_N_embedding. Qed.

Lemma str_leb_antisym a b : Snapshot.str_leb a b = true -> Snapshot.str_leb b a = true -> a = b.
Proof.
  revert b. induction a as [|x a IH]; intros [|y b]; cbn; try done.
  destruct (Z.ltb_spec (code x) (code y)), (Z.ltb_spec (code y) (code x)); try done; try lia.
  intros H1 H2. assert (x = y) as -> by (apply code_inj; lia). f_equal. auto.
Qed.

Lemma sorted_texts_unique l l' : l ≡ₚ l' -> stable_sort Snapshot.str_leb l = stable_sort Snapshot.str_leb l'.
Proof.
  intros Hp. apply (StronglySorted_unique_strong (le_of Snapshot.str_leb)).
  - intros x y _ _. apply str_leb_antisym.
  - apply stable_sort_sorted; [apply str_leb_total|apply str_leb_trans].
  - apply stable_sort_sorted; [apply str_leb_total|apply str_leb_trans].
  - by rewrite !stable_sort_perm.
Qed.

Section observation.
Context {NL : IpNetLib}.

(** The order in which the system lists its interfaces does not show in an observation,
    so it never looks like a change of network. *)
Theorem listing_order_is_no_change route_v4 route_v6 source l l' ref4 ref6 previous now :
  l ≡ₚ l' ->
  sample route_v4 route_v6 source (Some l) ref4 ref6 = sample route_v4 route_v6 source (Some l') ref4 ref6 ∧
  ∀ raw raw', sample route_v4 route_v6 source (Some l) ref4 ref6 = Some raw ->
    sample route_v4 route_v6 source (Some l') ref4 ref6 = Some raw' ->
    (publish_network (publish_network previous raw now).1 raw' now).2 = false.
Proof.
  intros Hp.
  assert (sample route_v4 route_v6 source (Some l) ref4 ref6
          = sample route_v4 route_v6 source (Some l') ref4 ref6) as E.
  { unfold sample, global_interface_addresses. by rewrite (sorted_texts_unique _ _ (omap_Permutation _ _ _ Hp)). }
  split; [done|]. intros raw raw' H1 H2. rewrite E, H2 in H1. injection H1 as ->.
  unfold publish_network. cbn. by rewrite Z.eqb_refl.
Qed.

(** The list holds exactly the public, private and shared addresses of the interfaces,
    each once, in order. *)
Theorem listed_addresses_are_exact l :
  StronglySorted (le_of Snapshot.str_leb) (global_interface_addresses (Some l)) ∧
  NoDup (global_interface_addresses (Some l)) ∧
  ∀ s, s ∈ global_interface_addresses (Some l) <->
    ∃ name ip, (name, Some ip) ∈ l ∧ reportable ip = true ∧ s = print_ip ip ++ lit "%" ++ name.
Proof.
  unfold global_interface_addresses.
  set (texts := omap _ l). pose proof (stable_sort_sorted Snapshot.str_leb str_leb_total str_leb_trans texts) as Hs.
  split; [by apply dedup_sorted_lt|]. split.
  { apply (dedup_NoDup Snapshot.str_leb); [|done].
    split; [apply str_leb_total|apply str_leb_trans|apply str_leb_antisym]. }
  intros s. rewrite dedup_elem_of, stable_sort_elem_of. unfold texts. rewrite list_elem_of_omap. split.
  - intros ([name [ip|]] & Hin & E); [|done]. cbn in E. destruct (reportable ip) eqn:Er; [|done].
    injection E as <-. by exists name, ip.
  - intros (name & ip & Hin & Hr & ->). exists (name, Some ip). split; [done|]. cbn. by rewrite Hr.
Qed.
End observation.

(** ** A host *)

Section witnesses.
#[local] Existing Instance ipnet_reference.

Definition tab : ascii := chr 9.

Definition table_v4 : str :=
  unlines (map (join_with tab)
    [[lit "Iface"; lit "Destination"; lit "Gateway"; lit "Flags"];
     map lit ["wlan0"; "00000000"; "0101A8C0"; "0003"; "0"; "0"; "600"; "00000000"; "0"; "0"; "0"]%string;
     map lit ["eth0"; "00000000"; "0100000A"; "0003"; "0"; "0"; "100"; "00000000"; "0"; "0"; "0"]%string;
     map lit ["eth0"; "0000000A"; "00000000"; "0001"; "0"; "0"; "100"; "00FFFFFF"; "0"; "0"; "0"]%string]).

Definition routes_v4 : list RouteV4 :=
  let flags f := [lit f; lit "0"; lit "0"] in
  let rest := [lit "0"; lit "0"; lit "0"] in
  [mk_RouteV4 (lit "wlan0") 0 (ipv4 192 168 1 1) (flags "0003"%string) 600 0 rest;
   mk_RouteV4 (lit "eth0") 0 (ipv4 10 0 0 1) (flags "0003"%string) 100 0 rest;
   mk_RouteV4 (lit "eth0") (ipv4 10 0 0 0) 0 (flags "0001"%string) 100 (ipv4 255 255 255 0) rest].

Example wired_route_wins : parse_route_v4 table_v4 = (Some (lit "eth0"), Some (ipv4 10 0 0 1)).
Proof. vm_compute. reflexivity. Qed.

Lemma default_route_v4_is_found_witness :
  cheapest default_v4 r4_metric r4_iface (λ r, via (r4_gateway r)) routes_v4 (parse_route_v4 table_v4).
Proof.
  apply default_route_v4_is_found; [vm_compute; reflexivity|].
  repeat (apply Forall_cons_2; [vm_compute; repeat split; discriminate|]). apply Forall_nil_2.
Defined.

Definition route_line_v6 (hop : str) : str :=
  zeros_v6 ++ lit " 00 " ++ zeros_v6 ++ lit " 00 " ++ hop ++ lit " 00000400 00000001 00000000 00000003     eth0".

Definition table_v6 : str := unlines [route_line_v6 (lit "fe800000000000000000000000000001")].

Lemma default_route_v6_is_found_witness :
  ∃ found, parse_route_v6 table_v6 = Some found ∧
    cheapest default_v6 r6_metric r6_iface (λ r, via (r6_gateway r))
      [mk_RouteV6 0 0 [zeros_v6; lit "00"] (65152 * 2 ^ 112 + 1) 1024
         [lit "00000001"; lit "00000000"; lit "00000003"] (lit "eth0")] found.
Proof.
  apply default_route_v6_is_found; [vm_compute; reflexivity|].
  apply Forall_cons_2; [vm_compute; repeat split; discriminate|apply Forall_nil_2].
Defined.

(** Thirty-two octets of text that is not ASCII are cut inside a character. *)
Theorem foreign_text_stops_the_parser :
  let hop := lit "a" ++ concat (repeat [chr 195; chr 169] 15) ++ lit "b" in
  length hop = 32%nat ∧ parse_route_v6 (unlines [route_line_v6 hop]) = None.
Proof. split; vm_compute; reflexivity. Qed.

(** A sign is taken for a digit of an address. *)
Example signs_are_digits :
  parse_hex_v6 (lit "+e800000000000000000000000000001") = Some (Some (14 * 2 ^ 120 + 128 * 2 ^ 112 + 1)).
Proof. vm_compute. reflexivity. Qed.

Definition two_interfaces : list (str * option IpAddr) :=
  [(lit "eth0", Some (V4 (ipv4 10 0 0 7))); (lit "lo", Some (V4 (ipv4 127 0 0 1))); (lit "tun0", None);
   (lit "eth1", Some (V4 (ipv4 203 0 114 9)))].

Lemma listing_order_is_no_change_witness :
  let at_ l := sample (Some table_v4) (Some table_v6) (λ _, Some (V4 (ipv4 10 0 0 7))) (Some l)
                 (V4 (ipv4 1 1 1 1)) (V4 (ipv4 1 1 1 1)) in
  at_ two_interfaces = at_ (rev two_interfaces).
Proof.
  exact (proj1 (listing_order_is_no_change (Some table_v4) (Some table_v6) (λ _, Some (V4 (ipv4 10 0 0 7)))
    two_interfaces (rev two_interfaces) (V4 (ipv4 1 1 1 1)) (V4 (ipv4 1 1 1 1)) unknown_network 0
    (Permutation_rev two_interfaces))).
Defined.
End witnesses.
